(* ===== verification/_CoqProject ===== *)
-Q . S2P
Prelude.v
CoreTypes.v
Coding.v
FrameCodec.v
ParamsCodec.v
OrdMap.v
PacketSpace.v
SentPackets.v
Streams.v
FlowControl.v
Recovery.v
Floats.v
Congestion.v
Bbr.v
CidPool.v
Packet.v
QuicCrypto.v
Provider.v
Config.v
Multipath.v
Connection.v
ConnRecovery.v
ConnHandshake.v
ConnRecv.v
ConnSend.v
ConnFlow.v
ConnSystem.v
ConnMaps.v
ConnBooks.v
ConnMtu.v
ConnDelivery.v
Mpsc.v
Endpoint.v
ConnFlush.v
ConnWire.v
ConnSize.v
ConnHonest.v
Handle.v
Server.v
Driven.v
DrivenApp.v
Listener.v
H3Compat.v
H3Adapter.v
H3.v
Text.v
H3Service.v
H3Builder.v
Facade.v
