(* ===== verification/Prelude.v ===== *)
(** * OxiQUIC: a verification library for the QUIC transport

    OxiQUIC is a QUIC (RFC 9000, 9001, 9002) implementation in Rust.  The workspace has
    a crate of wire types ([oxiquic-core]), the transport ([oxiquic-transport]), the
    packet-protection keys ([oxiquic-crypto]) and an HTTP/3 layer on the external [h3]
    crate ([oxiquic-h3]).  This library is a shallow embedding of the core, the
    transport, the packet-protection keys and the HTTP/3 layer: each operation of the sources is a Rocq
    function on the state the source keeps, with the source's names.

    ** How the program is put together

    UDP datagrams reach a connection either straight from a client's socket or through
    the server's demultiplexer, which routes on the destination connection ID, answers
    unknown versions and unvalidated addresses by itself, and spawns a task per
    connection.  A connection decrypts each packet of the datagram, dispatches its
    frames to streams, flow control, acknowledgement processing, connection-ID pools
    and path validation, and drives the TLS handshake.  When asked for output it fills
    packets under the congestion window, the MTU and the flow-control credit, seals
    them and records them for loss detection.  Driver tasks shuttle datagrams and
    timers between the sockets and the connection and stream data between the
    connection and the application's handles, over bounded channels.  The HTTP/3 client
    and server hand such a connection to the [h3] crate and exchange requests and
    responses over the streams it opens.

    ** Files and sources (paths below src/crates/)

    - [Prelude]: machine integers, results, record update, list lemmas, tactics, the hint
      database [oxi].
    - [CoreTypes]: oxiquic-core: stream IDs, frame and packet types, versions, error
      codes, transport parameters.
    - [Coding], [FrameCodec], [ParamsCodec]: coding.rs, frame.rs, params_codec.rs of
      oxiquic-transport/src: cursor, varints, packet numbers, every frame, the transport
      parameters extension.
    - [OrdMap]: BTreeMap as a sorted association list.
    - [PacketSpace] (space.rs), [SentPackets] (sent_packet.rs), [Streams] (stream.rs,
      crypto_stream.rs), [FlowControl] (flow_control.rs), [Recovery] (recovery.rs),
      [Congestion] (congestion.rs, cubic.rs) with [Floats], [Bbr] (bbr.rs,
      cc_dispatch.rs), [CidPool] (connection/cid.rs).
    - [Packet] (packet.rs): builders, parsers, header protection and AEAD over the
      interface [PacketCrypto]; [QuicCrypto] (oxiquic-crypto/src/quic.rs) implements
      that interface for the three cipher suites over [Primitives].  [Provider] (aead.rs,
      hash.rs, hmac.rs, hkdf.rs, suites.rs, lib.rs of oxiquic-crypto/src): TLS record
      protection, hashes, HMACs and suites as rustls asks for them.
    - [Config] (config.rs): the transport configuration and Retry tokens.
    - [Multipath] (connection/multipath.rs); [Connection] (connection/mod.rs, streams.rs):
      the connection's state as one record of 90 fields, its construction and calls;
      [ConnRecovery] (connection/recovery.rs and the timers of mod.rs), [ConnHandshake]
      (the handshake pump of mod.rs, keys_path.rs), [ConnRecv] (connection/recv.rs),
      [ConnSend] (connection/send.rs).
    - [ConnFlow], [ConnSystem]: flow control of the whole connection, and the connection
      as a transition system over application calls, datagrams, timeouts and
      transmissions.  [ConnMaps]: its stream maps stay maps.  [ConnBooks]: bytes in
      flight, packet numbers and the loss timer over whole runs.  [ConnMtu]: the search
      for the path MTU.  [ConnDelivery]: what the
      application reads against what the peer sent.  [ConnFlush]: the output loop and
      the measure [work] of what is queued for sending.  [ConnWire]: what a transmitted
      packet carries, and what it does to the connection that receives it.  [ConnSize]:
      how long packets get.  [ConnHonest]: two connections, one sending and one
      receiving, end to end.
    - [Mpsc]: the interface to tokio's bounded channels.  [Endpoint] (endpoint/mod.rs):
      demultiplexer, handshake task, connection driver.  [Handle] (endpoint/mod.rs,
      QuicConnection): the calls an application makes and sessions of them.  [Server]:
      the demultiplexer and its tasks as one transition system.  [Driven]
      (endpoint/driven.rs, handle.rs): the background driver and the stream handles.
      [DrivenApp] (the same files, oxiquic-core/src/stats.rs): opening and accepting
      streams, the stream wrappers, the statistics.  [Listener] (endpoint/mod.rs,
      zero_rtt.rs, oxiquic-core/src/alpn.rs): client and server endpoints, 0-RTT, the
      queue of accepted connections.
    - [H3Compat] (h3_compat.rs): the stream and connection adapters for the [h3] crate,
      over channels with reserved slots ([PermitMpsc]).  [H3Adapter]: the pair and the
      connection adapter as wholes, closing.  [H3] (oxiquic-h3/src/error.rs,
      message.rs, pool.rs): error codes, messages, the connection pool.  [H3Service]
      (oxiquic-h3/src/client.rs, server.rs): a request and its response from the client
      through the server's handler and back, over [Http] and [H3Crate].  [H3Builder]
      (the same files, push.rs, h3_io.rs): builders, ALPN, accepting, the push stubs.
    - [Text]: the names and renderings of the core's types and of the error codes.
    - [Facade] (oxiquic/src/lib.rs): the one-call constructors.

    ** Modelling conventions

    Integers are [Z]; a w-bit operation that can wrap or saturate says so ([u64_add],
    [sat_sub], [as_u8], ...).  Durations and instants are nanosecond counts, a byte
    string is a [list Z] with [bytes_ok] where the range matters, floats are the
    kernel's binary64 floats.  Fallible code returns [result] or [option]; error values
    keep their code and drop their message.  Code outside the repository is a parameter
    with laws: [QuicEnv]/[LawfulEnv] (rustls, random generator, HMAC, AES-GCM),
    [PacketCrypto], [Primitives]/[LawfulPrimitives], [EndpointEnv], [Mpsc]/[LawfulMpsc],
    [PermitMpsc]/[LawfulPermits], [TlsConfigs], [RustlsBuilders], [Digests],
    [RustlsRecords], [Http]/[LawfulHttp] and
    [H3Crate]/[LawfulH3] (with [ContiguousH3] and [ReliableH3] for what not every
    conclusion needs; [h3_whole] says of a direction of a stream that the transport hands
    it over to its end, which the adapter of [H3Compat] does not when its driver is
    gone).  [ConnDelivery.HonestPeer] is the assumption that
    whatever a packet key opens was sealed by a peer that sends given stream contents.
    Each has a concrete lawful instance, in which the witnesses run.  While a datagram is
    processed or produced, one clock reading stands for every [Instant::now()] of the
    code it passes through.  Theorems about streams assume that an endpoint opens its
    streams under identifiers the peer has not sent frames for ([admissible],
    [opens_fresh]) and exclude 0-RTT data, which the code sends outside the stream's
    bookkeeping ([ConnSend.early_data_overlaps]).

    ** Fuel

    Loops that are not structural take fuel computed from the data: a decoder's
    remaining bytes, a datagram's length plus one, the key changes TLS has left, the
    length of the queue a loop drains.  That it suffices is proved
    ([ConnRecv.handle_datagram_total], [ConnHandshake.handshake_pump],
    [Driven.forward_loop_drains], the round trips of the decoders).  Loops of the
    tasks ([Endpoint.flush], [handshake_loop]) run over the list of clock readings or
    events they are given and return [None] when it ends first; [ConnFlush] shows that
    [flush] ends within as many readings as there is [work], once the handshake is over
    and the TLS session has nothing left to write.

    ** What the theorems show

    - Wire format: frames, payloads, transport parameters, long, short, Retry and
      Version Negotiation packets survive encoding and decoding; decoders stay in bounds,
      progress and terminate on arbitrary bytes; packet numbers are recovered.
    - Reliability: streams and CRYPTO data are delivered in order under loss, reordering
      and duplication; send queues drain; acknowledgements remove exactly what was
      received; loss detection is exact; lost data is queued again; in every state a run
      reaches the loss timer is off exactly when nothing can be lost or is awaited, and
      its expiry detects losses or owes probes.
    - Resources: congestion accounting of all controllers and of the connection over whole
      runs, with packet numbers that are never used twice (until a Retry is accepted), flow
      control in every reachable state of the connection, connection-ID limits, the bounds
      of the MTU and its probes and where the search ends, the length of
      datagrams (which can exceed the MTU by header and tag, and by no more than a stated
      bound unless an ACK frame alone is larger).
    - Connection: packets of both key phases have the effect of their frames, key updates
      walk the key schedule, the handshake pump completes with TLS, every datagram is
      processed to its end, output comes to an end, migration needs a PATH_RESPONSE frame with
      the outstanding challenge among the frames the datagram carries ([datagram_frames]), the
      life cycle is monotone, and what the application reads is a prefix of what an
      honest peer sent, through the connection's own calls and through the handle.
    - Two connections: the frames a connection puts into a packet are recorded for
      retransmission and are the frames its peer takes out of it; and when every packet
      the receiver opens was sealed by the sender, in whatever order and however often,
      the bytes read on each stream are a prefix of the bytes written on it, and end
      where the sender ended them.
    - Keys: the three suites implement the cipher interface of the packet codec; TLS
      records open to what was sealed; hashes and HMACs do not depend on how they are fed.
    - Endpoint: routing is sound in every interleaving of datagrams and tasks, a new
      connection gets the datagrams that follow under both its IDs in order, Retry gates connection creation
      and admits the client it was sent to, stateless replies are bounded, builder chains
      give parameters a peer accepts, a stream's reader sees the bytes the driver handed
      over in order, [accept] returns the handshakes' results in order.
    - HTTP/3: the adapter's commands reach the driver in order within the channel's
      capacity, and a stream that was told it is ready can send; the pool keeps
      connections with their origin and within its bound; a request reaches the handler
      and its answer the caller with method, URI, headers and bodies intact when the stream is
      handed over whole and in contiguous buffers; built
      clients and servers offer [h3].
    - Defects found on the way are stated as theorems: 0-RTT data that later writes overlap,
      truncated HTTP/3 bodies that look complete, dropped stream data and FINs at
      full channels, peer streams beyond the accept queue, Retry tokens that can be
      re-framed for another address, an accept loop
      that one failed handshake ends, and others.

    ** Not modelled

    The JSON and UTF-8 methods of the HTTP/3 messages (they hand the body to serde_json
    and the standard library), local addresses and other questions to the operating
    system, re-exports, getters of one field, the human-readable messages inside errors
    and the renderings made of them, the [oxitls] feature, and the buffer adapters that
    hand rustls' payload types to the ciphers.  Sockets, task scheduling and wakers appear as
    the events and outcomes a turn is given. *)

From stdpp Require Export base tactics numbers list sorting.
From Stdlib Require Export ZArith Lia.

#[global] Open Scope Z_scope.

(** ** Notations *)

Declare Scope oxi_scope.
Delimit Scope oxi_scope with oxi.

(** [len l] is Rust's [l.len()], as a [Z]. *)
Notation "'len' l" := (Z.of_nat (length l)) (at level 10, l at level 9) : oxi_scope.
#[global] Open Scope oxi_scope.

(** ** Record update

    [c <| field := v |>] is [c] with one field replaced.  A setter is found from
    the projection by abstracting it in the eta-expansion of the record. *)

Class Settable (R : Type) := record_eta : R -> R.
Class Setter {R T : Type} (proj : R -> T) := update_field : (T -> T) -> R -> R.

Ltac solve_setter :=
  match goal with
  | |- @Setter ?R ?T ?proj =>
      let f := fresh "f" in let r := fresh "r" in
      change ((T -> T) -> R -> R); intros f r;
      let whole := eval cbv delta [record_eta] in (record_eta r) in
      let whole := eval hnf in whole in
      match eval pattern (proj r) in whole with
      | ?ctx _ => let body := eval cbv beta in (ctx (f (proj r))) in exact body
      end
  end.

Notation "c <| proj ::= f |>" := (update_field (proj := proj) f c)
  (at level 1, left associativity, format "c  <| proj  ::=  f |>") : oxi_scope.
Notation "c <| proj := v |>" := (update_field (proj := proj) (fun _ => v) c)
  (at level 1, left associativity, format "c  <| proj  :=  v |>") : oxi_scope.

(** ** Tactics *)

(** Decide every boolean comparison on [Z] or [nat] that occurs in the goal or
    in a hypothesis, keeping the propositional fact. *)
Ltac bcase :=
  match goal with
  | |- context [Z.ltb ?a ?b] => destruct (Z.ltb_spec a b)
  | |- context [Z.leb ?a ?b] => destruct (Z.leb_spec a b)
  | |- context [Z.eqb ?a ?b] => destruct (Z.eqb_spec a b)
  | |- context [Nat.ltb ?a ?b] => destruct (Nat.ltb_spec a b)
  | |- context [Nat.leb ?a ?b] => destruct (Nat.leb_spec a b)
  | |- context [Nat.eqb ?a ?b] => destruct (Nat.eqb_spec a b)
  | H : context [Z.ltb ?a ?b] |- _ => destruct (Z.ltb_spec a b)
  | H : context [Z.leb ?a ?b] |- _ => destruct (Z.leb_spec a b)
  | H : context [Z.eqb ?a ?b] |- _ => destruct (Z.eqb_spec a b)
  | H : context [Nat.ltb ?a ?b] |- _ => destruct (Nat.ltb_spec a b)
  | H : context [Nat.leb ?a ?b] |- _ => destruct (Nat.leb_spec a b)
  | H : context [Nat.eqb ?a ?b] |- _ => destruct (Nat.eqb_spec a b)
  end; simpl andb in *; simpl orb in *; simpl negb in *.

(** Arithmetic with division and remainder by constants. *)
Ltac zdm := Z.div_mod_to_equations; lia.

(** Reduce a closed decision procedure to its boolean value. *)
Ltac eval_done := vm_compute; repeat split; try reflexivity; try discriminate.

(** ** Machine integers

    A [w]-bit unsigned integer is a [Z] in [[0, 2^w)].  Arithmetic that may
    leave the range is written out: [u64_add] is the [+] of a release build
    (wrap-around; the crate sets no [overflow-checks]), [sat_*] are the
    [saturating_*] methods and [checked_*] the [checked_*] methods.  [usize] is
    64 bits wide. *)

Definition u8_MAX : Z := 255.
Definition u32_MAX : Z := 2 ^ 32 - 1.
Definition u64_MAX : Z := 2 ^ 64 - 1.

(** The casts [as u8], [as u16], [as u32] and [as u64]. *)
Definition as_u8 (z : Z) : Z := z mod 2 ^ 8.
Definition as_u16 (z : Z) : Z := z mod 2 ^ 16.
Definition as_u32 (z : Z) : Z := z mod 2 ^ 32.
Definition as_u64 (z : Z) : Z := z mod 2 ^ 64.

Definition u64_add (a b : Z) : Z := as_u64 (a + b).
Definition u64_sub (a b : Z) : Z := as_u64 (a - b).
Definition u64_mul (a b : Z) : Z := as_u64 (a * b).
Definition u64_shl (a n : Z) : Z := as_u64 (Z.shiftl a n).

Definition sat_sub (a b : Z) : Z := Z.max 0 (a - b).
Definition sat_add (a b : Z) : Z := Z.min u64_MAX (a + b).
Definition sat_mul (a b : Z) : Z := Z.min u64_MAX (a * b).

Definition checked_sub (a b : Z) : option Z := if a <? b then None else Some (a - b).
Definition checked_add (a b : Z) : option Z :=
  if u64_MAX <? a + b then None else Some (a + b).

(** Range predicates, as decidable propositions. *)
Definition is_u8 (z : Z) : Prop := 0 <= z < 2 ^ 8.
Definition is_u16 (z : Z) : Prop := 0 <= z < 2 ^ 16.
Definition is_u32 (z : Z) : Prop := 0 <= z < 2 ^ 32.
Definition is_u64 (z : Z) : Prop := 0 <= z < 2 ^ 64.

(** A byte string: every element is a byte. *)
Definition bytes_ok (l : list Z) : Prop := Forall is_u8 l.

#[export] Instance is_u8_dec z : Decision (is_u8 z) := _.
#[export] Instance is_u16_dec z : Decision (is_u16 z) := _.
#[export] Instance is_u32_dec z : Decision (is_u32 z) := _.
#[export] Instance is_u64_dec z : Decision (is_u64 z) := _.
#[export] Instance bytes_ok_dec l : Decision (bytes_ok l) := _.

(** ** Results: Rust's [Result<A, E>] *)

Inductive result (E A : Type) : Type :=
| Ok (a : A)
| Err (e : E).
Arguments Ok {E A} a.
Arguments Err {E A} e.

#[export] Instance result_eq_dec `{EqDecision E, EqDecision A} : EqDecision (result E A).
Proof. solve_decision. Defined.

(** The [?] operator. *)
#[export] Instance result_bind {E} : MBind (result E) :=
  fun A B f m => match m with Ok a => f a | Err e => Err e end.
#[export] Instance result_ret {E} : MRet (result E) := fun A a => Ok a.
#[export] Instance result_fmap {E} : FMap (result E) :=
  fun A B f m => match m with Ok a => Ok (f a) | Err e => Err e end.

(** [map_err]. *)
Definition map_err {E F A} (f : E -> F) (m : result E A) : result F A :=
  match m with Ok a => Ok a | Err e => Err (f e) end.

(** [Result::ok]. *)
Definition result_ok {E A} (m : result E A) : option A :=
  match m with Ok a => Some a | Err _ => None end.

(** [Option::ok_or]. *)
Definition ok_or {E A} (o : option A) (e : E) : result E A :=
  match o with Some a => Ok a | None => Err e end.

Definition is_ok {E A} (m : result E A) : bool :=
  match m with Ok _ => true | Err _ => false end.

Definition unwrap_or {A} (o : option A) (d : A) : A :=
  match o with Some a => a | None => d end.

Definition is_some {A} (o : option A) : bool :=
  match o with Some _ => true | None => false end.

Definition is_none {A} (o : option A) : bool := negb (is_some o).

(** [Option<u64>::max]-style accumulation used by the ACK bookkeeping:
    [Some(match prev { Some(p) => p.max(x), None => x })]. *)
Definition opt_max (o : option Z) (x : Z) : option Z :=
  Some (match o with Some p => Z.max p x | None => x end).

Definition opt_min (o : option Z) (x : Z) : option Z :=
  Some (match o with Some p => Z.min p x | None => x end).

(** Slices [l[a..b]] with [a <= b <= len l]. *)
Definition slice {A} (l : list A) (a b : nat) : list A := take (b - a)%nat (drop a l).

(** ** Hint databases

    [oxi] resolves the range side conditions; the rewriting database of the same
    name normalises lengths. *)

Create HintDb oxi discriminated.
Create Rewrite HintDb oxi.
#[export] Hint Rewrite @length_app @length_take @length_drop @length_replicate @length_map : oxi.

(** ** Lemmas on machine integers *)

Lemma as_u8_range z : is_u8 (as_u8 z).
Proof. unfold is_u8, as_u8. apply Z.mod_pos_bound; lia. Qed.

Lemma as_u8_small z : is_u8 z -> as_u8 z = z.
Proof. apply Z.mod_small. Qed.

Lemma as_u64_small z : is_u64 z -> as_u64 z = z.
Proof. apply Z.mod_small. Qed.

Lemma as_u64_range z : is_u64 (as_u64 z).
Proof. unfold is_u64, as_u64. apply Z.mod_pos_bound; lia. Qed.

Lemma u64_add_small a b : is_u64 (a + b) -> u64_add a b = a + b.
Proof. apply as_u64_small. Qed.

Lemma u64_sub_small a b : is_u64 (a - b) -> u64_sub a b = a - b.
Proof. apply as_u64_small. Qed.

Lemma u64_mul_small a b : is_u64 (a * b) -> u64_mul a b = a * b.
Proof. apply as_u64_small. Qed.

Lemma sat_sub_range a b : is_u64 a -> 0 <= b -> is_u64 (sat_sub a b).
Proof. unfold is_u64, sat_sub. lia. Qed.

Lemma sat_sub_le a b : b <= a -> sat_sub a b = a - b.
Proof. unfold sat_sub. lia. Qed.

#[export] Hint Resolve as_u8_range as_u64_range sat_sub_range : oxi.

(** ** Bit operations as arithmetic *)

Lemma pow2_pos n : 0 <= n -> 0 < 2 ^ n.
Proof. intros. by apply Z.pow_pos_nonneg. Qed.

Lemma land_low_mod x n : 0 <= n -> Z.land x (2 ^ n - 1) = x mod 2 ^ n.
Proof.
  intros Hn. replace (2 ^ n - 1) with (Z.ones n).
  - by apply Z.land_ones.
  - rewrite Z.ones_equiv. lia.
Qed.

Lemma testbit_above b n i : 0 <= b < 2 ^ n -> n <= i -> Z.testbit b i = false.
Proof.
  intros Hb Hi. destruct (Z.eq_dec b 0) as [-> | ]; [apply Z.bits_0 |].
  apply Z.bits_above_log2; [lia |].
  apply Z.lt_le_trans with n; [apply Z.log2_lt_pow2; lia | done].
Qed.

Lemma land_disjoint a b n :
  0 <= n -> 0 <= b < 2 ^ n -> Z.land (a * 2 ^ n) b = 0.
Proof.
  intros Hn Hb. apply Z.bits_inj'. intros i Hi.
  rewrite Z.land_spec, Z.bits_0, <- Z.shiftl_mul_pow2 by done.
  destruct (Z.ltb_spec i n).
  - by rewrite Z.shiftl_spec_low.
  - rewrite (testbit_above b n i) by lia. apply andb_false_r.
Qed.

(** Or-ing a value whose low [n] bits are clear with an [n]-bit value adds. *)
Lemma lor_disjoint_add a b n :
  0 <= n -> 0 <= b < 2 ^ n -> Z.lor (a * 2 ^ n) b = a * 2 ^ n + b.
Proof.
  intros Hn Hb. rewrite <- Z.lxor_lor by by apply land_disjoint.
  symmetry. by apply Z.add_nocarry_lxor, land_disjoint.
Qed.

Lemma shl8_lor a b : 0 <= b < 256 -> Z.lor (Z.shiftl a 8) b = a * 256 + b.
Proof. intros. rewrite Z.shiftl_mul_pow2 by lia. by apply (lor_disjoint_add a b 8). Qed.

Lemma shiftr_div x n : 0 <= n -> Z.shiftr x n = x / 2 ^ n.
Proof. apply Z.shiftr_div_pow2. Qed.

(** Horner step: the byte at bit [k] and the value above it. *)
Lemma horner_byte v k :
  0 <= k -> v / 2 ^ (k + 8) * 256 + (v / 2 ^ k) mod 256 = v / 2 ^ k.
Proof.
  intros Hk. rewrite Z.pow_add_r by lia. rewrite <- Z.div_div by lia.
  change (2 ^ 8) with 256. pose proof (Z.div_mod (v / 2 ^ k) 256). lia.
Qed.

(** ** Lemmas on byte strings and slices *)

Lemma bytes_ok_app l k : bytes_ok (l ++ k) <-> bytes_ok l /\ bytes_ok k.
Proof. apply Forall_app. Qed.

Lemma bytes_ok_drop n l : bytes_ok l -> bytes_ok (drop n l).
Proof. apply Forall_drop. Qed.

Lemma bytes_ok_take n l : bytes_ok l -> bytes_ok (take n l).
Proof. apply Forall_take. Qed.

Lemma bytes_ok_replicate n : bytes_ok (replicate n 0).
Proof. apply Forall_replicate. unfold is_u8. lia. Qed.

#[export] Hint Resolve bytes_ok_drop bytes_ok_take bytes_ok_replicate : oxi.

Lemma slice_length {A} (l : list A) a b :
  (a <= b <= length l)%nat -> length (slice l a b) = (b - a)%nat.
Proof. intros. unfold slice. autorewrite with oxi. lia. Qed.

Lemma drop_cons_lookup {A} (l : list A) n x k :
  drop n l = x :: k -> l !! n = Some x /\ drop (S n) l = k.
Proof.
  intros H. split.
  - rewrite <- (Nat.add_0_r n), <- lookup_drop, H. done.
  - replace (S n) with (n + 1)%nat by lia. by rewrite <- drop_drop, H.
Qed.

Lemma lookup_drop_nil {A} (l : list A) n : drop n l = [] -> l !! n = None.
Proof. intros H. by rewrite <- (Nat.add_0_r n), <- lookup_drop, H. Qed.

(** ** Lemmas on results *)

Lemma result_bind_Ok {E A B} (m : result E A) (f : A -> result E B) b :
  (m ≫= f) = Ok b <-> exists a, m = Ok a /\ f a = Ok b.
Proof.
  destruct m as [a | e]; unfold mbind, result_bind; split; try by intros (? & [= <-] & ?).
  - by exists a.
  - done.
Qed.

(** ** Folding minima *)

Lemma fold_opt_min_from {A} (f : A -> Z) l t0 :
  exists t, fold_left (fun acc x => opt_min acc (f x)) l (Some t0) = Some t /\
    (t = t0 \/ exists x, x ∈ l /\ f x = t) /\ t <= t0 /\ forall x, x ∈ l -> t <= f x.
Proof.
  revert t0. induction l as [| a l IH]; intros t0.
  - exists t0. split_and!; [done | by left | lia |]. intros x Hx. by apply elem_of_nil in Hx.
  - simpl. destruct (IH (Z.min t0 (f a))) as (t & E & Hat & Hle & Hall). exists t.
    split_and!; [done | | lia |].
    + destruct Hat as [-> | (x & Hx & <-)].
      * destruct (Z.min_spec t0 (f a)) as [[_ ->] | [_ ->]]; [by left |].
        right. exists a. split; [apply list_elem_of_here | done].
      * right. exists x. split; [by apply list_elem_of_further | done].
    + intros x [-> | Hx]%elem_of_cons; [lia | by apply Hall].
Qed.

(** The minimum over a list: none when it is empty, otherwise attained and a
    lower bound. *)
Lemma fold_opt_min_spec {A} (f : A -> Z) l :
  match fold_left (fun acc x => opt_min acc (f x)) l None with
  | None => l = []
  | Some t => (exists x, x ∈ l /\ f x = t) /\ forall x, x ∈ l -> t <= f x
  end.
Proof.
  destruct l as [| a l]; [done |]. cbn [fold_left]. change (opt_min None (f a)) with (Some (f a)).
  destruct (fold_opt_min_from f l (f a)) as (t & -> & Hat & Hle & Hall). split.
  - destruct Hat as [-> | (x & Hx & <-)].
    + exists a. split; [apply list_elem_of_here | done].
    + exists x. split; [by apply list_elem_of_further | done].
  - intros x [-> | Hx]%elem_of_cons; [done | by apply Hall].
Qed.
