(* ===== verification/CoreTypes.v ===== *)
(** * The protocol vocabulary of [oxiquic-core]

    Stream identifiers ([stream.rs]), connection identifiers
    ([connection_id.rs]), frame, packet and version types ([frame.rs],
    [packet.rs], [version.rs]), transport error codes ([transport_error.rs]),
    transport parameters ([transport_params.rs]) and the error type
    ([error.rs]).  Human-readable reason texts are not modelled: an error is its
    constructor with its machine-readable fields. *)

From S2P Require Import Prelude.

(** ** Stream identifiers *)

Inductive Initiator := InitClient | InitServer.
Inductive Direction := Bidirectional | Unidirectional.

#[export] Instance Initiator_eq_dec : EqDecision Initiator.
Proof. solve_decision. Defined.
#[export] Instance Direction_eq_dec : EqDecision Direction.
Proof. solve_decision. Defined.

Module StreamId.

Definition MAX_INDEX : Z := Z.shiftl 1 60 - 1.

(** A [StreamId] is its [u64] value. *)
Definition new (i : Initiator) (d : Direction) (index : Z) : Z :=
  let initiator_bit := match i with InitClient => 0 | InitServer => 1 end in
  let direction_bit := match d with Bidirectional => 0 | Unidirectional => 1 end in
  let index := Z.land index MAX_INDEX in
  Z.lor (Z.lor (u64_shl index 2) (Z.shiftl direction_bit 1)) initiator_bit.

Definition initiator (id : Z) : Initiator :=
  if Z.land id 1 =? 0 then InitClient else InitServer.

Definition direction (id : Z) : Direction :=
  if Z.land id 2 =? 0 then Bidirectional else Unidirectional.

Definition index (id : Z) : Z := Z.shiftr id 2.

End StreamId.

(** ** Connection identifiers *)

Module ConnectionId.

Definition t := list Z.
Definition MAX_CONNECTION_ID_LEN : Z := 20.

Definition validate (cid : t) : bool := negb (MAX_CONNECTION_ID_LEN <? len cid).

Definition try_new (bytes : list Z) : option t :=
  if validate bytes then Some bytes else None.

End ConnectionId.

(** ** Frame types *)

Inductive FrameType :=
| FT_Padding | FT_Ping | FT_Ack | FT_ResetStream | FT_StopSending | FT_Crypto
| FT_NewToken | FT_Stream | FT_MaxData | FT_MaxStreamData | FT_MaxStreams
| FT_DataBlocked | FT_StreamDataBlocked | FT_StreamsBlocked | FT_NewConnectionId
| FT_RetireConnectionId | FT_PathChallenge | FT_PathResponse | FT_ConnectionClose
| FT_HandshakeDone | FT_Datagram.

#[export] Instance FrameType_eq_dec : EqDecision FrameType.
Proof. solve_decision. Defined.

(** [None] stands for [Err(FrameEncoding("unknown frame type"))]. *)
Definition frame_type_from_varint (value : Z) : option FrameType :=
  match value with
  | 0x00 => Some FT_Padding
  | 0x01 => Some FT_Ping
  | 0x02 | 0x03 => Some FT_Ack
  | 0x04 => Some FT_ResetStream
  | 0x05 => Some FT_StopSending
  | 0x06 => Some FT_Crypto
  | 0x07 => Some FT_NewToken
  | 0x08 | 0x09 | 0x0a | 0x0b | 0x0c | 0x0d | 0x0e | 0x0f => Some FT_Stream
  | 0x10 => Some FT_MaxData
  | 0x11 => Some FT_MaxStreamData
  | 0x12 | 0x13 => Some FT_MaxStreams
  | 0x14 => Some FT_DataBlocked
  | 0x15 => Some FT_StreamDataBlocked
  | 0x16 | 0x17 => Some FT_StreamsBlocked
  | 0x18 => Some FT_NewConnectionId
  | 0x19 => Some FT_RetireConnectionId
  | 0x1a => Some FT_PathChallenge
  | 0x1b => Some FT_PathResponse
  | 0x1c | 0x1d => Some FT_ConnectionClose
  | 0x1e => Some FT_HandshakeDone
  | 0x30 | 0x31 => Some FT_Datagram
  | _ => None
  end.

Definition frame_type_value (ft : FrameType) : Z :=
  match ft with
  | FT_Padding => 0x00 | FT_Ping => 0x01 | FT_Ack => 0x02 | FT_ResetStream => 0x04
  | FT_StopSending => 0x05 | FT_Crypto => 0x06 | FT_NewToken => 0x07 | FT_Stream => 0x08
  | FT_MaxData => 0x10 | FT_MaxStreamData => 0x11 | FT_MaxStreams => 0x12
  | FT_DataBlocked => 0x14 | FT_StreamDataBlocked => 0x15 | FT_StreamsBlocked => 0x16
  | FT_NewConnectionId => 0x18 | FT_RetireConnectionId => 0x19 | FT_PathChallenge => 0x1a
  | FT_PathResponse => 0x1b | FT_ConnectionClose => 0x1c | FT_HandshakeDone => 0x1e
  | FT_Datagram => 0x30
  end.

Definition frame_type_is_ack_eliciting (ft : FrameType) : bool :=
  match ft with FT_Ack | FT_Padding | FT_ConnectionClose => false | _ => true end.

Definition frame_type_is_probing (ft : FrameType) : bool :=
  match ft with
  | FT_PathChallenge | FT_PathResponse | FT_NewConnectionId | FT_Padding => true
  | _ => false
  end.

(** ** Packet types *)

Inductive PacketType :=
| PT_Initial | PT_ZeroRtt | PT_Handshake | PT_Retry | PT_VersionNegotiation | PT_Short.

#[export] Instance PacketType_eq_dec : EqDecision PacketType.
Proof. solve_decision. Defined.

Definition packet_type_from_first_byte (first_byte : Z) : PacketType :=
  if Z.land first_byte 0x80 =? 0 then PT_Short
  else match Z.shiftr (Z.land first_byte 0x30) 4 with
       | 0 => PT_Initial
       | 1 => PT_ZeroRtt
       | 2 => PT_Handshake
       | _ => PT_Retry
       end.

Definition packet_type_from_first_byte_and_version (first_byte version : Z) : PacketType :=
  if negb (Z.land first_byte 0x80 =? 0) && (version =? 0) then PT_VersionNegotiation
  else packet_type_from_first_byte first_byte.

Definition packet_type_is_long_header (pt : PacketType) : bool :=
  match pt with PT_Short => false | _ => true end.

(** ** Versions *)

Inductive QuicVersion := QV1 | QV2 | QVNegotiation | QVUnknown (v : Z).

Definition V1_VALUE : Z := 0x00000001.
Definition V2_VALUE : Z := 0x6b3343cf.
Definition NEGOTIATION_VALUE : Z := 0.

Definition version_from_u32 (value : Z) : QuicVersion :=
  if value =? V1_VALUE then QV1
  else if value =? V2_VALUE then QV2
  else if value =? NEGOTIATION_VALUE then QVNegotiation
  else QVUnknown value.

Definition version_to_u32 (v : QuicVersion) : Z :=
  match v with
  | QV1 => V1_VALUE | QV2 => V2_VALUE | QVNegotiation => NEGOTIATION_VALUE
  | QVUnknown x => x
  end.

(** ** Transport error codes *)

Inductive TransportErrorCode :=
| NoError | InternalError | ConnectionRefused | FlowControlError | StreamLimitError
| StreamStateError | FinalSizeError | FrameEncodingError | TransportParameterError
| ConnectionIdLimitError | ProtocolViolation | InvalidToken | ApplicationError
| CryptoBufferExceeded | KeyUpdateError | AeadLimitReached | NoViablePath
| CryptoError (alert : Z)
| UnknownError (value : Z).

#[export] Instance TransportErrorCode_eq_dec : EqDecision TransportErrorCode.
Proof. solve_decision. Defined.

Definition error_code_from_u64 (value : Z) : TransportErrorCode :=
  match value with
  | 0x00 => NoError | 0x01 => InternalError | 0x02 => ConnectionRefused
  | 0x03 => FlowControlError | 0x04 => StreamLimitError | 0x05 => StreamStateError
  | 0x06 => FinalSizeError | 0x07 => FrameEncodingError | 0x08 => TransportParameterError
  | 0x09 => ConnectionIdLimitError | 0x0a => ProtocolViolation | 0x0b => InvalidToken
  | 0x0c => ApplicationError | 0x0d => CryptoBufferExceeded | 0x0e => KeyUpdateError
  | 0x0f => AeadLimitReached | 0x10 => NoViablePath
  | other => if (0x0100 <=? other) && (other <=? 0x01ff)
             then CryptoError (as_u8 (Z.land other 0xff))
             else UnknownError other
  end.

Definition error_code_to_u64 (c : TransportErrorCode) : Z :=
  match c with
  | NoError => 0x00 | InternalError => 0x01 | ConnectionRefused => 0x02
  | FlowControlError => 0x03 | StreamLimitError => 0x04 | StreamStateError => 0x05
  | FinalSizeError => 0x06 | FrameEncodingError => 0x07 | TransportParameterError => 0x08
  | ConnectionIdLimitError => 0x09 | ProtocolViolation => 0x0a | InvalidToken => 0x0b
  | ApplicationError => 0x0c | CryptoBufferExceeded => 0x0d | KeyUpdateError => 0x0e
  | AeadLimitReached => 0x0f | NoViablePath => 0x10
  | CryptoError alert => Z.lor 0x0100 alert
  | UnknownError value => value
  end.

(** ** The unified error type *)

Inductive OxiQuicError :=
| EIo
| ETls
| EQuicCrypto
| EConnection
| EStream
| ETransportError (code : TransportErrorCode) (frame_type : option FrameType)
| EFrameEncoding
| EFlowControl
| EProtocol
| ETimeout
| EIdleTimeout
| EVersionNegotiation (supported : list Z)
| EStatelessReset
| EApplicationClose (code : Z)
| ENotImplemented.

#[export] Instance OxiQuicError_eq_dec : EqDecision OxiQuicError.
Proof. solve_decision. Defined.

Definition error_is_closed (e : OxiQuicError) : bool :=
  match e with
  | EApplicationClose _ | ETransportError _ _ | EIdleTimeout | EStatelessReset => true
  | _ => false
  end.

(** ** Transport parameters *)

Definition DEFAULT_MAX_UDP_PAYLOAD_SIZE : Z := 65527.
Definition MIN_MAX_UDP_PAYLOAD_SIZE : Z := 1200.
Definition DEFAULT_ACK_DELAY_EXPONENT : Z := 3.
Definition MAX_ACK_DELAY_EXPONENT : Z := 20.
Definition DEFAULT_MAX_ACK_DELAY_MS : Z := 25.
Definition MAX_ACK_DELAY_MS_LIMIT : Z := Z.shiftl 1 14.
Definition DEFAULT_ACTIVE_CONNECTION_ID_LIMIT : Z := 2.
Definition MIN_ACTIVE_CONNECTION_ID_LIMIT : Z := 2.

Record TransportParams := mkParams {
  max_idle_timeout_ms : Z;
  max_udp_payload_size : Z;
  initial_max_data : Z;
  initial_max_stream_data_bidi_local : Z;
  initial_max_stream_data_bidi_remote : Z;
  initial_max_stream_data_uni : Z;
  initial_max_streams_bidi : Z;
  initial_max_streams_uni : Z;
  ack_delay_exponent : Z;
  max_ack_delay_ms : Z;
  active_connection_id_limit : Z;
  disable_active_migration : bool;
  max_datagram_frame_size : Z
}.

#[export] Instance TransportParams_eq_dec : EqDecision TransportParams.
Proof. solve_decision. Defined.

Definition default_params : TransportParams := {|
  max_idle_timeout_ms := 0;
  max_udp_payload_size := DEFAULT_MAX_UDP_PAYLOAD_SIZE;
  initial_max_data := 0;
  initial_max_stream_data_bidi_local := 0;
  initial_max_stream_data_bidi_remote := 0;
  initial_max_stream_data_uni := 0;
  initial_max_streams_bidi := 0;
  initial_max_streams_uni := 0;
  ack_delay_exponent := DEFAULT_ACK_DELAY_EXPONENT;
  max_ack_delay_ms := DEFAULT_MAX_ACK_DELAY_MS;
  active_connection_id_limit := DEFAULT_ACTIVE_CONNECTION_ID_LIMIT;
  disable_active_migration := false;
  max_datagram_frame_size := 0
|}.

Definition validate_params (p : TransportParams) : result OxiQuicError unit :=
  let reject := Err (ETransportError TransportParameterError None) in
  if MAX_ACK_DELAY_EXPONENT <? ack_delay_exponent p then reject
  else if MAX_ACK_DELAY_MS_LIMIT <=? max_ack_delay_ms p then reject
  else if max_udp_payload_size p <? MIN_MAX_UDP_PAYLOAD_SIZE then reject
  else if active_connection_id_limit p <? MIN_ACTIVE_CONNECTION_ID_LIMIT then reject
  else Ok tt.

(** ** Lemmas *)

Lemma MAX_INDEX_eq : StreamId.MAX_INDEX = 2 ^ 60 - 1.
Proof. reflexivity. Qed.

(** The identifier as arithmetic: [index * 4 + direction * 2 + initiator]. *)
Lemma stream_id_new_arith i d index :
  StreamId.new i d index =
    (index mod 2 ^ 60) * 4 + (match d with Bidirectional => 0 | Unidirectional => 1 end) * 2
    + (match i with InitClient => 0 | InitServer => 1 end).
Proof.
  unfold StreamId.new. rewrite MAX_INDEX_eq, land_low_mod by lia.
  pose proof (Z.mod_pos_bound index (2 ^ 60) ltac:(lia)) as Hb.
  set (k := index mod 2 ^ 60) in *.
  assert (Hs : u64_shl k 2 = k * 2 ^ 2).
  { unfold u64_shl. rewrite Z.shiftl_mul_pow2 by lia. apply as_u64_small.
    unfold is_u64. lia. }
  rewrite Hs. rewrite (lor_disjoint_add k (Z.shiftl _ 1) 2) by (destruct d; vm_compute; intuition congruence).
  replace (k * 2 ^ 2 + Z.shiftl match d with Bidirectional => 0 | Unidirectional => 1 end 1)
    with ((k * 2 + match d with Bidirectional => 0 | Unidirectional => 1 end) * 2 ^ 1)
    by (destruct d; [change (Z.shiftl 0 1) with 0 | change (Z.shiftl 1 1) with 2]; lia).
  rewrite lor_disjoint_add by (destruct i; lia). destruct d, i; lia.
Qed.

Lemma stream_id_initiator_odd id : StreamId.initiator id = if Z.odd id then InitServer else InitClient.
Proof.
  unfold StreamId.initiator. change 1 with (2 ^ 1 - 1). rewrite land_low_mod by lia.
  change (2 ^ 1) with 2. rewrite Zmod_odd. by destruct (Z.odd id).
Qed.

Lemma stream_id_direction_bit id :
  StreamId.direction id = if Z.odd (id / 2) then Unidirectional else Bidirectional.
Proof.
  unfold StreamId.direction.
  assert (H : Z.land id 2 = (if Z.odd (id / 2) then 2 else 0)).
  { apply Z.bits_inj'. intros n Hn. rewrite Z.land_spec.
    rewrite <- (Z.bit0_odd (id / 2)).
    change (Z.testbit 2 n) with (Z.testbit (2 ^ 1) n). rewrite Z.pow2_bits_eqb by lia.
    destruct (Z.eqb_spec 1 n) as [<- | ].
    - rewrite andb_true_r. replace (id / 2) with (Z.shiftr id 1) by (by rewrite Z.shiftr_div_pow2).
      rewrite Z.shiftr_spec by lia. change (0 + 1) with 1. by destruct (Z.testbit id 1).
    - rewrite andb_false_r. destruct (Z.testbit (id / 2) 0); [| by rewrite Z.bits_0].
      change 2 with (2 ^ 1). by rewrite Z.pow2_bits_false. }
  rewrite H. by destruct (Z.odd (id / 2)).
Qed.

Lemma frame_type_value_from_varint ft : frame_type_from_varint (frame_type_value ft) = Some ft.
Proof. by destruct ft. Qed.

Lemma version_roundtrip v : version_to_u32 (version_from_u32 v) = v.
Proof. unfold version_from_u32. repeat case_match; try bcase; simpl; try done; congruence. Qed.

Lemma stream_id_parts i d index :
  0 <= index <= StreamId.MAX_INDEX ->
  StreamId.initiator (StreamId.new i d index) = i /\
  StreamId.direction (StreamId.new i d index) = d /\
  StreamId.index (StreamId.new i d index) = index.
Proof.
  rewrite MAX_INDEX_eq. intros Hi.
  rewrite stream_id_initiator_odd, stream_id_direction_bit. unfold StreamId.index.
  rewrite stream_id_new_arith, (Z.mod_small index), shiftr_div by lia.
  set (id := index * 4 + _ + _). pose proof (Zmod_odd id). pose proof (Zmod_odd (id / 2)).
  subst id. change (2 ^ 2) with 4. destruct i, d, (Z.odd _), (Z.odd _); repeat split; (reflexivity || zdm || (exfalso; zdm)).
Qed.

(** ** Properties *)

(** A stream identifier carries its initiator, direction and index without
    loss, for every index up to [2^60 - 1]; and every identifier below [2^62] is
    the one built from its parts. *)
Theorem stream_id_bijection :
  (forall i d index, 0 <= index <= StreamId.MAX_INDEX ->
     StreamId.initiator (StreamId.new i d index) = i /\
     StreamId.direction (StreamId.new i d index) = d /\
     StreamId.index (StreamId.new i d index) = index) /\
  (forall id, 0 <= id < 2 ^ 62 ->
     StreamId.new (StreamId.initiator id) (StreamId.direction id) (StreamId.index id) = id).
Proof.
  split; [intros; by apply stream_id_parts |]. intros id Hid.
  rewrite stream_id_initiator_odd, stream_id_direction_bit. unfold StreamId.index.
  rewrite stream_id_new_arith, shiftr_div by lia. change (2 ^ 2) with 4.
  rewrite Z.mod_small by zdm. pose proof (Zmod_odd id). pose proof (Zmod_odd (id / 2)).
  destruct (Z.odd id), (Z.odd (id / 2)); zdm.
Qed.

(** Transport error codes survive the wire: every 62-bit code value maps to
    a [TransportErrorCode] that maps back to the same value. *)
Theorem error_code_roundtrip v :
  error_code_to_u64 (error_code_from_u64 v) = v.
Proof.
  unfold error_code_from_u64.
  assert (Hc : (0x0100 <=? v) && (v <=? 0x01ff) = true -> Z.lor 256 (as_u8 (Z.land v 255)) = v).
  { intros [H1%Z.leb_le H2%Z.leb_le]%andb_prop. change 255 with (2 ^ 8 - 1).
    rewrite land_low_mod by lia. unfold as_u8. rewrite Z.mod_mod by lia.
    change 256 with (1 * 2 ^ 8). rewrite lor_disjoint_add by (apply Z.mod_pos_bound || lia; lia).
    change (2 ^ 8) with 256. zdm. }
  repeat case_match; simpl; try done; auto.
Qed.
