(* ===== verification/Coding.v ===== *)
(** * Wire primitives ([oxiquic-transport/src/coding.rs])

    The read cursor [Buf], variable-length integers and truncated packet
    numbers.  Every decoder is a function from a cursor to a result carrying the
    advanced cursor; [Err] is the value of the source's [?] exits.  The class
    [Codec] states what an encoder/decoder pair promises to its clients; the
    frame, parameter and packet coders are proved against it. *)

From S2P Require Import Prelude.

(** ** Constants and errors *)

Definition VARINT_MAX : Z := Z.shiftl 1 62 - 1.

Inductive CodecError := UnexpectedEnd | MalformedField.

#[export] Instance CodecError_eq_dec : EqDecision CodecError.
Proof. solve_decision. Defined.

Definition varint_size (value : Z) : Z :=
  if value <? Z.shiftl 1 6 then 1
  else if value <? Z.shiftl 1 14 then 2
  else if value <? Z.shiftl 1 30 then 4
  else 8.

(** ** The cursor *)

Record Buf := mkBuf { buf_bytes : list Z; buf_pos : nat }.

Definition buf_new (bytes : list Z) : Buf := mkBuf bytes 0.
Definition remaining (b : Buf) : Z := len (buf_bytes b) - Z.of_nat (buf_pos b).
Definition buf_is_empty (b : Buf) : bool := remaining b =? 0.
Definition position (b : Buf) : Z := Z.of_nat (buf_pos b).

(** The cursor moved forward by [n] bytes. *)
Definition advance (b : Buf) (n : nat) : Buf := mkBuf (buf_bytes b) (buf_pos b + n).

(** A decoder: [&mut Buf -> Result<A, CodecError>] with the cursor threaded. *)
Definition reader (A : Type) : Type := Buf -> result CodecError (A * Buf).

Definition get_u8 : reader Z := fun b =>
  match buf_bytes b !! buf_pos b with
  | Some byte => Ok (byte, advance b 1)
  | None => Err UnexpectedEnd
  end.

Definition get_u16 : reader Z := fun b =>
  '(hi, b) ← get_u8 b;
  '(lo, b) ← get_u8 b;
  Ok (Z.lor (as_u16 (Z.shiftl hi 8)) lo, b).

Definition get_u32 : reader Z := fun b =>
  '(hi, b) ← get_u16 b;
  '(lo, b) ← get_u16 b;
  Ok (Z.lor (as_u32 (Z.shiftl hi 16)) lo, b).

Definition get_bytes (n : Z) : reader (list Z) := fun b =>
  match checked_add (Z.of_nat (buf_pos b)) n with
  | None => Err UnexpectedEnd
  | Some stop =>
      if len (buf_bytes b) <? stop then Err UnexpectedEnd
      else Ok (slice (buf_bytes b) (buf_pos b) (Z.to_nat stop), advance b (Z.to_nat n))
  end.

(** The loop of [get_varint]: [extra] more bytes, most significant first. *)
Fixpoint get_varint_loop (extra : nat) (value : Z) : reader Z := fun b =>
  match extra with
  | O => Ok (value, b)
  | S k => '(byte, b) ← get_u8 b;
           get_varint_loop k (Z.lor (u64_shl value 8) byte) b
  end.

Definition get_varint : reader Z := fun b =>
  '(first, b) ← get_u8 b;
  let len_log := Z.shiftr first 6 in
  let value := Z.land first 0x3f in
  let extra := Z.shiftl 1 len_log - 1 in
  get_varint_loop (Z.to_nat extra) value b.

(** ** Encoding *)

Definition put_varint (out : list Z) (value : Z) : list Z :=
  let value := Z.min value VARINT_MAX in
  match varint_size value with
  | 1 => out ++ [as_u8 value]
  | 2 => out ++ [Z.lor 0x40 (as_u8 (Z.shiftr value 8)); as_u8 value]
  | 4 => out ++ [Z.lor 0x80 (as_u8 (Z.shiftr value 24)); as_u8 (Z.shiftr value 16);
                 as_u8 (Z.shiftr value 8); as_u8 value]
  | _ => out ++ [Z.lor 0xc0 (as_u8 (Z.shiftr value 56)); as_u8 (Z.shiftr value 48);
                 as_u8 (Z.shiftr value 40); as_u8 (Z.shiftr value 32);
                 as_u8 (Z.shiftr value 24); as_u8 (Z.shiftr value 16);
                 as_u8 (Z.shiftr value 8); as_u8 value]
  end.

(** ** Packet numbers *)

Definition packet_number_len (pn : Z) (largest_acked : option Z) : Z :=
  let range := match largest_acked with
               | Some acked => sat_mul (sat_sub pn acked) 2
               | None => sat_mul (sat_add pn 1) 2
               end in
  if range <? Z.shiftl 1 8 then 1
  else if range <? Z.shiftl 1 16 then 2
  else if range <? Z.shiftl 1 24 then 3
  else 4.

(** The bytes pushed by [for shift in (0..n).rev()]. *)
Fixpoint pn_bytes (pn : Z) (n : nat) : list Z :=
  match n with
  | O => []
  | S k => as_u8 (Z.shiftr pn (Z.of_nat k * 8)) :: pn_bytes pn k
  end.

Definition encode_packet_number (out : list Z) (pn n : Z) : list Z :=
  out ++ pn_bytes pn (Z.to_nat (Z.max 1 (Z.min n 4))).

(** [truncated = (truncated << 8) | b] over the packet-number bytes. *)
Definition read_truncated (bytes : list Z) : Z :=
  fold_left (fun acc b => Z.lor (u64_shl acc 8) b) bytes 0.

Definition decode_packet_number (largest_pn : option Z) (truncated pn_len : Z) : Z :=
  let expected := match largest_pn with Some largest => u64_add largest 1 | None => 0 end in
  let pn_nbits := as_u32 (pn_len * 8) in
  let pn_win := u64_shl 1 pn_nbits in
  let pn_hwin := pn_win / 2 in
  let pn_mask := u64_sub pn_win 1 in
  let candidate := Z.lor (Z.land expected (u64_MAX - pn_mask)) truncated in
  if (u64_add candidate pn_hwin <=? expected)
     && (candidate <? u64_MAX - pn_win)
     && (pn_hwin <? sat_sub expected candidate)
  then u64_add candidate pn_win
  else if (u64_add expected pn_hwin <? candidate) && (pn_win <=? candidate)
       then candidate - pn_win
       else candidate.

(** ** The codec interface *)

(** A wire codec for [A]: on the well-formed values, decoding what was encoded,
    followed by anything the codec accepts as a continuation, gives the value
    back and leaves the cursor just past the encoding. *)
Class Codec (A : Type) := {
  enc : A -> list Z;
  dec : Buf -> option (A * Buf);
  codec_ok : A -> Prop;
  codec_follow : A -> list Z -> Prop;
  codec_roundtrip : forall a b tl,
    codec_ok a -> codec_follow a tl ->
    drop (buf_pos b) (buf_bytes b) = enc a ++ tl ->
    dec b = Some (a, advance b (length (enc a)))
}.

(** ** Lemmas: the cursor *)

Definition rest (b : Buf) : list Z := drop (buf_pos b) (buf_bytes b).

Definition buf_wf (b : Buf) : Prop :=
  (buf_pos b <= length (buf_bytes b))%nat /\ len (buf_bytes b) <= u64_MAX.

Lemma rest_advance b n : rest (advance b n) = drop n (rest b).
Proof. unfold rest, advance. simpl. by rewrite drop_drop. Qed.

Lemma rest_new l : rest (buf_new l) = l.
Proof. done. Qed.

Lemma advance_0 b : advance b 0 = b.
Proof. destruct b. unfold advance. simpl. f_equal. lia. Qed.

Lemma advance_advance b n m : advance (advance b n) m = advance b (n + m).
Proof. unfold advance. simpl. f_equal. lia. Qed.

Lemma rest_advance_app b l tl : rest b = l ++ tl -> rest (advance b (length l)) = tl.
Proof. intros H. by rewrite rest_advance, H, drop_app_length. Qed.

Lemma length_rest b : buf_wf b -> len (rest b) = remaining b.
Proof. intros [H _]. unfold rest, remaining. rewrite length_drop. lia. Qed.

Lemma buf_wf_advance b n : buf_wf b -> (n <= length (rest b))%nat -> buf_wf (advance b n).
Proof.
  intros [H1 H2]. unfold rest, buf_wf. rewrite length_drop. simpl. lia.
Qed.

Lemma buf_is_empty_rest b : buf_wf b -> buf_is_empty b = true <-> rest b = [].
Proof.
  intros Hwf. unfold buf_is_empty. rewrite Z.eqb_eq, <- length_rest by done.
  destruct (rest b); simpl; split; intros; try done; lia.
Qed.

Lemma get_u8_cons b x tl : rest b = x :: tl -> get_u8 b = Ok (x, advance b 1).
Proof. intros H. unfold get_u8. by apply drop_cons_lookup in H as [-> _]. Qed.

Lemma get_u8_nil b : rest b = [] -> get_u8 b = Err UnexpectedEnd.
Proof. intros H. unfold get_u8. by rewrite lookup_drop_nil. Qed.

Lemma get_u8_inv b x b' :
  get_u8 b = Ok (x, b') -> rest b = x :: rest b' /\ b' = advance b 1.
Proof.
  unfold get_u8. destruct (buf_bytes b !! buf_pos b) eqn:E; intros [= <- <-].
  split; [| done]. rewrite rest_advance. unfold rest. rewrite drop_drop.
  rewrite (drop_S _ _ _ E). f_equal. f_equal. lia.
Qed.

Lemma get_bytes_app b l tl :
  buf_wf b -> rest b = l ++ tl -> get_bytes (len l) b = Ok (l, advance b (length l)).
Proof.
  intros [Hwf Hmax] Hr.
  assert (Hlen : (buf_pos b + length l <= length (buf_bytes b))%nat).
  { apply (f_equal length) in Hr. unfold rest in Hr. autorewrite with oxi in Hr. lia. }
  unfold get_bytes, checked_add. rewrite (proj2 (Z.ltb_ge _ _)) by (unfold u64_MAX in *; lia).
  rewrite (proj2 (Z.ltb_ge _ _)) by lia.
  rewrite Nat2Z.id. do 2 f_equal.
  unfold slice. fold (rest b). rewrite Hr.
  replace (Z.to_nat (Z.of_nat (buf_pos b) + len l) - buf_pos b)%nat with (length l) by lia.
  by rewrite take_app_length.
Qed.

Lemma get_bytes_inv n b l b' :
  0 <= n -> get_bytes n b = Ok (l, b') ->
  rest b = l ++ rest b' /\ len l = n /\ b' = advance b (length l).
Proof.
  intros Hn. unfold get_bytes, checked_add. bcase; [done |]. bcase; [done |].
  intros [= <- <-]. unfold slice. rewrite rest_advance. fold (rest b).
  assert (Hl : (Z.to_nat (Z.of_nat (buf_pos b) + n) - buf_pos b = Z.to_nat n)%nat) by lia.
  rewrite Hl. split; [by rewrite take_drop |].
  assert (length (take (Z.to_nat n) (rest b)) = Z.to_nat n) as ->.
  { unfold rest. autorewrite with oxi. lia. }
  split; [lia | done].
Qed.

(** ** Lemmas: variable-length integers *)

Definition is_varint (v : Z) : Prop := 0 <= v <= VARINT_MAX.

#[export] Instance is_varint_dec v : Decision (is_varint v) := _.

Lemma VARINT_MAX_eq : VARINT_MAX = 2 ^ 62 - 1.
Proof. reflexivity. Qed.

(** Encoded as a plain list: [put_varint] appends [varint_bytes]. *)
Definition varint_bytes (v : Z) : list Z := put_varint [] v.

Lemma put_varint_app out v : put_varint out v = out ++ varint_bytes v.
Proof. unfold varint_bytes, put_varint, varint_size. repeat case_match; done. Qed.

Lemma varint_size_cases v : varint_size v = 1 \/ varint_size v = 2 \/ varint_size v = 4 \/ varint_size v = 8.
Proof. unfold varint_size. repeat case_match; auto. Qed.

Lemma varint_bytes_length v : is_varint v -> len (varint_bytes v) = varint_size v.
Proof.
  intros [H1 H2]. unfold varint_bytes, put_varint. rewrite Z.min_l by done.
  destruct (varint_size_cases v) as [E | [E | [E | E]]]; by rewrite E.
Qed.

Lemma varint_bytes_pos v : (0 < length (varint_bytes v))%nat.
Proof. unfold varint_bytes, put_varint, varint_size. repeat case_match; simpl; lia. Qed.

Lemma lor_top k x : 0 <= x < 64 -> Z.lor (k * 64) x = k * 64 + x.
Proof. intros. by apply (lor_disjoint_add k x 6). Qed.

Lemma varint_bytes_ok v : is_varint v -> bytes_ok (varint_bytes v).
Proof.
  intros [H1 H2]. rewrite VARINT_MAX_eq in H2.
  assert (Htop : forall k n, 0 <= k <= 3 -> 0 <= n -> v < 2 ^ (n + 6) ->
            is_u8 (Z.lor (k * 64) (as_u8 (Z.shiftr v n)))).
  { intros k n Hk Hn Hv. rewrite shiftr_div by done. rewrite Z.pow_add_r in Hv by lia.
    pose proof (pow2_pos n Hn).
    assert (0 <= v / 2 ^ n < 64) by (split; [apply Z.div_pos | apply Z.div_lt_upper_bound]; lia).
    unfold as_u8. rewrite Z.mod_small by lia. rewrite lor_top by lia. unfold is_u8. lia. }
  unfold varint_bytes, put_varint. rewrite Z.min_l by (rewrite VARINT_MAX_eq; lia).
  unfold varint_size.
  change (Z.shiftl 1 6) with (2 ^ 6). change (Z.shiftl 1 14) with (2 ^ 14).
  change (Z.shiftl 1 30) with (2 ^ 30).
  repeat bcase; simpl app; unfold bytes_ok; rewrite !Forall_cons; split_and?;
    try apply as_u8_range; try by apply Forall_nil.
  - apply (Htop 1 8); lia.
  - apply (Htop 2 24); lia.
  - apply (Htop 3 56); lia.
Qed.

Lemma first_byte_split k x :
  0 <= k <= 3 -> 0 <= x < 64 ->
  Z.shiftr (k * 64 + x) 6 = k /\ Z.land (k * 64 + x) 0x3f = x.
Proof.
  intros. split.
  - rewrite shiftr_div by lia. change (2 ^ 6) with 64. zdm.
  - change 0x3f with (2 ^ 6 - 1). rewrite land_low_mod by lia. change (2 ^ 6) with 64. zdm.
Qed.

(** One iteration of the decoding loop on a known byte. *)
Lemma get_varint_loop_step n v v' x b tl :
  rest b = x :: tl -> is_u8 x -> 0 <= v < 2 ^ 56 -> v' = v * 256 + x ->
  get_varint_loop (S n) v b = get_varint_loop n v' (advance b 1).
Proof.
  intros Hr Hx Hv ->. simpl. rewrite (get_u8_cons _ _ _ Hr). simpl.
  unfold u64_shl. rewrite as_u64_small.
  - by rewrite shl8_lor.
  - unfold is_u64. rewrite Z.shiftl_mul_pow2 by lia. lia.
Qed.

Lemma get_varint_first k x b tl :
  rest b = (k * 64 + x) :: tl -> 0 <= k <= 3 -> 0 <= x < 64 ->
  get_varint b = get_varint_loop (Z.to_nat (2 ^ k - 1)) x (advance b 1).
Proof.
  intros Hr Hk Hx. unfold get_varint. rewrite (get_u8_cons _ _ _ Hr). simpl.
  destruct (first_byte_split k x Hk Hx) as [-> ->].
  by rewrite Z.shiftl_1_l.
Qed.

(** Reading the low bytes of [v], most significant first, after the value above
    them has been read. *)
Lemma get_varint_loop_bytes n v b tl :
  rest b = pn_bytes v n ++ tl -> 0 <= v < 2 ^ 62 ->
  get_varint_loop n (v / 2 ^ (Z.of_nat n * 8)) b = Ok (v, advance b n).
Proof.
  revert b. induction n as [| n IH]; intros b Hr Hv.
  - simpl. change (2 ^ (Z.of_nat 0 * 8)) with 1. by rewrite Z.div_1_r, advance_0.
  - simpl pn_bytes in Hr. rewrite shiftr_div in Hr by lia.
    erewrite get_varint_loop_step; [| exact Hr | apply as_u8_range | |].
    + rewrite IH; [| rewrite rest_advance, Hr; done | done].
      rewrite advance_advance. done.
    + pose proof (pow2_pos (Z.of_nat (S n) * 8) ltac:(lia)).
      split; [apply Z.div_pos; lia |].
      apply Z.div_lt_upper_bound; [lia |]. rewrite <- Z.pow_add_r by lia.
      apply Z.lt_le_trans with (2 ^ 62); [lia | apply Z.pow_le_mono_r; lia].
    + unfold as_u8. change (2 ^ 8) with 256.
      replace (Z.of_nat (S n) * 8) with (Z.of_nat n * 8 + 8) by lia.
      symmetry. apply horner_byte. lia.
Qed.

Lemma varint_shape v :
  is_varint v -> exists k n, 0 <= k <= 3 /\ Z.of_nat n = 2 ^ k - 1 /\
    0 <= v / 2 ^ (Z.of_nat n * 8) < 64 /\
    varint_bytes v = (k * 64 + v / 2 ^ (Z.of_nat n * 8)) :: pn_bytes v n.
Proof.
  intros [H1 H2]. rewrite VARINT_MAX_eq in H2.
  unfold varint_bytes, put_varint. rewrite Z.min_l by (rewrite VARINT_MAX_eq; lia).
  unfold varint_size.
  change (Z.shiftl 1 6) with (2 ^ 6). change (Z.shiftl 1 14) with (2 ^ 14).
  change (Z.shiftl 1 30) with (2 ^ 30).
  assert (Htop : forall n, 0 <= n -> v < 2 ^ (n + 6) -> 0 <= v / 2 ^ n < 64).
  { intros n Hn Hv. rewrite Z.pow_add_r in Hv by lia. pose proof (pow2_pos n Hn).
    split; [apply Z.div_pos | apply Z.div_lt_upper_bound]; lia. }
  assert (Hbyte : forall k n, 0 <= n -> v < 2 ^ (n + 6) ->
            Z.lor (k * 64) (as_u8 (Z.shiftr v n)) = k * 64 + v / 2 ^ n).
  { intros k n Hn Hv. rewrite shiftr_div by done. pose proof (Htop n Hn Hv).
    unfold as_u8. rewrite Z.mod_small by lia. by rewrite lor_top. }
  repeat bcase; simpl app.
  - exists 0, 0%nat. rewrite Z.div_1_r. repeat split; try done; try lia.
    f_equal. unfold as_u8. rewrite Z.mod_small; lia.
  - exists 1, 1%nat. change (Z.of_nat 1 * 8) with 8. pose proof (Htop 8).
    rewrite <- (Hbyte 1 8) by lia. repeat split; try reflexivity; lia.
  - exists 2, 3%nat. change (Z.of_nat 3 * 8) with 24. pose proof (Htop 24).
    rewrite <- (Hbyte 2 24) by lia. repeat split; try reflexivity; lia.
  - exists 3, 7%nat. change (Z.of_nat 7 * 8) with 56. pose proof (Htop 56).
    rewrite <- (Hbyte 3 56) by lia. repeat split; try reflexivity; lia.
Qed.

Lemma get_varint_bytes v b tl :
  is_varint v -> rest b = varint_bytes v ++ tl ->
  get_varint b = Ok (v, advance b (length (varint_bytes v))).
Proof.
  intros Hv Hr. destruct (varint_shape v Hv) as (k & n & Hk & Hn & Hx & E).
  rewrite E in Hr |- *.
  erewrite get_varint_first; [| exact Hr | done | done].
  replace (Z.to_nat (2 ^ k - 1)) with n by lia.
  erewrite get_varint_loop_bytes; [| rewrite rest_advance, Hr; done |].
  - rewrite advance_advance. do 3 f_equal. simpl. f_equal.
    clear. induction n; simpl; congruence.
  - destruct Hv. rewrite VARINT_MAX_eq in *. lia.
Qed.

Lemma get_varint_loop_inv n v b v' b' :
  get_varint_loop n v b = Ok (v', b') -> b' = advance b n /\ (n <= length (rest b))%nat.
Proof.
  revert v b. induction n as [| n IH]; intros v b; simpl.
  - intros [= <- <-]. rewrite advance_0. split; [done | lia].
  - destruct (get_u8 b) as [[x b1] | e] eqn:E; [| done]. simpl.
    apply get_u8_inv in E as [Hr ->]. intros H. apply IH in H as [-> Hl].
    rewrite advance_advance. split; [done |]. rewrite Hr. simpl. lia.
Qed.

Lemma get_varint_loop_range n v b v' b' :
  get_varint_loop n v b = Ok (v', b') -> bytes_ok (rest b) -> (n <= 7)%nat ->
  0 <= v < 2 ^ (62 - 8 * Z.of_nat n) -> 0 <= v' < 2 ^ 62.
Proof.
  revert v b. induction n as [| n IH]; intros v b; simpl.
  - intros [= <- <-] _ _. done.
  - destruct (get_u8 b) as [[x b1] | e] eqn:E; [| done]. simpl.
    apply get_u8_inv in E as [Hr ->]. intros H Hok Hn Hv. rewrite Hr in Hok.
    apply Forall_cons in Hok as [Hx Hok].
    assert (Hv56 : v < 2 ^ 56).
    { apply Z.lt_le_trans with (2 ^ (62 - 8 * Z.of_nat (S n))); [lia |].
      apply Z.pow_le_mono_r; lia. }
    unfold u64_shl in H. rewrite as_u64_small, shl8_lor in H; [| done |].
    2: { rewrite Z.shiftl_mul_pow2 by lia. unfold is_u64. lia. }
    eapply IH; [exact H | done | lia |]. unfold is_u8 in Hx.
    replace (62 - 8 * Z.of_nat n) with (62 - 8 * Z.of_nat (S n) + 8) by lia.
    rewrite Z.pow_add_r by lia. lia.
Qed.

(** What a successful [get_varint] consumed and returned. *)
Lemma get_varint_inv b v b' :
  get_varint b = Ok (v, b') -> bytes_ok (rest b) ->
  is_varint v /\ exists n, n ∈ [1; 2; 4; 8]%nat /\ b' = advance b n /\ (n <= length (rest b))%nat.
Proof.
  unfold get_varint. destruct (get_u8 b) as [[x b1] | e] eqn:E; [| done]. simpl.
  apply get_u8_inv in E as [Hr ->]. intros H Hok. rewrite Hr in Hok.
  apply Forall_cons in Hok as [Hx Hok].
  assert (Hk : 0 <= Z.shiftr x 6 <= 3).
  { rewrite shiftr_div by lia. unfold is_u8 in Hx. change (2 ^ 6) with 64. zdm. }
  assert (Hm : 0 <= Z.land x 0x3f < 2 ^ 6).
  { change 0x3f with (2 ^ 6 - 1). rewrite land_low_mod by lia. apply Z.mod_pos_bound; lia. }
  rewrite Z.shiftl_1_l in H.
  assert (Hn : exists n, Z.to_nat (2 ^ Z.shiftr x 6 - 1) = n /\ S n ∈ [1; 2; 4; 8]%nat /\ (n <= 7)%nat).
  { exists (Z.to_nat (2 ^ Z.shiftr x 6 - 1)). split; [done |].
    assert (Z.shiftr x 6 = 0 \/ Z.shiftr x 6 = 1 \/ Z.shiftr x 6 = 2 \/ Z.shiftr x 6 = 3)
      as [-> | [-> | [-> | ->]]] by lia; (split; [vm_compute; repeat constructor | vm_compute; lia]). }
  destruct Hn as (n & Hn & Hin & H7). rewrite Hn in H. split.
  - unfold is_varint. rewrite VARINT_MAX_eq.
    eapply get_varint_loop_range in H; [lia | done | done |].
    split; [lia |]. apply Z.lt_le_trans with (2 ^ 6); [lia | apply Z.pow_le_mono_r; lia].
  - apply get_varint_loop_inv in H as [-> Hl]. exists (S n).
    rewrite advance_advance. split; [done |]. split; [done |]. rewrite Hr. simpl. lia.
Qed.

#[export] Program Instance varint_codec : Codec Z := {|
  enc := varint_bytes;
  dec := fun b => result_ok (get_varint b);
  codec_ok := is_varint;
  codec_follow := fun _ _ => True
|}.
Next Obligation. intros v b tl Hv _ Hr. simpl. by rewrite (get_varint_bytes v b tl). Qed.

(** ** Lemmas: packet numbers *)

Lemma pn_bytes_length pn n : length (pn_bytes pn n) = n.
Proof. induction n; simpl; congruence. Qed.

Lemma pn_bytes_ok pn n : bytes_ok (pn_bytes pn n).
Proof. induction n; constructor; [apply as_u8_range | done]. Qed.

Lemma read_truncated_acc pn n acc :
  (n <= 4)%nat -> 0 <= acc < 2 ^ (62 - 8 * Z.of_nat n) ->
  fold_left (fun acc b => Z.lor (u64_shl acc 8) b) (pn_bytes pn n) acc
  = acc * 2 ^ (8 * Z.of_nat n) + pn mod 2 ^ (8 * Z.of_nat n).
Proof.
  revert acc. induction n as [| n IH]; intros acc Hn Hacc.
  - simpl. change (2 ^ (8 * Z.of_nat 0)) with 1. rewrite Z.mod_1_r. lia.
  - simpl fold_left. unfold u64_shl at 2.
    assert (Hv56 : acc < 2 ^ 56).
    { apply Z.lt_le_trans with (2 ^ (62 - 8 * Z.of_nat (S n))); [lia |].
      apply Z.pow_le_mono_r; lia. }
    pose proof (as_u8_range (Z.shiftr pn (Z.of_nat n * 8))) as Hb.
    rewrite as_u64_small by (rewrite Z.shiftl_mul_pow2 by lia; unfold is_u64; lia).
    rewrite shl8_lor by done. unfold is_u8 in Hb. rewrite IH; [| lia |].
    + replace (8 * Z.of_nat (S n)) with (8 * Z.of_nat n + 8) by lia.
      rewrite Z.pow_add_r by lia. unfold as_u8. rewrite shiftr_div by lia.
      replace (Z.of_nat n * 8) with (8 * Z.of_nat n) by lia.
      rewrite (Z.rem_mul_r pn (2 ^ (8 * Z.of_nat n)) (2 ^ 8)) by (pose proof (pow2_pos (8 * Z.of_nat n)); lia).
      change (2 ^ 8) with 256. ring.
    + replace (62 - 8 * Z.of_nat n) with (62 - 8 * Z.of_nat (S n) + 8) by lia.
      rewrite Z.pow_add_r by lia. lia.
Qed.

Lemma read_truncated_mod pn n :
  (n <= 4)%nat -> read_truncated (pn_bytes pn n) = pn mod 2 ^ (8 * Z.of_nat n).
Proof.
  intros Hn. unfold read_truncated. rewrite read_truncated_acc; [lia | done |].
  split; [lia | apply pow2_pos; lia].
Qed.

(** Masking off the low [n] bits of a [u64]. *)
Lemma land_high_mask e n :
  0 <= n <= 64 -> is_u64 e -> Z.land e (u64_MAX - (2 ^ n - 1)) = e / 2 ^ n * 2 ^ n.
Proof.
  intros Hn He.
  replace (u64_MAX - (2 ^ n - 1)) with (Z.shiftl (Z.ones (64 - n)) n).
  2: { rewrite Z.shiftl_mul_pow2 by lia. rewrite Z.ones_equiv. unfold u64_MAX.
       replace (2 ^ 64) with (2 ^ (64 - n) * 2 ^ n) by (rewrite <- Z.pow_add_r by lia; f_equal; lia).
       lia. }
  rewrite <- Z.shiftr_div_pow2, <- Z.shiftl_mul_pow2 by lia.
  apply Z.bits_inj'. intros i Hi. rewrite Z.land_spec.
  destruct (Z.ltb_spec i n).
  - rewrite !Z.shiftl_spec_low by done. apply andb_false_r.
  - rewrite !Z.shiftl_spec, Z.shiftr_spec by lia. replace (i - n + n) with i by lia.
    destruct (Z.ltb_spec (i - n) (64 - n)).
    + rewrite Z.ones_spec_low by lia. apply andb_true_r.
    + rewrite (testbit_above e 64 i) by (unfold is_u64 in He; lia). done.
Qed.

(** The candidate is the value of [expected]'s window with the truncated bits. *)
Lemma pn_candidate e t n :
  1 <= n <= 4 -> is_u64 e -> 0 <= t < 2 ^ (8 * n) ->
  Z.lor (Z.land e (u64_MAX - u64_sub (u64_shl 1 (as_u32 (n * 8))) 1)) t
  = e / 2 ^ (8 * n) * 2 ^ (8 * n) + t.
Proof.
  intros Hn He Ht.
  assert (Hw : u64_shl 1 (as_u32 (n * 8)) = 2 ^ (8 * n)).
  { unfold as_u32. rewrite Z.mod_small by lia. unfold u64_shl. rewrite Z.shiftl_1_l.
    rewrite as_u64_small; [f_equal; lia |]. split; [apply Z.pow_nonneg; lia |].
    apply Z.pow_lt_mono_r; lia. }
  assert (2 ^ (8 * n) <= 2 ^ 32) by (apply Z.pow_le_mono_r; lia).
  pose proof (pow2_pos (8 * n)).
  rewrite Hw, u64_sub_small by (unfold is_u64; lia).
  rewrite land_high_mask by (done || lia). apply lor_disjoint_add; lia.
Qed.

(** Packet numbers strictly inside the half-window around the expected number
    are recovered from their low bytes. *)
Lemma decode_packet_number_window largest pn n :
  1 <= n <= 4 -> 0 <= pn < 2 ^ 62 ->
  let e := match largest with Some l => l + 1 | None => 0 end in
  0 <= e < 2 ^ 62 ->
  e - 2 ^ (8 * n - 1) < pn < e + 2 ^ (8 * n - 1) ->
  decode_packet_number largest (pn mod 2 ^ (8 * n)) n = pn.
Proof.
  intros Hn Hpn e He Hwin. unfold decode_packet_number.
  assert (Hexp : match largest with Some l => u64_add l 1 | None => 0 end = e).
  { subst e. destruct largest; [| done]. apply u64_add_small. unfold is_u64. lia. }
  rewrite Hexp. clear Hexp.
  assert (Hw32 : 2 ^ (8 * n) <= 2 ^ 32) by (apply Z.pow_le_mono_r; lia).
  pose proof (pow2_pos (8 * n) ltac:(lia)) as Hw0.
  rewrite pn_candidate by (unfold is_u64; try apply Z.mod_pos_bound; lia).
  assert (Hw : u64_shl 1 (as_u32 (n * 8)) = 2 ^ (8 * n)).
  { unfold as_u32. rewrite Z.mod_small by lia. unfold u64_shl. rewrite Z.shiftl_1_l.
    rewrite as_u64_small; [f_equal; lia |]. unfold is_u64.
    replace (n * 8) with (8 * n) by lia. lia. }
  rewrite Hw.
  assert (Hh : 2 ^ (8 * n) = 2 * 2 ^ (8 * n - 1)).
  { rewrite <- Z.pow_succ_r by lia. f_equal. lia. }
  assert (Hh2 : 2 ^ (8 * n) / 2 = 2 ^ (8 * n - 1)) by (rewrite Hh; zdm).
  rewrite Hh2. set (w := 2 ^ (8 * n)) in *. set (h := 2 ^ (8 * n - 1)) in *.
  pose proof (Z.div_mod e w ltac:(lia)) as De. pose proof (Z.mod_pos_bound e w ltac:(lia)).
  pose proof (Z.div_mod pn w ltac:(lia)) as Dp. pose proof (Z.mod_pos_bound pn w ltac:(lia)).
  set (q := e / w) in *. set (p := pn / w) in *. set (t := pn mod w) in *. set (r := e mod w) in *.
  assert (Hq : 0 <= q) by (apply Z.div_pos; lia).
  assert (Hp : 0 <= p) by (apply Z.div_pos; lia).
  assert (Hc : p * w = q * w - w \/ p * w = q * w \/ p * w = q * w + w).
  { assert (Hd : q - 2 < p < q + 2) by nia.
    assert (p = q - 1 \/ p = q \/ p = q + 1) as [-> | [-> | ->]] by lia; lia. }
  assert (HQ : 0 <= q * w) by (apply Z.mul_nonneg_nonneg; lia).
  rewrite (Z.mul_comm w q) in De. rewrite (Z.mul_comm w p) in Dp.
  set (Q := q * w) in *. set (P := p * w) in *. clearbody Q P t r w h. clear Hp Hq Hw Hh2.
  rewrite (u64_add_small (Q + t) h) by (unfold is_u64; lia).
  rewrite (u64_add_small e h) by (unfold is_u64; lia).
  rewrite (u64_add_small (Q + t) w) by (unfold is_u64; lia).
  unfold sat_sub, u64_MAX. destruct Hc as [Hc | [Hc | Hc]]; repeat bcase; cbv iota; lia.
Qed.

Lemma packet_number_len_range pn acked : 1 <= packet_number_len pn acked <= 4.
Proof. unfold packet_number_len. repeat case_match; lia. Qed.

(** The chosen length covers twice the distance to the largest acknowledged. *)
Lemma packet_number_len_covers pn acked :
  0 <= pn < 2 ^ 62 ->
  match acked with Some a => 0 <= a /\ pn - a < 2 ^ 31 | None => pn + 1 < 2 ^ 31 end ->
  pn - match acked with Some a => a | None => -1 end
    < 2 ^ (8 * packet_number_len pn acked - 1).
Proof.
  intros Hpn Ha. unfold packet_number_len.
  change (Z.shiftl 1 8) with (2 ^ 8). change (Z.shiftl 1 16) with (2 ^ 16).
  change (Z.shiftl 1 24) with (2 ^ 24).
  destruct acked as [a |]; unfold sat_mul, sat_sub, sat_add, u64_MAX;
    repeat bcase; simpl (2 ^ (8 * _ - 1)); lia.
Qed.

Lemma encode_packet_number_bytes out pn n :
  1 <= n <= 4 -> encode_packet_number out pn n = out ++ pn_bytes pn (Z.to_nat n).
Proof. intros Hn. unfold encode_packet_number. do 2 f_equal. lia. Qed.

(** The lower bound on the distance that [acked <= largest] gives. *)
Definition acked_floor (acked : option Z) : Z := match acked with Some a => a | None => -1 end.

(** The packet number can be recovered: the sender's length covers the distance to
    the largest number the peer has acknowledged, and the receiver is neither behind
    that nor half a window ahead. *)
Definition pn_in_window (pn : Z) (acked largest : option Z) : Prop :=
  0 <= pn < 2 ^ 62 /\
  match acked with Some a => 0 <= a | None => True end /\
  pn - acked_floor acked < 2 ^ 31 /\
  -1 <= acked_floor largest < 2 ^ 62 - 1 /\ acked_floor acked <= acked_floor largest /\
  acked_floor largest + 1 < pn + 2 ^ (8 * packet_number_len pn acked - 1).

Lemma recover_pn pn acked largest :
  pn_in_window pn acked largest ->
  decode_packet_number largest
    (read_truncated (pn_bytes pn (Z.to_nat (packet_number_len pn acked))))
    (packet_number_len pn acked) = pn.
Proof.
  intros (Hpn & Ha & Hd & HL & HaL & Hre). pose proof (packet_number_len_range pn acked) as Hn.
  pose proof (packet_number_len_covers pn acked Hpn) as Hc.
  rewrite read_truncated_mod by lia. rewrite Z2Nat.id by lia.
  assert (He : match largest with Some l => l + 1 | None => 0 end = acked_floor largest + 1)
    by (destruct largest; simpl; lia).
  apply decode_packet_number_window; rewrite ?He; [lia | lia | lia |].
  assert (pn - acked_floor acked < 2 ^ (8 * packet_number_len pn acked - 1)).
  { destruct acked; simpl in *; apply Hc; lia. }
  lia.
Qed.

(** ** Properties *)

(** Every integer up to [2^62 - 1] survives [put_varint]/[get_varint]: the
    decoder returns it and stops right behind it, whatever follows, and the
    encoding is [varint_size] bytes long. *)
Theorem varint_roundtrip v out tl :
  is_varint v ->
  get_varint (mkBuf (put_varint out v ++ tl) (length out))
  = Ok (v, mkBuf (put_varint out v ++ tl) (length (put_varint out v))) /\
  len (put_varint out v) = len out + varint_size v.
Proof.
  intros Hv. rewrite put_varint_app. split.
  - rewrite (get_varint_bytes v _ tl Hv).
    + unfold advance. simpl. by rewrite length_app.
    + unfold rest. simpl. by rewrite <- app_assoc, drop_app_length.
  - rewrite length_app, <- varint_bytes_length by done. lia.
Qed.

Lemma varint_roundtrip_witness :
  get_varint (mkBuf (put_varint [7] 494878333 ++ [1; 2]) 1)
  = Ok (494878333, mkBuf (put_varint [7] 494878333 ++ [1; 2]) 5) /\
  len (put_varint [7] 494878333) = 1 + 4.
Proof. apply (varint_roundtrip 494878333 [7] [1; 2]). unfold is_varint. vm_compute. split; discriminate. Defined.

(** On arbitrary bytes a successful [get_varint] returns a value of at most
    [2^62 - 1] and has consumed 1, 2, 4 or 8 bytes, all inside the buffer. *)
Theorem get_varint_bounds l p v b' :
  bytes_ok l -> get_varint (mkBuf l p) = Ok (v, b') ->
  0 <= v <= VARINT_MAX /\
  exists n, n ∈ [1; 2; 4; 8]%nat /\ b' = mkBuf l (p + n) /\ (p + n <= length l)%nat.
Proof.
  intros Hl Hg. destruct (get_varint_inv _ _ _ Hg) as (Hv & n & Hn & -> & Hle).
  - by apply bytes_ok_drop.
  - split; [done |]. exists n. split_and!; [done | done |].
    unfold rest in Hle. rewrite length_drop in Hle. simpl in Hle.
    destruct (decide (p <= length l)%nat); [lia |].
    unfold get_varint, get_u8 in Hg. simpl in Hg.
    rewrite (proj2 (lookup_ge_None l p)) in Hg by lia. done.
Qed.

Lemma get_varint_bounds_witness :
  0 <= 15293 <= VARINT_MAX /\
  exists n, n ∈ [1; 2; 4; 8]%nat /\ mkBuf [9; 0x7b; 0xbd; 5] 3 = mkBuf [9; 0x7b; 0xbd; 5] (1 + n) /\
            (1 + n <= length [9; 0x7b; 0xbd; 5]%Z)%nat.
Proof.
  apply get_varint_bounds.
  - eapply bool_decide_unpack. vm_compute. exact I.
  - reflexivity.
Defined.

(** Packet-number truncation is lossless: when the sender picks the length
    with [packet_number_len] from the largest packet number the peer has
    acknowledged (less than [2^31] behind), and the receiver's largest processed
    number is at least that and less than half a window ahead of the packet,
    decoding the encoded bytes recovers the full packet number. *)
Theorem packet_number_recovery pn acked largest :
  pn_in_window pn acked largest ->
  decode_packet_number largest
    (read_truncated (encode_packet_number [] pn (packet_number_len pn acked)))
    (packet_number_len pn acked) = pn.
Proof. rewrite encode_packet_number_bytes by apply packet_number_len_range. apply recover_pn. Qed.

Lemma packet_number_recovery_witness :
  decode_packet_number (Some 0xa82f30ea)
    (read_truncated (encode_packet_number [] 0xa82f9b32 (packet_number_len 0xa82f9b32 (Some 0xa82f30ea))))
    (packet_number_len 0xa82f9b32 (Some 0xa82f30ea)) = 0xa82f9b32.
Proof. apply packet_number_recovery; vm_compute; repeat split; discriminate. Defined.

(** The documented tie rule of [decode_packet_number] ("breaking ties
    downward") is not what the code does: of two packet numbers exactly half a
    window away from the expected one, the upper one is chosen in one input and
    the lower one in another. *)
Theorem decode_packet_number_ties :
  decode_packet_number (Some 256) 129 1 = 257 + 128 /\
  decode_packet_number (Some 455) 72 1 = 456 - 128.
Proof. split; reflexivity. Qed.
