(* ===== verification/FrameCodec.v ===== *)
(** * QUIC frames ([oxiquic-transport/src/frame.rs])

    The decoded representation [Frame], the encoder [encode] and the decoder
    [decode_frame].  Slices borrowed from the packet buffer are the byte lists
    they denote.  A [FrameError] is its transport error code. *)

From S2P Require Import Prelude CoreTypes Coding.

(** ** Data *)

Record AckRange := mkAckRange { ar_gap : Z; ar_range : Z }.

#[export] Instance AckRange_eq_dec : EqDecision AckRange.
Proof. solve_decision. Defined.

Inductive Frame :=
| Padding (n : Z)
| Ping
| Ack (largest delay first_range : Z) (ranges : list AckRange)
| ResetStream (stream_id error_code final_size : Z)
| StopSending (stream_id error_code : Z)
| Crypto (offset : Z) (data : list Z)
| Stream (id offset : Z) (fin : bool) (data : list Z)
| MaxData (max : Z)
| MaxStreamData (id max : Z)
| DataBlocked (limit : Z)
| StreamDataBlocked (id limit : Z)
| PathChallenge (data : list Z)
| PathResponse (data : list Z)
| ConnectionClose (error_code : Z) (frame_type : option Z) (application : bool) (reason : list Z)
| HandshakeDone
| NewConnectionId (seq retire_prior_to : Z) (cid : list Z) (stateless_reset_token : list Z)
| RetireConnectionId (seq : Z)
| MaxStreams (dir : Direction) (max : Z)
| StreamsBlocked (dir : Direction) (limit : Z)
| NewToken (token : list Z)
| Datagram (data : list Z)
| Unsupported (typ : Z).

#[export] Instance Frame_eq_dec : EqDecision Frame.
Proof. solve_decision. Defined.

Definition is_ack_eliciting (f : Frame) : bool :=
  match f with Padding _ | Ack _ _ _ _ | ConnectionClose _ _ _ _ => false | _ => true end.

(** ** Encoding *)

Definition put_range (out : list Z) (r : AckRange) : list Z :=
  put_varint (put_varint out (ar_gap r)) (ar_range r).

Definition encode (f : Frame) (out : list Z) : list Z :=
  match f with
  | Padding n => out ++ replicate (Z.to_nat n) 0
  | Ping => put_varint out 0x01
  | Ack largest delay first_range ranges =>
      let out := put_varint out 0x02 in
      let out := put_varint out largest in
      let out := put_varint out delay in
      let out := put_varint out (len ranges) in
      let out := put_varint out first_range in
      fold_left put_range ranges out
  | ResetStream stream_id error_code final_size =>
      let out := put_varint out 0x04 in
      let out := put_varint out stream_id in
      let out := put_varint out error_code in
      put_varint out final_size
  | StopSending stream_id error_code =>
      let out := put_varint out 0x05 in
      let out := put_varint out stream_id in
      put_varint out error_code
  | Crypto offset data =>
      let out := put_varint out 0x06 in
      let out := put_varint out offset in
      let out := put_varint out (len data) in
      out ++ data
  | NewToken token =>
      let out := put_varint out 0x07 in
      let out := put_varint out (len token) in
      out ++ token
  | Stream id offset fin data =>
      let typ := Z.lor (Z.lor 0x08 0x04) 0x02 in
      let typ := if fin then Z.lor typ 0x01 else typ in
      let out := put_varint out typ in
      let out := put_varint out id in
      let out := put_varint out offset in
      let out := put_varint out (len data) in
      out ++ data
  | MaxData max => put_varint (put_varint out 0x10) max
  | MaxStreamData id max => put_varint (put_varint (put_varint out 0x11) id) max
  | DataBlocked limit => put_varint (put_varint out 0x14) limit
  | StreamDataBlocked id limit => put_varint (put_varint (put_varint out 0x15) id) limit
  | ConnectionClose error_code frame_type application reason =>
      let out := put_varint out (if application then 0x1d else 0x1c) in
      let out := put_varint out error_code in
      let out := if application then out else put_varint out (unwrap_or frame_type 0) in
      let out := put_varint out (len reason) in
      out ++ reason
  | PathChallenge data => put_varint out 0x1a ++ data
  | PathResponse data => put_varint out 0x1b ++ data
  | HandshakeDone => put_varint out 0x1e
  | NewConnectionId seq retire_prior_to cid token =>
      let out := put_varint out 0x18 in
      let out := put_varint out seq in
      let out := put_varint out retire_prior_to in
      let out := out ++ [as_u8 (len cid)] in
      let out := out ++ cid in
      out ++ token
  | RetireConnectionId seq => put_varint (put_varint out 0x19) seq
  | MaxStreams dir max =>
      let t := match dir with Unidirectional => 0x13 | Bidirectional => 0x12 end in
      put_varint (put_varint out t) max
  | StreamsBlocked dir limit =>
      let t := match dir with Unidirectional => 0x17 | Bidirectional => 0x16 end in
      put_varint (put_varint out t) limit
  | Datagram data =>
      let out := put_varint out 0x31 in
      let out := put_varint out (len data) in
      out ++ data
  | Unsupported _ => out
  end.

(** ** Decoding *)

(** [FrameError]; [lift] is the conversion [From<CodecError>] applied by [?]. *)
Definition FrameError := TransportErrorCode.
Definition lift {A} (r : result CodecError A) : result FrameError A :=
  map_err (fun _ => FrameEncodingError) r.

Definition frame_reader (A : Type) : Type := Buf -> result FrameError (A * Buf).

(** The [while buf.remaining() > 0] loop that coalesces PADDING; each turn
    consumes one byte, so [remaining] turns are enough. *)
Fixpoint padding_loop (fuel : nat) (count : Z) (b : Buf) : Z * Buf :=
  match fuel with
  | O => (count, b)
  | S k =>
      if 0 <? remaining b then
        match get_u8 b with
        | Ok (0, b') => padding_loop k (count + 1) b'
        | _ => (count, b)
        end
      else (count, b)
  end.

(** [for _ in 0..range_count]: each completed turn consumes at least two bytes
    and a turn on an exhausted buffer returns the error, so the loop makes at
    most [remaining + 1] turns whatever [range_count] is. *)
Fixpoint ranges_loop (fuel : nat) (range_count : Z) (acc : list AckRange)
    : frame_reader (list AckRange) := fun b =>
  if range_count <=? 0 then Ok (acc, b)
  else match fuel with
       | O => Err FrameEncodingError
       | S k =>
           '(gap, b) ← lift (get_varint b);
           '(range, b) ← lift (get_varint b);
           ranges_loop k (range_count - 1) (acc ++ [mkAckRange gap range]) b
       end.

Definition has_bit (typ m : Z) : bool := negb (Z.land typ m =? 0).

Definition decode_ack (typ : Z) : frame_reader Frame := fun b =>
  '(largest, b) ← lift (get_varint b);
  '(delay, b) ← lift (get_varint b);
  '(range_count, b) ← lift (get_varint b);
  '(first_range, b) ← lift (get_varint b);
  '(ranges, b) ← ranges_loop (S (Z.to_nat (remaining b))) range_count [] b;
  if typ =? 0x03 then
    '(_, b) ← lift (get_varint b);
    '(_, b) ← lift (get_varint b);
    '(_, b) ← lift (get_varint b);
    Ok (Ack largest delay first_range ranges, b)
  else Ok (Ack largest delay first_range ranges, b).

Definition decode_stream (typ : Z) : frame_reader Frame := fun b =>
  '(id, b) ← lift (get_varint b);
  '(offset, b) ← (if has_bit typ 0x04 then lift (get_varint b) else Ok (0, b));
  '(n, b) ← (if has_bit typ 0x02 then lift (get_varint b) else Ok (remaining b, b));
  let fin := has_bit typ 0x01 in
  '(data, b) ← lift (get_bytes n b);
  Ok (Stream id offset fin data, b).

Definition decode_new_connection_id : frame_reader Frame := fun b =>
  '(seq, b) ← lift (get_varint b);
  '(retire_prior_to, b) ← lift (get_varint b);
  if seq <? retire_prior_to then Err FrameEncodingError
  else
    '(cid_len, b) ← lift (get_u8 b);
    if (cid_len =? 0) || (20 <? cid_len) then Err FrameEncodingError
    else
      '(cid, b) ← lift (get_bytes cid_len b);
      '(token, b) ← lift (get_bytes 16 b);
      Ok (NewConnectionId seq retire_prior_to cid token, b).

Definition decode_connection_close (typ : Z) : frame_reader Frame := fun b =>
  '(error_code, b) ← lift (get_varint b);
  '(frame_type, b) ← (if typ =? 0x1c
                      then '(t, b) ← lift (get_varint b); Ok (Some t, b)
                      else Ok (None, b));
  '(reason_len, b) ← lift (get_varint b);
  '(reason, b) ← lift (get_bytes reason_len b);
  Ok (ConnectionClose error_code frame_type (typ =? 0x1d) reason, b).

(** The [match typ] of [decode_frame]. *)
Definition decode_body (typ : Z) : frame_reader Frame := fun b =>
  match typ with
  | 0x00 =>
      let '(count, b) := padding_loop (Z.to_nat (remaining b)) 1 b in
      Ok (Padding count, b)
  | 0x01 => Ok (Ping, b)
  | 0x02 | 0x03 => decode_ack typ b
  | 0x04 =>
      '(stream_id, b) ← lift (get_varint b);
      '(error_code, b) ← lift (get_varint b);
      '(final_size, b) ← lift (get_varint b);
      Ok (ResetStream stream_id error_code final_size, b)
  | 0x05 =>
      '(stream_id, b) ← lift (get_varint b);
      '(error_code, b) ← lift (get_varint b);
      Ok (StopSending stream_id error_code, b)
  | 0x06 =>
      '(offset, b) ← lift (get_varint b);
      '(n, b) ← lift (get_varint b);
      '(data, b) ← lift (get_bytes n b);
      Ok (Crypto offset data, b)
  | 0x07 =>
      '(n, b) ← lift (get_varint b);
      if n =? 0 then Err FrameEncodingError
      else '(token, b) ← lift (get_bytes n b); Ok (NewToken token, b)
  | 0x08 | 0x09 | 0x0a | 0x0b | 0x0c | 0x0d | 0x0e | 0x0f => decode_stream typ b
  | 0x10 => '(max, b) ← lift (get_varint b); Ok (MaxData max, b)
  | 0x11 =>
      '(id, b) ← lift (get_varint b);
      '(max, b) ← lift (get_varint b);
      Ok (MaxStreamData id max, b)
  | 0x12 | 0x13 =>
      '(max, b) ← lift (get_varint b);
      if Z.shiftl 1 60 <? max then Err FrameEncodingError
      else Ok (MaxStreams (if typ =? 0x13 then Unidirectional else Bidirectional) max, b)
  | 0x14 => '(limit, b) ← lift (get_varint b); Ok (DataBlocked limit, b)
  | 0x15 =>
      '(id, b) ← lift (get_varint b);
      '(limit, b) ← lift (get_varint b);
      Ok (StreamDataBlocked id limit, b)
  | 0x16 | 0x17 =>
      '(limit, b) ← lift (get_varint b);
      Ok (StreamsBlocked (if typ =? 0x17 then Unidirectional else Bidirectional) limit, b)
  | 0x18 => decode_new_connection_id b
  | 0x19 => '(seq, b) ← lift (get_varint b); Ok (RetireConnectionId seq, b)
  | 0x1a => '(data, b) ← lift (get_bytes 8 b); Ok (PathChallenge data, b)
  | 0x1b => '(data, b) ← lift (get_bytes 8 b); Ok (PathResponse data, b)
  | 0x1c | 0x1d => decode_connection_close typ b
  | 0x1e => Ok (HandshakeDone, b)
  | 0x30 => '(data, b) ← lift (get_bytes (remaining b) b); Ok (Datagram data, b)
  | 0x31 =>
      '(n, b) ← lift (get_varint b);
      '(data, b) ← lift (get_bytes n b);
      Ok (Datagram data, b)
  | _ => Err FrameEncodingError
  end.

Definition decode_frame : frame_reader Frame := fun b =>
  '(typ, b) ← lift (get_varint b);
  decode_body typ b.

(** The receive loop's [while !buf.is_empty()] over a decrypted payload, reading
    every frame; each frame consumes at least one byte. *)
Fixpoint decode_payload (fuel : nat) (b : Buf) : result FrameError (list Frame) :=
  if buf_is_empty b then Ok []
  else match fuel with
       | O => Err FrameEncodingError
       | S k =>
           '(f, b) ← decode_frame b;
           fs ← decode_payload k b;
           Ok (f :: fs)
       end.

(** ** Well-formed frames

    The frames the encoder can represent: what [decode_frame] produces. *)

Definition range_ok (r : AckRange) : Prop := is_varint (ar_gap r) /\ is_varint (ar_range r).

Definition frame_ok (f : Frame) : Prop :=
  match f with
  | Padding n => 1 <= n
  | Ping | HandshakeDone => True
  | Ack largest delay first_range ranges =>
      is_varint largest /\ is_varint delay /\ is_varint first_range /\
      is_varint (len ranges) /\ Forall range_ok ranges
  | ResetStream a b c => is_varint a /\ is_varint b /\ is_varint c
  | StopSending a b | MaxStreamData a b | StreamDataBlocked a b => is_varint a /\ is_varint b
  | Crypto offset data => is_varint offset /\ is_varint (len data)
  | Stream id offset _ data => is_varint id /\ is_varint offset /\ is_varint (len data)
  | MaxData a | DataBlocked a | RetireConnectionId a | StreamsBlocked _ a => is_varint a
  | PathChallenge data | PathResponse data => length data = 8%nat
  | ConnectionClose code ft app reason =>
      is_varint code /\ is_varint (len reason) /\
      match ft with Some t => app = false /\ is_varint t | None => app = true end
  | NewConnectionId seq rpt cid token =>
      is_varint seq /\ is_varint rpt /\ rpt <= seq /\ 1 <= len cid <= 20 /\ length token = 16%nat
  | MaxStreams _ max => 0 <= max <= 2 ^ 60
  | NewToken token => is_varint (len token) /\ token <> []
  | Datagram data => is_varint (len data)
  | Unsupported _ => False
  end.

#[export] Instance range_ok_dec r : Decision (range_ok r).
Proof. unfold range_ok. apply _. Defined.
#[export] Instance frame_ok_dec f : Decision (frame_ok f).
Proof. destruct f as [| | | | | | | | | | | | |? [] | | | | | | | |]; simpl; apply _. Defined.

(** PADDING is the only frame whose extent depends on what follows it. *)
Definition frame_follow (f : Frame) (tl : list Z) : Prop :=
  match f with Padding _ => head tl <> Some 0 | _ => True end.

(** ** Lemmas: reading back what was written *)

Definition frame_bytes (f : Frame) : list Z := encode f [].

Lemma put_range_fold out rs :
  fold_left put_range rs out =
  out ++ concat (map (fun r => varint_bytes (ar_gap r) ++ varint_bytes (ar_range r)) rs).
Proof.
  revert out. induction rs as [| r rs IH]; intros out; simpl.
  - by rewrite app_nil_r.
  - rewrite IH. unfold put_range. rewrite !put_varint_app. by rewrite <- !app_assoc.
Qed.

Lemma encode_app f out : encode f out = out ++ frame_bytes f.
Proof.
  unfold frame_bytes. destruct f as [| | | | | | | | | | | | |? ? [] ? | | | | | | | |]; simpl;
    rewrite ?put_range_fold, ?put_varint_app, <- ?app_assoc; simpl; rewrite ?app_nil_r; done.
Qed.

Lemma is_varint_small v : 0 <= v < 64 -> is_varint v.
Proof. unfold is_varint. rewrite VARINT_MAX_eq. lia. Qed.

#[export] Hint Resolve is_varint_small : oxi.

Lemma length_rest_app b l tl : rest b = l ++ tl -> (length l <= length (rest b))%nat.
Proof. intros ->. rewrite length_app. lia. Qed.

Lemma buf_wf_advance_app b l tl :
  buf_wf b -> rest b = l ++ tl -> buf_wf (advance b (length l)).
Proof. intros H Hr. eapply buf_wf_advance, length_rest_app; done. Qed.

(** [lift_varint]/[lift_bytes]: one [?] step of the decoder. *)
Lemma lift_varint {B} (k : Z * Buf -> result FrameError B) v b tl :
  is_varint v -> rest b = varint_bytes v ++ tl ->
  (lift (get_varint b) ≫= k) = k (v, advance b (length (varint_bytes v))).
Proof. intros Hv Hr. by rewrite (get_varint_bytes v b tl). Qed.

Lemma lift_bytes {B} (k : list Z * Buf -> result FrameError B) n l b tl :
  buf_wf b -> n = len l -> rest b = l ++ tl ->
  (lift (get_bytes n b) ≫= k) = k (l, advance b (length l)).
Proof. intros Hb -> Hr. by rewrite (get_bytes_app b l tl). Qed.

Lemma lift_u8 {B} (k : Z * Buf -> result FrameError B) x b tl :
  rest b = [x] ++ tl -> (lift (get_u8 b) ≫= k) = k (x, advance b 1).
Proof. intros Hr. by rewrite (get_u8_cons b x tl). Qed.

(** Step through a decoder, keeping the well-formedness of the cursor [Hb] and
    the remaining input [Hr]. *)
Ltac step Hb Hr :=
  match type of Hr with
  | rest ?b = varint_bytes ?v ++ ?tl =>
      rewrite (lift_varint _ v b tl) by first [done | apply is_varint_small; lia]
  | rest ?b = [?x] ++ ?tl => rewrite (lift_u8 _ x b tl) by done
  | rest ?b = ?l ++ ?tl => rewrite (lift_bytes _ _ l b tl) by first [done | lia]
  end;
  pose proof (buf_wf_advance_app _ _ _ Hb Hr) as Hb';
  clear Hb; rename Hb' into Hb;
  apply rest_advance_app in Hr;
  cbv beta iota.

(** Close a decoding equation up to the position reached. *)
Ltac step_done :=
  rewrite ?advance_advance; do 3 f_equal; autorewrite with oxi; simpl; rewrite ?length_app; simpl; lia.

Lemma padding_loop_run fuel n count b tl :
  buf_wf b -> rest b = replicate n 0 ++ tl -> head tl <> Some 0 -> (n <= fuel)%nat ->
  (length (rest b) <= fuel)%nat ->
  padding_loop fuel count b = (count + Z.of_nat n, advance b n).
Proof.
  revert n count b. induction fuel as [| fuel IH]; intros n count b Hb Hr Htl Hn Hl; simpl.
  - assert (n = 0)%nat as -> by lia. rewrite advance_0. f_equal. lia.
  - rewrite <- length_rest by done. destruct n as [| n].
    + rewrite advance_0. simpl in Hr. rewrite Hr. destruct tl as [| x tl].
      * simpl. f_equal. lia.
      * simpl. rewrite (get_u8_cons _ _ _ Hr). rewrite Z.add_0_r.
        destruct x; done.
    + simpl in Hr. rewrite Hr, (get_u8_cons _ _ _ Hr). simpl.
      assert (Hr1 : rest (advance b 1) = replicate n 0 ++ tl) by (rewrite rest_advance, Hr; done).
      rewrite (IH n); [| | done | done | lia |].
      * rewrite advance_advance. f_equal. lia.
      * apply buf_wf_advance; [done |]. rewrite Hr. simpl. lia.
      * rewrite Hr1. rewrite Hr in Hl. simpl in Hl. lia.
Qed.

Lemma ranges_loop_run fuel rs acc b tl :
  rest b = concat (map (fun r => varint_bytes (ar_gap r) ++ varint_bytes (ar_range r)) rs) ++ tl ->
  Forall range_ok rs -> (length rs <= fuel)%nat ->
  ranges_loop fuel (len rs) acc b =
  Ok (acc ++ rs, advance b (length (concat (map (fun r => varint_bytes (ar_gap r) ++ varint_bytes (ar_range r)) rs)))).
Proof.
  revert rs acc b. induction fuel as [| fuel IH]; intros rs acc b Hr Hok Hf.
  - destruct rs; [| simpl in Hf; lia]. simpl. by rewrite app_nil_r, advance_0.
  - destruct rs as [| r rs]; [simpl; by rewrite app_nil_r, advance_0 |].
    apply Forall_cons in Hok as [[H1 H2] Hok]. simpl in Hr. rewrite <- !app_assoc in Hr.
    cbn [ranges_loop]. rewrite (proj2 (Z.leb_gt _ _)) by (simpl length; lia).
    erewrite (lift_varint _ _ _ _ H1 Hr). cbv beta iota. apply rest_advance_app in Hr.
    erewrite (lift_varint _ _ _ _ H2 Hr). cbv beta iota. apply rest_advance_app in Hr.
    replace (len (r :: rs) - 1) with (len rs) by (simpl length; lia).
    rewrite IH; [| done | done | simpl in Hf; lia].
    rewrite <- app_assoc. destruct r. simpl. do 2 f_equal.
    rewrite !advance_advance. f_equal. rewrite !length_app. lia.
Qed.

Lemma ranges_bytes_length rs :
  (length rs <= length (concat (map (fun r => varint_bytes (ar_gap r) ++ varint_bytes (ar_range r)) rs)))%nat.
Proof.
  induction rs as [| r rs IH]; simpl; [lia |]. rewrite !length_app.
  pose proof (varint_bytes_pos (ar_gap r)). lia.
Qed.

Lemma decode_ack_run l d fr rs b tl :
  buf_wf b -> frame_ok (Ack l d fr rs) ->
  rest b = varint_bytes l ++ varint_bytes d ++ varint_bytes (len rs) ++ varint_bytes fr ++
    concat (map (fun r => varint_bytes (ar_gap r) ++ varint_bytes (ar_range r)) rs) ++ tl ->
  decode_ack 2 b = Ok (Ack l d fr rs,
    advance b (length (varint_bytes l ++ varint_bytes d ++ varint_bytes (len rs) ++ varint_bytes fr ++
    concat (map (fun r => varint_bytes (ar_gap r) ++ varint_bytes (ar_range r)) rs)))).
Proof.
  intros Hb (H1 & H2 & H3 & H4 & H5) Hr. unfold decode_ack.
  do 4 step Hb Hr. rewrite (ranges_loop_run _ rs [] _ tl Hr H5).
  - simpl. step_done.
  - rewrite <- length_rest, Hr, length_app by done. pose proof (ranges_bytes_length rs). lia.
Qed.

(** The type and the fields of an encoded frame. *)
Definition frame_tag (f : Frame) : Z :=
  match f with
  | Padding _ => 0 | Ping => 1 | Ack _ _ _ _ => 2 | ResetStream _ _ _ => 4 | StopSending _ _ => 5
  | Crypto _ _ => 6 | NewToken _ => 7 | Stream _ _ fin _ => if fin then 0x0f else 0x0e
  | MaxData _ => 0x10 | MaxStreamData _ _ => 0x11
  | MaxStreams dir _ => match dir with Unidirectional => 0x13 | Bidirectional => 0x12 end
  | DataBlocked _ => 0x14 | StreamDataBlocked _ _ => 0x15
  | StreamsBlocked dir _ => match dir with Unidirectional => 0x17 | Bidirectional => 0x16 end
  | NewConnectionId _ _ _ _ => 0x18 | RetireConnectionId _ => 0x19
  | PathChallenge _ => 0x1a | PathResponse _ => 0x1b
  | ConnectionClose _ _ app _ => if app then 0x1d else 0x1c
  | HandshakeDone => 0x1e | Datagram _ => 0x31 | Unsupported t => t
  end.

Definition frame_fields (f : Frame) : list Z :=
  match f with
  | Padding n => replicate (Z.to_nat (n - 1)) 0
  | Ping | HandshakeDone | Unsupported _ => []
  | Ack l d fr rs =>
      varint_bytes l ++ varint_bytes d ++ varint_bytes (len rs) ++ varint_bytes fr ++
      concat (map (fun r => varint_bytes (ar_gap r) ++ varint_bytes (ar_range r)) rs)
  | ResetStream a b c => varint_bytes a ++ varint_bytes b ++ varint_bytes c
  | StopSending a b | MaxStreamData a b | StreamDataBlocked a b => varint_bytes a ++ varint_bytes b
  | Crypto offset data => varint_bytes offset ++ varint_bytes (len data) ++ data
  | Stream id offset _ data => varint_bytes id ++ varint_bytes offset ++ varint_bytes (len data) ++ data
  | MaxData a | DataBlocked a | RetireConnectionId a | StreamsBlocked _ a | MaxStreams _ a => varint_bytes a
  | PathChallenge data | PathResponse data => data
  | ConnectionClose code ft app reason =>
      varint_bytes code ++ (if app then [] else varint_bytes (unwrap_or ft 0)) ++
      varint_bytes (len reason) ++ reason
  | NewConnectionId seq rpt cid token =>
      varint_bytes seq ++ varint_bytes rpt ++ [as_u8 (len cid)] ++ cid ++ token
  | NewToken data | Datagram data => varint_bytes (len data) ++ data
  end.

Lemma frame_bytes_split f :
  frame_ok f -> frame_bytes f = varint_bytes (frame_tag f) ++ frame_fields f.
Proof.
  unfold frame_bytes. destruct f as [n | | | | | | ? ? [] ? | | | | | | | ? ? [] ? | | | | [] | [] | | |]; intros Hok;
    cbn [encode frame_tag frame_fields];
    rewrite ?put_range_fold, ?put_varint_app, ?app_nil_l, <- ?app_assoc, ?app_nil_r; try done.
  simpl in Hok. by replace (Z.to_nat n) with (S (Z.to_nat (n - 1))) by lia.
Qed.

Lemma frame_tag_range f : frame_ok f -> 0 <= frame_tag f < 64.
Proof. destruct f as [| | | | | | ? ? [] ? | | | | | | | ? ? [] ? | | | | [] | [] | | |]; simpl; lia. Qed.

(** Every well-formed frame decodes back from its fields. *)
Lemma decode_body_fields f b tl :
  frame_ok f -> frame_follow f tl -> buf_wf b -> rest b = frame_fields f ++ tl ->
  decode_body (frame_tag f) b = Ok (f, advance b (length (frame_fields f))).
Proof.
  intros Hok Hfol Hb Hr.
  destruct f as [n | | l d fr rs | | | | id off fin data | | | | | | | code ft app reason | |
                 seq rpt cid token | | dir max | dir lim | token | |]; cbn [frame_ok frame_fields frame_tag] in *;
    rewrite <- ?app_assoc in Hr; destruct_and?; cbn [decode_body];
    try (destruct Hok; fail);
    try (repeat step Hb Hr; step_done).
  - (* Padding *)
    rewrite (padding_loop_run _ (Z.to_nat (n - 1)) 1 _ tl); [| done | done | done | |].
    + rewrite length_replicate. do 3 f_equal; lia.
    + rewrite <- length_rest, Hr by done. autorewrite with oxi. lia.
    + rewrite <- length_rest by done. lia.
  - by rewrite advance_0.
  - by apply (decode_ack_run l d fr rs b tl); [| | rewrite <- ?app_assoc in Hr].
  - destruct fin; cbn [decode_body]; unfold decode_stream, has_bit; do 3 (step Hb Hr; simpl negb; cbv iota; simpl mbind);
      step Hb Hr; step_done.
  - destruct app, ft; destruct_and?; try done; cbn [decode_body unwrap_or] in *;
      unfold decode_connection_close; simpl Z.eqb; cbv iota; rewrite ?app_nil_l in Hr.
    + do 3 (step Hb Hr; simpl mbind); step_done.
    + do 4 (step Hb Hr; simpl mbind); step_done.
  - by rewrite advance_0.
  - unfold decode_new_connection_id. do 2 step Hb Hr.
    rewrite (proj2 (Z.ltb_ge _ _)) by lia. step Hb Hr.
    unfold as_u8. rewrite Z.mod_small by lia.
    rewrite (proj2 (Z.eqb_neq _ _)), (proj2 (Z.ltb_ge _ _)) by lia. simpl orb. cbv iota.
    do 2 step Hb Hr. step_done.
  - assert (Hv : is_varint max) by (unfold is_varint; rewrite VARINT_MAX_eq; lia).
    destruct dir; cbn [decode_body]; step Hb Hr; change (Z.shiftl 1 60) with (2 ^ 60);
      rewrite (proj2 (Z.ltb_ge _ _)) by lia; done.
  - destruct dir; cbn [decode_body]; by step Hb Hr.
  - step Hb Hr. rewrite (proj2 (Z.eqb_neq _ _)) by (destruct token; simpl; [done | lia]).
    step Hb Hr. step_done.
Qed.

Lemma decode_frame_bytes f b tl :
  frame_ok f -> frame_follow f tl -> buf_wf b -> rest b = frame_bytes f ++ tl ->
  decode_frame b = Ok (f, advance b (length (frame_bytes f))).
Proof.
  intros Hok Hfol Hb Hr. rewrite frame_bytes_split in Hr |- * by done.
  rewrite <- app_assoc in Hr. unfold decode_frame. pose proof (frame_tag_range f Hok).
  step Hb Hr. rewrite (decode_body_fields f _ tl) by done. step_done.
Qed.

(** ** Lemmas: what a successful decode has consumed *)

(** [consumes b r P]: if [r], a read started at [b], succeeds, its value
    satisfies [P] and the cursor moved forward inside the buffer. *)
Definition consumes {E A} (b : Buf) (r : result E (A * Buf)) (P : A -> Prop) : Prop :=
  match r with
  | Ok (a, b') => P a /\ exists n, b' = advance b n /\ (n <= length (rest b))%nat
  | Err _ => True
  end.

(** The cursors a decoder can be started from. *)
Definition buf_ok (b : Buf) : Prop :=
  buf_wf b /\ bytes_ok (rest b) /\ len (buf_bytes b) <= VARINT_MAX.

Lemma buf_ok_advance b n : buf_ok b -> (n <= length (rest b))%nat -> buf_ok (advance b n).
Proof.
  intros (H1 & H2 & H3) Hn. split; [by apply buf_wf_advance |]. split; [| done].
  rewrite rest_advance. by apply bytes_ok_drop.
Qed.

Lemma consumes_ret {E A} b (a : A) (P : A -> Prop) : P a -> consumes (E:=E) b (Ok (a, b)) P.
Proof. intros H. split; [done |]. exists 0%nat. rewrite advance_0. split; [done | lia]. Qed.

Lemma consumes_bind {E A B} b (m : result E (A * Buf)) (k : A * Buf -> result E (B * Buf)) P Q :
  buf_ok b -> consumes b m P ->
  (forall a b', buf_ok b' -> P a -> consumes b' (k (a, b')) Q) -> consumes b (m ≫= k) Q.
Proof.
  intros Hb Hm Hk. destruct m as [[a b'] | e]; [| done]. simpl in *.
  destruct Hm as (HP & n & -> & Hn).
  specialize (Hk a (advance b n) (buf_ok_advance _ _ Hb Hn) HP).
  destruct (k (a, advance b n)) as [[c b''] | e]; [| done]. simpl in *.
  destruct Hk as (HQ & m & -> & Hm). split; [done |]. exists (n + m)%nat.
  rewrite advance_advance. split; [done |]. rewrite rest_advance, length_drop in Hm. lia.
Qed.

Lemma consumes_lift {A} b (r : result CodecError (A * Buf)) P : consumes b r P -> consumes b (lift r) P.
Proof. by destruct r. Qed.

Lemma consumes_varint b : buf_ok b -> consumes b (get_varint b) is_varint.
Proof.
  intros (_ & Hb & _). destruct (get_varint b) as [[v b'] | e] eqn:E; [| done].
  destruct (get_varint_inv _ _ _ E Hb) as (Hv & n & _ & -> & Hn). split; [done |]. by exists n.
Qed.

Lemma consumes_u8 b : buf_ok b -> consumes b (get_u8 b) is_u8.
Proof.
  intros (_ & Hb & _). destruct (get_u8 b) as [[v b'] | e] eqn:E; [| done].
  apply get_u8_inv in E as [Hr ->]. rewrite Hr in Hb. apply Forall_cons in Hb as [Hv _].
  split; [done |]. exists 1%nat. rewrite Hr. simpl. split; [done | lia].
Qed.

Lemma consumes_bytes b n :
  buf_ok b -> 0 <= n -> consumes b (get_bytes n b) (fun l => len l = n /\ is_varint (len l)).
Proof.
  intros ((Hp & _) & _ & Hm) Hn. destruct (get_bytes n b) as [[l b'] | e] eqn:E; [| done].
  apply get_bytes_inv in E as (Hr & Hl & ->); [| done].
  assert (Hle : (length l <= length (rest b))%nat) by (rewrite Hr, length_app; lia).
  split; [| by exists (length l)]. split; [done |]. unfold is_varint.
  unfold rest in Hle. rewrite length_drop in Hle. lia.
Qed.

Lemma consumes_ok_bind {E A B} b (a : A) (k : A * Buf -> result E (B * Buf)) Q :
  consumes b (k (a, b)) Q -> consumes b (Ok (a, b) ≫= k) Q.
Proof. done. Qed.

Lemma remaining_nonneg b : buf_ok b -> 0 <= remaining b.
Proof. intros ((H & _) & _). unfold remaining. lia. Qed.

(** Walk through a decoder, one read at a time. *)
Ltac consume :=
  match goal with
  | H : buf_ok ?b |- consumes ?b (lift (get_varint ?b) ≫= _) _ =>
      apply (consumes_bind b _ _ is_varint); [exact H | by apply consumes_lift, consumes_varint | intros; cbv beta iota]
  | H : buf_ok ?b |- consumes ?b (lift (get_u8 ?b) ≫= _) _ =>
      apply (consumes_bind b _ _ is_u8); [exact H | by apply consumes_lift, consumes_u8 | intros; cbv beta iota]
  | H : buf_ok ?b |- consumes ?b (lift (get_bytes ?n ?b) ≫= _) _ =>
      apply (consumes_bind b _ _ (fun l => len l = n /\ is_varint (len l)));
      [exact H
      | apply consumes_lift, consumes_bytes;
        [done | first [done | by apply remaining_nonneg | unfold is_varint, is_u8 in *; lia]]
      | intros ? ? ? [? ?]; cbv beta iota]
  | |- consumes _ (Err _) _ => exact I
  | |- consumes ?b (Ok (_, ?b)) _ => apply consumes_ret
  | |- consumes ?b (Ok (_, ?b) ≫= _) _ => apply consumes_ok_bind; cbv beta iota
  | |- consumes _ (if ?c then _ else _) _ => destruct c eqn:?
  | |- consumes _ ((if ?c then _ else _) ≫= _) _ => destruct c eqn:?
  end.

Lemma consumes_ranges fuel rc acc b :
  buf_ok b -> 0 <= rc -> Forall range_ok acc ->
  consumes b (ranges_loop fuel rc acc b) (fun rs => Forall range_ok rs /\ len rs = len acc + rc).
Proof.
  revert rc acc b. induction fuel as [| fuel IH]; intros rc acc b Hb Hrc Hacc; cbn [ranges_loop];
    destruct (Z.leb_spec rc 0); repeat consume; try (split; [done | lia]).
  specialize (IH (rc - 1) (acc ++ [mkAckRange a a0]) b'0 ltac:(eassumption) ltac:(lia)).
  rewrite length_app in IH. simpl length in IH.
  replace (Z.of_nat (length acc + 1) + (rc - 1)) with (len acc + rc) in IH by lia.
  apply IH, Forall_app_2; [done |]. by apply Forall_singleton.
Qed.

Lemma padding_loop_consumes fuel count b :
  buf_ok b -> exists n, padding_loop fuel count b = (count + Z.of_nat n, advance b n) /\ (n <= length (rest b))%nat.
Proof.
  revert count b. induction fuel as [| fuel IH]; intros count b Hb; simpl.
  - exists 0%nat. rewrite advance_0, Z.add_0_r. split; [done | lia].
  - assert (Hz : exists n, (count, b) = (count + Z.of_nat n, advance b n) /\ (n <= length (rest b))%nat).
    { exists 0%nat. rewrite advance_0, Z.add_0_r. split; [done | lia]. }
    destruct (0 <? remaining b); [| done].
    destruct (get_u8 b) as [[x b'] | e] eqn:E; [| done].
    destruct x; [| done | done]. apply get_u8_inv in E as [Hr ->].
    destruct (IH (count + 1) (advance b 1)) as (n & -> & Hn).
    { apply buf_ok_advance; [done |]. rewrite Hr. simpl. lia. }
    exists (S n). rewrite advance_advance. split; [f_equal; lia |]. rewrite Hr. simpl. lia.
Qed.

(** Frame conditions that only mention the fields read. *)
Ltac frame_fields_ok := simpl; destruct_and?; split_and?; try done; try lia; try congruence.

Lemma consumes_ack typ b : buf_ok b -> consumes b (decode_ack typ b) frame_ok.
Proof.
  intros Hb. unfold decode_ack. do 4 consume.
  eapply (consumes_bind _ _ _ (fun rs => Forall range_ok rs /\ len rs = len (@nil AckRange) + a1));
    [done | by apply consumes_ranges; [| unfold is_varint in *; lia | constructor] |].
  intros rs c Hc [Hrs Hl]. cbv beta iota. repeat consume; frame_fields_ok; by rewrite Hl.
Qed.

Lemma consumes_stream typ b : buf_ok b -> consumes b (decode_stream typ b) frame_ok.
Proof.
  intros Hb. unfold decode_stream.
  assert (Hz : is_varint 0) by (apply is_varint_small; lia).
  repeat consume; frame_fields_ok.
Qed.

Lemma consumes_new_connection_id b : buf_ok b -> consumes b (decode_new_connection_id b) frame_ok.
Proof.
  intros Hb. unfold decode_new_connection_id. repeat consume.
  apply orb_false_elim in Heqb1 as [?%Z.eqb_neq ?%Z.ltb_ge]. apply Z.ltb_ge in Heqb0.
  unfold is_u8 in *. frame_fields_ok.
Qed.

Lemma consumes_connection_close typ b :
  buf_ok b -> typ = 0x1c \/ typ = 0x1d -> consumes b (decode_connection_close typ b) frame_ok.
Proof.
  intros Hb [-> | ->]; unfold decode_connection_close; simpl Z.eqb; cbv iota; consume; cbv beta.
  - eapply (consumes_bind _ _ _ (fun ft => exists t, ft = Some t /\ is_varint t)); [done | |].
    + consume. apply consumes_ret. by eexists.
    + intros ? ? ? (t & -> & Ht). cbv beta iota. repeat consume; frame_fields_ok.
  - repeat consume; frame_fields_ok.
Qed.

Lemma consumes_body typ b : buf_ok b -> consumes b (decode_body typ b) frame_ok.
Proof.
  intros Hb. unfold decode_body.
  repeat first [ exact I | consume
               | by apply consumes_ack | by apply consumes_stream | by apply consumes_new_connection_id
               | apply consumes_connection_close; by auto
               | match goal with |- consumes _ (match ?x with _ => _ end) _ => destruct x eqn:?; subst end ].
  all: try (frame_fields_ok; fail).
  - destruct (padding_loop_consumes (Z.to_nat (remaining b)) 1 b Hb) as (n & E & Hn).
    rewrite E in Heqp. injection Heqp as <- <-. split; [simpl; lia | by exists n].
  - apply Z.ltb_ge in Heqb0. change (Z.shiftl 1 60) with (2 ^ 60) in Heqb0.
    unfold is_varint in *. simpl. lia.
  - apply Z.eqb_neq in Heqb0. frame_fields_ok. intros ->. simpl in *. lia.
  - apply Z.ltb_ge in Heqb0. change (Z.shiftl 1 60) with (2 ^ 60) in Heqb0.
    unfold is_varint in *. simpl. lia.
Qed.

(** A decoded frame is well-formed, and at least its type byte was consumed. *)
Lemma decode_frame_inv b f b' :
  buf_ok b -> decode_frame b = Ok (f, b') ->
  frame_ok f /\ exists n, b' = advance b n /\ (1 <= n <= length (rest b))%nat.
Proof.
  intros Hb. unfold decode_frame. destruct (get_varint b) as [[t b1] | e] eqn:E; [| done].
  cbn [lift map_err]. unfold mbind, result_bind.
  destruct (get_varint_inv _ _ _ E (proj1 (proj2 Hb))) as (_ & n & Hn & -> & Hl).
  assert (Hn1 : (1 <= n)%nat) by (repeat (apply elem_of_cons in Hn as [-> | Hn]; [lia |]); by apply elem_of_nil in Hn).
  pose proof (consumes_body t _ (buf_ok_advance _ _ Hb Hl)) as Hc. intros Hd. rewrite Hd in Hc.
  destruct Hc as (Hf & m & -> & Hm). split; [done |]. exists (n + m)%nat.
  rewrite advance_advance. rewrite rest_advance, length_drop in Hm. split; [done | lia].
Qed.

(** ** Lemmas: the fuel of the loops is enough *)

(** The loop [for _ in 0..n] without a bound. *)
Fixpoint ranges_for (n : nat) (acc : list AckRange) : frame_reader (list AckRange) := fun b =>
  match n with
  | O => Ok (acc, b)
  | S k =>
      '(gap, b) ← lift (get_varint b);
      '(range, b) ← lift (get_varint b);
      ranges_for k (acc ++ [mkAckRange gap range]) b
  end.

Lemma get_varint_advances b v b' :
  get_varint b = Ok (v, b') -> (length (rest b') < length (rest b))%nat.
Proof.
  unfold get_varint. destruct (get_u8 b) as [[x b1] | e] eqn:E; [| done]. simpl.
  apply get_u8_inv in E as [Hr ->]. intros H. apply get_varint_loop_inv in H as [-> Hl].
  rewrite rest_advance, length_drop, Hr. simpl. lia.
Qed.

Lemma ranges_loop_for fuel rc acc b :
  (length (rest b) < fuel)%nat -> ranges_loop fuel rc acc b = ranges_for (Z.to_nat rc) acc b.
Proof.
  revert rc acc b. induction fuel as [| fuel IH]; intros rc acc b Hf; [lia |]. cbn [ranges_loop].
  destruct (Z.leb_spec rc 0).
  - by replace (Z.to_nat rc) with 0%nat by lia.
  - replace (Z.to_nat rc) with (S (Z.to_nat (rc - 1))) by lia. cbn [ranges_for].
    destruct (get_varint b) as [[g b1] | e] eqn:E1; [| done]. simpl.
    destruct (get_varint b1) as [[r b2] | e] eqn:E2; [| done]. simpl.
    apply get_varint_advances in E1, E2. apply IH. lia.
Qed.

Lemma decode_payload_fuel fuel fuel' b :
  buf_ok b -> (length (rest b) <= fuel)%nat -> (length (rest b) <= fuel')%nat ->
  decode_payload fuel b = decode_payload fuel' b.
Proof.
  revert fuel' b. induction fuel as [| fuel IH]; intros fuel' b Hb H1 H2;
    destruct fuel' as [| fuel']; cbn [decode_payload]; try done.
  - assert (buf_is_empty b = true) as ->; [| done].
    apply buf_is_empty_rest; [apply Hb |]. apply length_zero_iff_nil. lia.
  - assert (buf_is_empty b = true) as ->; [| done].
    apply buf_is_empty_rest; [apply Hb |]. apply length_zero_iff_nil. lia.
  - destruct (buf_is_empty b); [done |].
    destruct (decode_frame b) as [[f b'] | e] eqn:E; [| done]. simpl.
    destruct (decode_frame_inv _ _ _ Hb E) as (_ & n & -> & Hn).
    rewrite (IH fuel'); [done | apply buf_ok_advance; [done | lia] | |];
      rewrite rest_advance, length_drop; lia.
Qed.

(** ** Lemmas: payloads *)

(** Encoding a list of frames, as the packet assembler does. *)
Definition payload_bytes (fs : list Frame) : list Z := fold_left (fun out f => encode f out) fs [].

Definition is_padding (f : Frame) : bool := match f with Padding _ => true | _ => false end.

(** No PADDING frame directly follows another: the decoder would merge them. *)
Fixpoint no_adjacent_padding (fs : list Frame) : bool :=
  match fs with
  | f :: (g :: _) as tl => negb (is_padding f && is_padding g) && no_adjacent_padding tl
  | _ => true
  end.

Lemma payload_bytes_acc fs out :
  fold_left (fun out f => encode f out) fs out = out ++ concat (map frame_bytes fs).
Proof.
  revert out. induction fs as [| f fs IH]; intros out; simpl; [by rewrite app_nil_r |].
  by rewrite IH, encode_app, app_assoc.
Qed.

Lemma varint_bytes_small v : 0 <= v < 64 -> varint_bytes v = [v].
Proof.
  intros Hv. unfold varint_bytes, put_varint. rewrite Z.min_l by (rewrite VARINT_MAX_eq; lia).
  unfold varint_size. rewrite (proj2 (Z.ltb_lt _ _)) by (change (Z.shiftl 1 6) with 64; lia).
  simpl. by rewrite as_u8_small by (unfold is_u8; lia).
Qed.

Lemma frame_bytes_head f : frame_ok f -> head (frame_bytes f) = Some (frame_tag f).
Proof.
  intros Hok. rewrite frame_bytes_split, varint_bytes_small by (done || by apply frame_tag_range). done.
Qed.

Lemma frame_tag_padding f : frame_ok f -> is_padding f = false -> frame_tag f <> 0.
Proof. destruct f as [| | | | | | ? ? [] ? | | | | | | | ? ? [] ? | | | | [] | [] | | |]; simpl; lia || done. Qed.

Lemma frame_follow_next f fs :
  Forall frame_ok (f :: fs) -> no_adjacent_padding (f :: fs) = true ->
  frame_follow f (concat (map frame_bytes fs)).
Proof.
  intros Hok Hadj. destruct f; try exact I. destruct fs as [| g fs]; [done |].
  cbn [no_adjacent_padding is_padding andb] in Hadj. apply andb_prop in Hadj as [Hg _]. apply negb_true_iff in Hg.
  apply Forall_cons in Hok as [_ Hok]. apply Forall_cons in Hok as [Hok _].
  unfold frame_follow. simpl. pose proof (frame_bytes_head g Hok) as Hh.
  pose proof (frame_tag_padding g Hok Hg). destruct (frame_bytes g); simpl in *; congruence.
Qed.

Lemma no_adjacent_padding_tail f fs :
  no_adjacent_padding (f :: fs) = true -> no_adjacent_padding fs = true.
Proof. destruct fs as [| g fs]; [done |]. intros [_ ?]%andb_prop. done. Qed.

Lemma frame_bytes_pos f : frame_ok f -> (1 <= length (frame_bytes f))%nat.
Proof. intros H%frame_bytes_head. destruct (frame_bytes f); simpl in *; [done | lia]. Qed.

Lemma decode_payload_bytes fs fuel b :
  Forall frame_ok fs -> no_adjacent_padding fs = true -> buf_wf b ->
  rest b = concat (map frame_bytes fs) -> (length fs <= fuel)%nat ->
  decode_payload fuel b = Ok fs.
Proof.
  revert fuel b. induction fs as [| f fs IH]; intros fuel b Hok Hadj Hb Hr Hf.
  - assert (He : buf_is_empty b = true) by (by apply buf_is_empty_rest).
    destruct fuel; cbn [decode_payload]; by rewrite He.
  - destruct fuel as [| fuel]; [simpl in Hf; lia |]. cbn [decode_payload].
    pose proof (frame_follow_next f fs Hok Hadj) as Hfol.
    apply Forall_cons in Hok as [Hf1 Hok]. simpl in Hr. pose proof (frame_bytes_pos f Hf1).
    destruct (buf_is_empty b) eqn:He.
    { apply buf_is_empty_rest in He; [| done]. rewrite He in Hr.
      destruct (frame_bytes f); simpl in *; [lia | done]. }
    rewrite (decode_frame_bytes f b _ Hf1 Hfol Hb Hr). simpl.
    rewrite IH; [done | done | by eapply no_adjacent_padding_tail | | | simpl in Hf; lia].
    + by eapply buf_wf_advance_app.
    + by apply rest_advance_app.
Qed.

Lemma buf_new_wf l : len l <= u64_MAX -> buf_wf (buf_new l).
Proof. intros. unfold buf_wf. simpl. lia. Qed.

Lemma buf_new_ok l : bytes_ok l -> len l <= VARINT_MAX -> buf_ok (buf_new l).
Proof.
  intros H1 H2. split; [| by split]. apply buf_new_wf. rewrite VARINT_MAX_eq in H2. unfold u64_MAX. lia.
Qed.

Lemma payload_length fs : Forall frame_ok fs -> (length fs <= length (concat (map frame_bytes fs)))%nat.
Proof.
  induction 1 as [| f fs Hf _ IH]; simpl; [lia |]. rewrite length_app.
  pose proof (frame_bytes_pos f Hf). lia.
Qed.

(** ** Properties *)

(** C26: For every well-formed frame, [decode_frame] run on the bytes [encode]
    produced, followed by arbitrary further bytes (not starting with 0 if the
    frame is PADDING), returns exactly that frame and leaves the cursor at the
    first of the further bytes. *)
Theorem frame_roundtrip f tl :
  frame_ok f -> frame_follow f tl -> len (encode f [] ++ tl) <= u64_MAX ->
  decode_frame (buf_new (encode f [] ++ tl))
  = Ok (f, mkBuf (encode f [] ++ tl) (length (encode f []))).
Proof.
  intros Hok Hfol Hl.
  by rewrite (decode_frame_bytes f _ tl Hok Hfol (buf_new_wf _ Hl) (rest_new _)).
Qed.

Lemma frame_roundtrip_witness :
  decode_frame (buf_new (encode (Ack 1000 25 3 [mkAckRange 2 70000]) [] ++ [6; 0; 0]))
  = Ok (Ack 1000 25 3 [mkAckRange 2 70000],
        mkBuf (encode (Ack 1000 25 3 [mkAckRange 2 70000]) [] ++ [6; 0; 0])
              (length (encode (Ack 1000 25 3 [mkAckRange 2 70000]) []))).
Proof.
  apply frame_roundtrip.
  - eapply bool_decide_unpack. vm_compute. exact I.
  - exact I.
  - vm_compute. discriminate.
Defined.

(** A packet payload assembled by encoding a list of well-formed frames (no
    two PADDING frames adjacent) is decoded by the receive loop to exactly that
    list, whatever fuel of at least the payload's length the loop is given. *)
Theorem payload_roundtrip fs fuel :
  Forall frame_ok fs -> no_adjacent_padding fs = true ->
  len (payload_bytes fs) <= u64_MAX -> (length (payload_bytes fs) <= fuel)%nat ->
  decode_payload fuel (buf_new (payload_bytes fs)) = Ok fs.
Proof.
  intros Hok Hadj Hl Hf. unfold payload_bytes in *. rewrite payload_bytes_acc in *.
  apply decode_payload_bytes; [done | done | by apply buf_new_wf | done |].
  pose proof (payload_length fs Hok). simpl in Hf. lia.
Qed.

Lemma payload_roundtrip_witness :
  decode_payload 40 (buf_new (payload_bytes [Ping; Crypto 5 [1; 2; 3]; Padding 7;
     Stream 4 100 true [9]; ConnectionClose 10 (Some 8) false [65]]))
  = Ok [Ping; Crypto 5 [1; 2; 3]; Padding 7; Stream 4 100 true [9]; ConnectionClose 10 (Some 8) false [65]].
Proof.
  apply payload_roundtrip.
  - eapply bool_decide_unpack. vm_compute. exact I.
  - reflexivity.
  - vm_compute. discriminate.
  - apply Nat.leb_le. reflexivity.
Defined.

(** C31: On arbitrary input bytes, if [decode_frame] succeeds it has consumed at
    least one byte and never moved past the end of the buffer, and the frame it
    returns is well-formed: encoding it and decoding again gives it back. *)
Theorem decode_frame_sound l f b' :
  bytes_ok l -> len l <= VARINT_MAX -> decode_frame (buf_new l) = Ok (f, b') ->
  (exists n, (1 <= n <= length l)%nat /\ b' = mkBuf l n) /\
  frame_ok f /\
  (len (encode f []) <= u64_MAX ->
   decode_frame (buf_new (encode f [])) = Ok (f, advance (buf_new (encode f [])) (length (encode f [])))).
Proof.
  intros Hl Hm Hd. destruct (decode_frame_inv _ _ _ (buf_new_ok l Hl Hm) Hd) as (Hf & n & -> & Hn).
  split; [by exists n |]. split; [done |]. intros He.
  apply (decode_frame_bytes f _ []); [done | by destruct f | by apply buf_new_wf |].
  by rewrite app_nil_r.
Qed.

Lemma decode_frame_sound_witness :
  (exists n, (1 <= n <= length [0x40; 0x12; 0x41; 0x00]%Z)%nat /\
             mkBuf [0x40; 0x12; 0x41; 0x00] 4 = mkBuf [0x40; 0x12; 0x41; 0x00] n) /\
  frame_ok (MaxStreams Bidirectional 256) /\
  (len (encode (MaxStreams Bidirectional 256) []) <= u64_MAX ->
   decode_frame (buf_new (encode (MaxStreams Bidirectional 256) []))
   = Ok (MaxStreams Bidirectional 256,
         advance (buf_new (encode (MaxStreams Bidirectional 256) []))
                 (length (encode (MaxStreams Bidirectional 256) [])))).
Proof.
  apply decode_frame_sound.
  - eapply bool_decide_unpack. vm_compute. exact I.
  - vm_compute. discriminate.
  - reflexivity.
Defined.

(** The ACK-range loop terminates within the buffer: with the fuel the
    decoder gives it ([remaining + 1]), it returns what the unbounded
    [for _ in 0..range_count] returns, for every announced [range_count]. *)
Theorem ack_ranges_fuel_enough b rc acc :
  buf_wf b ->
  ranges_loop (S (Z.to_nat (remaining b))) rc acc b = ranges_for (Z.to_nat rc) acc b.
Proof. intros Hb. apply ranges_loop_for. rewrite <- length_rest by done. lia. Qed.

Lemma ack_ranges_fuel_enough_witness :
  ranges_loop (S (Z.to_nat (remaining (buf_new [1; 2; 3; 4; 5])))) 2 [] (buf_new [1; 2; 3; 4; 5])
  = ranges_for 2 [] (buf_new [1; 2; 3; 4; 5]).
Proof. apply ack_ranges_fuel_enough. apply buf_new_wf. vm_compute. discriminate. Defined.
