(* ===== verification/ParamsCodec.v ===== *)
(** * Transport-parameter codec ([oxiquic-transport/src/params_codec.rs])

    The [quic_transport_parameters] extension as a sequence of (id, length,
    value) triples: [encode_transport_params], [decode_transport_params] and the
    proof that decoding inverts encoding. *)

From S2P Require Import Prelude CoreTypes Coding FrameCodec.

(** ** Parameter identifiers *)

Definition ID_MAX_IDLE_TIMEOUT : Z := 0x01.
Definition ID_MAX_UDP_PAYLOAD_SIZE : Z := 0x03.
Definition ID_INITIAL_MAX_DATA : Z := 0x04.
Definition ID_INITIAL_MAX_STREAM_DATA_BIDI_LOCAL : Z := 0x05.
Definition ID_INITIAL_MAX_STREAM_DATA_BIDI_REMOTE : Z := 0x06.
Definition ID_INITIAL_MAX_STREAM_DATA_UNI : Z := 0x07.
Definition ID_INITIAL_MAX_STREAMS_BIDI : Z := 0x08.
Definition ID_INITIAL_MAX_STREAMS_UNI : Z := 0x09.
Definition ID_ACK_DELAY_EXPONENT : Z := 0x0a.
Definition ID_MAX_ACK_DELAY : Z := 0x0b.
Definition ID_DISABLE_ACTIVE_MIGRATION : Z := 0x0c.
Definition ID_ACTIVE_CONNECTION_ID_LIMIT : Z := 0x0e.
Definition ID_MAX_DATAGRAM_FRAME_SIZE : Z := 0x20.

(** ** Field assignments [params.f = v] *)

Definition set_max_idle_timeout_ms (p : TransportParams) (v : Z) : TransportParams :=
  mkParams v (max_udp_payload_size p) (initial_max_data p)
    (initial_max_stream_data_bidi_local p) (initial_max_stream_data_bidi_remote p)
    (initial_max_stream_data_uni p) (initial_max_streams_bidi p) (initial_max_streams_uni p)
    (ack_delay_exponent p) (max_ack_delay_ms p) (active_connection_id_limit p)
    (disable_active_migration p) (max_datagram_frame_size p).
Definition set_max_udp_payload_size (p : TransportParams) (v : Z) : TransportParams :=
  mkParams (max_idle_timeout_ms p) v (initial_max_data p) (initial_max_stream_data_bidi_local p)
    (initial_max_stream_data_bidi_remote p) (initial_max_stream_data_uni p)
    (initial_max_streams_bidi p) (initial_max_streams_uni p) (ack_delay_exponent p)
    (max_ack_delay_ms p) (active_connection_id_limit p) (disable_active_migration p)
    (max_datagram_frame_size p).
Definition set_initial_max_data (p : TransportParams) (v : Z) : TransportParams :=
  mkParams (max_idle_timeout_ms p) (max_udp_payload_size p) v
    (initial_max_stream_data_bidi_local p) (initial_max_stream_data_bidi_remote p)
    (initial_max_stream_data_uni p) (initial_max_streams_bidi p) (initial_max_streams_uni p)
    (ack_delay_exponent p) (max_ack_delay_ms p) (active_connection_id_limit p)
    (disable_active_migration p) (max_datagram_frame_size p).
Definition set_initial_max_stream_data_bidi_local (p : TransportParams) (v : Z) : TransportParams :=
  mkParams (max_idle_timeout_ms p) (max_udp_payload_size p) (initial_max_data p) v
    (initial_max_stream_data_bidi_remote p) (initial_max_stream_data_uni p)
    (initial_max_streams_bidi p) (initial_max_streams_uni p) (ack_delay_exponent p)
    (max_ack_delay_ms p) (active_connection_id_limit p) (disable_active_migration p)
    (max_datagram_frame_size p).
Definition set_initial_max_stream_data_bidi_remote (p : TransportParams) (v : Z) : TransportParams :=
  mkParams (max_idle_timeout_ms p) (max_udp_payload_size p) (initial_max_data p)
    (initial_max_stream_data_bidi_local p) v (initial_max_stream_data_uni p)
    (initial_max_streams_bidi p) (initial_max_streams_uni p) (ack_delay_exponent p)
    (max_ack_delay_ms p) (active_connection_id_limit p) (disable_active_migration p)
    (max_datagram_frame_size p).
Definition set_initial_max_stream_data_uni (p : TransportParams) (v : Z) : TransportParams :=
  mkParams (max_idle_timeout_ms p) (max_udp_payload_size p) (initial_max_data p)
    (initial_max_stream_data_bidi_local p) (initial_max_stream_data_bidi_remote p) v
    (initial_max_streams_bidi p) (initial_max_streams_uni p) (ack_delay_exponent p)
    (max_ack_delay_ms p) (active_connection_id_limit p) (disable_active_migration p)
    (max_datagram_frame_size p).
Definition set_initial_max_streams_bidi (p : TransportParams) (v : Z) : TransportParams :=
  mkParams (max_idle_timeout_ms p) (max_udp_payload_size p) (initial_max_data p)
    (initial_max_stream_data_bidi_local p) (initial_max_stream_data_bidi_remote p)
    (initial_max_stream_data_uni p) v (initial_max_streams_uni p) (ack_delay_exponent p)
    (max_ack_delay_ms p) (active_connection_id_limit p) (disable_active_migration p)
    (max_datagram_frame_size p).
Definition set_initial_max_streams_uni (p : TransportParams) (v : Z) : TransportParams :=
  mkParams (max_idle_timeout_ms p) (max_udp_payload_size p) (initial_max_data p)
    (initial_max_stream_data_bidi_local p) (initial_max_stream_data_bidi_remote p)
    (initial_max_stream_data_uni p) (initial_max_streams_bidi p) v (ack_delay_exponent p)
    (max_ack_delay_ms p) (active_connection_id_limit p) (disable_active_migration p)
    (max_datagram_frame_size p).
Definition set_ack_delay_exponent (p : TransportParams) (v : Z) : TransportParams :=
  mkParams (max_idle_timeout_ms p) (max_udp_payload_size p) (initial_max_data p)
    (initial_max_stream_data_bidi_local p) (initial_max_stream_data_bidi_remote p)
    (initial_max_stream_data_uni p) (initial_max_streams_bidi p) (initial_max_streams_uni p) v
    (max_ack_delay_ms p) (active_connection_id_limit p) (disable_active_migration p)
    (max_datagram_frame_size p).
Definition set_max_ack_delay_ms (p : TransportParams) (v : Z) : TransportParams :=
  mkParams (max_idle_timeout_ms p) (max_udp_payload_size p) (initial_max_data p)
    (initial_max_stream_data_bidi_local p) (initial_max_stream_data_bidi_remote p)
    (initial_max_stream_data_uni p) (initial_max_streams_bidi p) (initial_max_streams_uni p)
    (ack_delay_exponent p) v (active_connection_id_limit p) (disable_active_migration p)
    (max_datagram_frame_size p).
Definition set_active_connection_id_limit (p : TransportParams) (v : Z) : TransportParams :=
  mkParams (max_idle_timeout_ms p) (max_udp_payload_size p) (initial_max_data p)
    (initial_max_stream_data_bidi_local p) (initial_max_stream_data_bidi_remote p)
    (initial_max_stream_data_uni p) (initial_max_streams_bidi p) (initial_max_streams_uni p)
    (ack_delay_exponent p) (max_ack_delay_ms p) v (disable_active_migration p)
    (max_datagram_frame_size p).
Definition set_disable_active_migration (p : TransportParams) (v : bool) : TransportParams :=
  mkParams (max_idle_timeout_ms p) (max_udp_payload_size p) (initial_max_data p)
    (initial_max_stream_data_bidi_local p) (initial_max_stream_data_bidi_remote p)
    (initial_max_stream_data_uni p) (initial_max_streams_bidi p) (initial_max_streams_uni p)
    (ack_delay_exponent p) (max_ack_delay_ms p) (active_connection_id_limit p) v
    (max_datagram_frame_size p).
Definition set_max_datagram_frame_size (p : TransportParams) (v : Z) : TransportParams :=
  mkParams (max_idle_timeout_ms p) (max_udp_payload_size p) (initial_max_data p)
    (initial_max_stream_data_bidi_local p) (initial_max_stream_data_bidi_remote p)
    (initial_max_stream_data_uni p) (initial_max_streams_bidi p) (initial_max_streams_uni p)
    (ack_delay_exponent p) (max_ack_delay_ms p) (active_connection_id_limit p)
    (disable_active_migration p) v.

(** ** Encoding *)

Definition put_varint_param (out : list Z) (id value : Z) : list Z :=
  let out := put_varint out id in
  let out := put_varint out (varint_size value) in
  put_varint out value.

(** [if value != 0 { put_varint_param(out, id, value) }]. *)
Definition put_nonzero_param (out : list Z) (id value : Z) : list Z :=
  if negb (value =? 0) then put_varint_param out id value else out.

Definition encode_transport_params (params : TransportParams) : list Z :=
  let out := [] in
  let out := put_nonzero_param out ID_MAX_IDLE_TIMEOUT (max_idle_timeout_ms params) in
  let out := put_varint_param out ID_MAX_UDP_PAYLOAD_SIZE (max_udp_payload_size params) in
  let out := put_nonzero_param out ID_INITIAL_MAX_DATA (initial_max_data params) in
  let out := put_nonzero_param out ID_INITIAL_MAX_STREAM_DATA_BIDI_LOCAL
               (initial_max_stream_data_bidi_local params) in
  let out := put_nonzero_param out ID_INITIAL_MAX_STREAM_DATA_BIDI_REMOTE
               (initial_max_stream_data_bidi_remote params) in
  let out := put_nonzero_param out ID_INITIAL_MAX_STREAM_DATA_UNI
               (initial_max_stream_data_uni params) in
  let out := put_nonzero_param out ID_INITIAL_MAX_STREAMS_BIDI (initial_max_streams_bidi params) in
  let out := put_nonzero_param out ID_INITIAL_MAX_STREAMS_UNI (initial_max_streams_uni params) in
  let out := put_varint_param out ID_ACK_DELAY_EXPONENT (ack_delay_exponent params) in
  let out := put_varint_param out ID_MAX_ACK_DELAY (max_ack_delay_ms params) in
  let out := put_varint_param out ID_ACTIVE_CONNECTION_ID_LIMIT
               (active_connection_id_limit params) in
  let out := if disable_active_migration params
             then put_varint (put_varint out ID_DISABLE_ACTIVE_MIGRATION) 0
             else out in
  put_nonzero_param out ID_MAX_DATAGRAM_FRAME_SIZE (max_datagram_frame_size params).

(** ** Decoding *)

Definition param_error : OxiQuicError := ETransportError TransportParameterError None.

Definition param_lift {A} (r : result CodecError A) : result OxiQuicError A :=
  map_err (fun _ => param_error) r.

(** The closure [scalar]: the value is one varint and nothing else. *)
Definition scalar (value : list Z) : result OxiQuicError Z :=
  '(v, inner) ← param_lift (get_varint (buf_new value));
  if negb (buf_is_empty inner) then Err param_error else Ok v.

(** The [match id] of the loop body. *)
Definition apply_param (params : TransportParams) (id : Z) (value : list Z)
    : result OxiQuicError TransportParams :=
  if id =? ID_MAX_IDLE_TIMEOUT then set_max_idle_timeout_ms params <$> scalar value
  else if id =? ID_MAX_UDP_PAYLOAD_SIZE then set_max_udp_payload_size params <$> scalar value
  else if id =? ID_INITIAL_MAX_DATA then set_initial_max_data params <$> scalar value
  else if id =? ID_INITIAL_MAX_STREAM_DATA_BIDI_LOCAL
    then set_initial_max_stream_data_bidi_local params <$> scalar value
  else if id =? ID_INITIAL_MAX_STREAM_DATA_BIDI_REMOTE
    then set_initial_max_stream_data_bidi_remote params <$> scalar value
  else if id =? ID_INITIAL_MAX_STREAM_DATA_UNI
    then set_initial_max_stream_data_uni params <$> scalar value
  else if id =? ID_INITIAL_MAX_STREAMS_BIDI then set_initial_max_streams_bidi params <$> scalar value
  else if id =? ID_INITIAL_MAX_STREAMS_UNI then set_initial_max_streams_uni params <$> scalar value
  else if id =? ID_ACK_DELAY_EXPONENT
    then (fun v => set_ack_delay_exponent params (as_u8 (Z.min v u8_MAX))) <$> scalar value
  else if id =? ID_MAX_ACK_DELAY then set_max_ack_delay_ms params <$> scalar value
  else if id =? ID_ACTIVE_CONNECTION_ID_LIMIT
    then set_active_connection_id_limit params <$> scalar value
  else if id =? ID_DISABLE_ACTIVE_MIGRATION then
    match value with [] => Ok (set_disable_active_migration params true) | _ => Err param_error end
  else if id =? ID_MAX_DATAGRAM_FRAME_SIZE then set_max_datagram_frame_size params <$> scalar value
  else Ok params.

(** [while !buf.is_empty()]: each turn consumes at least one byte. *)
Fixpoint decode_params_loop (fuel : nat) (params : TransportParams) (b : Buf)
    : result OxiQuicError TransportParams :=
  if buf_is_empty b then Ok params
  else match fuel with
       | O => Err param_error
       | S k =>
           '(id, b) ← param_lift (get_varint b);
           '(n, b) ← param_lift (get_varint b);
           '(value, b) ← param_lift (get_bytes n b);
           params ← apply_param params id value;
           decode_params_loop k params b
       end.

Definition decode_transport_params (bytes : list Z) : result OxiQuicError TransportParams :=
  decode_params_loop (length bytes) default_params (buf_new bytes).

(** ** Well-formed parameters: every field fits its type and the wire *)

Definition params_ok (p : TransportParams) : Prop :=
  is_varint (max_idle_timeout_ms p) /\ is_varint (max_udp_payload_size p) /\
  is_varint (initial_max_data p) /\ is_varint (initial_max_stream_data_bidi_local p) /\
  is_varint (initial_max_stream_data_bidi_remote p) /\ is_varint (initial_max_stream_data_uni p) /\
  is_varint (initial_max_streams_bidi p) /\ is_varint (initial_max_streams_uni p) /\
  is_u8 (ack_delay_exponent p) /\ is_varint (max_ack_delay_ms p) /\
  is_varint (active_connection_id_limit p) /\ is_varint (max_datagram_frame_size p).

#[export] Instance params_ok_dec p : Decision (params_ok p).
Proof. unfold params_ok. apply _. Defined.

(** ** Lemmas *)

(** One (id, length, value) triple on the wire. *)
Definition item (id : Z) (v : list Z) : list Z := varint_bytes id ++ varint_bytes (len v) ++ v.

Definition nonzero_item (id v : Z) : list Z := if v =? 0 then [] else item id (varint_bytes v).

Lemma put_varint_param_item out id v :
  is_varint v -> put_varint_param out id v = out ++ item id (varint_bytes v).
Proof.
  intros Hv. unfold put_varint_param, item. rewrite !put_varint_app, <- !app_assoc.
  by rewrite varint_bytes_length.
Qed.

Lemma put_nonzero_param_item out id v :
  is_varint v -> put_nonzero_param out id v = out ++ nonzero_item id v.
Proof.
  intros Hv. unfold put_nonzero_param, nonzero_item. destruct (v =? 0); simpl.
  - by rewrite app_nil_r.
  - by apply put_varint_param_item.
Qed.

(** [params_to l p q]: with input [l] left and [p] decoded so far, the loop
    returns [q], for any fuel of at least the input's length. *)
Definition params_to (l : list Z) (p q : TransportParams) : Prop :=
  forall fuel b, buf_wf b -> rest b = l -> (length l <= fuel)%nat ->
  decode_params_loop fuel p b = Ok q.

Lemma params_to_done p q : p = q -> params_to [] p q.
Proof.
  intros <- fuel b Hb Hr _. assert (He : buf_is_empty b = true) by (by apply buf_is_empty_rest).
  destruct fuel; cbn [decode_params_loop]; by rewrite He.
Qed.

Lemma params_to_item tl p p' q id v :
  is_varint id -> is_varint (len v) -> apply_param p id v = Ok p' ->
  params_to tl p' q -> params_to (item id v ++ tl) p q.
Proof.
  intros Hid Hv Ha Htl fuel b Hb Hr Hf. unfold item in *.
  rewrite !length_app in Hf. pose proof (varint_bytes_pos id).
  destruct fuel as [| fuel]; [lia |]. cbn [decode_params_loop].
  destruct (buf_is_empty b) eqn:He.
  { apply buf_is_empty_rest in He; [| done]. rewrite He in Hr.
    apply (f_equal length) in Hr. rewrite !length_app in Hr. simpl in Hr. lia. }
  rewrite <- !app_assoc in Hr.
  rewrite (get_varint_bytes id b _ Hid Hr). simpl.
  pose proof (buf_wf_advance_app _ _ _ Hb Hr) as Hb1. apply rest_advance_app in Hr.
  rewrite (get_varint_bytes _ _ _ Hv Hr). simpl.
  pose proof (buf_wf_advance_app _ _ _ Hb1 Hr) as Hb2. apply rest_advance_app in Hr.
  rewrite (get_bytes_app _ _ _ Hb2 Hr). simpl. rewrite Ha. simpl.
  apply Htl; [by eapply buf_wf_advance_app | by apply rest_advance_app in Hr | lia].
Qed.

Lemma scalar_varint v : is_varint v -> scalar (varint_bytes v) = Ok v.
Proof.
  intros Hv. unfold scalar.
  rewrite (get_varint_bytes v _ [] Hv) by (by rewrite app_nil_r). simpl.
  unfold buf_is_empty, remaining, advance. simpl. by rewrite Z.sub_diag.
Qed.

Lemma varint_bytes_len_ok v : is_varint v -> is_varint (len (varint_bytes v)).
Proof.
  intros Hv. rewrite varint_bytes_length by done. apply is_varint_small.
  destruct (varint_size_cases v) as [-> | [-> | [-> | ->]]]; lia.
Qed.

Lemma params_to_scalar tl p p' q id v :
  0 <= id < 64 -> is_varint v -> apply_param p id (varint_bytes v) = Ok p' ->
  params_to tl p' q -> params_to (item id (varint_bytes v) ++ tl) p q.
Proof. intros. by eapply params_to_item; [apply is_varint_small | apply varint_bytes_len_ok | |]. Qed.

Lemma params_to_nonzero tl p p' q id v :
  0 <= id < 64 -> is_varint v -> apply_param p id (varint_bytes v) = Ok p' -> (v = 0 -> p' = p) ->
  params_to tl p' q -> params_to (nonzero_item id v ++ tl) p q.
Proof.
  intros Hid Hv Ha H0 Htl. unfold nonzero_item. destruct (Z.eqb_spec v 0) as [E | E].
  - by rewrite <- (H0 E).
  - by eapply params_to_scalar.
Qed.

(** The encoding as a sequence of triples. *)
Definition params_items (p : TransportParams) : list Z :=
  nonzero_item ID_MAX_IDLE_TIMEOUT (max_idle_timeout_ms p) ++
  item ID_MAX_UDP_PAYLOAD_SIZE (varint_bytes (max_udp_payload_size p)) ++
  nonzero_item ID_INITIAL_MAX_DATA (initial_max_data p) ++
  nonzero_item ID_INITIAL_MAX_STREAM_DATA_BIDI_LOCAL (initial_max_stream_data_bidi_local p) ++
  nonzero_item ID_INITIAL_MAX_STREAM_DATA_BIDI_REMOTE (initial_max_stream_data_bidi_remote p) ++
  nonzero_item ID_INITIAL_MAX_STREAM_DATA_UNI (initial_max_stream_data_uni p) ++
  nonzero_item ID_INITIAL_MAX_STREAMS_BIDI (initial_max_streams_bidi p) ++
  nonzero_item ID_INITIAL_MAX_STREAMS_UNI (initial_max_streams_uni p) ++
  item ID_ACK_DELAY_EXPONENT (varint_bytes (ack_delay_exponent p)) ++
  item ID_MAX_ACK_DELAY (varint_bytes (max_ack_delay_ms p)) ++
  item ID_ACTIVE_CONNECTION_ID_LIMIT (varint_bytes (active_connection_id_limit p)) ++
  (if disable_active_migration p then item ID_DISABLE_ACTIVE_MIGRATION [] else []) ++
  nonzero_item ID_MAX_DATAGRAM_FRAME_SIZE (max_datagram_frame_size p) ++ [].

Lemma is_u8_varint v : is_u8 v -> is_varint v.
Proof. unfold is_u8, is_varint. rewrite VARINT_MAX_eq. lia. Qed.

Lemma encode_params_items p : params_ok p -> encode_transport_params p = params_items p.
Proof.
  intros (? & ? & ? & ? & ? & ? & ? & ? & He & ? & ? & ?). apply is_u8_varint in He.
  unfold encode_transport_params, params_items.
  rewrite !put_nonzero_param_item, !put_varint_param_item by done.
  destruct (disable_active_migration p); rewrite ?put_nonzero_param_item, ?put_varint_param_item by done;
    rewrite ?put_varint_app, ?app_nil_l, <- ?app_assoc, ?app_nil_r; done.
Qed.

(** One parameter of the encoding: the assignment it decodes to, with the record
    reduced to constructor form. *)
Ltac params_norm e :=
  eval cbv [
        set_max_idle_timeout_ms set_max_udp_payload_size set_initial_max_data
        set_initial_max_stream_data_bidi_local set_initial_max_stream_data_bidi_remote
        set_initial_max_stream_data_uni set_initial_max_streams_bidi set_initial_max_streams_uni
        set_ack_delay_exponent set_max_ack_delay_ms set_active_connection_id_limit
        set_disable_active_migration set_max_datagram_frame_size default_params
        max_idle_timeout_ms max_udp_payload_size initial_max_data
        initial_max_stream_data_bidi_local initial_max_stream_data_bidi_remote
        initial_max_stream_data_uni initial_max_streams_bidi initial_max_streams_uni
        ack_delay_exponent max_ack_delay_ms active_connection_id_limit disable_active_migration
        max_datagram_frame_size
  ] in e.

Ltac param_step lem :=
  eapply lem; [by vm_compute | done
              | unfold apply_param; simpl Z.eqb; cbv iota; rewrite ?scalar_varint by done;
                cbn [fmap result_fmap];
                match goal with |- Ok ?e = _ => let e' := params_norm e in change e with e' end;
                reflexivity | ..].

Lemma decode_params_items p : params_ok p -> params_to (params_items p) default_params p.
Proof.
  destruct p as [a1 a2 a3 a4 a5 a6 a7 a8 a9 a10 a11 dm a12].
  intros (? & ? & ? & ? & ? & ? & ? & ? & He & ? & ? & ?).
  pose proof (is_u8_varint _ He) as Hev. unfold params_items.
  assert (Hexp : as_u8 (Z.min a9 u8_MAX) = a9).
  { unfold is_u8 in He. simpl in He. unfold as_u8, u8_MAX. rewrite Z.min_l, Z.mod_small; lia. }
  cbn [max_idle_timeout_ms max_udp_payload_size initial_max_data initial_max_stream_data_bidi_local initial_max_stream_data_bidi_remote initial_max_stream_data_uni initial_max_streams_bidi initial_max_streams_uni ack_delay_exponent max_ack_delay_ms active_connection_id_limit disable_active_migration max_datagram_frame_size] in *.
  param_step params_to_nonzero; [by intros -> |].
  param_step params_to_scalar.
  do 6 (param_step params_to_nonzero; [by intros -> |]).
  do 3 param_step params_to_scalar.
  rewrite Hexp. clear Hexp. destruct dm.
  - eapply params_to_item; [apply is_varint_small; by vm_compute | apply is_varint_small; simpl; lia | reflexivity |].
    param_step params_to_nonzero; [by intros -> | by apply params_to_done].
  - rewrite app_nil_l. param_step params_to_nonzero; [by intros -> | by apply params_to_done].
Qed.

(** ** Lemmas: whatever decodes is in range *)

Lemma scalar_range value v : bytes_ok value -> scalar value = Ok v -> is_varint v.
Proof.
  intros Hb. unfold scalar. destruct (get_varint (buf_new value)) as [[x b] | e] eqn:E; [| done]. simpl.
  case_match; [done |]. intros [= <-]. by apply get_varint_inv in E as [Hv _].
Qed.

Lemma apply_param_ok p id value p' : bytes_ok value -> params_ok p -> apply_param p id value = Ok p' -> params_ok p'.
Proof.
  intros Hb (? & ? & ? & ? & ? & ? & ? & ? & ? & ? & ? & ?). unfold apply_param.
  pose proof (scalar_range value) as Hs.
  destruct (scalar value) as [v | e]; [specialize (Hs v Hb eq_refl) |]; cbn [fmap result_fmap];
    repeat match goal with |- (if ?t then _ else _) = _ -> _ => destruct t end;
    try (destruct value; [| done]); try discriminate; intros [= <-]; unfold params_ok; cbn; split_and!; try done.
  unfold as_u8, is_u8. apply Z.mod_pos_bound. done.
Qed.

Lemma decode_loop_ok fuel p b p' : buf_ok b -> params_ok p -> decode_params_loop fuel p b = Ok p' -> params_ok p'.
Proof.
  revert p b. induction fuel as [| fuel IH]; intros p b Hb Hp; cbn [decode_params_loop]; destruct (buf_is_empty b);
    [by intros [= <-] | done | by intros [= <-] |].
  pose proof (consumes_varint b Hb) as C1. destruct (get_varint b) as [[id b1] | e]; [| done]. cbn [param_lift map_err mbind result_bind].
  destruct C1 as (_ & n1 & -> & H1). pose proof (buf_ok_advance b n1 Hb H1) as Hb1.
  pose proof (consumes_varint _ Hb1) as C2. destruct (get_varint (advance b n1)) as [[n b2] | e]; [| done].
  cbn [param_lift map_err mbind result_bind]. destruct C2 as (Hn & n2 & -> & H2). pose proof (buf_ok_advance _ n2 Hb1 H2) as Hb2.
  destruct (get_bytes n _) as [[value b3] | e] eqn:E3; [| done]. cbn [param_lift map_err mbind result_bind].
  destruct Hn as [Hn0 _]. pose proof E3 as E3'. apply get_bytes_inv in E3 as (Hr & Hl & ->); [| done].
  destruct (apply_param p id value) as [p1 | e] eqn:Ea; [| done]. cbn [mbind result_bind].
  assert (Hv : bytes_ok value). { destruct Hb2 as (_ & Hbr & _). rewrite Hr in Hbr. by apply bytes_ok_app in Hbr as [? _]. }
  apply IH; [| by eapply apply_param_ok]. apply buf_ok_advance; [done |]. rewrite Hr, length_app. lia.
Qed.

(** Parameters decoded from a byte string fit their fields. *)
Lemma decode_params_range raw p :
  bytes_ok raw -> len raw <= VARINT_MAX -> decode_transport_params raw = Ok p -> params_ok p.
Proof.
  intros Hb Hl. apply decode_loop_ok.
  - split; [by apply buf_new_wf; rewrite VARINT_MAX_eq in Hl; unfold u64_MAX; lia |]. by rewrite rest_new.
  - eapply bool_decide_unpack. vm_compute. exact I.
Qed.

(** ** Properties *)

(** Transport parameters survive the TLS extension: decoding the bytes
    [encode_transport_params] produces for any parameters whose fields fit the
    wire gives exactly the same parameters, defaults and zero-length flag
    included. *)
Theorem transport_params_roundtrip p :
  params_ok p -> len (encode_transport_params p) <= u64_MAX ->
  decode_transport_params (encode_transport_params p) = Ok p.
Proof.
  intros Hp Hl. unfold decode_transport_params.
  apply (decode_params_items p Hp); [by apply buf_new_wf | |];
    by rewrite ?rest_new, encode_params_items.
Qed.

Lemma transport_params_roundtrip_witness :
  let p := mkParams 30000 1452 (2 ^ 20) 262144 0 262144 100 100 3 25 4 true 65535 in
  decode_transport_params (encode_transport_params p) = Ok p.
Proof.
  apply transport_params_roundtrip.
  - eapply bool_decide_unpack. vm_compute. exact I.
  - vm_compute. discriminate.
Defined.
