(* ===== verification/OrdMap.v ===== *)
(** * Ordered maps: the standard library's [BTreeMap<u64, V>]

    A map is its list of entries in increasing key order.  The order matters to
    the code (reassembly flushes from the lowest offset, loss detection walks
    packet numbers upwards), so it is part of the model.  [om_wf] is the order
    invariant; every operation preserves it, and under it the operations satisfy
    the usual lookup laws, which is all the clients use. *)

From S2P Require Import Prelude.

Notation BTreeMap V := (list (Z * V)) (only parsing).

Section operations.
Context {V : Type}.
Implicit Types m : BTreeMap V.

Definition om_empty : BTreeMap V := [].

(** [get]. *)
Fixpoint om_get (k : Z) (m : BTreeMap V) : option V :=
  match m with
  | [] => None
  | (k', v) :: tl => if k =? k' then Some v else om_get k tl
  end.

(** [insert]: replaces the value of a present key. *)
Fixpoint om_insert (k : Z) (v : V) (m : BTreeMap V) : BTreeMap V :=
  match m with
  | [] => [(k, v)]
  | (k', v') :: tl =>
      if k <? k' then (k, v) :: m
      else if k =? k' then (k, v) :: tl
      else (k', v') :: om_insert k v tl
  end.

(** [remove]. *)
Definition om_remove (k : Z) (m : BTreeMap V) : BTreeMap V := filter (fun e => e.1 <> k) m.

Definition om_contains (k : Z) (m : BTreeMap V) : bool := is_some (om_get k m).

(** [keys] and [values], in key order. *)
Definition om_keys (m : BTreeMap V) : list Z := map fst m.
Definition om_values (m : BTreeMap V) : list V := map snd m.

(** [range(lo..=hi)]: the keys between two bounds, in order. *)
Definition om_range (lo hi : Z) (m : BTreeMap V) : list Z :=
  filter (fun k => lo <= k <= hi) (om_keys m).

(** [get_mut] followed by an assignment through the reference. *)
Definition om_update (k : Z) (f : V -> V) (m : BTreeMap V) : BTreeMap V :=
  match om_get k m with Some v => om_insert k (f v) m | None => m end.

End operations.

Definition om_wf {V} (m : BTreeMap V) : Prop := StronglySorted Z.lt (om_keys m).

Section laws.
Context {V : Type}.
Implicit Types (m : BTreeMap V) (k : Z) (v : V).

Lemma om_wf_empty : om_wf (@om_empty V).
Proof. constructor. Qed.

Lemma om_wf_cons k v m : om_wf ((k, v) :: m) <-> om_wf m /\ Forall (Z.lt k) (om_keys m).
Proof.
  unfold om_wf. simpl. split.
  - intros H. by apply StronglySorted_inv in H.
  - intros [? ?]. by constructor.
Qed.

Lemma om_insert_keys k v m k' : k' ∈ om_keys (om_insert k v m) -> k' = k \/ k' ∈ om_keys m.
Proof.
  induction m as [| [k0 v0] m IH]; simpl.
  - intros ->%list_elem_of_singleton. by left.
  - repeat case_match; simpl; rewrite ?elem_of_cons; intros; intuition.
Qed.

Lemma om_wf_insert k v m : om_wf m -> om_wf (om_insert k v m).
Proof.
  induction m as [| [k0 v0] m IH]; intros Hm; simpl.
  - apply om_wf_cons. split; [constructor | constructor].
  - pose proof Hm as [Hm' Hall]%om_wf_cons. destruct (Z.ltb_spec k k0).
    + apply om_wf_cons. split; [done |]. simpl. constructor; [done |].
      eapply Forall_impl; [exact Hall |]. intros; simpl in *; lia.
    + destruct (Z.eqb_spec k k0) as [-> | ].
      * by apply om_wf_cons.
      * apply om_wf_cons. split; [by apply IH |]. apply Forall_forall.
        intros x [-> | Hx]%om_insert_keys; [lia |].
        by apply (proj1 (Forall_forall _ _) Hall).
Qed.

Lemma om_keys_filter (P : Z * V -> Prop) `{!∀ e, Decision (P e)} m k :
  k ∈ om_keys (filter P m) -> k ∈ om_keys m.
Proof.
  intros (e & -> & He)%list_elem_of_fmap. apply list_elem_of_filter in He as [_ He].
  apply list_elem_of_fmap. by exists e.
Qed.

Lemma om_wf_filter (P : Z * V -> Prop) `{!∀ e, Decision (P e)} m : om_wf m -> om_wf (filter P m).
Proof.
  induction m as [| [k v] m IH]; intros Hm; [constructor |].
  apply om_wf_cons in Hm as [Hm Hall]. rewrite filter_cons. case_decide; [| by apply IH].
  apply om_wf_cons. split; [by apply IH |]. apply Forall_forall. intros x Hx%om_keys_filter.
  by apply (proj1 (Forall_forall _ _) Hall).
Qed.

Lemma om_wf_remove k m : om_wf m -> om_wf (om_remove k m).
Proof. apply om_wf_filter. Qed.

Lemma om_wf_update k f m : om_wf m -> om_wf (om_update k f m).
Proof. intros. unfold om_update. case_match; [by apply om_wf_insert | done]. Qed.

Lemma om_get_insert k k' v m :
  om_get k (om_insert k' v m) = if k =? k' then Some v else om_get k m.
Proof.
  induction m as [| [k0 v0] m IH]; simpl; [done |].
  destruct (Z.ltb_spec k' k0); simpl; [done |].
  destruct (Z.eqb_spec k' k0) as [-> | ]; simpl.
  - by destruct (Z.eqb_spec k k0).
  - rewrite IH. repeat bcase; congruence.
Qed.

Lemma om_values_insert k v m : om_get k m = None -> om_values (om_insert k v m) ≡ₚ v :: om_values m.
Proof.
  induction m as [| [k0 v0] m IH]; simpl; [done |]. destruct (Z.eqb_spec k k0) as [-> | Hne]; [done |]. intros Hk.
  case_match; [done |]. change (v0 :: om_values (om_insert k v m) ≡ₚ v :: v0 :: om_values m).
  rewrite (IH Hk). apply Permutation_swap.
Qed.

Lemma om_values_insert_elem k v m w : w ∈ om_values (om_insert k v m) -> w = v \/ w ∈ om_values m.
Proof.
  induction m as [| [k0 v0] m IH]; simpl.
  - intros ->%list_elem_of_singleton. by left.
  - repeat case_match; simpl; rewrite !elem_of_cons; naive_solver.
Qed.

Lemma om_get_remove k k' m : om_get k (om_remove k' m) = if k =? k' then None else om_get k m.
Proof.
  unfold om_remove. induction m as [| [k0 v0] m IH]; simpl.
  - by case_match.
  - rewrite filter_cons. case_decide; simpl in *; rewrite IH; repeat bcase; congruence.
Qed.

Lemma om_get_update k k' f m :
  om_get k (om_update k' f m) = if k =? k' then f <$> om_get k' m else om_get k m.
Proof.
  unfold om_update. destruct (om_get k' m) eqn:E; simpl.
  - by rewrite om_get_insert.
  - destruct (Z.eqb_spec k k') as [-> | ]; done.
Qed.

Lemma om_get_elem k v m : om_get k m = Some v -> (k, v) ∈ m.
Proof.
  induction m as [| [k0 v0] m IH]; simpl; [done |].
  destruct (Z.eqb_spec k k0) as [-> | ].
  - intros [= ->]. apply list_elem_of_here.
  - intros. by apply list_elem_of_further, IH.
Qed.

Lemma om_elem_get k v m : om_wf m -> (k, v) ∈ m -> om_get k m = Some v.
Proof.
  induction m as [| [k0 v0] m IH]; intros Hm He; [by apply elem_of_nil in He |].
  apply om_wf_cons in Hm as [Hm Hall]. simpl. apply elem_of_cons in He as [[= -> ->] | He].
  - by rewrite Z.eqb_refl.
  - assert (k0 < k).
    { apply (proj1 (Forall_forall _ _) Hall). apply list_elem_of_fmap. by exists (k, v). }
    rewrite (proj2 (Z.eqb_neq _ _)) by lia. by apply IH.
Qed.

Lemma om_keys_get k m : k ∈ om_keys m <-> is_some (om_get k m) = true.
Proof.
  induction m as [| [k0 v0] m IH]; simpl.
  - rewrite elem_of_nil. split; done.
  - rewrite elem_of_cons, IH. destruct (Z.eqb_spec k k0); intuition.
Qed.

Lemma om_range_elem lo hi k m :
  k ∈ om_range lo hi m <-> lo <= k <= hi /\ is_some (om_get k m) = true.
Proof. unfold om_range. by rewrite list_elem_of_filter, om_keys_get. Qed.

Lemma om_values_elem v m : v ∈ om_values m <-> exists k, (k, v) ∈ m.
Proof.
  unfold om_values. rewrite list_elem_of_fmap. split.
  - intros ([k w] & -> & He). by exists k.
  - intros (k & He). by exists (k, v).
Qed.

End laws.

#[export] Hint Resolve om_wf_empty om_wf_insert om_wf_remove om_wf_update : oxi.
