(* ===== verification/PacketSpace.v ===== *)
(** * Packet-number spaces ([oxiquic-transport/src/space.rs])

    The record of received packet numbers as merged inclusive ranges
    ([ReceivedPackets]), the ACK frame built from it, and the per-space state
    [PacketSpace].  The packet-protection keys belong to the TLS library: their
    types are parameters. *)

From S2P Require Import Prelude CoreTypes Coding FrameCodec.

(** ** Received packet numbers *)

Module ReceivedPackets.

(** Inclusive [(low, high)] ranges, ascending. *)
Notation t := (list (Z * Z)) (only parsing).

Definition largest (ranges : t) : option Z := snd <$> last ranges.

Definition maybe_merge_prev (ranges : t) (i : nat) : t :=
  match i with
  | O => ranges
  | S j =>
      match ranges !! j, ranges !! i with
      | Some (plow, phigh), Some (low, high) =>
          if low <=? u64_add phigh 1
          then delete i (<[j := (plow, Z.max phigh high)]> ranges)
          else ranges
      | _, _ => ranges
      end
  end.

Definition maybe_merge_next (ranges : t) (i : nat) : t :=
  match ranges !! i, ranges !! S i with
  | Some (low, high), Some (nlow, nhigh) =>
      if nlow <=? u64_add high 1
      then delete (S i) (<[i := (low, Z.max high nhigh)]> ranges)
      else ranges
  | _, _ => ranges
  end.

(** [for i in 0..self.ranges.len()], from index [i] with [n] turns left. *)
Fixpoint insert_loop (n i : nat) (ranges : t) (pn : Z) : t :=
  match n with
  | O => ranges ++ [(pn, pn)]
  | S k =>
      match ranges !! i with
      | None => ranges
      | Some (low, high) =>
          if (low <=? pn) && (pn <=? high) then ranges
          else if u64_add pn 1 =? low then maybe_merge_prev (<[i := (pn, high)]> ranges) i
          else if pn =? u64_add high 1 then maybe_merge_next (<[i := (low, pn)]> ranges) i
          else if pn <? low then take i ranges ++ (pn, pn) :: drop i ranges
          else insert_loop k (S i) ranges pn
      end
  end.

Definition insert (ranges : t) (pn : Z) : t := insert_loop (length ranges) 0 ranges pn.

(** The loop of [to_ack_frame] over the remaining ranges, high to low. *)
Fixpoint ack_gaps (prev_low : Z) (descending : list (Z * Z)) : list AckRange :=
  match descending with
  | [] => []
  | (rlow, rhigh) :: tl =>
      mkAckRange (u64_sub (u64_sub prev_low rhigh) 2) (u64_sub rhigh rlow) :: ack_gaps rlow tl
  end.

Definition to_ack_frame (ranges : t) (ack_delay : Z) : option Frame :=
  '(low, high) ← last ranges;
  let first_range := u64_sub high low in
  Some (Ack high ack_delay first_range (ack_gaps low (drop 1 (reverse ranges)))).

End ReceivedPackets.

(** ** Keys *)

Section space.
Context {HeaderKey PacketKey : Type}.

Record DirectionalKeys := mkDirectional { dk_header : HeaderKey; dk_packet : PacketKey }.
Record Keys := mkKeys { local : DirectionalKeys; remote : DirectionalKeys }.
Record PacketKeySet := mkKeySet { ks_local : PacketKey; ks_remote : PacketKey }.

(** ** The space *)

Record PacketSpace := mkSpace {
  keys : option Keys;
  next_packet_number : Z;
  ps_largest_acked : option Z;
  received : ReceivedPackets.t;
  ack_pending : bool
}.

Definition space_new : PacketSpace := mkSpace None 0 None [] false.

Definition set_keys (s : PacketSpace) (k : Keys) : PacketSpace :=
  mkSpace (Some k) (next_packet_number s) (ps_largest_acked s) (received s) (ack_pending s).

Definition has_keys (s : PacketSpace) : bool := is_some (keys s).

Definition local_keys (s : PacketSpace) : option DirectionalKeys := local <$> keys s.
Definition remote_keys (s : PacketSpace) : option DirectionalKeys := remote <$> keys s.

Definition next_pn (s : PacketSpace) : Z * PacketSpace :=
  (next_packet_number s,
   mkSpace (keys s) (u64_add (next_packet_number s) 1) (ps_largest_acked s) (received s) (ack_pending s)).

Definition largest_received (s : PacketSpace) : option Z := ReceivedPackets.largest (received s).

Definition on_ack_received (s : PacketSpace) (largest : Z) : PacketSpace :=
  mkSpace (keys s) (next_packet_number s) (opt_max (ps_largest_acked s) largest) (received s) (ack_pending s).

Definition on_packet_received (s : PacketSpace) (pn : Z) (ack_eliciting : bool) : PacketSpace :=
  mkSpace (keys s) (next_packet_number s) (ps_largest_acked s)
          (ReceivedPackets.insert (received s) pn)
          (if ack_eliciting then true else ack_pending s).

Definition build_ack (s : PacketSpace) (ack_delay : Z) : option Frame * PacketSpace :=
  if negb (ack_pending s) then (None, s)
  else match ReceivedPackets.to_ack_frame (received s) ack_delay with
       | None => (None, s)
       | Some frame =>
           (Some frame,
            mkSpace (keys s) (next_packet_number s) (ps_largest_acked s) (received s) false)
       end.

Definition rotate_to_next_epoch (s : PacketSpace) (next_epoch : PacketKeySet)
    : option PacketKey * PacketSpace :=
  match keys s with
  | None => (None, s)
  | Some k =>
      let old_remote := dk_packet (remote k) in
      let k' := mkKeys (mkDirectional (dk_header (local k)) (ks_local next_epoch))
                       (mkDirectional (dk_header (remote k)) (ks_remote next_epoch)) in
      (Some old_remote,
       mkSpace (Some k') (next_packet_number s) (ps_largest_acked s) (received s) (ack_pending s))
  end.

End space.

Arguments DirectionalKeys : clear implicits.
Arguments Keys : clear implicits.
Arguments PacketKeySet : clear implicits.
Arguments PacketSpace : clear implicits.

(** ** The abstract state: the set of received packet numbers *)

Definition contains (ranges : ReceivedPackets.t) (x : Z) : Prop :=
  exists r, r ∈ ranges /\ r.1 <= x <= r.2.

Definition range_before (a b : Z * Z) : Prop := a.2 + 1 < b.1.

Definition range_wf (r : Z * Z) : Prop := 0 <= r.1 <= r.2 /\ r.2 < 2 ^ 62.

(** Ranges are non-empty, ascending and separated by at least one number. *)
Definition ranges_wf (ranges : ReceivedPackets.t) : Prop :=
  Forall range_wf ranges /\ StronglySorted range_before ranges.

#[export] Instance range_wf_dec r : Decision (range_wf r) := _.
#[export] Instance range_before_dec a b : Decision (range_before a b).
Proof. unfold range_before. apply _. Defined.

(** ** Lemmas *)

Lemma contains_nil x : ~ contains [] x.
Proof. intros (r & Hr & _). by apply elem_of_nil in Hr. Qed.

Lemma contains_cons l h rs x : contains ((l, h) :: rs) x <-> l <= x <= h \/ contains rs x.
Proof.
  split.
  - intros (r & [-> | Hr]%elem_of_cons & Hx); [by left |]. right. by exists r.
  - intros [Hx | (r & Hr & Hx)].
    + exists (l, h). split; [apply list_elem_of_here | done].
    + exists r. split; [by apply list_elem_of_further | done].
Qed.

Lemma contains_app rs1 rs2 x : contains (rs1 ++ rs2) x <-> contains rs1 x \/ contains rs2 x.
Proof.
  split.
  - intros (r & [Hr | Hr]%elem_of_app & Hx); [left | right]; by exists r.
  - intros [(r & Hr & Hx) | (r & Hr & Hx)]; exists r; (split; [| done]); apply elem_of_app; auto.
Qed.

Lemma contains_reverse rs x : contains (reverse rs) x <-> contains rs x.
Proof. split; intros (r & Hr & Hx); exists r; (split; [| done]); by apply elem_of_reverse. Qed.

Lemma ranges_wf_app rs1 rs2 :
  ranges_wf (rs1 ++ rs2) <->
  ranges_wf rs1 /\ ranges_wf rs2 /\ (forall a b, a ∈ rs1 -> b ∈ rs2 -> range_before a b).
Proof.
  unfold ranges_wf. rewrite Forall_app, StronglySorted_app. intuition.
Qed.

Lemma ranges_wf_cons l h rs :
  ranges_wf ((l, h) :: rs) <->
  range_wf (l, h) /\ ranges_wf rs /\ (forall b, b ∈ rs -> h + 1 < b.1).
Proof.
  unfold ranges_wf. rewrite Forall_cons, StronglySorted_cons, (Forall_forall (range_before _)).
  unfold range_before. simpl. intuition.
Qed.

Lemma ranges_wf_single pn : 0 <= pn < 2 ^ 62 -> ranges_wf [(pn, pn)].
Proof.
  intros. apply ranges_wf_cons. split; [unfold range_wf; simpl; lia |].
  split; [split; constructor |]. intros b Hb. by apply elem_of_nil in Hb.
Qed.

(** [maybe_merge_prev] finds nothing to merge: an adjacent lower range would have
    been extended at its own index. *)
Lemma maybe_merge_prev_id pre l h suf :
  (forall r, r ∈ pre -> r.2 + 1 < l) -> Forall range_wf pre ->
  ReceivedPackets.maybe_merge_prev (pre ++ (l, h) :: suf) (length pre) = pre ++ (l, h) :: suf.
Proof.
  intros Hpre Hwf. destruct pre as [| [pl ph] pre' _] using rev_ind; [done |].
  rewrite length_app. simpl. rewrite Nat.add_1_r. unfold ReceivedPackets.maybe_merge_prev.
  assert (He : (pl, ph) ∈ pre' ++ [(pl, ph)]) by (apply elem_of_app; right; apply list_elem_of_here).
  rewrite <- app_assoc. simpl.
  rewrite (list_lookup_middle pre' ((l, h) :: suf) (pl, ph)) by done.
  replace (pre' ++ (pl, ph) :: (l, h) :: suf) with ((pre' ++ [(pl, ph)]) ++ (l, h) :: suf)
    by (by rewrite <- app_assoc).
  rewrite (list_lookup_middle (pre' ++ [(pl, ph)]) suf (l, h)) by (rewrite length_app; simpl; lia).
  pose proof (Hpre _ He) as Hlt. rewrite Forall_forall in Hwf. destruct (Hwf _ He) as [H1 H2]. simpl in *.
  rewrite u64_add_small by (unfold is_u64; lia).
  by rewrite (proj2 (Z.leb_gt _ _)) by lia.
Qed.

(** [maybe_merge_next] joins the next range exactly when it is adjacent. *)
Lemma maybe_merge_next_run pre l h suf :
  0 <= h < 2 ^ 62 ->
  ReceivedPackets.maybe_merge_next (pre ++ (l, h) :: suf) (length pre) =
  pre ++ match suf with
         | (nl, nh) :: tl => if nl <=? h + 1 then (l, Z.max h nh) :: tl else (l, h) :: suf
         | [] => [(l, h)]
         end.
Proof.
  intros Hh. unfold ReceivedPackets.maybe_merge_next.
  rewrite (list_lookup_middle pre suf (l, h)) by done.
  replace (pre ++ (l, h) :: suf) with ((pre ++ [(l, h)]) ++ suf) at 1 by (by rewrite <- app_assoc).
  rewrite lookup_app_r by (rewrite length_app; simpl; lia).
  replace (S (length pre) - length (pre ++ [(l, h)]))%nat with 0%nat by (rewrite length_app; simpl; lia).
  destruct suf as [| [nl nh] tl]; simpl; [done |].
  rewrite u64_add_small by (unfold is_u64; lia).
  destruct (nl <=? h + 1); [| done].
  rewrite insert_app_r_alt, Nat.sub_diag by lia. simpl.
  change ((l, h `max` nh) :: (nl, nh) :: tl) with ([(l, h `max` nh)] ++ (nl, nh) :: tl).
  rewrite app_assoc. replace (S (length pre)) with (length (pre ++ [(l, h `max` nh)]))
    by (rewrite length_app; simpl; lia).
  rewrite delete_middle. by rewrite <- app_assoc.
Qed.

(** The set laws an updated range list has to satisfy. *)
Definition adds (old new : list (Z * Z)) (pn : Z) : Prop :=
  ranges_wf new /\ forall x, contains new x <-> x = pn \/ contains old x.

(** Replace the suffix after a prefix that lies strictly below. *)
Lemma adds_suffix pre old new pn :
  ranges_wf (pre ++ old) -> (forall r b, r ∈ pre -> b ∈ new -> range_before r b) ->
  adds old new pn -> adds (pre ++ old) (pre ++ new) pn.
Proof.
  intros (Hpre & Hold & _)%ranges_wf_app Hb [Hnew Hx]. split.
  - by apply ranges_wf_app.
  - intros x. rewrite !contains_app, Hx. tauto.
Qed.

(** Extending a range upwards by one, joined with the next one if they meet. *)
Lemma adds_up l h suf :
  ranges_wf ((l, h) :: suf) -> h + 1 < 2 ^ 62 ->
  adds ((l, h) :: suf)
       match suf with
       | (nl, nh) :: tl => if nl <=? h + 1 + 1 then (l, Z.max (h + 1) nh) :: tl else (l, h + 1) :: suf
       | [] => [(l, h + 1)]
       end (h + 1).
Proof.
  intros (Hlh & Hsuf & Hnext)%ranges_wf_cons Hh. unfold range_wf in Hlh; simpl in Hlh.
  destruct suf as [| [nl nh] tl].
  - split.
    + apply ranges_wf_cons. split; [unfold range_wf; simpl; lia |]. split; [done |].
      intros b Hb. by apply elem_of_nil in Hb.
    + intros x. rewrite !contains_cons. intuition lia.
  - pose proof (Hnext (nl, nh) ltac:(apply list_elem_of_here)) as Hn; simpl in Hn.
    pose proof Hsuf as (Hnlh & Htl & Hnn)%ranges_wf_cons. unfold range_wf in Hnlh; simpl in Hnlh.
    destruct (Z.leb_spec nl (h + 1 + 1)); split.
    + apply ranges_wf_cons. split; [unfold range_wf; simpl; lia |]. split; [done |].
      intros b Hb. specialize (Hnn b Hb). lia.
    + intros x. rewrite !contains_cons. intuition lia.
    + apply ranges_wf_cons. split; [unfold range_wf; simpl; lia |]. split; [done |].
      intros b [-> | Hb]%elem_of_cons; simpl; [lia |]. specialize (Hnn b Hb). lia.
    + intros x. rewrite !contains_cons. intuition lia.
Qed.

Lemma insert_loop_spec suf pre pn :
  0 <= pn < 2 ^ 62 -> ranges_wf (pre ++ suf) -> (forall r, r ∈ pre -> r.2 + 1 < pn) ->
  adds (pre ++ suf)
       (ReceivedPackets.insert_loop (length suf) (length pre) (pre ++ suf) pn) pn.
Proof.
  intros Hpn. revert pre. induction suf as [| [l h] suf IH]; intros pre Hwf Hpre; simpl.
  - rewrite app_nil_r in *. rewrite <- (app_nil_r pre) at 1. apply adds_suffix.
    + by rewrite app_nil_r.
    + intros r b Hr ->%list_elem_of_singleton. by apply Hpre.
    + split; [by apply ranges_wf_single |]. intros x. rewrite contains_cons. intuition lia.
  - rewrite (list_lookup_middle pre suf (l, h)) by done.
    pose proof Hwf as (Hwp & Hs & Hb)%ranges_wf_app.
    pose proof Hs as (Hlh & Hsuf & Hnext)%ranges_wf_cons. unfold range_wf in Hlh. simpl in Hlh.
    assert (Hafter : forall r b, r ∈ pre -> b ∈ (l, h) :: suf -> r.2 + 1 < b.1).
    { intros r b Hr Hs'. by apply Hb. }
    assert (Hbl : forall r, r ∈ pre -> r.2 + 1 < l).
    { intros r Hr. apply (Hafter r (l, h)); [done | apply list_elem_of_here]. }
    rewrite !u64_add_small by (unfold is_u64; lia).
    destruct (Z.leb_spec l pn), (Z.leb_spec pn h); simpl andb; cbv iota.
    1: { split; [done |]. intros x. rewrite contains_app, contains_cons. intuition. subst. right. left. lia. }
    all: destruct (Z.eqb_spec (pn + 1) l); [| destruct (Z.eqb_spec pn (h + 1)) as [-> | ];
           [| destruct (Z.ltb_spec pn l)]]; try lia.
    + rewrite insert_app_r_alt, Nat.sub_diag by lia. simpl.
      rewrite maybe_merge_next_run by lia. apply adds_suffix; [done | | apply adds_up; [done | lia]].
      intros r b Hr Hb'. specialize (Hbl r Hr). unfold range_before.
      destruct suf as [| [nl nh] tl]; [| destruct (nl <=? h + 1 + 1)];
        apply elem_of_cons in Hb' as [-> | Hb']; simpl; try lia; [by apply elem_of_nil in Hb' | |];
        (apply Hafter; [done |]); rewrite ?elem_of_cons in *; tauto.
    + replace (S (length pre)) with (length (pre ++ [(l, h)])) by (rewrite length_app; simpl; lia).
      replace (pre ++ (l, h) :: suf) with ((pre ++ [(l, h)]) ++ suf) in * by (by rewrite <- app_assoc).
      apply IH; [done |]. intros r [Hr | ->%list_elem_of_singleton]%elem_of_app; [by apply Hpre | simpl; lia].
    + rewrite insert_app_r_alt, Nat.sub_diag by lia. simpl.
      rewrite maybe_merge_prev_id; [| done | apply Hwp]. apply adds_suffix; [done | |].
      * intros r b Hr [-> | Hs']%elem_of_cons; [by apply Hpre |]. apply Hafter; [done | by apply list_elem_of_further].
      * split; [| intros x; rewrite !contains_cons; intuition lia].
        apply ranges_wf_cons. split; [unfold range_wf; simpl; lia | done].
    + rewrite take_app_length, drop_app_length. apply adds_suffix; [done | |].
      * intros r b Hr [-> | Hs']%elem_of_cons; [by apply Hpre | by apply Hafter].
      * split; [| intros x; rewrite !contains_cons; intuition lia].
        apply ranges_wf_cons. split; [unfold range_wf; simpl; lia |]. split; [done |].
        intros b [-> | Hs']%elem_of_cons; simpl; [lia |]. specialize (Hnext b Hs'). lia.
Qed.

Lemma insert_spec rs pn :
  0 <= pn < 2 ^ 62 -> ranges_wf rs -> adds rs (ReceivedPackets.insert rs pn) pn.
Proof.
  intros. apply (insert_loop_spec rs []); [done | done |]. intros r Hr. by apply elem_of_nil in Hr.
Qed.

(** The space after a run of packet receipts [(pn, ack_eliciting)]. *)
Definition receive_all {HK PK} (s : PacketSpace HK PK) (evs : list (Z * bool)) : PacketSpace HK PK :=
  fold_left (fun s e => on_packet_received s e.1 e.2) evs s.

Definition received_exactly {HK PK} (s : PacketSpace HK PK) (pns : list Z) : Prop :=
  ranges_wf (received s) /\ forall x, contains (received s) x <-> x ∈ pns.

Lemma receive_all_exactly {HK PK} (s : PacketSpace HK PK) pns evs :
  received_exactly s pns -> Forall (fun e => 0 <= e.1 < 2 ^ 62) evs ->
  received_exactly (receive_all s evs) (pns ++ evs.*1).
Proof.
  revert s pns. induction evs as [| [pn e] evs IH]; intros s pns Hs Hevs; csimpl.
  - by rewrite app_nil_r.
  - apply Forall_cons in Hevs as [Hpn Hevs]. simpl in Hpn.
    replace (pns ++ pn :: evs.*1) with ((pns ++ [pn]) ++ evs.*1) by (by rewrite <- app_assoc).
    apply IH; [| done]. destruct Hs as [Hwf Hc].
    destruct (insert_spec (received s) pn Hpn Hwf) as [Hwf' Hc']. split; [done |].
    intros x. simpl. rewrite Hc', Hc, elem_of_app, list_elem_of_singleton. tauto.
Qed.

Lemma receive_all_pending {HK PK} (s : PacketSpace HK PK) evs :
  ack_pending (receive_all s evs) = ack_pending s || existsb snd evs.
Proof.
  revert s. induction evs as [| [pn e] evs IH]; intros s; simpl.
  - by rewrite orb_false_r.
  - rewrite IH. simpl. by destruct e, (ack_pending s).
Qed.

Lemma received_exactly_new HK PK : received_exactly (@space_new HK PK) [].
Proof.
  split; [split; constructor |]. intros x. simpl. rewrite elem_of_nil. split; [apply contains_nil | done].
Qed.

Lemma largest_is_max rs x :
  ranges_wf rs -> contains rs x -> exists m, ReceivedPackets.largest rs = Some m /\ contains rs m /\ x <= m.
Proof.
  intros Hwf Hx. destruct rs as [| [l h] rs _] using rev_ind; [by apply contains_nil in Hx |].
  exists h. unfold ReceivedPackets.largest. rewrite last_snoc. split; [done |].
  apply ranges_wf_app in Hwf as (Hwf & Hlast & Hb). apply ranges_wf_cons in Hlast as ([Hr _] & _). simpl in Hr.
  split; [rewrite contains_app, contains_cons; right; left; lia |].
  apply contains_app in Hx as [(r & Hr' & Hx) | Hx].
  - specialize (Hb r (l, h) Hr' ltac:(apply list_elem_of_here)). unfold range_before in Hb. simpl in Hb. lia.
  - apply contains_cons in Hx as [Hx | Hx%contains_nil]; [lia | done].
Qed.

(** ** Properties *)

(** C30: A space that processed any sequence of packet receipts holds exactly the
    set of their packet numbers, as ascending ranges separated by gaps, however
    the packets were ordered or duplicated; its largest received number is the
    maximum of the set, and an ACK is owed exactly when one of the packets was
    ack-eliciting. *)
Theorem received_set_exact (evs : list (Z * bool)) :
  Forall (fun e => 0 <= e.1 < 2 ^ 62) evs ->
  let s := receive_all (@space_new unit unit) evs in
  ranges_wf (received s) /\
  (forall x, contains (received s) x <-> x ∈ evs.*1) /\
  (forall x, x ∈ evs.*1 -> exists m, largest_received s = Some m /\ m ∈ evs.*1 /\ x <= m) /\
  ack_pending s = existsb snd evs.
Proof.
  intros Hevs s. destruct (receive_all_exactly _ [] evs (received_exactly_new unit unit) Hevs) as [Hwf Hc].
  split_and!; [done | done | | apply receive_all_pending]. intros x Hx%Hc.
  destruct (largest_is_max _ x Hwf Hx) as (m & ? & Hm & ?). exists m. split; [done |]. split; [by apply Hc | done].
Qed.

Lemma received_set_exact_witness :
  let evs := [(5, true); (2, false); (3, true); (5, true); (4, false); (9, false)] in
  let s := receive_all (@space_new unit unit) evs in
  ranges_wf (received s) /\
  (forall x, contains (received s) x <-> x ∈ evs.*1) /\
  (forall x, x ∈ evs.*1 -> exists m, largest_received s = Some m /\ m ∈ evs.*1 /\ x <= m) /\
  ack_pending s = existsb snd evs.
Proof.
  apply received_set_exact. repeat (apply Forall_cons; split; [vm_compute; split; congruence |]).
  apply Forall_nil. exact I.
Defined.
