(* ===== verification/SentPackets.v ===== *)
(** * Sent-packet tracking ([oxiquic-transport/src/sent_packet.rs])

    The store of sent but unacknowledged packets, acknowledgement processing and
    packet-threshold/time-threshold loss detection.  Instants and durations are
    [Z] nanoseconds, an instant counted from the clock's origin: subtracting
    past the origin is the [None] of [Instant::checked_sub]. *)

From S2P Require Import Prelude OrdMap CoreTypes Coding FrameCodec PacketSpace.

(** ** Data *)

Inductive SentFrame :=
| SFCrypto (offset : Z) (data : list Z)
| SFStream (id offset : Z) (fin : bool) (data : list Z)
| SFPing
| SFMtuProbe (size : Z)
| SFNewConnectionId (seq retire_prior_to : Z) (cid : list Z) (stateless_reset_token : list Z)
| SFRetireConnectionId (seq : Z)
| SFMaxStreams (dir : Direction) (max : Z)
| SFStreamsBlocked (dir : Direction) (limit : Z)
| SFNewToken (token : list Z).

#[export] Instance SentFrame_eq_dec : EqDecision SentFrame.
Proof. solve_decision. Defined.

(** The delivery-rate snapshot of [bbr.rs] carried by a packet record. *)
Record RateSample := mkRateSample {
  rs_delivered : Z;
  rs_delivered_time : Z;
  rs_first_sent_time : Z;
  rs_is_app_limited : bool;
  rs_sent_time : Z;
  rs_size : Z
}.

#[export] Instance RateSample_eq_dec : EqDecision RateSample.
Proof. solve_decision. Defined.

Record SentPacket := mkSentPacket {
  sp_packet_number : Z;
  sp_time_sent : Z;
  sp_ack_eliciting : bool;
  sp_in_flight : bool;
  sp_sent_bytes : Z;
  sp_frames : list SentFrame;
  sp_rate_sample : option RateSample
}.

#[export] Instance SentPacket_eq_dec : EqDecision SentPacket.
Proof. solve_decision. Defined.

Record SentPackets := mkSent { sent : BTreeMap SentPacket; largest_acked : option Z }.

Record AckOutcome := mkAckOutcome {
  newly_acked : list SentPacket;
  acked_ack_eliciting : bool;
  largest_newly_acked : option Z
}.

Definition sent_new : SentPackets := mkSent om_empty None.
Definition outcome_default : AckOutcome := mkAckOutcome [] false None.

(** ** Operations *)

Definition on_packet_sent (s : SentPackets) (p : SentPacket) : SentPackets :=
  mkSent (om_insert (sp_packet_number p) p (sent s)) (largest_acked s).

(** The loop of [ack_ranges] over the [(gap, range)] pairs. *)
Fixpoint ack_ranges_loop (smallest : Z) (ranges : list (Z * Z)) : list (Z * Z) :=
  match ranges with
  | [] => []
  | (gap, range) :: tl =>
      match checked_sub smallest (u64_add gap 2) with
      | None => []
      | Some next_largest =>
          let next_low := sat_sub next_largest range in
          (next_low, next_largest) :: ack_ranges_loop next_low tl
      end
  end.

Definition ack_ranges (largest first_range : Z) (ranges : list (Z * Z)) : list (Z * Z) :=
  let first_low := sat_sub largest first_range in
  (first_low, largest) :: ack_ranges_loop first_low ranges.

(** [if let Some(packet) = self.sent.remove(&pn)]: the body of the inner loop. *)
Definition ack_one (st : BTreeMap SentPacket * AckOutcome) (pn : Z) : BTreeMap SentPacket * AckOutcome :=
  let '(m, o) := st in
  match om_get pn m with
  | None => st
  | Some p =>
      (om_remove pn m,
       mkAckOutcome (newly_acked o ++ [p])
                    (if sp_ack_eliciting p then true else acked_ack_eliciting o)
                    (opt_max (largest_newly_acked o) pn))
  end.

Definition ack_range (st : BTreeMap SentPacket * AckOutcome) (r : Z * Z) : BTreeMap SentPacket * AckOutcome :=
  fold_left ack_one (om_range r.1 r.2 st.1) st.

Definition on_ack (s : SentPackets) (largest first_range : Z) (ranges : list (Z * Z))
    : AckOutcome * SentPackets :=
  let la := opt_max (largest_acked s) largest in
  let '(m, o) := fold_left ack_range (ack_ranges largest first_range ranges) (sent s, outcome_default) in
  (o, mkSent m la).

Definition K_PACKET_THRESHOLD : Z := 3.

(** The body of [detect_lost]'s loop; [threshold] is [now.checked_sub(loss_delay)]. *)
Definition detect_one (largest_acked : Z) (threshold : option Z) (loss_delay : Z)
    (st : BTreeMap SentPacket * list SentPacket * option Z) (pn : Z)
    : BTreeMap SentPacket * list SentPacket * option Z :=
  let '(m, lost, next) := st in
  match om_get pn m with
  | None => st
  | Some p =>
      let pn_lost := u64_add pn K_PACKET_THRESHOLD <=? largest_acked in
      let time_lost := match threshold with Some t => sp_time_sent p <=? t | None => false end in
      if pn_lost || time_lost then (om_remove pn m, lost ++ [p], next)
      else (m, lost, opt_min next (sp_time_sent p + loss_delay))
  end.

Definition detect_lost (s : SentPackets) (now loss_delay : Z)
    : list SentPacket * option Z * SentPackets :=
  match largest_acked s with
  | None => ([], None, s)
  | Some la =>
      let candidates := om_range 0 la (sent s) in
      let '(m, lost, next) :=
        fold_left (detect_one la (checked_sub now loss_delay) loss_delay) candidates (sent s, [], None) in
      (lost, next, mkSent m (Some la))
  end.

Definition earliest_ack_eliciting_time (s : SentPackets) : option Z :=
  fold_left (fun acc p => opt_min acc (sp_time_sent p))
            (filter (fun p => Is_true (sp_ack_eliciting p)) (om_values (sent s))) None.

Definition oldest_ack_eliciting_frames (s : SentPackets) : option (list SentFrame) :=
  sp_frames <$> head (filter (fun p => Is_true (sp_ack_eliciting p) /\ sp_frames p <> [])
                             (om_values (sent s))).

Definition outstanding (s : SentPackets) : Z := len (sent s).

(** ** Invariant *)

(** Records are filed under their own packet number, numbers are 62-bit. *)
Definition sent_wf (s : SentPackets) : Prop :=
  om_wf (sent s) /\ forall pn p, om_get pn (sent s) = Some p -> sp_packet_number p = pn /\ 0 <= pn < 2 ^ 62.

(** ** Lemmas: expanding an ACK frame *)

Definition gap_pairs (rs : list AckRange) : list (Z * Z) := map (fun r => (ar_gap r, ar_range r)) rs.

(** A descending list of ranges below [prev]. *)
Fixpoint descends (prev : Z) (ds : list (Z * Z)) : Prop :=
  match ds with
  | [] => True
  | (l, h) :: tl => 0 <= l <= h /\ h + 1 < prev /\ descends l tl
  end.

Lemma ack_ranges_gaps prev ds :
  0 <= prev < 2 ^ 62 -> descends prev ds ->
  ack_ranges_loop prev (gap_pairs (ReceivedPackets.ack_gaps prev ds)) = ds.
Proof.
  revert prev. induction ds as [| [l h] ds IH]; intros prev Hp Hd; simpl; [done |].
  destruct Hd as (H1 & H2 & Hd).
  rewrite (u64_sub_small prev h) by (unfold is_u64; lia).
  rewrite (u64_sub_small (prev - h) 2) by (unfold is_u64; lia).
  rewrite (u64_sub_small h l) by (unfold is_u64; lia).
  rewrite u64_add_small by (unfold is_u64; lia). unfold checked_sub.
  rewrite (proj2 (Z.ltb_ge _ _)) by lia.
  replace (prev - (prev - h - 2 + 2)) with h by lia.
  rewrite sat_sub_le by lia. replace (h - (h - l)) with l by lia.
  f_equal. apply IH; [lia | done].
Qed.

Lemma ranges_wf_descends rs l h :
  ranges_wf (rs ++ [(l, h)]) -> descends l (reverse rs).
Proof.
  revert l h. induction rs as [| [l0 h0] rs IH] using rev_ind; intros l h Hwf; [done |].
  rewrite reverse_app. simpl. apply ranges_wf_app in Hwf as (Hwf & _ & Hb).
  pose proof Hwf as (_ & Hlast & _)%ranges_wf_app. apply ranges_wf_cons in Hlast as ([Hr _] & _).
  simpl in Hr. split; [done |]. split.
  - apply (Hb (l0, h0) (l, h)); [apply elem_of_app; right |]; apply list_elem_of_here.
  - by apply (IH l0 h0).
Qed.

(** The ACK frame built from a received set expands to exactly its ranges. *)
Lemma ack_frame_ranges rs d :
  ranges_wf rs -> rs <> [] ->
  exists largest first_range gaps,
    ReceivedPackets.to_ack_frame rs d = Some (Ack largest d first_range gaps) /\
    ack_ranges largest first_range (gap_pairs gaps) = reverse rs.
Proof.
  intros Hwf Hne. destruct rs as [| [l h] rs _] using rev_ind; [done |].
  unfold ReceivedPackets.to_ack_frame. rewrite last_snoc. simpl.
  eexists _, _, _. split; [reflexivity |].
  pose proof Hwf as (_ & Hlast & _)%ranges_wf_app.
  apply ranges_wf_cons in Hlast as ([Hr1 Hr2] & _). simpl in Hr1, Hr2.
  unfold ack_ranges. rewrite u64_sub_small by (unfold is_u64; lia).
  rewrite sat_sub_le by lia. replace (h - (h - l)) with l by lia.
  rewrite reverse_app. simpl. rewrite ack_ranges_gaps; [done | lia |].
  by eapply ranges_wf_descends.
Qed.

(** ** Lemmas: moving records out of the store

    Both acknowledgement and loss detection walk a list of keys and move the
    records a predicate selects from the store to an output list. *)

Definition move_sel (sel : SentPacket -> bool) (st : BTreeMap SentPacket * list SentPacket) (k : Z)
    : BTreeMap SentPacket * list SentPacket :=
  match om_get k st.1 with
  | Some p => if sel p then (om_remove k st.1, st.2 ++ [p]) else st
  | None => st
  end.

Definition moved (sel : SentPacket -> bool) (P : Z -> bool) (m m' : BTreeMap SentPacket)
    (out out' : list SentPacket) : Prop :=
  om_wf m' /\
  out' ++ om_values m' ≡ₚ out ++ om_values m /\
  (forall x p, om_get x m' = Some p <-> om_get x m = Some p /\ P x && sel p = false) /\
  (forall p, p ∈ out' <-> p ∈ out \/ exists x, P x && sel p = true /\ om_get x m = Some p).

Lemma om_values_remove k p (m : BTreeMap SentPacket) :
  om_wf m -> om_get k m = Some p -> p :: om_values (om_remove k m) ≡ₚ om_values m.
Proof.
  unfold om_remove. induction m as [| [k0 v0] m IH]; [done |]. intros [Hm Hall]%om_wf_cons. simpl.
  rewrite filter_cons. destruct (Z.eqb_spec k k0) as [-> | Hne].
  - intros [= ->]. rewrite decide_False by (simpl; auto).
    assert (E : filter (fun e => e.1 <> k0) m = m); [| by rewrite E].
    clear IH Hm. induction m as [| [k1 v1] m IHm]; [done |]. apply Forall_cons in Hall as [Hk Hall].
    rewrite filter_cons, decide_True by (simpl in *; lia). by rewrite IHm.
  - intros Hg. rewrite decide_True by (simpl; auto). simpl. rewrite <- (IH Hm Hg). apply Permutation_swap.
Qed.

Lemma moved_refl sel m out : om_wf m -> moved sel (fun _ => false) m m out out.
Proof.
  intros Hm. split_and!; [done | done | intuition |]. intros p. split; [auto |].
  intros [? | (? & ? & _)]; done.
Qed.

Lemma moved_trans sel P Q m1 m2 m3 o1 o2 o3 :
  moved sel P m1 m2 o1 o2 -> moved sel Q m2 m3 o2 o3 -> moved sel (fun x => P x || Q x) m1 m3 o1 o3.
Proof.
  intros (W2 & V2 & G2 & O2) (W3 & V3 & G3 & O3). split_and!; [done | by rewrite V3 | |].
  - intros x p. rewrite G3, G2. destruct (P x), (Q x), (sel p); simpl; intuition.
  - intros p. rewrite O3, O2. split.
    + intros [[? | (x & HP & Hg)] | (x & HQ & Hg)]; [by left | right; exists x | right; exists x].
      * split; [| done]. destruct (P x); [done |]. done.
      * apply G2 in Hg as [Hg _]. split; [| done]. destruct (P x), (Q x); done.
    + intros [? | (x & HPQ & Hg)]; [by left; left |].
      destruct (P x && sel p) eqn:E; [left; right; by exists x |]. right. exists x.
      split; [by destruct (P x), (Q x), (sel p) |]. by apply G2.
Qed.

Lemma moved_step sel m out k :
  om_wf m ->
  let '(m', out') := move_sel sel (m, out) k in moved sel (fun x => x =? k) m m' out out'.
Proof.
  intros Hm. unfold move_sel. simpl. destruct (om_get k m) as [p |] eqn:E; [destruct (sel p) eqn:Hs |].
  - split_and!; [by apply om_wf_remove | | |].
    + rewrite <- app_assoc. simpl. by rewrite om_values_remove.
    + intros x q. rewrite om_get_remove. destruct (Z.eqb_spec x k) as [-> | ]; simpl; [| tauto].
      rewrite E. split; [done |]. intros [[= ->] ?]. congruence.
    + intros q. rewrite elem_of_app, list_elem_of_singleton. split.
      * intros [? | ->]; [by left |]. right. exists k. by rewrite Z.eqb_refl.
      * intros [? | (x & [->%Z.eqb_eq ?]%andb_prop & Hg)]; [by left |]. right. congruence.
  - split_and!; [done | done | |].
    + intros x q. destruct (Z.eqb_spec x k) as [-> | ]; simpl; [| tauto]. rewrite E.
      split; [| tauto]. intros [= <-]. done.
    + intros q. split; [by left |]. intros [? | (x & [->%Z.eqb_eq ?]%andb_prop & Hg)]; [done |]. congruence.
  - split_and!; [done | done | |].
    + intros x q. destruct (Z.eqb_spec x k) as [-> | ]; simpl; [| tauto]. rewrite E. split; [done | by intros []].
    + intros q. split; [by left |]. intros [? | (x & [->%Z.eqb_eq ?]%andb_prop & Hg)]; [done |]. congruence.
Qed.

Lemma moved_ext sel P Q m m' out out' :
  (forall x, P x = Q x) -> moved sel P m m' out out' -> moved sel Q m m' out out'.
Proof.
  intros HPQ (H1 & H2 & H3 & H4). split_and!; [done | done | |].
  - intros x p. by rewrite <- HPQ.
  - intros p. rewrite H4. by setoid_rewrite HPQ.
Qed.

Lemma moved_fold sel ks m out :
  om_wf m ->
  let '(m', out') := fold_left (move_sel sel) ks (m, out) in
  moved sel (fun x => bool_decide (x ∈ ks)) m m' out out'.
Proof.
  revert m out. induction ks as [| k ks IH]; intros m out Hm; simpl.
  - eapply moved_ext; [| by apply moved_refl]. done.
  - pose proof (moved_step sel m out k Hm) as H1.
    destruct (move_sel sel (m, out) k) as [m1 o1]. specialize (IH m1 o1 (proj1 H1)).
    destruct (fold_left (move_sel sel) ks (m1, o1)) as [m2 o2].
    eapply moved_ext; [| by eapply moved_trans].
    intros x. simpl. apply eq_bool_prop_intro.
    rewrite orb_True, !bool_decide_spec, elem_of_cons, Is_true_true, Z.eqb_eq. done.
Qed.

(** ** Lemmas: acknowledgement *)

(** The summary fields of an outcome agree with its list of packets. *)
Definition outcome_ok (o : AckOutcome) : Prop :=
  acked_ack_eliciting o = existsb sp_ack_eliciting (newly_acked o) /\
  largest_newly_acked o = fold_left (fun acc p => opt_max acc (sp_packet_number p)) (newly_acked o) None.

(** Every record is filed under its packet number. *)
Definition keyed (m : BTreeMap SentPacket) : Prop :=
  forall pn p, om_get pn m = Some p -> sp_packet_number p = pn.

Lemma ack_one_move m o k :
  keyed m -> outcome_ok o ->
  let '(m', o') := ack_one (m, o) k in
  (m', newly_acked o') = move_sel (fun _ => true) (m, newly_acked o) k /\ keyed m' /\ outcome_ok o'.
Proof.
  intros Hk [H1 H2]. unfold ack_one, move_sel. simpl.
  destruct (om_get k m) as [p |] eqn:E; [| by split].
  split; [done |]. split.
  - intros x q. rewrite om_get_remove. destruct (x =? k); [done |]. apply Hk.
  - split; simpl.
    + rewrite existsb_app, <- H1. simpl. destruct (sp_ack_eliciting p); simpl.
      * by rewrite orb_true_r.
      * by rewrite !orb_false_r.
    + rewrite fold_left_app, <- H2. simpl. by rewrite (Hk k p E).
Qed.

Lemma ack_fold_move ks m o :
  keyed m -> outcome_ok o ->
  let '(m', o') := fold_left ack_one ks (m, o) in
  (m', newly_acked o') = fold_left (move_sel (fun _ => true)) ks (m, newly_acked o) /\ keyed m' /\ outcome_ok o'.
Proof.
  revert m o. induction ks as [| k ks IH]; intros m o Hk Ho; [by split |].
  cbn [fold_left]. pose proof (ack_one_move m o k Hk Ho) as H1.
  destruct (ack_one (m, o) k) as [m1 o1]. destruct H1 as (<- & Hk1 & Ho1). by apply IH.
Qed.

Definition in_range (r : Z * Z) (x : Z) : bool := (r.1 <=? x) && (x <=? r.2).
Definition in_ranges (rs : list (Z * Z)) (x : Z) : bool := existsb (fun r => in_range r x) rs.

Lemma in_ranges_contains rs x : in_ranges rs x = true <-> contains rs x.
Proof.
  unfold in_ranges, contains. rewrite existsb_exists. unfold in_range.
  setoid_rewrite andb_true_iff. setoid_rewrite Z.leb_le.
  by setoid_rewrite list_elem_of_In.
Qed.

Lemma moved_on sel P Q m m' out out' :
  (forall x p, om_get x m = Some p -> P x = Q x) ->
  moved sel P m m' out out' -> moved sel Q m m' out out'.
Proof.
  intros HPQ (H1 & H2 & H3 & H4). split_and!; [done | done | |].
  - intros x p. rewrite H3. split; intros [Hg Hs]; (split; [done |]); by rewrite (HPQ x p Hg) in *.
  - intros p. rewrite H4. split; (intros [? | (x & Hs & Hg)]; [by left | right; exists x]);
      (split; [| done]); by rewrite (HPQ x p Hg) in *.
Qed.

Lemma ack_range_moved m o r :
  om_wf m -> keyed m -> outcome_ok o ->
  let '(m', o') := ack_range (m, o) r in
  moved (fun _ => true) (in_range r) m m' (newly_acked o) (newly_acked o') /\ keyed m' /\ outcome_ok o'.
Proof.
  intros Hm Hk Ho. unfold ack_range. simpl.
  pose proof (ack_fold_move (om_range r.1 r.2 m) m o Hk Ho) as H1.
  pose proof (moved_fold (fun _ => true) (om_range r.1 r.2 m) m (newly_acked o) Hm) as H2.
  destruct (fold_left ack_one (om_range r.1 r.2 m) (m, o)) as [m' o']. destruct H1 as (E & Hk' & Ho').
  rewrite <- E in H2. split; [| done]. eapply moved_on; [| exact H2].
  intros x p Hg. simpl. apply eq_bool_prop_intro. rewrite bool_decide_spec, om_range_elem, Hg.
  unfold in_range. rewrite Is_true_true, andb_true_iff, !Z.leb_le. intuition.
Qed.

Lemma ack_ranges_moved rs m o :
  om_wf m -> keyed m -> outcome_ok o ->
  let '(m', o') := fold_left ack_range rs (m, o) in
  moved (fun _ => true) (in_ranges rs) m m' (newly_acked o) (newly_acked o') /\ keyed m' /\ outcome_ok o'.
Proof.
  revert m o. induction rs as [| r rs IH]; intros m o Hm Hk Ho.
  - split; [by apply moved_refl | done].
  - cbn [fold_left]. pose proof (ack_range_moved m o r Hm Hk Ho) as H1.
    destruct (ack_range (m, o) r) as [m1 o1]. destruct H1 as (H1 & Hk1 & Ho1).
    specialize (IH m1 o1 (proj1 H1) Hk1 Ho1).
    destruct (fold_left ack_range rs (m1, o1)) as [m2 o2]. destruct IH as (H2 & ? & ?).
    split; [| done]. eapply moved_ext; [| by eapply moved_trans]. done.
Qed.

(** [on_ack] moves exactly the acknowledged records to the outcome. *)
Lemma on_ack_moved s largest first_range ranges :
  sent_wf s ->
  let '(o, s') := on_ack s largest first_range ranges in
  moved (fun _ => true) (in_ranges (ack_ranges largest first_range ranges))
        (sent s) (sent s') [] (newly_acked o) /\
  sent_wf s' /\ outcome_ok o /\ largest_acked s' = opt_max (largest_acked s) largest.
Proof.
  intros [Hm Hk]. unfold on_ack.
  pose proof (ack_ranges_moved (ack_ranges largest first_range ranges) (sent s) outcome_default Hm
                (fun pn p H => proj1 (Hk pn p H)) (conj eq_refl eq_refl)) as H1.
  destruct (fold_left ack_range _ _) as [m o]. destruct H1 as (H1 & Hk' & Ho). simpl in *.
  split_and!; [done | | done | done]. split; [apply H1 |]. intros pn p Hg.
  destruct H1 as (_ & _ & Hget & _). apply Hget in Hg as [Hg _]. by apply Hk.
Qed.

(** ** Lemmas: loss detection *)

(** The loss criterion of RFC 9002 as the code evaluates it. *)
Definition is_lost (la now loss_delay : Z) (p : SentPacket) : bool :=
  (sp_packet_number p + K_PACKET_THRESHOLD <=? la)
  || ((loss_delay <=? now) && (sp_time_sent p <=? now - loss_delay)).

Lemma detect_one_move la now d m lost next k :
  keyed m -> 0 <= k < 2 ^ 62 ->
  let '(m', lost', next') := detect_one la (checked_sub now d) d (m, lost, next) k in
  (m', lost') = move_sel (is_lost la now d) (m, lost) k /\ keyed m' /\
  next' = match om_get k m with
          | Some p => if is_lost la now d p then next else opt_min next (sp_time_sent p + d)
          | None => next
          end.
Proof.
  intros Hk Hkr. unfold detect_one, move_sel. simpl.
  destruct (om_get k m) as [p |] eqn:E; [| done].
  assert (Hs : (u64_add k K_PACKET_THRESHOLD <=? la)
               || match checked_sub now d with Some t => sp_time_sent p <=? t | None => false end
               = is_lost la now d p).
  { unfold is_lost, K_PACKET_THRESHOLD. rewrite (Hk k p E), u64_add_small by (unfold is_u64; lia).
    f_equal. unfold checked_sub. repeat bcase; try done; lia. }
  rewrite Hs. destruct (is_lost la now d p); (split; [done |]); (split; [| done]); [| done].
  intros x q. rewrite om_get_remove. destruct (x =? k); [done |]. apply Hk.
Qed.

(** The packets a candidate list leaves in the store. *)
Definition kept (la now d : Z) (m : BTreeMap SentPacket) (ks : list Z) : list SentPacket :=
  filter (fun p => is_lost la now d p = false) (omap (fun k => om_get k m) ks).

Lemma kept_remove la now d m ks k :
  k ∉ ks -> kept la now d (om_remove k m) ks = kept la now d m ks.
Proof.
  intros Hk. unfold kept. f_equal. induction ks as [| x ks IH]; [done |].
  apply not_elem_of_cons in Hk as [Hne Hk]. csimpl. rewrite om_get_remove.
  rewrite (proj2 (Z.eqb_neq _ _)) by congruence. by rewrite (IH Hk).
Qed.

Lemma detect_fold_move la now d ks m lost next :
  keyed m -> NoDup ks -> Forall (fun k => 0 <= k < 2 ^ 62) ks ->
  let '(m', lost', next') := fold_left (detect_one la (checked_sub now d) d) ks (m, lost, next) in
  (m', lost') = fold_left (move_sel (is_lost la now d)) ks (m, lost) /\ keyed m' /\
  next' = fold_left (fun acc p => opt_min acc (sp_time_sent p + d)) (kept la now d m ks) next.
Proof.
  revert m lost next. induction ks as [| k ks IH]; intros m lost next Hk Hnd Hr; [done |].
  apply NoDup_cons in Hnd as [Hin Hnd]. apply Forall_cons in Hr as [Hkr Hr].
  cbn [fold_left]. pose proof (detect_one_move la now d m lost next k Hk Hkr) as H1.
  destruct (detect_one la (checked_sub now d) d (m, lost, next) k) as [[m1 l1] n1].
  destruct H1 as (E1 & Hk1 & Hn1). specialize (IH m1 l1 n1 Hk1 Hnd Hr).
  destruct (fold_left (detect_one la (checked_sub now d) d) ks (m1, l1, n1)) as [[m2 l2] n2].
  destruct IH as (E2 & Hk2 & Hn2). rewrite <- E1. split_and!; [done | done |].
  rewrite Hn2, Hn1. clear Hn2 Hn1 E2 Hk2. unfold move_sel in E1. simpl in E1.
  unfold kept at 2. csimpl. destruct (om_get k m) as [p |] eqn:E; [| by injection E1 as -> _].
  rewrite filter_cons. destruct (is_lost la now d p); injection E1 as -> _; simpl.
  - rewrite kept_remove by done. done.
  - done.
Qed.

(** Without any assumption on the store: both loops only ever move records out of it. *)
Lemma om_get_values {V} k (v : V) m : om_get k m = Some v -> v ∈ om_values m.
Proof. intros H. apply om_values_elem. exists k. by apply om_get_elem. Qed.

Lemma om_remove_values {V} k (v : V) m : v ∈ om_values (om_remove k m) -> v ∈ om_values m.
Proof.
  intros (k' & H)%om_values_elem. unfold om_remove in H. apply list_elem_of_filter in H as [_ H].
  apply om_values_elem. by exists k'.
Qed.

(** Acknowledging only moves packets. *)
Lemma on_ack_moves s largest first_range ranges p :
  let '(o, s') := on_ack s largest first_range ranges in
  p ∈ newly_acked o ++ om_values (sent s') -> p ∈ om_values (sent s).
Proof.
  set (all := fun st : BTreeMap SentPacket * AckOutcome => newly_acked st.2 ++ om_values st.1).
  assert (H1 : forall st k, p ∈ all (ack_one st k) -> p ∈ all st).
  { intros [m o] k. unfold ack_one, all. destruct (om_get k m) as [q |] eqn:E; [| done]. cbn [fst snd newly_acked].
    rewrite <- app_assoc. intros [H | [-> %list_elem_of_singleton | H]%elem_of_app]%elem_of_app; apply elem_of_app; [by left | right ..];
      [by eapply om_get_values | by eapply om_remove_values]. }
  assert (H2 : forall st r, p ∈ all (ack_range st r) -> p ∈ all st).
  { intros st r. unfold ack_range. generalize (om_range r.1 r.2 st.1). intros ks. revert st.
    induction ks as [| k ks IH]; intros st; [done |]. simpl. intros H. by apply (H1 _ k), IH. }
  assert (H3 : forall rs st, p ∈ all (fold_left ack_range rs st) -> p ∈ all st).
  { induction rs as [| r rs IH]; intros st; [done |]. simpl. intros H. by apply (H2 _ r), IH. }
  unfold on_ack. specialize (H3 (ack_ranges largest first_range ranges) (sent s, outcome_default)). by destruct (fold_left _ _ _).
Qed.

Lemma on_ack_subset s largest first_range ranges p :
  p ∈ om_values (sent (on_ack s largest first_range ranges).2) -> p ∈ om_values (sent s).
Proof.
  pose proof (on_ack_moves s largest first_range ranges p) as H. destruct (on_ack _ _ _ _) as [o s']. intros Hp.
  apply H, elem_of_app. by right.
Qed.

Lemma detect_lost_subset s now d p :
  let '(lost, _, s') := detect_lost s now d in p ∈ lost ++ om_values (sent s') -> p ∈ om_values (sent s).
Proof.
  unfold detect_lost. destruct (largest_acked s) as [la |]; [| done].
  assert (H : forall ks st, p ∈ (fold_left (detect_one la (checked_sub now d) d) ks st).1.2 ++
                  om_values (fold_left (detect_one la (checked_sub now d) d) ks st).1.1 ->
                p ∈ st.1.2 ++ om_values st.1.1).
  { induction ks as [| k ks IH]; intros st; [done |]. simpl. intros H%IH. destruct st as [[m lost] next].
    unfold detect_one in H. destruct (om_get k m) as [q |] eqn:E; [| done]. simpl in *. case_match; [| done]. simpl in H.
    rewrite <- app_assoc in H. apply elem_of_app in H as [H | H]; apply elem_of_app; [by left |]. right.
    apply elem_of_app in H as [->%list_elem_of_singleton | H]; [by eapply om_get_values | by eapply om_remove_values]. }
  specialize (H (om_range 0 la (sent s)) (sent s, [], None)).
  destruct (fold_left _ _ _) as [[m lost] next]. exact H.
Qed.

Lemma om_keys_NoDup {V} (m : BTreeMap V) : om_wf m -> NoDup (om_keys m).
Proof.
  unfold om_wf. induction (om_keys m) as [| k ks IH]; intros H; [constructor |].
  apply StronglySorted_inv in H as [H Hall]. constructor; [| by apply IH].
  intros Hk. rewrite Forall_forall in Hall. specialize (Hall k Hk). lia.
Qed.

Lemma detect_lost_moved s now d la :
  sent_wf s -> largest_acked s = Some la ->
  let '(lost, next, s') := detect_lost s now d in
  moved (is_lost la now d) (in_range (0, la)) (sent s) (sent s') [] lost /\
  sent_wf s' /\ largest_acked s' = Some la /\
  match next with
  | None => forall pn p, om_get pn (sent s') = Some p -> la < pn
  | Some t => (exists pn p, om_get pn (sent s') = Some p /\ pn <= la /\ t = sp_time_sent p + d) /\
              (forall pn p, om_get pn (sent s') = Some p -> pn <= la -> t <= sp_time_sent p + d)
  end.
Proof.
  intros [Hm Hk] Hla. unfold detect_lost. rewrite Hla.
  assert (Hks : Forall (fun k => 0 <= k < 2 ^ 62) (om_range 0 la (sent s))).
  { apply Forall_forall. intros x [_ Hx]%om_range_elem.
    destruct (om_get x (sent s)) eqn:E; [| done]. apply (proj2 (Hk x _ E)). }
  assert (Hnd : NoDup (om_range 0 la (sent s))) by (by apply NoDup_filter, om_keys_NoDup).
  pose proof (detect_fold_move la now d _ (sent s) [] None (fun pn p H => proj1 (Hk pn p H)) Hnd Hks) as H1.
  pose proof (moved_fold (is_lost la now d) (om_range 0 la (sent s)) (sent s) [] Hm) as H2.
  destruct (fold_left (detect_one _ _ _) _ _) as [[m lost] next]. destruct H1 as (E & Hk' & Hn).
  rewrite <- E in H2. simpl.
  assert (Hmv : moved (is_lost la now d) (in_range (0, la)) (sent s) m [] lost).
  { eapply moved_on; [| exact H2]. intros x p Hg. simpl. apply eq_bool_prop_intro.
    rewrite bool_decide_spec, om_range_elem, Hg. unfold in_range.
    rewrite Is_true_true, andb_true_iff, !Z.leb_le. intuition. }
  pose proof Hmv as (Hw & _ & Hget & _).
  split_and!; [done | | done |].
  - split; [done |]. intros pn p Hg. apply Hget in Hg as [Hg _]. by apply Hk.
  - (* the next loss time is the minimum over the candidates that stay *)
    assert (Hkept : forall p, p ∈ kept la now d (sent s) (om_range 0 la (sent s)) <->
              exists pn, om_get pn m = Some p /\ pn <= la).
    { intros p. unfold kept. rewrite list_elem_of_filter, list_elem_of_omap.
      setoid_rewrite om_range_elem. setoid_rewrite Hget. unfold in_range. simpl. split.
      - intros (Hl & x & (Hx & _) & Hg). exists x. rewrite Hl, andb_false_r. split; [done | lia].
      - intros (x & (Hg & Hs) & Hx). pose proof (Hk x p Hg) as [_ ?].
        rewrite (proj2 (Z.leb_le 0 x)), (proj2 (Z.leb_le x la)) in Hs by lia.
        split; [done |]. exists x. rewrite Hg. split; [split; [lia | done] | done]. }
    pose proof (fold_opt_min_spec (fun p => sp_time_sent p + d) (kept la now d (sent s) (om_range 0 la (sent s)))) as Hmin.
    cbv beta in Hmin. rewrite <- Hn in Hmin. destruct next as [t |].
    + destruct Hmin as [(p & Hp & <-) Hall]. split.
      * apply Hkept in Hp as (pn & ? & ?). by exists pn, p.
      * intros pn q Hg Hle. apply Hall, Hkept. by exists pn.
    + intros pn p Hg. destruct (Z.le_gt_cases pn la); [| lia]. exfalso.
      assert (Hp : p ∈ kept la now d (sent s) (om_range 0 la (sent s))) by (apply Hkept; by exists pn).
      rewrite Hmin in Hp. by apply elem_of_nil in Hp.
Qed.

(** ** Properties *)

(** Processing an ACK removes from the store exactly the packets whose
    numbers lie in the ranges the frame expands to, and reports exactly those as
    newly acknowledged: nothing is dropped or duplicated, every other record is
    untouched, and the summary fields describe the reported packets. *)
Theorem on_ack_exact s largest first_range ranges :
  sent_wf s ->
  let '(o, s') := on_ack s largest first_range ranges in
  sent_wf s' /\
  newly_acked o ++ om_values (sent s') ≡ₚ om_values (sent s) /\
  (forall pn p, om_get pn (sent s') = Some p <->
     om_get pn (sent s) = Some p /\ ~ contains (ack_ranges largest first_range ranges) pn) /\
  acked_ack_eliciting o = existsb sp_ack_eliciting (newly_acked o) /\
  largest_newly_acked o = fold_left (fun acc p => opt_max acc (sp_packet_number p)) (newly_acked o) None.
Proof.
  intros Hs. pose proof (on_ack_moved s largest first_range ranges Hs) as H.
  destruct (on_ack s largest first_range ranges) as [o s'].
  destruct H as ((_ & HP & Hg & _) & Hwf & [Ho1 Ho2] & _). split_and!; [done | done | | done | done].
  intros pn p. rewrite Hg, andb_true_r, <- in_ranges_contains, not_true_iff_false. done.
Qed.

Definition demo_packet (pn t : Z) (e : bool) : SentPacket := mkSentPacket pn t e e 1200 [] None.
Definition demo_store : SentPackets :=
  fold_left on_packet_sent [demo_packet 0 10 true; demo_packet 1 20 true; demo_packet 2 30 false;
                            demo_packet 6 40 true; demo_packet 7 50 true] sent_new.

(** Acknowledgement and loss detection only take packets away. *)
Definition sent_sub (s s' : SentPackets) : Prop :=
  forall pn p, om_get pn (sent s') = Some p -> om_get pn (sent s) = Some p.

Lemma fold_removes {S A} (store : S -> BTreeMap SentPacket) (step : S -> A -> S) l a pn p :
  (forall a x pn p, om_get pn (store (step a x)) = Some p -> om_get pn (store a) = Some p) ->
  om_get pn (store (fold_left step l a)) = Some p -> om_get pn (store a) = Some p.
Proof. intros Hstep. revert a. induction l as [| x l IH]; intros a; [done |]. intros H%IH. by apply Hstep in H. Qed.

Lemma om_get_removed {V} k k' (m : BTreeMap V) v : om_get k (om_remove k' m) = Some v -> om_get k m = Some v.
Proof. rewrite om_get_remove. by case_match. Qed.

Lemma on_ack_sub s largest first_range ranges : sent_sub s (on_ack s largest first_range ranges).2.
Proof.
  intros pn p. unfold on_ack.
  pose proof (fold_removes fst ack_range (ack_ranges largest first_range ranges) (sent s, outcome_default) pn p) as H.
  destruct (fold_left ack_range _ _) as [m o]. apply H. clear. intros st r pn p. apply fold_removes.
  clear. intros [m o] k pn p. unfold ack_one. destruct (om_get k m); [apply om_get_removed | done].
Qed.

Lemma detect_lost_sub s now loss_delay : sent_sub s (detect_lost s now loss_delay).2.
Proof.
  intros pn p. unfold detect_lost. destruct (largest_acked s) as [la |]; [| done].
  match goal with |- context [fold_left ?g ?l ?a] =>
    pose proof (fold_removes (fun st => st.1.1) g l a pn p) as H; destruct (fold_left g l a) as [[m lost] next] end.
  apply H. clear. intros [[m lost] next] k pn p. unfold detect_one. destruct (om_get k m); [| done].
  destruct (_ || _); [apply om_get_removed | done].
Qed.

(** An ACK that acknowledges nothing new leaves the packets as they are. *)
Lemma on_ack_none s largest first_range ranges :
  newly_acked (on_ack s largest first_range ranges).1 = [] -> sent (on_ack s largest first_range ranges).2 = sent s.
Proof.
  set (kept := fun a b : BTreeMap SentPacket * AckOutcome => newly_acked b.2 = [] -> b.1 = a.1 /\ newly_acked a.2 = []).
  assert (Hfold : forall {A} (step : _ -> A -> _) l a, (forall a x, kept a (step a x)) -> kept a (fold_left step l a)).
  { intros A step l. induction l as [| x l IH]; intros a Hstep; [done |]. cbn [fold_left]. intros Hn.
    destruct (IH (step a x) Hstep Hn) as [E1 E2]. destruct (Hstep a x E2) as [E3 E4]. by rewrite E1, E3. }
  assert (H : kept (sent s, outcome_default) (fold_left ack_range (ack_ranges largest first_range ranges) (sent s, outcome_default))).
  { apply Hfold. intros a r. apply Hfold. intros [m o] pn. unfold ack_one. destruct (om_get pn m) as [p |]; [| done].
    intros Hn. by destruct (newly_acked o). }
  unfold on_ack. destruct (fold_left ack_range _ _) as [m o]. intros Hn. by destruct (H Hn).
Qed.

Lemma sent_wf_sent s p : sent_wf s -> 0 <= sp_packet_number p < 2 ^ 62 -> sent_wf (on_packet_sent s p).
Proof.
  intros [Hm Hk] Hp. split; [by apply om_wf_insert |]. intros pn q. simpl. rewrite om_get_insert.
  destruct (Z.eqb_spec pn (sp_packet_number p)) as [-> | ]; [by intros [= <-] | apply Hk].
Qed.

Lemma sent_wf_new : sent_wf sent_new.
Proof. split; [apply om_wf_empty | done]. Qed.

Lemma demo_store_wf : sent_wf demo_store.
Proof.
  unfold demo_store. simpl fold_left.
  repeat (apply sent_wf_sent; [| simpl; lia]). apply sent_wf_new.
Qed.

Lemma on_ack_exact_witness :
  let '(o, s') := on_ack demo_store 7 1 [(3, 0)] in
  sent_wf s' /\
  newly_acked o ++ om_values (sent s') ≡ₚ om_values (sent demo_store) /\
  (forall pn p, om_get pn (sent s') = Some p <->
     om_get pn (sent demo_store) = Some p /\ ~ contains (ack_ranges 7 1 [(3, 0)]) pn) /\
  acked_ack_eliciting o = existsb sp_ack_eliciting (newly_acked o) /\
  largest_newly_acked o = fold_left (fun acc p => opt_max acc (sp_packet_number p)) (newly_acked o) None.
Proof. apply (on_ack_exact demo_store 7 1 [(3, 0)]). apply demo_store_wf. Defined.

(** C28: Acknowledgement is exact end to end: when one endpoint received an
    arbitrary sequence of packets, at least one of them ack-eliciting, the ACK
    frame it builds, applied by its peer to the peer's sent-packet store, removes
    exactly the packets that were received. *)
Theorem ack_end_to_end (evs : list (Z * bool)) delay s :
  Forall (fun e => 0 <= e.1 < 2 ^ 62) evs -> existsb snd evs = true -> sent_wf s ->
  exists largest first_range gaps,
    (build_ack (receive_all (@space_new unit unit) evs) delay).1 = Some (Ack largest delay first_range gaps) /\
    let '(o, s') := on_ack s largest first_range (gap_pairs gaps) in
    (forall pn p, om_get pn (sent s') = Some p <-> om_get pn (sent s) = Some p /\ pn ∉ evs.*1) /\
    (forall p, p ∈ newly_acked o <-> exists pn, om_get pn (sent s) = Some p /\ pn ∈ evs.*1).
Proof.
  intros Hevs He Hs. set (r := receive_all (@space_new unit unit) evs).
  destruct (receive_all_exactly _ [] evs (received_exactly_new unit unit) Hevs) as [Hwf Hc].
  fold r in Hwf, Hc. simpl in Hc.
  assert (Hne : received r <> []).
  { intros E. destruct evs as [| [pn e] evs]; [done |]. apply (contains_nil pn). rewrite <- E.
    apply Hc. apply list_elem_of_here. }
  destruct (ack_frame_ranges (received r) delay Hwf Hne) as (l & fr & gaps & Hf & Hr).
  exists l, fr, gaps. split.
  - unfold build_ack. subst r. rewrite receive_all_pending, He, orb_true_r. simpl. by rewrite Hf.
  - pose proof (on_ack_moved s l fr (gap_pairs gaps) Hs) as H.
    destruct (on_ack s l fr (gap_pairs gaps)) as [o s']. destruct H as ((_ & _ & Hg & Ho) & _).
    rewrite Hr in Hg, Ho.
    assert (Hin : forall x, in_ranges (reverse (received r)) x = true <-> x ∈ evs.*1).
    { intros x. by rewrite in_ranges_contains, contains_reverse. }
    split.
    + intros pn p. rewrite Hg, andb_true_r, <- Hin, not_true_iff_false. done.
    + intros p. rewrite Ho, elem_of_nil. setoid_rewrite andb_true_r. setoid_rewrite Hin.
      split; [intros [[] | (x & ? & ?)] | intros (x & ? & ?); right]; by exists x.
Qed.

Lemma ack_end_to_end_witness :
  exists largest first_range gaps,
    (build_ack (receive_all (@space_new unit unit) [(7, true); (1, false); (6, true); (1, true)]) 4).1
    = Some (Ack largest 4 first_range gaps) /\
    let '(o, s') := on_ack demo_store largest first_range (gap_pairs gaps) in
    (forall pn p, om_get pn (sent s') = Some p <->
       om_get pn (sent demo_store) = Some p /\ pn ∉ [(7, true); (1, false); (6, true); (1, true)].*1) /\
    (forall p, p ∈ newly_acked o <->
       exists pn, om_get pn (sent demo_store) = Some p /\ pn ∈ [(7, true); (1, false); (6, true); (1, true)].*1).
Proof.
  apply ack_end_to_end.
  - repeat (apply Forall_cons; split; [vm_compute; split; congruence |]). apply Forall_nil. exact I.
  - reflexivity.
  - apply demo_store_wf.
Defined.

(** C29: Loss detection declares lost exactly the outstanding packets at or below
    the largest acknowledged that are three or more packet numbers behind it or
    were sent at least [loss_delay] ago; it moves exactly those out of the store,
    and the reported timer is the earliest [time_sent + loss_delay] over the
    packets it left at or below the largest acknowledged.  The doc comment of
    [detect_lost] differs on both counts: it measures the delay from the largest
    acknowledged packet instead of [now], and says the returned time is a send time to
    which [loss_delay] is still to be added. *)
Theorem detect_lost_exact s now d la :
  sent_wf s -> largest_acked s = Some la ->
  let '(lost, next, s') := detect_lost s now d in
  sent_wf s' /\
  lost ++ om_values (sent s') ≡ₚ om_values (sent s) /\
  (forall p, p ∈ lost <->
     exists pn, om_get pn (sent s) = Some p /\ pn <= la /\
       (pn + 3 <= la \/ d <= now /\ sp_time_sent p <= now - d)) /\
  match next with
  | None => forall pn p, om_get pn (sent s') = Some p -> la < pn
  | Some t => (exists pn p, om_get pn (sent s') = Some p /\ pn <= la /\ t = sp_time_sent p + d) /\
              (forall pn p, om_get pn (sent s') = Some p -> pn <= la -> t <= sp_time_sent p + d)
  end.
Proof.
  intros Hs Hla. pose proof (detect_lost_moved s now d la Hs Hla) as H.
  destruct (detect_lost s now d) as [[lost next] s'].
  destruct H as ((_ & HP & _ & Ho) & Hwf & _ & Hn). split_and!; [done | done | | done].
  intros p. rewrite Ho, elem_of_nil. unfold in_range, is_lost, K_PACKET_THRESHOLD. simpl.
  setoid_rewrite andb_true_iff. setoid_rewrite orb_true_iff. setoid_rewrite andb_true_iff.
  setoid_rewrite Z.leb_le. destruct Hs as [_ Hk]. split.
  - intros [[] | (x & ((? & ?) & Hl) & Hg)]. exists x. destruct (Hk x p Hg) as [-> _] in Hl. auto.
  - intros (x & Hg & Hx & Hl). right. exists x. destruct (Hk x p Hg) as [-> ?]. split; [| done]. split; [lia | done].
Qed.

Lemma detect_lost_exact_witness :
  let s := (on_ack demo_store 6 0 []).2 in
  let '(lost, next, s') := detect_lost s 25 5 in
  sent_wf s' /\
  lost ++ om_values (sent s') ≡ₚ om_values (sent s) /\
  (forall p, p ∈ lost <->
     exists pn, om_get pn (sent s) = Some p /\ pn <= 6 /\
       (pn + 3 <= 6 \/ 5 <= 25 /\ sp_time_sent p <= 25 - 5)) /\
  match next with
  | None => forall pn p, om_get pn (sent s') = Some p -> 6 < pn
  | Some t => (exists pn p, om_get pn (sent s') = Some p /\ pn <= 6 /\ t = sp_time_sent p + 5) /\
              (forall pn p, om_get pn (sent s') = Some p -> pn <= 6 -> t <= sp_time_sent p + 5)
  end.
Proof.
  apply detect_lost_exact.
  - pose proof (on_ack_moved demo_store 6 0 [] demo_store_wf) as H.
    destruct (on_ack demo_store 6 0 []) as [o s']. apply H.
  - reflexivity.
Defined.
