(* ===== verification/Streams.v ===== *)
(** * Stream send and receive state machines ([oxiquic-transport/src/stream.rs])
    and CRYPTO streams ([oxiquic-transport/src/crypto_stream.rs])

    [SendStream] chunks buffered bytes into frames and replays lost segments;
    [RecvStream] and [CryptoStream] reassemble segments that arrive in any order.
    The reassembly loop is the same code in both files and is shared here. *)

From S2P Require Import Prelude OrdMap.

(** ** Reassembly *)

(** [pending.range(..=k).next_back()]: the entry with the greatest key up to [k]. *)
Definition om_last_le {V} (k : Z) (m : BTreeMap V) : option (Z * V) :=
  last (filter (fun e => e.1 <= k) m).

(** [flush_contiguous]: while a segment starts at or before [read_offset], move
    it out of [pending] and append its unread part.  Every turn removes one
    entry, so [length pending] turns are enough. *)
Fixpoint flush_loop (fuel : nat) (read_offset : Z) (pending : BTreeMap (list Z)) (ready : list Z)
    : Z * BTreeMap (list Z) * list Z :=
  match fuel with
  | O => (read_offset, pending, ready)
  | S k =>
      match om_last_le read_offset pending with
      | None => (read_offset, pending, ready)
      | Some (start, segment) =>
          let pending := om_remove start pending in
          let seg_end := u64_add start (len segment) in
          if seg_end <=? read_offset then flush_loop k read_offset pending ready
          else
            let skip := read_offset - start in
            flush_loop k seg_end pending (ready ++ drop (Z.to_nat skip) segment)
      end
  end.

Definition flush_contiguous (read_offset : Z) (pending : BTreeMap (list Z)) (ready : list Z) :=
  flush_loop (length pending) read_offset pending ready.

(** Trim the part before [read_offset] and buffer the rest, if any. *)
Definition trim (read_offset offset : Z) (data : list Z) : Z * list Z :=
  if offset <? read_offset
  then (read_offset, drop (Z.to_nat (read_offset - offset)) data)
  else (offset, data).

Definition buffer_segment (pending : BTreeMap (list Z)) (offset : Z) (data : list Z) : BTreeMap (list Z) :=
  match data with [] => pending | _ => om_insert offset data pending end.

(** ** Errors *)

Inductive StreamError := FinalSize | Reset (code : Z).

#[export] Instance StreamError_eq_dec : EqDecision StreamError.
Proof. solve_decision. Defined.

(** ** The sending half *)

Module SendStream.

Record ResendSegment := mkResend { rs_offset : Z; rs_data : list Z; rs_fin : bool }.

Record t := mk {
  buf : list Z;
  base : Z;
  fin : bool;
  fin_sent : bool;
  resend : list ResendSegment;
  reset_code : option Z
}.

Definition new : t := mk [] 0 false false [] None.

Definition write (s : t) (data : list Z) (f : bool) : t :=
  mk (buf s ++ data) (base s) (if f then true else fin s) (fin_sent s) (resend s) (reset_code s).

Definition is_nil {A} (l : list A) : bool := match l with [] => true | _ => false end.

Definition has_pending (s : t) : bool :=
  if is_some (reset_code s) then false
  else negb (is_nil (resend s)) || negb (is_nil (buf s)) || (fin s && negb (fin_sent s)).

Definition reset (s : t) (error_code : Z) : t :=
  mk [] (base s) (fin s) (fin_sent s) [] (Some error_code).

Definition is_reset (s : t) : bool := is_some (reset_code s).

Definition final_size (s : t) : Z := u64_add (base s) (len (buf s)).

Definition requeue (s : t) (offset : Z) (data : list Z) (f : bool) : t :=
  mk (buf s) (base s) (fin s) (fin_sent s) (resend s ++ [mkResend offset data f]) (reset_code s).

Definition has_resend (s : t) : bool := negb (is_nil (resend s)).

(** [take(max)]: the next frame body [(offset, data, fin)], if any. *)
Definition take (s : t) (max : Z) : option (Z * list Z * bool) * t :=
  match reset_code s with
  | Some _ => (None, s)
  | None =>
      match resend s with
      | front :: rest =>
          if max =? 0 then (None, s)
          else if len (rs_data front) <=? max then
            (Some (rs_offset front, rs_data front, rs_fin front),
             mk (buf s) (base s) (fin s) (fin_sent s) rest (reset_code s))
          else
            let chunk := take (Z.to_nat max) (rs_data front) in
            let front' := mkResend (u64_add (rs_offset front) max)
                                   (drop (Z.to_nat max) (rs_data front)) (rs_fin front) in
            (Some (rs_offset front, chunk, false),
             mk (buf s) (base s) (fin s) (fin_sent s) (front' :: rest) (reset_code s))
      | [] =>
          match buf s with
          | [] =>
              if fin s && negb (fin_sent s)
              then (Some (base s, [], true), mk [] (base s) (fin s) true [] None)
              else (None, s)
          | _ =>
              let n := Z.min max (len (buf s)) in
              if n =? 0 then (None, s)
              else
                let chunk := take (Z.to_nat n) (buf s) in
                let buf' := drop (Z.to_nat n) (buf s) in
                let f := fin s && is_nil buf' in
                (Some (base s, chunk, f),
                 mk buf' (u64_add (base s) n) (fin s) (if f then true else fin_sent s) [] None)
          end
      end
  end.

End SendStream.

(** ** The receiving half *)

Module RecvStream.

Record t := mk {
  read_offset : Z;
  pending : BTreeMap (list Z);
  ready : list Z;
  final_size : option Z;
  fin_delivered : bool;
  reset_code : option Z
}.

Definition new : t := mk 0 om_empty [] None false None.

Definition apply_reset (s : t) (error_code : Z) : t :=
  mk (read_offset s) om_empty [] (final_size s) (fin_delivered s) (Some error_code).

Definition is_reset (s : t) : bool := is_some (reset_code s).

Definition read (s : t) : list Z * bool * t :=
  let bytes := ready s in
  let f := fin_delivered s && SendStream.is_nil (pending s) in
  (bytes, f, mk (read_offset s) (pending s) [] (final_size s) (fin_delivered s) (reset_code s)).

Definition read_checked (s : t) : result StreamError (list Z * bool) * t :=
  match reset_code s with
  | Some code => (Err (Reset code), s)
  | None => let '(bytes, f, s') := read s in (Ok (bytes, f), s')
  end.

(** The final-size checks at the head of [recv]: the new [final_size]. *)
Definition check_final_size (fs : option Z) (stop : Z) (f : bool) : result StreamError (option Z) :=
  match fs with
  | Some fsize =>
      if fsize <? stop then Err FinalSize
      else if f && negb (stop =? fsize) then Err FinalSize
      else Ok (if f then Some stop else fs)
  | None => Ok (if f then Some stop else None)
  end.

Definition recv (s : t) (offset : Z) (data : list Z) (f : bool) : result StreamError (bool * t) :=
  let stop := u64_add offset (len data) in
  fs ← check_final_size (final_size s) stop f;
  let '(ro, p, rd) :=
    if read_offset s <? stop then
      let '(offset, data) := trim (read_offset s) offset data in
      flush_contiguous (read_offset s) (buffer_segment (pending s) offset data) (ready s)
    else (read_offset s, pending s, ready s) in
  let fd := match fs with
            | Some fsize => if fsize <=? ro then true else fin_delivered s
            | None => fin_delivered s
            end in
  Ok ((len (ready s) <? len rd) || (fd && negb (fin_delivered s)),
      mk ro p rd fs fd (reset_code s)).

End RecvStream.

(** ** CRYPTO streams *)

Module CryptoStream.

Record ResendSegment := mkResend { rs_offset : Z; rs_data : list Z }.

Record t := mk {
  recv_offset : Z;
  recv_pending : BTreeMap (list Z);
  send_buf : list Z;
  send_base : Z;
  resend : list ResendSegment
}.

Definition new : t := mk 0 om_empty [] 0 [].

Definition recv (s : t) (offset : Z) (data : list Z) : option (list Z) * t :=
  let stop := u64_add offset (len data) in
  if stop <=? recv_offset s then (None, s)
  else
    let '(offset, data) := trim (recv_offset s) offset data in
    let '(ro, p, delivered) :=
      flush_contiguous (recv_offset s) (buffer_segment (recv_pending s) offset data) [] in
    ((if SendStream.is_nil delivered then None else Some delivered),
     mk ro p (send_buf s) (send_base s) (resend s)).

Definition enqueue_send (s : t) (data : list Z) : t :=
  mk (recv_offset s) (recv_pending s) (send_buf s ++ data) (send_base s) (resend s).

Definition has_send_data (s : t) : bool :=
  negb (SendStream.is_nil (resend s)) || negb (SendStream.is_nil (send_buf s)).

Definition requeue (s : t) (offset : Z) (data : list Z) : t :=
  mk (recv_offset s) (recv_pending s) (send_buf s) (send_base s) (resend s ++ [mkResend offset data]).

Definition take_send (s : t) (max : Z) : option (Z * list Z) * t :=
  if max =? 0 then (None, s)
  else
    match resend s with
    | front :: rest =>
        if len (rs_data front) <=? max then
          (Some (rs_offset front, rs_data front),
           mk (recv_offset s) (recv_pending s) (send_buf s) (send_base s) rest)
        else
          let chunk := take (Z.to_nat max) (rs_data front) in
          let front' := mkResend (u64_add (rs_offset front) max) (drop (Z.to_nat max) (rs_data front)) in
          (Some (rs_offset front, chunk),
           mk (recv_offset s) (recv_pending s) (send_buf s) (send_base s) (front' :: rest))
    | [] =>
        match send_buf s with
        | [] => (None, s)
        | _ =>
            let n := Z.min max (len (send_buf s)) in
            (Some (send_base s, take (Z.to_nat n) (send_buf s)),
             mk (recv_offset s) (recv_pending s) (drop (Z.to_nat n) (send_buf s))
                (u64_add (send_base s) n) [])
        end
    end.

End CryptoStream.

(** ** Lemmas: slices of the stream content *)

(** The bytes [a..b] of a stream's content. *)
Definition bytes_of (content : list Z) (a b : Z) : list Z := slice content (Z.to_nat a) (Z.to_nat b).

(** [data] is what the stream contains at [offset]. *)
Definition seg_at (content : list Z) (offset : Z) (data : list Z) : Prop :=
  0 <= offset /\ offset + len data <= len content /\
  data = bytes_of content offset (offset + len data).

#[export] Instance seg_at_dec content o d : Decision (seg_at content o d).
Proof. unfold seg_at. apply _. Defined.

Lemma bytes_of_length content a b : 0 <= a <= b -> b <= len content -> len (bytes_of content a b) = b - a.
Proof. intros. unfold bytes_of. rewrite slice_length; lia. Qed.

Lemma bytes_of_app content a b c :
  0 <= a <= b -> b <= c -> bytes_of content a b ++ bytes_of content b c = bytes_of content a c.
Proof.
  intros Hab Hbc. unfold bytes_of, slice.
  replace (Z.to_nat c - Z.to_nat a)%nat
    with ((Z.to_nat b - Z.to_nat a) + (Z.to_nat c - Z.to_nat b))%nat by lia.
  rewrite <- (take_take_drop (drop (Z.to_nat a) content)). f_equal.
  rewrite drop_drop. do 2 f_equal. lia.
Qed.

Lemma bytes_of_drop content a b n :
  0 <= a -> 0 <= n -> a + n <= b ->
  drop (Z.to_nat n) (bytes_of content a b) = bytes_of content (a + n) b.
Proof.
  intros. unfold bytes_of, slice. rewrite skipn_firstn_comm, drop_drop.
  f_equal; [lia | f_equal; lia].
Qed.

Lemma bytes_of_take content a b n :
  0 <= a -> 0 <= n -> a + n <= b ->
  take (Z.to_nat n) (bytes_of content a b) = bytes_of content a (a + n).
Proof. intros. unfold bytes_of, slice. rewrite take_take. f_equal. lia. Qed.

Lemma bytes_of_nil content a : bytes_of content a a = [].
Proof. unfold bytes_of, slice. by rewrite Nat.sub_diag. Qed.

Lemma bytes_of_whole content : bytes_of content 0 (len content) = content.
Proof. unfold bytes_of, slice. simpl. rewrite Nat2Z.id, drop_0. by rewrite firstn_all2 by lia. Qed.

Lemma bytes_of_extend content more a b :
  0 <= a -> b <= len content -> bytes_of (content ++ more) a b = bytes_of content a b.
Proof.
  intros. unfold bytes_of, slice. destruct (Z.le_gt_cases b a).
  - by replace (Z.to_nat b - Z.to_nat a)%nat with 0%nat by lia.
  - rewrite drop_app_le by lia. rewrite take_app_le; [done |]. rewrite length_drop. lia.
Qed.

Lemma seg_at_drop content o d n :
  seg_at content o d -> 0 <= n <= len d -> seg_at content (o + n) (drop (Z.to_nat n) d).
Proof.
  intros (H0 & Hl & E) Hn. unfold seg_at. rewrite length_drop. split; [lia |]. split; [lia |].
  rewrite E at 1. rewrite bytes_of_drop by lia. f_equal. lia.
Qed.

Lemma seg_at_extend content more o d : seg_at content o d -> seg_at (content ++ more) o d.
Proof.
  intros (H0 & Hl & E). unfold seg_at. rewrite length_app. split; [done |]. split; [lia |].
  rewrite bytes_of_extend by lia. done.
Qed.

(** ** Lemmas: the flush loop *)

Lemma om_last_le_Some {V} k (m : BTreeMap V) s d :
  om_last_le k m = Some (s, d) -> (s, d) ∈ m /\ s <= k.
Proof.
  unfold om_last_le. intros H%last_Some_elem_of. apply list_elem_of_filter in H as [Hs He]. done.
Qed.

Lemma om_last_le_None {V} k (m : BTreeMap V) :
  om_last_le k m = None -> forall s d, (s, d) ∈ m -> k < s.
Proof.
  unfold om_last_le. intros H%last_None s d He. destruct (Z.le_gt_cases s k); [| lia]. exfalso.
  assert (Hin : (s, d) ∈ filter (fun e : Z * V => e.1 <= k) m) by (by apply list_elem_of_filter).
  rewrite H in Hin. by apply elem_of_nil in Hin.
Qed.

Lemma om_remove_length {V} k (m : BTreeMap V) d : (k, d) ∈ m -> (length (om_remove k m) < length m)%nat.
Proof. intros He. unfold om_remove. eapply length_filter_lt; [exact He |]. simpl. auto. Qed.

(** What a flush leaves behind: the offset advanced, every segment was either
    consumed or lies strictly ahead, and the bytes appended are the content
    between the two offsets. *)
Record flushed (content : list Z) (ro : Z) (m : BTreeMap (list Z)) (rd : list Z)
    (ro' : Z) (m' : BTreeMap (list Z)) (rd' : list Z) : Prop := {
  fl_wf : om_wf m';
  fl_le : ro <= ro' <= len content;
  fl_done : forall k d, om_get k m = Some d -> k + len d <= ro' \/ (ro' < k /\ om_get k m' = Some d);
  fl_left : forall k d, om_get k m' = Some d -> om_get k m = Some d /\ ro' < k;
  fl_bytes : rd' = rd ++ bytes_of content ro ro'
}.

Definition segs_at (content : list Z) (m : BTreeMap (list Z)) : Prop :=
  forall k d, om_get k m = Some d -> seg_at content k d.

Lemma flush_loop_spec content fuel ro m rd :
  om_wf m -> segs_at content m -> len content < 2 ^ 62 -> 0 <= ro <= len content ->
  (length m <= fuel)%nat ->
  let '(ro', m', rd') := flush_loop fuel ro m rd in flushed content ro m rd ro' m' rd'.
Proof.
  intros Hm Hs Hc. revert ro m rd Hm Hs. induction fuel as [| fuel IH]; intros ro m rd Hm Hs Hro Hf; simpl.
  - destruct m; [| simpl in Hf; lia]. split; try done; [lia |]. by rewrite bytes_of_nil, app_nil_r.
  - destruct (om_last_le ro m) as [[s d] |] eqn:E.
    + apply om_last_le_Some in E as [He Hsr]. pose proof (om_elem_get _ _ _ Hm He) as Hg.
      pose proof (Hs s d Hg) as Hseg. pose proof Hseg as (H0 & Hl & Ed).
      pose proof (om_wf_remove s m Hm) as Hm1.
      assert (Hs1 : segs_at content (om_remove s m)).
      { intros k q. rewrite om_get_remove. destruct (k =? s); [done | apply Hs]. }
      pose proof (om_remove_length s m d He) as Hlt.
      rewrite u64_add_small by (unfold is_u64; lia).
      destruct (Z.leb_spec (s + len d) ro).
      * specialize (IH ro (om_remove s m) rd Hm1 Hs1 Hro ltac:(lia)).
        destruct (flush_loop fuel ro (om_remove s m) rd) as [[ro' m'] rd'].
        destruct IH as [I1 I2 I3 I4 I5]. split; [done | done | | | done].
        -- intros k q Hk. destruct (Z.eqb_spec k s) as [-> | Hne].
           ++ left. assert (q = d) as -> by congruence. lia.
           ++ apply I3. rewrite om_get_remove, (proj2 (Z.eqb_neq _ _)) by done. done.
        -- intros k q Hk. apply I4 in Hk as [Hk ?]. rewrite om_get_remove in Hk.
           destruct (k =? s); [done |]. done.
      * specialize (IH (s + len d) (om_remove s m) (rd ++ drop (Z.to_nat (ro - s)) d) Hm1 Hs1 ltac:(lia) ltac:(lia)).
        destruct (flush_loop fuel _ _ _) as [[ro' m'] rd'].
        destruct IH as [I1 I2 I3 I4 I5]. split; [done | lia | | |].
        -- intros k q Hk. destruct (Z.eqb_spec k s) as [-> | Hne].
           ++ left. assert (q = d) as -> by congruence. lia.
           ++ apply I3. rewrite om_get_remove, (proj2 (Z.eqb_neq _ _)) by done. done.
        -- intros k q Hk. apply I4 in Hk as [Hk ?]. rewrite om_get_remove in Hk.
           destruct (k =? s); [done |]. done.
        -- rewrite I5, <- app_assoc. f_equal. rewrite Ed at 1. rewrite bytes_of_drop by lia.
           replace (s + (ro - s)) with ro by lia. apply bytes_of_app; lia.
    + split; [done | lia | | | by rewrite bytes_of_nil, app_nil_r].
      * intros k d Hk. right. split; [| done]. eapply om_last_le_None; [exact E | by apply om_get_elem].
      * intros k d Hk. split; [done |]. eapply om_last_le_None; [exact E | by apply om_get_elem].
Qed.

(** ** Lemmas: accepting one segment *)

(** The common core of the two [recv] functions. *)
Definition accept (ro : Z) (m : BTreeMap (list Z)) (rd : list Z) (offset : Z) (data : list Z)
    : Z * BTreeMap (list Z) * list Z :=
  if ro <? u64_add offset (len data) then
    let '(offset, data) := trim ro offset data in
    flush_contiguous ro (buffer_segment m offset data) rd
  else (ro, m, rd).

(** The reassembly invariant: buffered segments carry stream content and lie
    strictly ahead of the read offset. *)
Record reasm (content : list Z) (ro : Z) (m : BTreeMap (list Z)) : Prop := {
  re_wf : om_wf m;
  re_segs : segs_at content m;
  re_ro : 0 <= ro <= len content;
  re_ahead : forall k d, om_get k m = Some d -> ro < k
}.

(** Every non-empty segment seen so far has been read or is buffered. *)
Definition tracked (seen : list (Z * list Z)) (ro : Z) (m : BTreeMap (list Z)) : Prop :=
  forall o d, (o, d) ∈ seen -> d <> [] -> o + len d <= ro \/ (ro < o /\ om_get o m = Some d).

(** Segments that start at the same offset are the same. *)
Definition uniform (seen : list (Z * list Z)) : Prop :=
  forall o d d', (o, d) ∈ seen -> (o, d') ∈ seen -> d <> [] -> d' <> [] -> d = d'.

Lemma reasm_new content : reasm content 0 om_empty.
Proof. split; [apply om_wf_empty | done | lia | done]. Qed.

Lemma trim_spec content ro o d :
  seg_at content o d -> d <> [] -> 0 <= ro < o + len d ->
  let '(o', d') := trim ro o d in
  seg_at content o' d' /\ ro <= o' /\ o <= o' /\ o' + len d' = o + len d /\ d' <> [] /\
  (ro < o -> o' = o /\ d' = d) /\ (o <= ro -> o' = ro).
Proof.
  intros Hs Hdne Hro. unfold trim. pose proof Hs as (H0 & Hl & _). destruct (Z.ltb_spec o ro).
  - assert (Hn : 0 <= ro - o <= len d) by lia.
    pose proof (seg_at_drop content o d (ro - o) Hs Hn) as Hd. replace (o + (ro - o)) with ro in Hd by lia.
    assert (Hlen : len (drop (Z.to_nat (ro - o)) d) = o + len d - ro) by (rewrite length_drop; lia).
    split_and!; [done | lia | lia | lia | | lia | done]. intros E. rewrite E in Hlen. simpl in Hlen. lia.
  - split_and!; [done | lia | lia | done | done | done | lia].
Qed.

(** An empty segment (a pure FIN) changes nothing. *)
Lemma accept_empty content ro m rd o : reasm content ro m -> accept ro m rd o [] = (ro, m, rd).
Proof.
  intros [R1 _ _ R4]. unfold accept, trim. destruct (ro <? u64_add o (len [])); [| done].
  assert (Hf : flush_contiguous ro m rd = (ro, m, rd)).
  { unfold flush_contiguous. destruct (length m) as [| n]; simpl; [done |].
    destruct (om_last_le ro m) as [[s d] |] eqn:E; [| done].
    apply om_last_le_Some in E as [He Hs]. apply om_elem_get in He; [| done]. specialize (R4 s d He). lia. }
  destruct (o <? ro); simpl; by rewrite ?drop_nil.
Qed.

Lemma accept_flushed content ro m rd o d :
  reasm content ro m -> seg_at content o d -> len content < 2 ^ 62 -> d <> [] ->
  ro < o + len d ->
  let '(o', d') := trim ro o d in
  let '(ro', m', rd') := accept ro m rd o d in
  flushed content ro (om_insert o' d' m) rd ro' m' rd'.
Proof.
  intros [R1 R2 R3 R4] Hs Hc Hdne Hlt. pose proof Hs as (H0 & Hl & _). unfold accept.
  rewrite u64_add_small by (unfold is_u64; lia). rewrite (proj2 (Z.ltb_lt _ _)) by done.
  pose proof (trim_spec content ro o d Hs Hdne ltac:(lia)) as Ht. destruct (trim ro o d) as [o' d'].
  destruct Ht as (Hs' & _ & _ & _ & Hne & _). unfold flush_contiguous, buffer_segment.
  destruct d' as [| x d']; [done |]. apply flush_loop_spec; [by apply om_wf_insert | | done | done | done].
  intros k q. rewrite om_get_insert. destruct (Z.eqb_spec k o') as [-> | ]; [by intros [= <-] | apply R2].
Qed.

Lemma accept_spec content ro m rd o d :
  reasm content ro m -> seg_at content o d -> len content < 2 ^ 62 ->
  let '(ro', m', rd') := accept ro m rd o d in
  reasm content ro' m' /\ ro <= ro' /\ rd' = rd ++ bytes_of content ro ro'.
Proof.
  intros Hr Hs Hc. pose proof Hs as (H0 & Hl & _).
  destruct (decide (d = [])) as [-> | Hdne].
  { rewrite (accept_empty content) by done. split_and!; [done | lia | by rewrite bytes_of_nil, app_nil_r]. }
  destruct (Z.lt_ge_cases ro (o + len d)) as [Hlt | Hge].
  - pose proof (accept_flushed content ro m rd o d Hr Hs Hc Hdne Hlt) as Hf. destruct Hr as [R1 R2 R3 R4].
    pose proof (trim_spec content ro o d Hs Hdne ltac:(lia)) as Ht.
    destruct (trim ro o d) as [o' d']. destruct Ht as (Hs' & _).
    destruct (accept ro m rd o d) as [[ro' m'] rd']. destruct Hf as [F1 F2 F3 F4 F5].
    split; [| split; [lia | done]]. split; [done | | lia |].
    + intros k q [Hk _]%F4. rewrite om_get_insert in Hk.
      destruct (Z.eqb_spec k o') as [-> | ]; [by injection Hk as <- | by apply R2].
    + intros k q [_ ?]%F4. done.
  - unfold accept. rewrite u64_add_small by (unfold is_u64; lia).
    rewrite (proj2 (Z.ltb_ge _ _)) by lia. split; [done |]. split; [lia |].
    by rewrite bytes_of_nil, app_nil_r.
Qed.

Lemma accept_tracked content ro m rd o d seen :
  reasm content ro m -> seg_at content o d -> len content < 2 ^ 62 ->
  tracked seen ro m -> uniform ((o, d) :: seen) ->
  let '(ro', m', _) := accept ro m rd o d in tracked ((o, d) :: seen) ro' m'.
Proof.
  intros Hr Hs Hc Ht Hu. pose proof Hs as (H0 & Hl & _).
  destruct (decide (d = [])) as [-> | Hdne].
  { rewrite (accept_empty content) by done. intros q e [[= -> ->] | Hin]%elem_of_cons Hqe; [done | by apply Ht]. }
  destruct (Z.lt_ge_cases ro (o + len d)) as [Hlt | Hge].
  - pose proof (accept_flushed content ro m rd o d Hr Hs Hc Hdne Hlt) as Hf.
    pose proof (trim_spec content ro o d Hs Hdne (conj (proj1 (re_ro _ _ _ Hr)) Hlt)) as Htr.
    destruct (trim ro o d) as [o' d']. destruct Htr as (Hs' & Hro' & Hoo & Hend & Hne & Heq & Htrim).
    destruct (accept ro m rd o d) as [[ro' m'] rd']. destruct Hf as [F1 F2 F3 F4 F5].
    assert (Hnew : o' + len d' <= ro' \/ ro' < o' /\ om_get o' m' = Some d').
    { apply F3. by rewrite om_get_insert, Z.eqb_refl. }
    intros q e [[= -> ->] | Hin]%elem_of_cons Hqe.
    + destruct Hnew as [? | [? ?]]; [left; lia |]. right.
      destruct (Z.lt_ge_cases ro o) as [Ho | Ho]; [destruct (Heq Ho) as [-> ->]; split; [lia | done] |].
      specialize (Htrim Ho). lia.
    + destruct (Ht q e Hin Hqe) as [? | [Hq Hg]]; [left; lia |].
      destruct (Z.eqb_spec q o') as [-> | Hqo].
      * destruct (Z.lt_ge_cases ro o) as [Ho | Ho]; [| specialize (Htrim Ho); lia].
        destruct (Heq Ho) as [-> ->].
        assert (e = d) as ->; [| exact Hnew].
        apply (Hu o e d); [by apply list_elem_of_further | apply list_elem_of_here | done | done].
      * apply F3. rewrite om_get_insert, (proj2 (Z.eqb_neq _ _)) by done. done.
  - unfold accept. rewrite u64_add_small by (unfold is_u64; lia). rewrite (proj2 (Z.ltb_ge _ _)) by lia.
    intros q e [[= -> ->] | Hin]%elem_of_cons Hqe; [left; lia | by apply Ht].
Qed.

(** A tracked set of segments that covers the stream up to [n] has been read up
    to [n]. *)
Lemma tracked_covers seen ro m n :
  tracked seen ro m -> 0 <= ro ->
  (forall i, 0 <= i < n -> exists o d, (o, d) ∈ seen /\ o <= i < o + len d) -> n <= ro.
Proof.
  intros Ht Hro Hcov. destruct (Z.le_gt_cases n ro); [done |].
  destruct (Hcov ro ltac:(lia)) as (o & d & Hin & Ho). exfalso.
  destruct (Ht o d Hin) as [? | [? _]]; [| lia | lia]. intros ->. simpl in Ho. lia.
Qed.

(** ** Lemmas: runs of a receiving stream *)

Inductive recv_event := EvRecv (offset : Z) (data : list Z) (fin : bool) | EvRead.

#[export] Instance recv_event_eq_dec : EqDecision recv_event.
Proof. solve_decision. Defined.

(** The stream and all bytes the application has read from it so far. *)
Definition recv_step (st : result StreamError (RecvStream.t * list Z)) (ev : recv_event)
    : result StreamError (RecvStream.t * list Z) :=
  '(s, out) ← st;
  match ev with
  | EvRecv o d f => '(_, s) ← RecvStream.recv s o d f; Ok (s, out)
  | EvRead => let '(bytes, _, s) := RecvStream.read s in Ok (s, out ++ bytes)
  end.

Definition recv_run (evs : list recv_event) : result StreamError (RecvStream.t * list Z) :=
  fold_left recv_step evs (Ok (RecvStream.new, [])).

(** The peer sends the bytes of [content]: frames carry its bytes, and a FIN
    marks its end. *)
Definition ev_ok (content : list Z) (ev : recv_event) : Prop :=
  match ev with
  | EvRecv o d f => seg_at content o d /\ (f = true -> o + len d = len content)
  | EvRead => True
  end.

#[export] Instance ev_ok_dec content ev : Decision (ev_ok content ev).
Proof. destruct ev; simpl; apply _. Defined.

Definition ev_segments (evs : list recv_event) : list (Z * list Z) :=
  omap (fun ev => match ev with EvRecv o d _ => Some (o, d) | EvRead => None end) evs.

Definition ev_fin (ev : recv_event) : bool := match ev with EvRecv _ _ f => f | EvRead => false end.

Record recv_inv (content : list Z) (fin_seen : bool) (s : RecvStream.t) (out : list Z) : Prop := {
  ri_reasm : reasm content (RecvStream.read_offset s) (RecvStream.pending s);
  ri_bytes : out ++ RecvStream.ready s = bytes_of content 0 (RecvStream.read_offset s);
  ri_final : RecvStream.final_size s = if fin_seen then Some (len content) else None;
  ri_fin : RecvStream.fin_delivered s = fin_seen && (len content <=? RecvStream.read_offset s);
  ri_reset : RecvStream.reset_code s = None
}.

Lemma recv_inv_new content : recv_inv content false RecvStream.new [].
Proof. split; simpl; try done. apply reasm_new. Qed.

Lemma recv_as_accept s o d f fs :
  RecvStream.check_final_size (RecvStream.final_size s) (u64_add o (len d)) f = Ok fs ->
  exists b, RecvStream.recv s o d f =
    let '(ro, p, rd) := accept (RecvStream.read_offset s) (RecvStream.pending s) (RecvStream.ready s) o d in
    Ok (b, RecvStream.mk ro p rd fs
             (match fs with
              | Some fsize => if fsize <=? ro then true else RecvStream.fin_delivered s
              | None => RecvStream.fin_delivered s
              end) (RecvStream.reset_code s)).
Proof.
  intros Hfs. unfold RecvStream.recv. rewrite Hfs. simpl. fold (accept (RecvStream.read_offset s) (RecvStream.pending s) (RecvStream.ready s) o d).
  destruct (accept _ _ _ _ _) as [[ro p] rd]. eexists. reflexivity.
Qed.

Lemma check_final_size_ok content (seen : bool) o d (f : bool) :
  seg_at content o d -> len content < 2 ^ 62 -> (f = true -> o + len d = len content) ->
  RecvStream.check_final_size (if seen then Some (len content) else None) (u64_add o (len d)) f
  = Ok (if f || seen then Some (len content) else None).
Proof.
  intros (H0 & Hl & _) Hc Hf. rewrite u64_add_small by (unfold is_u64; lia).
  unfold RecvStream.check_final_size. destruct seen, f; simpl; try specialize (Hf eq_refl); repeat bcase; simpl; congruence || lia.
Qed.

(** One receive keeps the invariant and, for uniform segments, the tracking. *)
Lemma recv_step_recv content seen s out o d f :
  recv_inv content seen s out -> seg_at content o d -> len content < 2 ^ 62 ->
  (f = true -> o + len d = len content) ->
  exists b s', RecvStream.recv s o d f = Ok (b, s') /\ recv_inv content (f || seen) s' out /\
    forall segs, tracked segs (RecvStream.read_offset s) (RecvStream.pending s) -> uniform ((o, d) :: segs) ->
      tracked ((o, d) :: segs) (RecvStream.read_offset s') (RecvStream.pending s').
Proof.
  intros [I1 I2 I3 I4 I5] Hs Hc Hf.
  destruct (recv_as_accept s o d f (if f || seen then Some (len content) else None)) as [b E].
  { rewrite I3. by apply check_final_size_ok. }
  pose proof (accept_spec content _ _ (RecvStream.ready s) o d I1 Hs Hc) as Ha.
  pose proof (fun segs => accept_tracked content _ _ (RecvStream.ready s) o d segs I1 Hs Hc) as Ht.
  destruct (accept _ _ _ _ _) as [[ro' m'] rd']. destruct Ha as (R & Hle & Hrd).
  eexists b, _. split; [exact E |]. split; [| exact Ht].
  pose proof (re_ro _ _ _ R) as Hro'. pose proof (re_ro _ _ _ I1) as Hro.
  split; simpl; [done | | done | | done].
  - rewrite Hrd, app_assoc, I2. apply bytes_of_app; lia.
  - rewrite I4. destruct f, seen; simpl; repeat bcase; try done; lia.
Qed.

Lemma tracked_snoc segs o d ro m ro' m' :
  (uniform segs -> tracked segs ro m) ->
  (forall segs, tracked segs ro m -> uniform ((o, d) :: segs) -> tracked ((o, d) :: segs) ro' m') ->
  uniform (segs ++ [(o, d)]) -> tracked (segs ++ [(o, d)]) ro' m'.
Proof.
  intros HT HT' Hu.
  assert (Hperm : forall x, x ∈ segs ++ [(o, d)] <-> x ∈ (o, d) :: segs).
  { intros x. rewrite elem_of_app, list_elem_of_singleton, elem_of_cons. tauto. }
  assert (Hu' : uniform ((o, d) :: segs)).
  { intros q e e' Hq Hq'. apply Hperm in Hq, Hq'. by apply (Hu q). }
  intros q e Hq. apply Hperm in Hq. revert q e Hq. change (tracked ((o, d) :: segs) ro' m').
  apply HT'; [| done]. apply HT. intros q e e' Hq Hq'.
  apply (Hu q); apply elem_of_app; by left.
Qed.

Lemma recv_run_inv content evs :
  len content < 2 ^ 62 -> Forall (ev_ok content) evs ->
  exists s out, recv_run evs = Ok (s, out) /\ recv_inv content (existsb ev_fin evs) s out /\
    (uniform (ev_segments evs) -> tracked (ev_segments evs) (RecvStream.read_offset s) (RecvStream.pending s)).
Proof.
  intros Hc. unfold recv_run. induction evs as [| ev evs IH] using rev_ind; intros Hev.
  - exists RecvStream.new, []. split; [done |]. split; [apply recv_inv_new |].
    intros _ o d Hin. by apply elem_of_nil in Hin.
  - apply Forall_app in Hev as [Hevs Hev]. apply (proj1 (Forall_singleton _ _)) in Hev.
    destruct (IH Hevs) as (s & out & E & HI & HT). rewrite fold_left_app, E, existsb_app. simpl.
    unfold ev_segments in *. rewrite omap_app. destruct ev as [o d f |]; simpl.
    + unfold ev_ok in Hev. destruct Hev as [Hs Hf].
      destruct (recv_step_recv content _ s out o d f HI Hs Hc Hf) as (b & s' & E' & HI' & HT').
      rewrite E'. simpl. exists s', out. split; [done |]. rewrite orb_false_r, orb_comm. split; [done |].
      by eapply tracked_snoc.
    + exists (RecvStream.mk (RecvStream.read_offset s) (RecvStream.pending s) [] (RecvStream.final_size s)
                (RecvStream.fin_delivered s) (RecvStream.reset_code s)), (out ++ RecvStream.ready s).
      split; [done |]. rewrite app_nil_r, !orb_false_r. destruct HI as [I1 I2 I3 I4 I5].
      split; [| done]. split; simpl; try done. by rewrite app_nil_r.
Qed.

Lemma reasm_end content m : reasm content (len content) m -> m = [].
Proof.
  intros [R1 R2 _ R4]. destruct m as [| [k d] m]; [done |]. exfalso.
  assert (Hg : om_get k ((k, d) :: m) = Some d) by (simpl; by rewrite Z.eqb_refl).
  specialize (R4 k d Hg). destruct (R2 k d Hg) as (_ & ? & _). lia.
Qed.

(** ** Lemmas: runs of a sending stream *)

Definition sent_frame : Type := Z * list Z * bool.

(** [send_reach c fs s]: a sending stream in state [s], to which the application
    wrote [c] in total (nothing after the FIN) and which has emitted the frames
    [fs]; any emitted frame may be declared lost and requeued at any time. *)
Inductive send_reach : list Z -> list sent_frame -> SendStream.t -> Prop :=
| sr_new : send_reach [] [] SendStream.new
| sr_write c fs s data f :
    send_reach c fs s -> (SendStream.fin s = true -> data = []) -> len (c ++ data) < 2 ^ 62 ->
    send_reach (c ++ data) fs (SendStream.write s data f)
| sr_take c fs s max fr s' :
    send_reach c fs s -> 0 <= max -> SendStream.take s max = (Some fr, s') ->
    send_reach c (fs ++ [fr]) s'
| sr_lost c fs s o d f :
    send_reach c fs s -> (o, d, f) ∈ fs -> send_reach c fs (SendStream.requeue s o d f).

(** A frame that carries content, with the FIN only at the end. *)
Definition frame_at (content : list Z) (done : bool) (o : Z) (d : list Z) (f : bool) : Prop :=
  seg_at content o d /\ (f = true -> o + len d = len content /\ done = true).

Record send_inv (c : list Z) (fs : list sent_frame) (s : SendStream.t) : Prop := {
  si_len : len c < 2 ^ 62;
  si_base : 0 <= SendStream.base s /\ SendStream.base s + len (SendStream.buf s) = len c;
  si_buf : SendStream.buf s = bytes_of c (SendStream.base s) (len c);
  si_resend : forall r, r ∈ SendStream.resend s ->
    frame_at c (SendStream.fin s) (SendStream.rs_offset r) (SendStream.rs_data r) (SendStream.rs_fin r);
  si_frames : forall o d f, (o, d, f) ∈ fs -> frame_at c (SendStream.fin s) o d f;
  si_cover : forall i, 0 <= i < SendStream.base s ->
    exists o d f, (o, d, f) ∈ fs /\ o <= i < o + len d;
  si_fin : SendStream.fin_sent s = true -> SendStream.fin s = true /\ exists o d, (o, d, true) ∈ fs;
  si_reset : SendStream.reset_code s = None
}.

Lemma frame_at_extend c more fin o d f :
  (fin = true -> more = []) -> frame_at c fin o d f -> forall fin', (fin = true -> fin' = true) ->
  frame_at (c ++ more) fin' o d f.
Proof.
  intros Hm [Hs Hf] fin' Hfin. split; [by apply seg_at_extend |]. intros E. destruct (Hf E) as [He Hd].
  rewrite (Hm Hd), app_nil_r. auto.
Qed.

Lemma send_inv_write c fs s data f :
  send_inv c fs s -> (SendStream.fin s = true -> data = []) -> len (c ++ data) < 2 ^ 62 ->
  send_inv (c ++ data) fs (SendStream.write s data f).
Proof.
  intros [I1 [I2 I2'] I3 I4 I5 I6 I7 I8] Hd Hl.
  assert (Hext : forall o d g, frame_at c (SendStream.fin s) o d g ->
            frame_at (c ++ data) (if f then true else SendStream.fin s) o d g).
  { intros o d g Hg. eapply frame_at_extend; [exact Hd | done |]. by destruct f. }
  split; simpl; auto.
  - rewrite !length_app. lia.
  - rewrite I3 at 1. unfold bytes_of, slice. rewrite length_app, drop_app_le by lia.
    rewrite !firstn_all2; [done | |]; autorewrite with oxi; lia.
  - intros E. destruct (I7 E) as [Hfin ?]. split; [by destruct f | done].
Qed.

Lemma send_inv_requeue c fs s o d f :
  send_inv c fs s -> (o, d, f) ∈ fs -> send_inv c fs (SendStream.requeue s o d f).
Proof.
  intros [I1 I2 I3 I4 I5 I6 I7 I8] Hin. split; simpl; auto.
  intros r [Hr | ->%list_elem_of_singleton]%elem_of_app; [auto |]. simpl. auto.
Qed.

Lemma cover_snoc (fs : list sent_frame) fr i :
  (exists o d f, (o, d, f) ∈ fs /\ o <= i < o + len d) ->
  exists o d f, (o, d, f) ∈ fs ++ [fr] /\ o <= i < o + len d.
Proof. intros (o & d & f & Hin & Hi). exists o, d, f. split; [apply elem_of_app; by left | done]. Qed.

Lemma seg_at_take content o d n :
  seg_at content o d -> 0 <= n <= len d -> seg_at content o (take (Z.to_nat n) d).
Proof.
  intros (H0 & Hl & E) Hn. unfold seg_at. rewrite length_take. split; [done |]. split; [lia |].
  rewrite E at 1. rewrite bytes_of_take by lia. f_equal. lia.
Qed.

(** Emitting from the retransmission queue. *)
Lemma send_inv_take_resend c fs s max fr s' :
  send_inv c fs s -> 0 <= max -> SendStream.resend s <> [] ->
  SendStream.take s max = (Some fr, s') -> send_inv c (fs ++ [fr]) s'.
Proof.
  intros [I1 I2 I3 I4 I5 I6 I7 I8] Hmax Hne. unfold SendStream.take. rewrite I8.
  destruct (SendStream.resend s) as [| r rest] eqn:Er; [done |]. destruct (Z.eqb_spec max 0); [done |].
  assert (Hr : frame_at c (SendStream.fin s) (SendStream.rs_offset r) (SendStream.rs_data r) (SendStream.rs_fin r))
    by (apply I4, list_elem_of_here).
  pose proof Hr as [(Hr0 & Hrl & _) _].
  assert (Hrest : forall q, q ∈ rest -> frame_at c (SendStream.fin s) (SendStream.rs_offset q) (SendStream.rs_data q) (SendStream.rs_fin q))
    by (intros q Hq; by apply I4, list_elem_of_further).
  destruct (Z.leb_spec (len (SendStream.rs_data r)) max); intros [= <- <-]; split; simpl; auto.
  - intros o d f [Hin | [= -> -> ->]%list_elem_of_singleton]%elem_of_app; auto.
  - intros i Hi. by apply cover_snoc, I6.
  - intros E. destruct (I7 E) as (? & o & d & ?). split; [done |]. exists o, d. apply elem_of_app; by left.
  - intros q [-> | Hq]%elem_of_cons; [| auto]. simpl. destruct Hr as [Hseg Hf].
    rewrite u64_add_small by (unfold is_u64; lia).
    split; [apply seg_at_drop; [done | lia] |]. intros E. destruct (Hf E) as [? ?].
    split; [rewrite length_drop; lia | done].
  - intros o d f [Hin | [= -> -> ->]%list_elem_of_singleton]%elem_of_app; [auto |]. destruct Hr as [Hseg _].
    split; [apply seg_at_take; [done | lia] | done].
  - intros i Hi. by apply cover_snoc, I6.
  - intros E. destruct (I7 E) as (? & o & d & ?). split; [done |]. exists o, d. apply elem_of_app; by left.
Qed.

(** Emitting fresh data or the final empty frame. *)
Lemma send_inv_take_fresh c fs s max fr s' :
  send_inv c fs s -> 0 <= max -> SendStream.resend s = [] ->
  SendStream.take s max = (Some fr, s') -> send_inv c (fs ++ [fr]) s'.
Proof.
  intros [I1 [I2 I2'] I3 I4 I5 I6 I7 I8] Hmax Hn. unfold SendStream.take. rewrite I8, Hn.
  destruct (SendStream.buf s) as [| x buf'] eqn:Eb.
  - simpl in I2'. destruct (SendStream.fin s) eqn:Ef; [| done].
    destruct (SendStream.fin_sent s) eqn:Es; [done |]. simpl. intros [= <- <-].
    split; simpl; try done; try lia.
    + intros r Hr. by apply elem_of_nil in Hr.
    + intros o d f [Hin | [= -> -> ->]%list_elem_of_singleton]%elem_of_app; [auto |].
      split; [| intros _; split; [simpl; lia | done]].
      unfold seg_at. simpl. rewrite Z.add_0_r, bytes_of_nil. split; [lia | split; [lia | done]].
    + intros i Hi. by apply cover_snoc, I6.
    + intros _. split; [done |]. exists (SendStream.base s), []. apply elem_of_app. right. apply list_elem_of_here.
  - rewrite <- Eb in *. set (n := Z.min max (len (SendStream.buf s))). destruct (Z.eqb_spec n 0); [done |].
    assert (Hn1 : 0 < n <= len (SendStream.buf s)) by lia.
    assert (Hseg : seg_at c (SendStream.base s) (SendStream.buf s)) by (unfold seg_at; rewrite I2'; done).
    assert (Hadd : u64_add (SendStream.base s) n = SendStream.base s + n) by (apply u64_add_small; unfold is_u64; lia).
    assert (Hend : SendStream.is_nil (drop (Z.to_nat n) (SendStream.buf s)) = true -> n = len (SendStream.buf s)).
    { intros E. destruct (drop (Z.to_nat n) (SendStream.buf s)) eqn:Ed; [| done].
      apply (f_equal length) in Ed. rewrite length_drop in Ed. simpl in Ed. lia. }
    intros [= <- <-]. split; simpl; rewrite ?Hadd; auto.
    + rewrite length_drop. lia.
    + rewrite I3 at 1. rewrite bytes_of_drop by lia. done.
    + intros r Hr. by apply elem_of_nil in Hr.
    + intros o d f [Hin | [= -> -> ->]%list_elem_of_singleton]%elem_of_app; [auto |].
      split; [apply seg_at_take; [done | lia] |]. intros [Hf Hnil]%andb_prop. split; [| done].
      specialize (Hend Hnil). rewrite length_take. lia.
    + intros i Hi. destruct (Z.lt_ge_cases i (SendStream.base s)); [apply cover_snoc, I6; lia |].
      eexists _, _, _. split; [apply elem_of_app; right; apply list_elem_of_here |].
      rewrite length_take. lia.
    + destruct (SendStream.fin s && SendStream.is_nil (drop (Z.to_nat n) (SendStream.buf s))) eqn:Ef.
      * intros _. split; [by apply andb_prop in Ef as [? _] |].
        eexists _, _. apply elem_of_app. right. rewrite list_elem_of_singleton. done.
      * intros E. destruct (I7 E) as (? & o & d & ?). split; [done |]. exists o, d. apply elem_of_app; by left.
Qed.

Lemma send_reach_inv c fs s : send_reach c fs s -> send_inv c fs s.
Proof.
  induction 1 as [| c fs s data f _ IH Hd Hl | c fs s max fr s' _ IH Hm Ht | c fs s o d f _ IH Hin].
  - split; simpl; try done; try lia; intros *; by intros ?%elem_of_nil.
  - by apply send_inv_write.
  - destruct (decide (SendStream.resend s = [])) as [E | E];
      [by eapply send_inv_take_fresh | by eapply send_inv_take_resend].
  - by apply send_inv_requeue.
Qed.

(** A drained stream has emitted everything, the FIN included. *)
Lemma send_inv_drained c fs s :
  send_inv c fs s -> SendStream.has_pending s = false ->
  SendStream.base s = len c /\ (SendStream.fin s = true -> exists o d, (o, d, true) ∈ fs).
Proof.
  intros [I1 [I2 I2'] I3 I4 I5 I6 I7 I8]. unfold SendStream.has_pending. rewrite I8. simpl.
  intros [[_ Hb]%orb_false_elim Hf]%orb_false_elim. split.
  - destruct (SendStream.buf s); simpl in *; [lia | done].
  - intros E. rewrite E in Hf. apply I7. by destruct (SendStream.fin_sent s).
Qed.

(** The work left in a sending stream; each emitted frame reduces it. *)
Definition send_work (s : SendStream.t) : nat :=
  length (SendStream.buf s)
  + foldr (fun r n => length (SendStream.rs_data r) + 1 + n)%nat 0%nat (SendStream.resend s)
  + (if SendStream.fin s && negb (SendStream.fin_sent s) then 1 else 0).

Lemma take_progress s max :
  0 < max -> SendStream.has_pending s = true ->
  exists fr s', SendStream.take s max = (Some fr, s') /\ (send_work s' < send_work s)%nat.
Proof.
  intros Hmax. unfold SendStream.has_pending, SendStream.take, send_work.
  destruct (SendStream.reset_code s) as [code |] eqn:Er; simpl; [done |]. intros Hp.
  destruct (SendStream.resend s) as [| r rest].
  - simpl in Hp. destruct (SendStream.buf s) as [| x b].
    + simpl in Hp. rewrite Hp. eexists _, _. split; [done |]. simpl. rewrite andb_false_r. lia.
    + set (buf := x :: b) in *. set (n := Z.min max (len buf)).
      assert (Hn : 0 < n <= len buf) by (subst n buf; simpl length; lia).
      clearbody n buf. destruct (Z.eqb_spec n 0); [lia |]. eexists _, _. split; [done |]. simpl.
      rewrite length_drop. unfold SendStream.is_nil.
      destruct (SendStream.fin s), (SendStream.fin_sent s), (drop (Z.to_nat n) buf); simpl; lia.
  - destruct (Z.eqb_spec max 0); [lia |]. destruct (Z.leb_spec (len (SendStream.rs_data r)) max);
      (eexists _, _; split; [done |]); simpl; rewrite ?length_drop; lia.
Qed.

(** Calling [take] until nothing is pending. *)
Fixpoint drain (n : nat) (s : SendStream.t) (max : Z) : list sent_frame * SendStream.t :=
  match n with
  | O => ([], s)
  | S k => match SendStream.take s max with
           | (None, s') => ([], s')
           | (Some fr, s') => let '(fs, s'') := drain k s' max in (fr :: fs, s'')
           end
  end.

Lemma take_None_pending s max s' :
  0 < max -> SendStream.take s max = (None, s') -> SendStream.has_pending s' = false.
Proof.
  intros Hm Ht. destruct (SendStream.has_pending s) eqn:E.
  - destruct (take_progress s max Hm E) as (fr & s'' & Ht' & _). congruence.
  - assert (s' = s) as ->; [| done]. unfold SendStream.take in Ht.
    repeat (case_match; try congruence).
Qed.

Lemma drain_reach n c fs s max :
  send_reach c fs s -> 0 < max -> send_reach c (fs ++ (drain n s max).1) (drain n s max).2.
Proof.
  revert fs s. induction n as [| n IH]; intros fs s Hr Hm; simpl; [by rewrite app_nil_r |].
  destruct (SendStream.take s max) as [[fr |] s'] eqn:E.
  - specialize (IH (fs ++ [fr]) s' (sr_take _ _ _ _ _ _ Hr (Z.lt_le_incl _ _ Hm) E) Hm).
    destruct (drain n s' max) as [fs' s'']. simpl in *. by rewrite <- app_assoc in IH.
  - simpl. rewrite app_nil_r. assert (s' = s) as ->; [| done].
    unfold SendStream.take in E. repeat (case_match; try congruence).
Qed.

Lemma drain_done n s max :
  0 < max -> (send_work s < n)%nat -> SendStream.has_pending (drain n s max).2 = false.
Proof.
  revert s. induction n as [| n IH]; intros s Hm Hw; [lia |]. simpl.
  destruct (SendStream.take s max) as [[fr |] s'] eqn:E; [| by eapply take_None_pending].
  assert (Hp : SendStream.has_pending s = true).
  { destruct (SendStream.has_pending s) eqn:Hp; [done |]. unfold SendStream.has_pending in Hp.
    unfold SendStream.take in E. destruct (SendStream.reset_code s); [done |]. simpl in Hp.
    apply orb_false_elim in Hp as [[Hr Hb]%orb_false_elim Hf].
    destruct (SendStream.resend s); [| done]. destruct (SendStream.buf s); [| done].
    by rewrite Hf in E. }
  destruct (take_progress s max Hm Hp) as (fr' & s'' & E' & Hlt). rewrite E in E'. injection E' as <- <-.
  specialize (IH s' Hm ltac:(lia)). by destruct (drain n s' max).
Qed.

(** The receiver's events are deliveries of the frames [fs] (and reads). *)
Definition delivers (fs : list sent_frame) (ev : recv_event) : Prop :=
  match ev with EvRecv o d f => (o, d, f) ∈ fs | EvRead => True end.

#[export] Instance delivers_dec fs ev : Decision (delivers fs ev).
Proof. destruct ev; simpl; apply _. Defined.

Lemma delivers_ok c fs s evs :
  send_inv c fs s -> Forall (delivers fs) evs -> Forall (ev_ok c) evs.
Proof.
  intros Hi Hev. eapply Forall_impl; [exact Hev |]. intros [o d f |]; [| done]. simpl. intros Hin.
  destruct (si_frames _ _ _ Hi o d f Hin) as [Hs Hf]. split; [done |]. intros E. by apply Hf.
Qed.

(** ** Lemmas: runs of a CRYPTO stream *)

(** The stream and the bytes handed to TLS, after a sequence of CRYPTO frames. *)
Definition crypto_step (st : CryptoStream.t * list Z) (seg : Z * list Z) : CryptoStream.t * list Z :=
  let '(r, s) := CryptoStream.recv st.1 seg.1 seg.2 in (s, st.2 ++ unwrap_or r []).

Definition crypto_run (segs : list (Z * list Z)) : CryptoStream.t * list Z :=
  fold_left crypto_step segs (CryptoStream.new, []).

Lemma crypto_recv_accept s o d :
  let '(ro, m, rd) := accept (CryptoStream.recv_offset s) (CryptoStream.recv_pending s) [] o d in
  unwrap_or (CryptoStream.recv s o d).1 [] = rd /\
  CryptoStream.recv_offset (CryptoStream.recv s o d).2 = ro /\
  CryptoStream.recv_pending (CryptoStream.recv s o d).2 = m.
Proof.
  unfold accept, CryptoStream.recv. rewrite Z.leb_antisym.
  destruct (CryptoStream.recv_offset s <? u64_add o (len d)); simpl; [| done].
  destruct (trim _ _ _) as [o' d']. destruct (flush_contiguous _ _ _) as [[ro m] rd]. simpl.
  by destruct rd.
Qed.

Lemma crypto_run_inv content segs :
  len content < 2 ^ 62 -> Forall (fun seg => seg_at content seg.1 seg.2) segs ->
  let '(s, out) := crypto_run segs in
  reasm content (CryptoStream.recv_offset s) (CryptoStream.recv_pending s) /\
  out = bytes_of content 0 (CryptoStream.recv_offset s) /\
  (uniform segs -> tracked segs (CryptoStream.recv_offset s) (CryptoStream.recv_pending s)).
Proof.
  intros Hc. unfold crypto_run. induction segs as [| [o d] segs IH] using rev_ind; intros Hs.
  - simpl. split; [apply reasm_new |]. split; [done |]. intros _ o d Hin. by apply elem_of_nil in Hin.
  - apply Forall_app in Hs as [Hs Hd]. apply Forall_cons in Hd as [Hd _]. simpl in Hd.
    rewrite fold_left_app. simpl. specialize (IH Hs).
    destruct (fold_left crypto_step segs (CryptoStream.new, [])) as [s out]. destruct IH as (HR & Ho & HT).
    unfold crypto_step. simpl. pose proof (crypto_recv_accept s o d) as Hacc.
    pose proof (accept_spec content _ _ [] o d HR Hd Hc) as Ha.
    pose proof (fun sg => accept_tracked content _ _ [] o d sg HR Hd Hc) as Ht.
    destruct (accept _ _ _ _ _) as [[ro m] rd]. destruct (CryptoStream.recv s o d) as [r s']. simpl in Hacc.
    destruct Hacc as (-> & -> & ->). destruct Ha as (HR' & Hle & ->). simpl.
    split; [done |]. split; [| by eapply tracked_snoc].
    rewrite Ho. pose proof (re_ro _ _ _ HR). apply bytes_of_app; lia.
Qed.

(** ** Properties *)

(** Whatever frames a sending stream emits (losses and retransmissions
    included), delivered to the receiving stream in any order, any number of
    times and interleaved with reads, are accepted without error, and the bytes
    the application has read followed by the bytes ready for it are exactly the
    first [read_offset] bytes written by the sender: never a wrong, missing or
    duplicated byte. *)
Theorem stream_delivery_safe c fs s evs :
  send_reach c fs s -> Forall (delivers fs) evs ->
  exists r out, recv_run evs = Ok (r, out) /\
    0 <= RecvStream.read_offset r <= len c /\
    out ++ RecvStream.ready r = bytes_of c 0 (RecvStream.read_offset r).
Proof.
  intros Hi%send_reach_inv Hev.
  destruct (recv_run_inv c evs (si_len _ _ _ Hi) (delivers_ok _ _ _ _ Hi Hev)) as (r & out & E & [I1 I2 _ _ _] & _).
  exists r, out. split; [done |]. split; [apply I1 | done].
Qed.

(** A stream of seven bytes sent in frames of three. *)
Definition demo_stream : SendStream.t := SendStream.write SendStream.new [1; 2; 3; 4; 5; 6; 7] true.
Definition demo_frames : list sent_frame := (drain 9 demo_stream 3).1.

Lemma demo_stream_reach : send_reach [1; 2; 3; 4; 5; 6; 7] demo_frames (drain 9 demo_stream 3).2.
Proof.
  apply (drain_reach 9 [1; 2; 3; 4; 5; 6; 7] [] demo_stream 3); [| lia].
  apply (sr_write [] [] SendStream.new [1; 2; 3; 4; 5; 6; 7] true sr_new); [done | simpl; lia].
Qed.

Definition demo_events : list recv_event :=
  [EvRecv 3 [4; 5; 6] false; EvRead; EvRecv 6 [7] true; EvRecv 3 [4; 5; 6] false; EvRecv 0 [1; 2; 3] false].

Lemma stream_delivery_safe_witness :
  exists r out, recv_run demo_events = Ok (r, out) /\
    0 <= RecvStream.read_offset r <= len [1; 2; 3; 4; 5; 6; 7] /\
    out ++ RecvStream.ready r = bytes_of [1; 2; 3; 4; 5; 6; 7] 0 (RecvStream.read_offset r).
Proof.
  apply (stream_delivery_safe [1; 2; 3; 4; 5; 6; 7] demo_frames (drain 9 demo_stream 3).2).
  - apply demo_stream_reach.
  - eapply bool_decide_unpack. vm_compute. exact I.
Defined.

(** C25: Delivery is complete: once a finished sending stream has nothing pending
    and each frame it emitted has arrived at least once, in any order and with
    duplicates, the next read hands the application the rest of the bytes written,
    in total exactly what the sender wrote, together with the end-of-stream
    mark.  Frames received at the same offset are assumed to be copies of each other
    ([uniform]): a retransmission that is cut differently may replace a longer
    buffered segment by a shorter one, and bytes that had arrived are then lost until
    they are sent again. *)
Theorem stream_delivery_complete c fs s evs :
  send_reach c fs s -> SendStream.has_pending s = false -> SendStream.fin s = true ->
  Forall (delivers fs) evs -> Forall (fun '(o, d, f) => EvRecv o d f ∈ evs) fs ->
  uniform (ev_segments evs) ->
  exists r out, recv_run evs = Ok (r, out) /\
    let '(bytes, fin, _) := RecvStream.read r in out ++ bytes = c /\ fin = true.
Proof.
  intros Hi%send_reach_inv Hp Hfin Hev Hall Hu. rewrite Forall_forall in Hall.
  destruct (recv_run_inv c evs (si_len _ _ _ Hi) (delivers_ok _ _ _ _ Hi Hev)) as (r & out & E & [I1 I2 I3 I4 _] & HT).
  destruct (send_inv_drained _ _ _ Hi Hp) as [Hbase Hf]. destruct (Hf Hfin) as (fo & fd & Hff).
  exists r, out. split; [done |]. unfold RecvStream.read.
  assert (Hseen : existsb ev_fin evs = true).
  { apply existsb_exists. exists (EvRecv fo fd true). split; [| done].
    apply list_elem_of_In. by apply (Hall (fo, fd, true)). }
  assert (Hro : RecvStream.read_offset r = len c).
  { pose proof (re_ro _ _ _ I1). apply Z.le_antisymm; [lia |].
    apply (tracked_covers _ _ _ _ (HT Hu)); [lia |]. intros i Hi'. rewrite <- Hbase in Hi'.
    destruct (si_cover _ _ _ Hi i Hi') as (o & d & f & Hin & Ho). exists o, d. split; [| done].
    apply list_elem_of_omap. exists (EvRecv o d f). split; [by apply (Hall (o, d, f)) | done]. }
  rewrite Hro in *. apply reasm_end in I1. split; [by rewrite I2, bytes_of_whole |].
  rewrite I4, Hseen, Z.leb_refl, I1. done.
Qed.

Lemma stream_delivery_complete_witness :
  exists r out, recv_run demo_events = Ok (r, out) /\
    let '(bytes, fin, _) := RecvStream.read r in out ++ bytes = [1; 2; 3; 4; 5; 6; 7] /\ fin = true.
Proof.
  apply (stream_delivery_complete [1; 2; 3; 4; 5; 6; 7] demo_frames (drain 9 demo_stream 3).2).
  - apply demo_stream_reach.
  - reflexivity.
  - reflexivity.
  - eapply bool_decide_unpack. vm_compute. exact I.
  - change demo_frames with [(0, [1; 2; 3], false); (3, [4; 5; 6], false); (6, [7], true)].
    repeat (apply Forall_cons; split; [eapply bool_decide_unpack; vm_compute; exact I |]). apply Forall_nil. exact I.
  - change (ev_segments demo_events) with [(3, [4; 5; 6]); (6, [7]); (3, [4; 5; 6]); (0, [1; 2; 3])].
    intros o d d' H1 H2 _ _. rewrite !elem_of_cons, elem_of_nil in H1, H2.
    destruct_or!; simplify_eq; done.
Defined.

(** A sending stream always drains: calling [take] with any positive frame
    budget, at most once per buffered byte and queued segment plus twice more,
    leaves nothing pending, and the frames emitted cover everything written. *)
Theorem send_stream_drains c fs s max n :
  send_reach c fs s -> 0 < max -> (send_work s < n)%nat ->
  let '(fs', s') := drain n s max in
  SendStream.has_pending s' = false /\ SendStream.base s' = len c /\
  forall i, 0 <= i < len c -> exists o d f, (o, d, f) ∈ fs ++ fs' /\ o <= i < o + len d.
Proof.
  intros Hr Hm Hn. pose proof (drain_reach n c fs s max Hr Hm) as Hr'%send_reach_inv.
  pose proof (drain_done n s max Hm Hn) as Hd. destruct (drain n s max) as [fs' s']. simpl in *.
  destruct (send_inv_drained _ _ _ Hr' Hd) as [Hb _]. split_and!; [done | done |].
  intros i Hi. apply (si_cover _ _ _ Hr'). lia.
Qed.

Lemma send_stream_drains_witness :
  let '(fs', s') := drain 9 demo_stream 3 in
  SendStream.has_pending s' = false /\ SendStream.base s' = len [1; 2; 3; 4; 5; 6; 7] /\
  forall i, 0 <= i < len [1; 2; 3; 4; 5; 6; 7] -> exists o d f, (o, d, f) ∈ [] ++ fs' /\ o <= i < o + len d.
Proof.
  apply (send_stream_drains [1; 2; 3; 4; 5; 6; 7] [] demo_stream 3 9).
  - apply (sr_write [] [] SendStream.new [1; 2; 3; 4; 5; 6; 7] true sr_new); [done | vm_compute; reflexivity].
  - lia.
  - apply Nat.ltb_lt. reflexivity.
Defined.

(** Reassembly can lose bytes it already holds: a buffered five-byte segment
    is replaced by a two-byte segment at the same offset, so after the gap before
    it is filled only twelve of the fifteen received bytes are readable. *)
Theorem recv_overwrite_loses_bytes :
  exists r out,
    recv_run [EvRecv 10 [10; 11; 12; 13; 14] false; EvRecv 10 [10; 11] false;
              EvRecv 0 [0; 1; 2; 3; 4; 5; 6; 7; 8; 9] false] = Ok (r, out) /\
    RecvStream.read_offset r = 12 /\ RecvStream.pending r = [].
Proof. eexists _, _. split; [vm_compute; reflexivity |]. split; reflexivity. Qed.

(** A FIN below data already received is accepted: after bytes 10 to 14
    arrived, a final size of 3 raises no FINAL_SIZE error, and the end of the
    stream is then never reported because the stray segment stays buffered. *)
Theorem recv_final_size_not_enforced :
  exists r out,
    recv_run [EvRecv 10 [10; 11; 12; 13; 14] false; EvRecv 0 [0; 1; 2] true] = Ok (r, out) /\
    RecvStream.final_size r = Some 3 /\ (RecvStream.read r).1 = ([0; 1; 2], false).
Proof. eexists _, _. split; [vm_compute; reflexivity |]. split; reflexivity. Qed.

(** CRYPTO reassembly: for CRYPTO frames that carry the bytes of one handshake
    stream, arriving in any order with duplicates and overlaps, the bytes handed
    to TLS are exactly the first [recv_offset] bytes of that stream; and when
    frames that start at the same offset are copies of each other and together
    they cover the first [n] bytes, all [n] have been handed over. *)
Theorem crypto_delivery content segs n :
  len content < 2 ^ 62 -> Forall (fun seg => seg_at content seg.1 seg.2) segs ->
  let '(s, out) := crypto_run segs in
  out = bytes_of content 0 (CryptoStream.recv_offset s) /\
  (uniform segs ->
   (forall i, 0 <= i < n -> exists o d, (o, d) ∈ segs /\ o <= i < o + len d) ->
   n <= CryptoStream.recv_offset s).
Proof.
  intros Hc Hs. pose proof (crypto_run_inv content segs Hc Hs) as H.
  destruct (crypto_run segs) as [s out]. destruct H as (HR & Ho & HT). split; [done |].
  intros Hu Hcov. eapply tracked_covers; [by apply HT | apply (re_ro _ _ _ HR) | done].
Qed.

Lemma crypto_delivery_witness :
  let segs := [(4, [14; 15]); (2, [12; 13; 14]); (4, [14; 15]); (0, [10; 11; 12])] in
  let '(s, out) := crypto_run segs in
  out = bytes_of [10; 11; 12; 13; 14; 15] 0 (CryptoStream.recv_offset s) /\
  (uniform segs ->
   (forall i, 0 <= i < 6 -> exists o d, (o, d) ∈ segs /\ o <= i < o + len d) ->
   6 <= CryptoStream.recv_offset s).
Proof.
  apply (crypto_delivery [10; 11; 12; 13; 14; 15]).
  - vm_compute. reflexivity.
  - eapply bool_decide_unpack. vm_compute. exact I.
Defined.
