(* ===== verification/FlowControl.v ===== *)
(** * Flow control ([oxiquic-transport/src/flow_control.rs])

    Send- and receive-side credit for the connection and for each stream, and the
    protocol the two sides run together: credit frames travel over a network that
    may lose, reorder and duplicate them. *)

From S2P Require Import Prelude.

(** ** Connection-level send side *)

Module SendFlowControl.

Record t := mk { max_data : Z; data_sent : Z; blocked_at : option Z }.

Definition new (initial_max_data : Z) : t := mk initial_max_data 0 None.

Definition on_max_data (s : t) (max : Z) : t :=
  if max_data s <? max then mk max (data_sent s) None else s.

Definition available (s : t) : Z := sat_sub (max_data s) (data_sent s).

Definition on_data_sent (s : t) (n : Z) : t :=
  mk (max_data s) (u64_add (data_sent s) n) (blocked_at s).

Definition is_blocked (s : t) : bool := max_data s <=? data_sent s.

Definition take_blocked (s : t) : option Z * t :=
  if is_blocked s && negb (bool_decide (blocked_at s = Some (max_data s)))
  then (Some (max_data s), mk (max_data s) (data_sent s) (Some (max_data s)))
  else (None, s).

End SendFlowControl.

(** ** Per-stream send side *)

Module StreamSendFlow.

Record t := mk { max_stream_data : Z; data_sent : Z; blocked_at : option Z }.

Definition new (initial : Z) : t := mk initial 0 None.

Definition on_max_stream_data (s : t) (max : Z) : t :=
  if max_stream_data s <? max then mk max (data_sent s) None else s.

Definition available (s : t) : Z := sat_sub (max_stream_data s) (data_sent s).

Definition record_high_offset (s : t) (high_offset : Z) : Z * t :=
  if data_sent s <? high_offset
  then (high_offset - data_sent s, mk (max_stream_data s) high_offset (blocked_at s))
  else (0, s).

Definition is_blocked (s : t) : bool := max_stream_data s <=? data_sent s.

Definition take_blocked (s : t) : option Z * t :=
  if is_blocked s && negb (bool_decide (blocked_at s = Some (max_stream_data s)))
  then (Some (max_stream_data s), mk (max_stream_data s) (data_sent s) (Some (max_stream_data s)))
  else (None, s).

End StreamSendFlow.

(** ** Connection-level receive side *)

Module RecvFlowControl.

Record t := mk { max_data : Z; window : Z; consumed : Z }.

Definition new (window : Z) : t := mk window window 0.

Definition on_data_consumed (s : t) (n : Z) : t := mk (max_data s) (window s) (u64_add (consumed s) n).

Definition maybe_update (s : t) : option Z * t :=
  let desired := u64_add (consumed s) (window s) in
  if (max_data s <? desired) && (sat_sub (max_data s) (consumed s) <? window s / 2)
  then (Some desired, mk desired (window s) (consumed s))
  else (None, s).

End RecvFlowControl.

(** ** Per-stream receive side *)

Module StreamRecvFlow.

Record t := mk { max_stream_data : Z; window : Z; consumed : Z }.

Definition new (window : Z) : t := mk window window 0.

Definition on_data_consumed (s : t) (n : Z) : t :=
  mk (max_stream_data s) (window s) (u64_add (consumed s) n).

Definition maybe_update (s : t) : option Z * t :=
  let desired := u64_add (consumed s) (window s) in
  if (max_stream_data s <? desired) && (sat_sub (max_stream_data s) (consumed s) <? window s / 2)
  then (Some desired, mk desired (window s) (consumed s))
  else (None, s).

End StreamRecvFlow.

(** ** The two sides together

    [credit_reach w s r net]: a sender and a receiver that agreed on an initial
    window [w], after any number of steps; [net] holds every MAX_DATA value ever
    put on the wire, and delivering one does not remove it, so loss, reordering
    and duplication of credit frames are all runs of this system. *)
Inductive credit_reach (w : Z) : SendFlowControl.t -> RecvFlowControl.t -> list Z -> Prop :=
| cr_init : credit_reach w (SendFlowControl.new w) (RecvFlowControl.new w) []
| cr_send s r net n :
    credit_reach w s r net -> 0 <= n <= SendFlowControl.available s ->
    credit_reach w (SendFlowControl.on_data_sent s n) r net
| cr_consume s r net n :
    credit_reach w s r net -> 0 <= n -> RecvFlowControl.consumed r + n <= SendFlowControl.data_sent s ->
    credit_reach w s (RecvFlowControl.on_data_consumed r n) net
| cr_update s r net max r' :
    credit_reach w s r net -> RecvFlowControl.maybe_update r = (Some max, r') ->
    RecvFlowControl.consumed r + w < 2 ^ 62 ->
    credit_reach w s r' (net ++ [max])
| cr_deliver s r net max :
    credit_reach w s r net -> max ∈ net -> credit_reach w (SendFlowControl.on_max_data s max) r net
| cr_blocked s r net :
    credit_reach w s r net -> credit_reach w (SendFlowControl.take_blocked s).2 r net.

Record credit_inv (w : Z) (s : SendFlowControl.t) (r : RecvFlowControl.t) (net : list Z) : Prop := {
  ci_sent : 0 <= SendFlowControl.data_sent s <= SendFlowControl.max_data s;
  ci_max : SendFlowControl.max_data s <= RecvFlowControl.max_data r < 2 ^ 62;
  ci_net : forall m, m ∈ net -> m <= RecvFlowControl.max_data r;
  ci_window : RecvFlowControl.window r = w;
  ci_consumed : 0 <= RecvFlowControl.consumed r <= SendFlowControl.data_sent s;
  ci_bound : RecvFlowControl.max_data r <= RecvFlowControl.consumed r + w
}.

Lemma maybe_update_Some r m r' :
  RecvFlowControl.maybe_update r = (Some m, r') ->
  m = u64_add (RecvFlowControl.consumed r) (RecvFlowControl.window r) /\ RecvFlowControl.max_data r < m /\
  r' = RecvFlowControl.mk m (RecvFlowControl.window r) (RecvFlowControl.consumed r).
Proof.
  unfold RecvFlowControl.maybe_update.
  destruct (Z.ltb_spec (RecvFlowControl.max_data r) (u64_add (RecvFlowControl.consumed r) (RecvFlowControl.window r)));
    simpl; [| done]. case_match; [| done]. by intros [= <- <-].
Qed.

Lemma credit_reach_inv w s r net : 0 <= w < 2 ^ 62 -> credit_reach w s r net -> credit_inv w s r net.
Proof.
  intros Hw. induction 1 as [| s r net n _ IH Hn | s r net n _ IH Hn Hs | s r net m r' _ IH Hu Hb
    | s r net m _ IH Hm | s r net _ IH].
  - split; simpl; try lia. intros m Hm. by apply elem_of_nil in Hm.
  - destruct IH as [I1 I2 I3 I4 I5 I6]. unfold SendFlowControl.available, sat_sub in Hn.
    split; simpl; rewrite ?u64_add_small by (unfold is_u64; lia); try done; lia.
  - destruct IH as [I1 I2 I3 I4 I5 I6].
    split; simpl; rewrite ?u64_add_small by (unfold is_u64; lia); try done; lia.
  - destruct IH as [I1 I2 I3 I4 I5 I6]. apply maybe_update_Some in Hu as (-> & Hlt & ->). rewrite I4 in *.
    rewrite u64_add_small in * by (unfold is_u64; lia). split; simpl; try done; try lia.
    intros m [Hm | ->%list_elem_of_singleton]%elem_of_app; [specialize (I3 m Hm); lia | lia].
  - destruct IH as [I1 I2 I3 I4 I5 I6]. specialize (I3 m Hm) as Hle. unfold SendFlowControl.on_max_data.
    destruct (Z.ltb_spec (SendFlowControl.max_data s) m); split; simpl; try done; lia.
  - destruct IH as [I1 I2 I3 I4 I5 I6]. unfold SendFlowControl.take_blocked.
    destruct (_ && _); split; simpl; try done; lia.
Qed.

(** ** Properties *)

(** Flow control is respected end to end: under any interleaving of sending
    within the available credit, consuming, credit updates and their delivery
    (lost, late, repeated or out of order), the sender never exceeds the limit
    the receiver has advertised, and never has more than the window outstanding
    beyond what the application consumed. *)
Theorem flow_control_safe w s r net :
  0 <= w < 2 ^ 62 -> credit_reach w s r net ->
  SendFlowControl.data_sent s <= RecvFlowControl.max_data r /\
  SendFlowControl.data_sent s - RecvFlowControl.consumed r <= w.
Proof. intros Hw Hr. destruct (credit_reach_inv w s r net Hw Hr). lia. Qed.

Definition demo_credit_send : SendFlowControl.t :=
  SendFlowControl.on_data_sent (SendFlowControl.on_max_data
    (SendFlowControl.on_data_sent (SendFlowControl.new 100) 100) 190) 40.
Definition demo_credit_recv : RecvFlowControl.t :=
  (RecvFlowControl.maybe_update (RecvFlowControl.on_data_consumed (RecvFlowControl.new 100) 90)).2.

Lemma demo_credit_reach : credit_reach 100 demo_credit_send demo_credit_recv [190].
Proof.
  apply cr_send; [| vm_compute; split; discriminate].
  apply cr_deliver; [| apply list_elem_of_here].
  apply (cr_update 100 _ (RecvFlowControl.on_data_consumed (RecvFlowControl.new 100) 90) [] 190);
    [| reflexivity | vm_compute; reflexivity].
  apply cr_consume; [| lia | vm_compute; discriminate].
  apply cr_send; [apply cr_init | vm_compute; split; discriminate].
Qed.

Lemma flow_control_safe_witness :
  SendFlowControl.data_sent demo_credit_send <= RecvFlowControl.max_data demo_credit_recv /\
  SendFlowControl.data_sent demo_credit_send - RecvFlowControl.consumed demo_credit_recv <= 100.
Proof. apply (flow_control_safe 100 _ _ [190]); [lia | apply demo_credit_reach]. Defined.

(** Flow control cannot deadlock: when the sender is blocked at the
    receiver's limit and the application has consumed everything sent, the
    receiver's next check issues a larger limit, and delivering it unblocks the
    sender. *)
Theorem flow_control_live w s r net :
  2 <= w < 2 ^ 61 -> credit_reach w s r net ->
  SendFlowControl.data_sent s = RecvFlowControl.max_data r ->
  RecvFlowControl.consumed r = SendFlowControl.data_sent s ->
  RecvFlowControl.consumed r + w < 2 ^ 62 ->
  exists max r', RecvFlowControl.maybe_update r = (Some max, r') /\
    SendFlowControl.is_blocked s = true /\
    SendFlowControl.is_blocked (SendFlowControl.on_max_data s max) = false /\
    SendFlowControl.available (SendFlowControl.on_max_data s max) = w.
Proof.
  intros Hw Hr Hblk Hcons Hov. destruct (credit_reach_inv w s r net ltac:(lia) Hr) as [I1 I2 I3 I4 I5 I6].
  unfold RecvFlowControl.maybe_update. rewrite I4, u64_add_small by (unfold is_u64; lia).
  rewrite (proj2 (Z.ltb_lt _ _)) by lia.
  assert (Hhalf : sat_sub (RecvFlowControl.max_data r) (RecvFlowControl.consumed r) < w / 2).
  { unfold sat_sub. replace (RecvFlowControl.max_data r - RecvFlowControl.consumed r) with 0 by lia.
    simpl. apply Z.div_str_pos. lia. }
  rewrite (proj2 (Z.ltb_lt _ _) Hhalf). simpl. eexists _, _. split; [reflexivity |].
  unfold SendFlowControl.is_blocked, SendFlowControl.available, SendFlowControl.on_max_data, sat_sub.
  rewrite (proj2 (Z.ltb_lt _ _)) by lia. simpl. split; [apply Z.leb_le; lia |].
  split; [apply Z.leb_gt; lia | lia].
Qed.

Lemma flow_control_live_witness :
  let s := SendFlowControl.on_data_sent (SendFlowControl.new 100) 100 in
  let r := RecvFlowControl.on_data_consumed (RecvFlowControl.new 100) 100 in
  exists max r', RecvFlowControl.maybe_update r = (Some max, r') /\
    SendFlowControl.is_blocked s = true /\
    SendFlowControl.is_blocked (SendFlowControl.on_max_data s max) = false /\
    SendFlowControl.available (SendFlowControl.on_max_data s max) = 100.
Proof.
  apply (flow_control_live 100 (SendFlowControl.on_data_sent (SendFlowControl.new 100) 100)
           (RecvFlowControl.on_data_consumed (RecvFlowControl.new 100) 100) []);
    [lia | | reflexivity | reflexivity | vm_compute; reflexivity].
  apply cr_consume; [| lia | vm_compute; discriminate].
  apply cr_send; [apply cr_init | vm_compute; split; discriminate].
Defined.
