(* ===== verification/Recovery.v ===== *)
(** * RTT estimation and recovery timers ([oxiquic-transport/src/recovery.rs])

    Durations and instants are [Z] nanoseconds; [Duration / u32] is the floor of
    the nanosecond count, as in the standard library.  Overflow of [Duration]
    (about [2^64] seconds) is outside the model. *)

From S2P Require Import Prelude.

Definition MILLIS : Z := 1000000.
Definition K_GRANULARITY : Z := 1 * MILLIS.
Definition K_TIME_THRESHOLD_NUM : Z := 9.
Definition K_TIME_THRESHOLD_DEN : Z := 8.
Definition K_INITIAL_RTT : Z := 333 * MILLIS.

(** ** The estimator *)

Module Rtt.

Record t := mk {
  latest_rtt : Z;
  min_rtt : Z;
  smoothed_rtt : Z;
  rttvar : Z;
  have_sample : bool
}.

Definition new : t := mk 0 0 K_INITIAL_RTT (K_INITIAL_RTT / 2) false.

Definition abs_diff (a b : Z) : Z := if b <=? a then a - b else b - a.

Definition update (s : t) (rtt_sample ack_delay max_ack_delay : Z) : t :=
  if negb (have_sample s) then mk rtt_sample rtt_sample rtt_sample (rtt_sample / 2) true
  else
    let min' := Z.min (min_rtt s) rtt_sample in
    let ack_delay := Z.min ack_delay max_ack_delay in
    let adjusted_rtt := if min' + ack_delay <=? rtt_sample then rtt_sample - ack_delay else rtt_sample in
    let rttvar_sample := abs_diff (smoothed_rtt s) adjusted_rtt in
    mk rtt_sample min' ((smoothed_rtt s * 7 + adjusted_rtt) / 8)
       ((rttvar s * 3 + rttvar_sample) / 4) true.

Definition loss_delay (s : t) : Z :=
  let base := Z.max (latest_rtt s) (smoothed_rtt s) in
  let scaled := base * K_TIME_THRESHOLD_NUM / K_TIME_THRESHOLD_DEN in
  Z.max scaled K_GRANULARITY.

Definition pto_base (s : t) (max_ack_delay : Z) : Z :=
  smoothed_rtt s + Z.max (rttvar s * 4) K_GRANULARITY + max_ack_delay.

End Rtt.

(** ** The timers *)

Inductive SpaceIndex := SpInitial | SpHandshake | SpApplication.

#[export] Instance SpaceIndex_eq_dec : EqDecision SpaceIndex.
Proof. solve_decision. Defined.

Module LossDetection.

(** [loss_time] is the array indexed by [SpaceIndex]. *)
Record t := mk {
  pto_count : Z;
  loss_initial : option Z;
  loss_handshake : option Z;
  loss_application : option Z
}.

Definition new : t := mk 0 None None None.

Definition loss_time (s : t) (i : SpaceIndex) : option Z :=
  match i with
  | SpInitial => loss_initial s | SpHandshake => loss_handshake s | SpApplication => loss_application s
  end.

Definition set_loss_time (s : t) (i : SpaceIndex) (time : option Z) : t :=
  match i with
  | SpInitial => mk (pto_count s) time (loss_handshake s) (loss_application s)
  | SpHandshake => mk (pto_count s) (loss_initial s) time (loss_application s)
  | SpApplication => mk (pto_count s) (loss_initial s) (loss_handshake s) time
  end.

(** One turn of the loop over the slots. *)
Definition best_of (s : t) (best : option (Z * SpaceIndex)) (i : SpaceIndex) : option (Z * SpaceIndex) :=
  match loss_time s i with
  | None => best
  | Some time =>
      Some (match best with
            | Some (bt, bs) => if bt <=? time then (bt, bs) else (time, i)
            | None => (time, i)
            end)
  end.

Definition earliest_loss_time (s : t) : option (Z * SpaceIndex) :=
  fold_left (best_of s) [SpInitial; SpHandshake; SpApplication] None.

Definition reset_pto_count (s : t) : t :=
  mk 0 (loss_initial s) (loss_handshake s) (loss_application s).

(** [u32::saturating_add(1)]. *)
Definition increase_pto_count (s : t) : t :=
  mk (Z.min u32_MAX (pto_count s + 1)) (loss_initial s) (loss_handshake s) (loss_application s).

Definition pto_deadline (s : t) (earliest_sent pto_base : Z) : Z :=
  let backoff := Z.shiftl 1 (Z.min (pto_count s) 20) in
  earliest_sent + pto_base * backoff.

End LossDetection.

(** ** Lemmas *)

(** The estimator after a run of samples [(rtt, ack_delay, max_ack_delay)]. *)
Definition rtt_run (samples : list (Z * Z * Z)) : Rtt.t :=
  fold_left (fun s '(rtt, d, m) => Rtt.update s rtt d m) samples Rtt.new.

Definition sample_ok (hi : Z) (x : Z * Z * Z) : Prop :=
  let '(rtt, d, m) := x in 0 <= rtt <= hi /\ 0 <= d /\ 0 <= m.

#[export] Instance sample_ok_dec hi x : Decision (sample_ok hi x).
Proof. destruct x as [[rtt d] m]. simpl. apply _. Defined.

Definition sample_rtt (x : Z * Z * Z) : Z := x.1.1.

Record rtt_inv (hi : Z) (samples : list (Z * Z * Z)) (s : Rtt.t) : Prop := {
  rt_have : Rtt.have_sample s = true;
  rt_min : (exists x, x ∈ samples /\ sample_rtt x = Rtt.min_rtt s) /\
           (forall x, x ∈ samples -> Rtt.min_rtt s <= sample_rtt x);
  rt_nonneg : 0 <= Rtt.min_rtt s;
  rt_smoothed : Rtt.min_rtt s <= Rtt.smoothed_rtt s <= hi;
  rt_var : 0 <= Rtt.rttvar s <= hi;
  rt_latest : sample_rtt <$> last samples = Some (Rtt.latest_rtt s)
}.

Lemma rtt_update_first hi x :
  sample_ok hi x -> let '(rtt, d, m) := x in rtt_inv hi [x] (Rtt.update Rtt.new rtt d m).
Proof.
  destruct x as [[rtt d] m]. intros ([H1 H2] & _). split; simpl; try done; try lia.
  - split; [exists (rtt, d, m); split; [apply list_elem_of_here | done] |].
    by intros x ->%list_elem_of_singleton.
  - zdm.
Qed.

Lemma rtt_update_next hi samples s rtt d m :
  rtt_inv hi samples s -> sample_ok hi (rtt, d, m) ->
  rtt_inv hi (samples ++ [(rtt, d, m)]) (Rtt.update s rtt d m).
Proof.
  intros [I1 [(y & Hy & Ey) Hall] I3 I4 I5 _] ([H1 H2] & Hd & Hm).
  unfold Rtt.update. rewrite I1. simpl.
  set (ad := Z.min d m). assert (0 <= ad) by lia.
  set (adj := if Z.min (Rtt.min_rtt s) rtt + ad <=? rtt then rtt - ad else rtt).
  assert (Hadj : Z.min (Rtt.min_rtt s) rtt <= adj <= hi) by (unfold adj; bcase; lia).
  assert (Hdiff : 0 <= Rtt.abs_diff (Rtt.smoothed_rtt s) adj <= hi) by (unfold Rtt.abs_diff; bcase; lia).
  split; simpl; try done; try lia; try zdm.
  - split.
    + destruct (Z.min_spec (Rtt.min_rtt s) rtt) as [[_ ->] | [_ ->]].
      * exists y. split; [apply elem_of_app; by left | done].
      * exists (rtt, d, m). split; [apply elem_of_app; right; apply list_elem_of_here | done].
    + intros x [Hx | ->%list_elem_of_singleton]%elem_of_app; [specialize (Hall x Hx); lia | unfold sample_rtt; simpl; lia].
  - by rewrite last_snoc.
Qed.

Lemma rtt_run_inv hi samples :
  samples <> [] -> Forall (sample_ok hi) samples -> rtt_inv hi samples (rtt_run samples).
Proof.
  intros Hne Hs. unfold rtt_run. induction samples as [| x samples IH] using rev_ind; [done |].
  apply Forall_app in Hs as [Hs Hx]. apply Forall_cons in Hx as [Hx _].
  rewrite fold_left_app. simpl. destruct x as [[rtt d] m]. destruct samples as [| y samples].
  - simpl. by apply (rtt_update_first hi (rtt, d, m)).
  - apply rtt_update_next; [by apply IH | done].
Qed.

Lemma pto_backoff s :
  0 <= LossDetection.pto_count s ->
  1 <= Z.shiftl 1 (Z.min (LossDetection.pto_count s) 20) <= 2 ^ 20.
Proof.
  intros H. rewrite Z.shiftl_1_l. split.
  - change 1 with (2 ^ 0). apply Z.pow_le_mono_r; lia.
  - apply Z.pow_le_mono_r; lia.
Qed.

(** ** Properties *)

(** After any non-empty run of RTT samples, [min_rtt] is the least sample,
    [latest_rtt] the last one, and the smoothed RTT and the variance stay between
    the minimum (zero for the variance) and the largest sample: the acknowledgement
    delay correction never drives the estimate below the observed minimum. *)
Theorem rtt_estimator_bounds hi samples :
  samples <> [] -> Forall (sample_ok hi) samples ->
  let s := rtt_run samples in
  (exists x, x ∈ samples /\ sample_rtt x = Rtt.min_rtt s) /\
  (forall x, x ∈ samples -> Rtt.min_rtt s <= sample_rtt x) /\
  Rtt.min_rtt s <= Rtt.smoothed_rtt s <= hi /\
  0 <= Rtt.rttvar s <= hi /\
  sample_rtt <$> last samples = Some (Rtt.latest_rtt s).
Proof. intros Hne Hs s. destruct (rtt_run_inv hi samples Hne Hs) as [_ [? ?] _ ? ? ?]. subst s. split_and!; done || lia. Qed.

Lemma rtt_estimator_bounds_witness :
  let samples := [(50000000, 0, 0); (80000000, 25000000, 25000000); (40000000, 9000000, 25000000)] in
  let s := rtt_run samples in
  (exists x, x ∈ samples /\ sample_rtt x = Rtt.min_rtt s) /\
  (forall x, x ∈ samples -> Rtt.min_rtt s <= sample_rtt x) /\
  Rtt.min_rtt s <= Rtt.smoothed_rtt s <= 80000000 /\
  0 <= Rtt.rttvar s <= 80000000 /\
  sample_rtt <$> last samples = Some (Rtt.latest_rtt s).
Proof.
  apply rtt_estimator_bounds.
  - discriminate.
  - eapply bool_decide_unpack. vm_compute. exact I.
Defined.

(** The probe timeout backs off exponentially: a PTO expiry at least keeps the
    deadline (doubling the interval until [2^20] times the base), the deadline is
    never earlier than one base interval after the send, the exponent is capped,
    and an acknowledgement resets the interval to the base. *)
Theorem pto_backoff_doubles s t base :
  0 <= LossDetection.pto_count s <= u32_MAX -> 0 <= base ->
  let s' := LossDetection.increase_pto_count s in
  t + base <= LossDetection.pto_deadline s t base <= t + base * 2 ^ 20 /\
  (LossDetection.pto_count s < 20 ->
   LossDetection.pto_deadline s' t base - t = 2 * (LossDetection.pto_deadline s t base - t)) /\
  LossDetection.pto_deadline s t base <= LossDetection.pto_deadline s' t base /\
  LossDetection.pto_deadline (LossDetection.reset_pto_count s') t base = t + base.
Proof.
  intros Hc Hb. unfold LossDetection.increase_pto_count, LossDetection.reset_pto_count, LossDetection.pto_deadline.
  simpl. pose proof (pto_backoff s ltac:(lia)) as Hbk. rewrite !Z.shiftl_1_l in *. unfold u32_MAX in *.
  split; [nia |]. split; [| split].
  - intros Hlt. rewrite !(Z.min_l _ 20), (Z.min_r (2 ^ 32 - 1)) by lia. rewrite Z.pow_add_r by lia. lia.
  - assert (2 ^ Z.min (LossDetection.pto_count s) 20
            <= 2 ^ Z.min (Z.min (2 ^ 32 - 1) (LossDetection.pto_count s + 1)) 20)
      by (apply Z.pow_le_mono_r; lia). nia.
  - change (2 ^ Z.min 0 20) with 1. lia.
Qed.

Lemma pto_backoff_doubles_witness :
  let s := LossDetection.increase_pto_count LossDetection.new in
  let s' := LossDetection.increase_pto_count s in
  7 + 100 <= LossDetection.pto_deadline s 7 100 <= 7 + 100 * 2 ^ 20 /\
  (LossDetection.pto_count s < 20 ->
   LossDetection.pto_deadline s' 7 100 - 7 = 2 * (LossDetection.pto_deadline s 7 100 - 7)) /\
  LossDetection.pto_deadline s 7 100 <= LossDetection.pto_deadline s' 7 100 /\
  LossDetection.pto_deadline (LossDetection.reset_pto_count s') 7 100 = 7 + 100.
Proof. apply pto_backoff_doubles; vm_compute; [split |]; discriminate. Defined.

(** The loss timer of a connection is the earliest over the three spaces. *)
Lemma earliest_loss_time_spec s :
  match LossDetection.earliest_loss_time s with
  | None => forall i, LossDetection.loss_time s i = None
  | Some (t, i) => LossDetection.loss_time s i = Some t /\
                   forall j t', LossDetection.loss_time s j = Some t' -> t <= t'
  end.
Proof.
  destruct s as [c [a |] [b |] [d |]]; unfold LossDetection.earliest_loss_time, LossDetection.best_of; simpl;
    repeat bcase; (split; [done |]) || idtac; try (intros [] t'; simpl; intros [= <-]; lia); by intros [].
Qed.
