(* ===== verification/Floats.v ===== *)
(** * IEEE 754 binary64 arithmetic

    The [f64] operations the congestion controllers use, on the Standard
    Library's executable specification of binary floating point ([SpecFloat],
    53-bit precision).  Decimal literals of the source are quotients of two exact
    integers, which is their correctly rounded value.  [as u64] saturates and
    maps NaN to zero; [max] and [min] ignore a NaN operand. *)

From S2P Require Import Prelude.
From Stdlib Require Export Floats.SpecFloat.

Notation f64 := spec_float (only parsing).

Definition f_prec : Z := 53.
Definition f_emax : Z := 1024.

Definition f_of_Z (z : Z) : f64 := binary_normalize f_prec f_emax z 0 false.
Definition f_add (a b : f64) : f64 := SFadd f_prec f_emax a b.
Definition f_sub (a b : f64) : f64 := SFsub f_prec f_emax a b.
Definition f_mul (a b : f64) : f64 := SFmul f_prec f_emax a b.
Definition f_div (a b : f64) : f64 := SFdiv f_prec f_emax a b.
Definition f_le (a b : f64) : bool := SFleb a b.
Definition f_lt (a b : f64) : bool := SFltb a b.

Definition f_zero : f64 := f_of_Z 0.
Definition f_one : f64 := f_of_Z 1.
Definition f_infinity : f64 := S754_infinity false.

Definition f_is_nan (a : f64) : bool := match a with S754_nan => true | _ => false end.
Definition f_is_finite (a : f64) : bool :=
  match a with S754_nan | S754_infinity _ => false | _ => true end.

(** [f64::max] and [f64::min]. *)
Definition f_max (a b : f64) : f64 :=
  if f_is_nan a then b else if f_is_nan b then a else if f_lt a b then b else a.
Definition f_min (a b : f64) : f64 :=
  if f_is_nan a then b else if f_is_nan b then a else if f_lt b a then b else a.

(** [x as u64]. *)
Definition f_to_u64 (a : f64) : Z :=
  match a with
  | S754_finite false m e => Z.min u64_MAX (Z.shiftl (Z.pos m) e)
  | S754_infinity false => u64_MAX
  | _ => 0
  end.

(** [Duration::as_secs_f64] of a nanosecond count. *)
Definition NANOS_PER_SEC : Z := 1000000000.
Definition as_secs_f64 (nanos : Z) : f64 :=
  f_add (f_of_Z (nanos / NANOS_PER_SEC))
        (f_div (f_of_Z (nanos mod NANOS_PER_SEC)) (f_of_Z NANOS_PER_SEC)).

Lemma f_to_u64_range a : is_u64 (f_to_u64 a).
Proof.
  unfold is_u64, f_to_u64, u64_MAX. destruct a as [| [] | | [] m e]; try lia.
  assert (0 <= Z.shiftl (Z.pos m) e) by (apply Z.shiftl_nonneg; lia). lia.
Qed.

#[export] Hint Resolve f_to_u64_range : oxi.

(** Sanity of the literals: [0.1 + 0.2] rounds to the double above [0.3]. *)
Example f_literals :
  f_add (f_div (f_of_Z 1) (f_of_Z 10)) (f_div (f_of_Z 2) (f_of_Z 10))
    = S754_finite false 5404319552844596 (-54) /\
  f_div (f_of_Z 3) (f_of_Z 10) = S754_finite false 5404319552844595 (-54).
Proof. split; vm_compute; reflexivity. Qed.
