(* ===== verification/Congestion.v ===== *)
(** * Congestion control: NewReno ([oxiquic-transport/src/congestion.rs]) and
    CUBIC ([oxiquic-transport/src/cubic.rs])

    Both controllers are proved to satisfy the interface [CongestionControl]:
    what the connection relies on, whichever algorithm it was configured with.
    The cube root of CUBIC is the platform's [f64::cbrt], a parameter. *)

From S2P Require Import Prelude Floats SentPackets.

Definition MAX_DATAGRAM_SIZE : Z := 1200.
Definition K_LOSS_REDUCTION_NUM : Z := 1.
Definition K_LOSS_REDUCTION_DEN : Z := 2.
Definition K_PERSISTENT_CONGESTION_THRESHOLD : Z := 3.

Definition initial_window (max_datagram : Z) : Z :=
  let two := 2 * max_datagram in
  let lower := if 14720 <? two then two else 14720 in
  let ten := 10 * max_datagram in
  if ten <? lower then ten else lower.

Definition minimum_window (max_datagram : Z) : Z := 2 * max_datagram.

(** [newest.saturating_duration_since(oldest)]. *)
Definition duration_since (later earlier : Z) : Z := Z.max 0 (later - earlier).

Definition is_persistent_congestion (oldest_lost newest_lost pto_base : Z) : bool :=
  let threshold := pto_base * K_PERSISTENT_CONGESTION_THRESHOLD in
  threshold <? duration_since newest_lost oldest_lost.

(** ** NewReno *)

Module NewReno.

Record t := mk {
  max_datagram : Z;
  congestion_window : Z;
  bytes_in_flight : Z;
  ssthresh : Z;
  recovery_start_time : option Z
}.

Definition with_max_datagram (md : Z) : t := mk md (initial_window md) 0 u64_MAX None.
Definition new : t := with_max_datagram MAX_DATAGRAM_SIZE.

Definition can_send (s : t) (bytes : Z) : bool :=
  u64_add (bytes_in_flight s) bytes <=? congestion_window s.

Definition on_packet_sent (s : t) (bytes : Z) : t :=
  mk (max_datagram s) (congestion_window s) (u64_add (bytes_in_flight s) bytes) (ssthresh s)
     (recovery_start_time s).

Definition in_recovery (s : t) (sent_time : Z) : bool :=
  match recovery_start_time s with Some start => sent_time <=? start | None => false end.

(** One acknowledged packet [(bytes, sent_time)]. *)
Definition ack_one (s : t) (a : Z * Z) : t :=
  let '(bytes, sent_time) := a in
  let s := mk (max_datagram s) (congestion_window s) (sat_sub (bytes_in_flight s) bytes) (ssthresh s)
              (recovery_start_time s) in
  if in_recovery s sent_time then s
  else
    let inc := if congestion_window s <? ssthresh s then bytes
               else Z.max (u64_mul (max_datagram s) bytes / congestion_window s) 1 in
    mk (max_datagram s) (u64_add (congestion_window s) inc) (bytes_in_flight s) (ssthresh s)
       (recovery_start_time s).

Definition on_packets_acked (s : t) (acked : list (Z * Z)) : t := fold_left ack_one acked s.

Definition on_congestion_event (s : t) (sent_time now : Z) : t :=
  if in_recovery s sent_time then s
  else
    let th := Z.max (u64_mul (congestion_window s) K_LOSS_REDUCTION_NUM / K_LOSS_REDUCTION_DEN)
                    (minimum_window (max_datagram s)) in
    mk (max_datagram s) th (bytes_in_flight s) th (Some now).

Definition on_packets_lost (s : t) (lost_bytes largest_lost_sent_time now : Z) : t :=
  let s := mk (max_datagram s) (congestion_window s) (sat_sub (bytes_in_flight s) lost_bytes)
              (ssthresh s) (recovery_start_time s) in
  on_congestion_event s largest_lost_sent_time now.

Definition on_persistent_congestion (s : t) : t :=
  mk (max_datagram s) (minimum_window (max_datagram s)) (bytes_in_flight s) u64_MAX None.

End NewReno.

(** ** CUBIC *)

Module Cubic.

Section cubic.
Context (cbrt : f64 -> f64).

Definition BETA_CUBIC : f64 := f_div (f_of_Z 7) (f_of_Z 10).
Definition CUBIC_C : f64 := f_div (f_of_Z 4) (f_of_Z 10).

Record t := mk {
  max_datagram : Z;
  cwnd : Z;
  ssthresh : Z;
  bytes_in_flight : Z;
  w_max : Z;
  epoch_start : option Z;
  k_secs : f64;
  recovery_start_time : option Z
}.

Definition with_max_datagram (md : Z) : t :=
  mk md (initial_window md) u64_MAX 0 (initial_window md) None f_zero None.
Definition new : t := with_max_datagram MAX_DATAGRAM_SIZE.

Definition can_send (s : t) (bytes : Z) : bool := u64_add (bytes_in_flight s) bytes <=? cwnd s.

Definition on_packet_sent (s : t) (bytes : Z) : t :=
  mk (max_datagram s) (cwnd s) (ssthresh s) (u64_add (bytes_in_flight s) bytes) (w_max s)
     (epoch_start s) (k_secs s) (recovery_start_time s).

Definition in_recovery (s : t) (sent_time : Z) : bool :=
  match recovery_start_time s with Some start => sent_time <=? start | None => false end.

Definition w_cubic (s : t) (t_secs : f64) : Z :=
  let md := f_of_Z (max_datagram s) in
  let w_max_segs := f_div (f_of_Z (w_max s)) md in
  let delta := f_sub t_secs (k_secs s) in
  let cubic_segs := f_add (f_mul (f_mul (f_mul CUBIC_C delta) delta) delta) w_max_segs in
  if f_le cubic_segs f_zero then minimum_window (max_datagram s)
  else
    let cubic_bytes := f_mul cubic_segs md in
    if f_le (f_of_Z u64_MAX) cubic_bytes then u64_MAX else f_to_u64 cubic_bytes.

Definition compute_k_secs (w_max md : Z) : f64 :=
  let w_max_segs := f_div (f_of_Z w_max) (f_of_Z md) in
  let arg := f_div (f_mul w_max_segs (f_sub f_one BETA_CUBIC)) CUBIC_C in
  cbrt arg.

(** The state with the cubic epoch started, if it was not. *)
Definition start_epoch (s : t) (now : Z) : t :=
  match epoch_start s with
  | Some _ => s
  | None => mk (max_datagram s) (cwnd s) (ssthresh s) (bytes_in_flight s) (w_max s) (Some now)
               (compute_k_secs (w_max s) (max_datagram s)) (recovery_start_time s)
  end.

Definition set_cwnd (s : t) (w : Z) : t :=
  mk (max_datagram s) w (ssthresh s) (bytes_in_flight s) (w_max s) (epoch_start s) (k_secs s)
     (recovery_start_time s).

Definition ack_one (now : Z) (s : t) (a : Z * Z) : t :=
  let '(bytes, sent_time) := a in
  let s := mk (max_datagram s) (cwnd s) (ssthresh s) (sat_sub (bytes_in_flight s) bytes) (w_max s)
              (epoch_start s) (k_secs s) (recovery_start_time s) in
  if in_recovery s sent_time then s
  else if cwnd s <? ssthresh s then set_cwnd s (u64_add (cwnd s) bytes)
  else
    let s := start_epoch s now in
    let epoch := unwrap_or (epoch_start s) now in
    let t_secs := as_secs_f64 (duration_since now epoch) in
    let target := w_cubic s t_secs in
    if cwnd s <? target then set_cwnd s target
    else
      let inc := Z.max (u64_mul (max_datagram s) bytes / cwnd s) 1 in
      set_cwnd s (u64_add (cwnd s) inc).

Definition on_packets_acked (s : t) (acked : list (Z * Z)) (now : Z) : t :=
  fold_left (ack_one now) acked s.

Definition on_packets_lost (s : t) (lost_bytes largest_lost_sent_time now : Z) : t :=
  let s := mk (max_datagram s) (cwnd s) (ssthresh s) (sat_sub (bytes_in_flight s) lost_bytes) (w_max s)
              (epoch_start s) (k_secs s) (recovery_start_time s) in
  if in_recovery s largest_lost_sent_time then s
  else
    let new_ssthresh := Z.max (f_to_u64 (f_mul (f_of_Z (cwnd s)) BETA_CUBIC))
                              (minimum_window (max_datagram s)) in
    mk (max_datagram s) new_ssthresh new_ssthresh (bytes_in_flight s) (cwnd s) None f_zero (Some now).

Definition on_persistent_congestion (s : t) : t :=
  let w := minimum_window (max_datagram s) in
  mk (max_datagram s) w u64_MAX (bytes_in_flight s) w None f_zero None.

End cubic.

End Cubic.

(** ** The interface *)

(** An acknowledged packet as the connection reports it:
    [(bytes, sent_time, rate_sample)]. *)
Definition acked_packet : Type := Z * Z * option RateSample.

Definition acked_bytes (acked : list acked_packet) : Z := foldr (fun a n => a.1.1 + n) 0 acked.

(** What a congestion controller promises: the bytes in flight are accounted
    exactly, the window never drops below two datagrams, and losses of packets
    sent before the current recovery period began do not reduce it again.
    [cc_growth_ok] is the side condition that window growth stays in [u64]. *)
Class CongestionControl (T : Type) := {
  cc_window : T -> Z;
  cc_in_flight : T -> Z;
  cc_recovery : T -> option Z;
  cc_can_send : T -> Z -> bool;
  cc_sent : T -> Z -> Z -> option RateSample * T;
  cc_acked : T -> list acked_packet -> Z -> T;
  cc_lost : T -> Z -> Z -> Z -> T;
  cc_persistent : T -> T;
  cc_inv : T -> Prop;
  cc_growth_ok : T -> list acked_packet -> Z -> Prop;
  cc_inv_window s : cc_inv s -> minimum_window MAX_DATAGRAM_SIZE <= cc_window s < 2 ^ 64;
  cc_inv_flight s : cc_inv s -> is_u64 (cc_in_flight s);
  cc_can_send_spec s bytes :
    cc_inv s -> 0 <= bytes -> cc_in_flight s + bytes < 2 ^ 64 ->
    cc_can_send s bytes = true <-> cc_in_flight s + bytes <= cc_window s;
  cc_sent_law s bytes now :
    cc_inv s -> 0 <= bytes -> cc_in_flight s + bytes < 2 ^ 64 ->
    cc_inv (cc_sent s bytes now).2 /\ cc_in_flight (cc_sent s bytes now).2 = cc_in_flight s + bytes /\
    cc_window (cc_sent s bytes now).2 = cc_window s;
  cc_acked_law s acked now :
    cc_inv s -> Forall (fun a => 0 <= a.1.1) acked -> cc_growth_ok s acked now ->
    cc_inv (cc_acked s acked now) /\
    cc_in_flight (cc_acked s acked now) = sat_sub (cc_in_flight s) (acked_bytes acked);
  cc_lost_law s bytes t now :
    cc_inv s -> 0 <= bytes -> cc_in_flight s + bytes < 2 ^ 60 ->
    cc_inv (cc_lost s bytes t now) /\
    cc_in_flight (cc_lost s bytes t now) = sat_sub (cc_in_flight s) bytes /\
    ((exists r, cc_recovery s = Some r /\ t <= r) -> cc_window (cc_lost s bytes t now) = cc_window s) /\
    (~ (exists r, cc_recovery s = Some r /\ t <= r) -> cc_recovery (cc_lost s bytes t now) = Some now);
  cc_persistent_law s :
    cc_inv s -> cc_inv (cc_persistent s) /\ cc_in_flight (cc_persistent s) = cc_in_flight s
}.

(** ** Lemmas *)

(** [ok] holds at every state a fold passes through. *)
Fixpoint fold_ok {T A} (step : T -> A -> T) (ok : T -> A -> Prop) (s : T) (l : list A) : Prop :=
  match l with [] => True | a :: tl => ok s a /\ fold_ok step ok (step s a) tl end.

Lemma fold_ok_app {T A} (step : T -> A -> T) ok s l l' :
  fold_ok step ok s (l ++ l') <-> fold_ok step ok s l /\ fold_ok step ok (fold_left step l s) l'.
Proof. revert s. induction l as [| a l IH]; intros s; simpl; [tauto |]. rewrite IH. tauto. Qed.

Lemma foldr_nonneg {A} (w : A -> Z) l : Forall (fun a => 0 <= w a) l -> 0 <= foldr (fun a n => w a + n) 0 l.
Proof. induction 1; simpl; lia. Qed.

(** An invariant of a fold, and a quantity it decreases by saturating steps. *)
Lemma fold_inv {T A} (step : T -> A -> T) (ok : T -> A -> Prop) (inv : T -> Prop) (m : T -> Z) (w : A -> Z) :
  (forall s a, inv s -> ok s a -> 0 <= w a -> inv (step s a) /\ m (step s a) = sat_sub (m s) (w a)) ->
  forall l s, inv s -> 0 <= m s -> Forall (fun a => 0 <= w a) l -> fold_ok step ok s l ->
  inv (fold_left step l s) /\ m (fold_left step l s) = sat_sub (m s) (foldr (fun a n => w a + n) 0 l).
Proof.
  intros Hstep l. induction l as [| a l IH]; intros s Hs Hm Hw Hok; simpl.
  - split; [done |]. unfold sat_sub. lia.
  - destruct Hok as [Ha Hok]. apply Forall_cons in Hw as [Hwa Hw].
    destruct (Hstep s a Hs Ha Hwa) as (Hs' & Em).
    destruct (IH (step s a) Hs' ltac:(rewrite Em; unfold sat_sub; lia) Hw Hok) as [Hi ->]. split; [done |].
    rewrite Em. pose proof (foldr_nonneg w l Hw). unfold sat_sub. lia.
Qed.

(** The congestion-avoidance increment is at most the bytes acknowledged. *)
Lemma ca_increment md bytes cwnd :
  0 <= md < 2 ^ 16 -> 0 <= bytes < 2 ^ 32 -> minimum_window md <= cwnd -> 0 < cwnd ->
  1 <= Z.max (u64_mul md bytes / cwnd) 1 <= bytes + 1.
Proof.
  unfold minimum_window. intros Hmd Hb Hw Hc. rewrite u64_mul_small by (unfold is_u64; nia).
  split; [lia |]. apply Z.max_lub; [| lia].
  apply Z.le_trans with bytes; [| lia]. apply Z.div_le_upper_bound; [done |]. nia.
Qed.

Lemma initial_window_bounds md : 0 <= md < 2 ^ 16 -> minimum_window md <= initial_window md < 2 ^ 20.
Proof. intros. unfold initial_window, minimum_window. repeat bcase; lia. Qed.

Lemma acked_simple_Forall (acked : list acked_packet) :
  Forall (fun a => 0 <= a.1.1) acked -> Forall (fun a : Z * Z => 0 <= a.1) (map fst acked).
Proof. intros H. apply Forall_map. done. Qed.

Lemma acked_simple_bytes (acked : list acked_packet) :
  foldr (fun (a : Z * Z) n => a.1 + n) 0 (map fst acked) = acked_bytes acked.
Proof. induction acked as [| a l IH]; simpl; [done | by rewrite IH]. Qed.

(** ** NewReno satisfies the interface *)

Definition nr_inv (s : NewReno.t) : Prop :=
  NewReno.max_datagram s = MAX_DATAGRAM_SIZE /\
  minimum_window MAX_DATAGRAM_SIZE <= NewReno.congestion_window s < 2 ^ 64 /\
  is_u64 (NewReno.bytes_in_flight s).

(** Packets are at most a [u32] long and the window does not overflow. *)
Definition nr_step_ok (s : NewReno.t) (a : Z * Z) : Prop :=
  a.1 < 2 ^ 32 /\ NewReno.congestion_window s + a.1 + 1 < 2 ^ 64.

Lemma nr_ack_one s a :
  nr_inv s -> nr_step_ok s a -> 0 <= a.1 ->
  nr_inv (NewReno.ack_one s a) /\
  NewReno.bytes_in_flight (NewReno.ack_one s a) = sat_sub (NewReno.bytes_in_flight s) a.1.
Proof.
  destruct a as [bytes t]. simpl. intros (Hmd & Hw & Hf) [Hb Ho] H0. simpl in *.
  pose proof (sat_sub_range _ bytes Hf H0) as Hf'. unfold NewReno.ack_one.
  set (s0 := NewReno.mk _ _ (sat_sub _ _) _ _).
  destruct (NewReno.in_recovery s0 t); [by split |]. simpl. split; [| done].
  pose proof (ca_increment (NewReno.max_datagram s) bytes (NewReno.congestion_window s)) as Hca.
  unfold nr_inv, minimum_window, MAX_DATAGRAM_SIZE in *. simpl. rewrite Hmd in *.
  specialize (Hca ltac:(lia) ltac:(lia) ltac:(lia) ltac:(lia)).
  split; [done |]. split; [| done].
  destruct (NewReno.congestion_window s <? NewReno.ssthresh s); rewrite u64_add_small by (unfold is_u64; lia); lia.
Qed.

Lemma nr_congestion_event s t now :
  nr_inv s ->
  nr_inv (NewReno.on_congestion_event s t now) /\
  NewReno.bytes_in_flight (NewReno.on_congestion_event s t now) = NewReno.bytes_in_flight s.
Proof.
  intros (Hmd & Hw & Hf). unfold NewReno.on_congestion_event.
  destruct (NewReno.in_recovery s t); [by split |]. simpl. split; [| done].
  unfold nr_inv. simpl. rewrite Hmd. split; [done |]. split; [| done].
  unfold K_LOSS_REDUCTION_NUM, K_LOSS_REDUCTION_DEN, minimum_window, MAX_DATAGRAM_SIZE in *.
  rewrite u64_mul_small by (unfold is_u64; lia).
  split; [lia |]. apply Z.max_lub_lt; [| lia]. apply Z.div_lt_upper_bound; lia.
Qed.

Lemma in_recovery_spec (r : option Z) t :
  (match r with Some start => t <=? start | None => false end) = true <-> exists start, r = Some start /\ t <= start.
Proof.
  destruct r as [start |]; split.
  - intros H%Z.leb_le. by exists start.
  - intros (q & [= ->] & ?). by apply Z.leb_le.
  - done.
  - by intros (q & ? & _).
Qed.

#[export] Program Instance newreno_cc : CongestionControl NewReno.t := {|
  cc_window := NewReno.congestion_window;
  cc_in_flight := NewReno.bytes_in_flight;
  cc_recovery := NewReno.recovery_start_time;
  cc_can_send := NewReno.can_send;
  cc_sent s bytes _ := (None, NewReno.on_packet_sent s bytes);
  cc_acked s acked _ := NewReno.on_packets_acked s (map fst acked);
  cc_lost := NewReno.on_packets_lost;
  cc_persistent := NewReno.on_persistent_congestion;
  cc_inv := nr_inv;
  cc_growth_ok s acked _ := fold_ok NewReno.ack_one nr_step_ok s (map fst acked)
|}.
Next Obligation. intros s (_ & ? & _). done. Qed.
Next Obligation. intros s (_ & _ & ?). done. Qed.
Next Obligation.
  intros s bytes (_ & _ & Hf) H0 Ho. unfold NewReno.can_send, is_u64 in *.
  rewrite u64_add_small by (unfold is_u64; lia). apply Z.leb_le.
Qed.
Next Obligation.
  intros s bytes now (Hmd & Hw & Hf) H0 Ho. unfold is_u64 in *. simpl.
  rewrite u64_add_small by (unfold is_u64; lia). split; [| done].
  split; [done |]. split; [done |]. simpl. unfold is_u64. rewrite u64_add_small by (unfold is_u64; lia). lia.
Qed.
Next Obligation.
  intros s acked now Hs Hb Hg. unfold NewReno.on_packets_acked. rewrite <- acked_simple_bytes.
  apply (fold_inv NewReno.ack_one nr_step_ok nr_inv NewReno.bytes_in_flight fst nr_ack_one);
    [done | apply Hs | by apply acked_simple_Forall | done].
Qed.
Next Obligation.
  intros s bytes t now (Hmd & Hw & Hf) H0 Ho. unfold NewReno.on_packets_lost.
  pose proof (sat_sub_range _ bytes Hf H0) as Hf'. set (s0 := NewReno.mk _ _ (sat_sub _ _) _ _).
  assert (Hs0 : nr_inv s0) by (by split).
  destruct (nr_congestion_event s0 t now Hs0) as [Hi Hfl]. split_and!; [done | done | |].
  - intros Hr%in_recovery_spec. unfold NewReno.on_congestion_event, NewReno.in_recovery. simpl. by rewrite Hr.
  - intros Hr. rewrite <- in_recovery_spec, not_true_iff_false in Hr.
    unfold NewReno.on_congestion_event, NewReno.in_recovery. simpl. by rewrite Hr.
Qed.
Next Obligation.
  intros s (Hmd & Hw & Hf). split; [| done]. unfold nr_inv. simpl. rewrite Hmd.
  unfold minimum_window, MAX_DATAGRAM_SIZE. split; [done |]. split; [lia | done].
Qed.

(** ** CUBIC satisfies the interface *)

Section cubic_laws.
Context (cbrt : f64 -> f64).

Definition cu_inv (s : Cubic.t) : Prop :=
  Cubic.max_datagram s = MAX_DATAGRAM_SIZE /\
  minimum_window MAX_DATAGRAM_SIZE <= Cubic.cwnd s < 2 ^ 64 /\
  is_u64 (Cubic.bytes_in_flight s).

Definition cu_step_ok (s : Cubic.t) (a : Z * Z) : Prop :=
  a.1 < 2 ^ 32 /\ Cubic.cwnd s + a.1 + 1 < 2 ^ 64.

Lemma w_cubic_range s x : 0 <= Cubic.max_datagram s < 2 ^ 16 -> is_u64 (Cubic.w_cubic s x).
Proof.
  intros Hmd. unfold Cubic.w_cubic, minimum_window. case_match; [unfold is_u64; lia |].
  case_match; [unfold is_u64, u64_MAX; lia |]. apply f_to_u64_range.
Qed.

Lemma start_epoch_fields s now :
  let s' := Cubic.start_epoch cbrt s now in
  Cubic.max_datagram s' = Cubic.max_datagram s /\ Cubic.cwnd s' = Cubic.cwnd s /\
  Cubic.bytes_in_flight s' = Cubic.bytes_in_flight s.
Proof. unfold Cubic.start_epoch. by destruct (Cubic.epoch_start s). Qed.

Lemma cu_ack_one now s a :
  cu_inv s -> cu_step_ok s a -> 0 <= a.1 ->
  cu_inv (Cubic.ack_one cbrt now s a) /\
  Cubic.bytes_in_flight (Cubic.ack_one cbrt now s a) = sat_sub (Cubic.bytes_in_flight s) a.1.
Proof.
  destruct a as [bytes t]. simpl. intros (Hmd & Hw & Hf) [Hb Ho] H0. simpl in *.
  pose proof (sat_sub_range _ bytes Hf H0) as Hf'. unfold Cubic.ack_one.
  cbv beta iota zeta. set (s0 := Cubic.mk _ _ _ (sat_sub _ _) _ _ _ _).
  assert (Hs0 : cu_inv s0) by (by split).
  destruct (Cubic.in_recovery s0 t); [by split |].
  unfold minimum_window, MAX_DATAGRAM_SIZE in Hw.
  destruct (Cubic.cwnd s <? Cubic.ssthresh s).
  - split; [| done]. unfold cu_inv, minimum_window, MAX_DATAGRAM_SIZE. simpl.
    rewrite u64_add_small by (unfold is_u64; lia). split; [done |]. split; [lia | done].
  - destruct (start_epoch_fields s0 now) as (E1 & E2 & E3). set (s1 := Cubic.start_epoch cbrt s0 now) in *.
    assert (Hmd1 : Cubic.max_datagram s1 = MAX_DATAGRAM_SIZE) by (by rewrite E1).
    assert (Hc1 : Cubic.cwnd s1 = Cubic.cwnd s) by (by rewrite E2).
    assert (Hf1 : Cubic.bytes_in_flight s1 = sat_sub (Cubic.bytes_in_flight s) bytes) by (by rewrite E3).
    rewrite Hc1. set (target := Cubic.w_cubic s1 _).
    assert (Ht : is_u64 target) by (apply w_cubic_range; rewrite Hmd1; unfold MAX_DATAGRAM_SIZE; lia).
    pose proof (ca_increment (Cubic.max_datagram s1) bytes (Cubic.cwnd s1)) as Hca.
    unfold minimum_window in Hca. rewrite Hmd1, Hc1 in *. unfold MAX_DATAGRAM_SIZE in *.
    specialize (Hca ltac:(lia) ltac:(lia) ltac:(lia) ltac:(lia)).
    clearbody s1 target. destruct (Z.ltb_spec (Cubic.cwnd s) target); (split; [| exact Hf1]);
      unfold cu_inv, minimum_window, MAX_DATAGRAM_SIZE, is_u64 in *; simpl; rewrite ?Hmd1, ?Hf1, ?u64_add_small by (unfold is_u64; lia); lia.
Qed.

#[export] Program Instance cubic_cc : CongestionControl Cubic.t := {|
  cc_window := Cubic.cwnd;
  cc_in_flight := Cubic.bytes_in_flight;
  cc_recovery := Cubic.recovery_start_time;
  cc_can_send := Cubic.can_send;
  cc_sent s bytes _ := (None, Cubic.on_packet_sent s bytes);
  cc_acked s acked now := Cubic.on_packets_acked cbrt s (map fst acked) now;
  cc_lost := Cubic.on_packets_lost;
  cc_persistent := Cubic.on_persistent_congestion;
  cc_inv := cu_inv;
  cc_growth_ok s acked now := fold_ok (Cubic.ack_one cbrt now) cu_step_ok s (map fst acked)
|}.
Next Obligation. intros s (_ & ? & _). done. Qed.
Next Obligation. intros s (_ & _ & ?). done. Qed.
Next Obligation.
  intros s bytes (_ & _ & Hf) H0 Ho. unfold Cubic.can_send, is_u64 in *.
  rewrite u64_add_small by (unfold is_u64; lia). apply Z.leb_le.
Qed.
Next Obligation.
  intros s bytes now (Hmd & Hw & Hf) H0 Ho. unfold is_u64 in *. simpl.
  rewrite u64_add_small by (unfold is_u64; lia). split; [| done].
  split; [done |]. split; [done |]. simpl. unfold is_u64. rewrite u64_add_small by (unfold is_u64; lia). lia.
Qed.
Next Obligation.
  intros s acked now Hs Hb Hg. unfold Cubic.on_packets_acked. rewrite <- acked_simple_bytes.
  apply (fold_inv (Cubic.ack_one cbrt now) cu_step_ok cu_inv Cubic.bytes_in_flight fst (cu_ack_one now));
    [done | apply Hs | by apply acked_simple_Forall | done].
Qed.
Next Obligation.
  intros s bytes t now (Hmd & Hw & Hf) H0 Ho. unfold Cubic.on_packets_lost.
  pose proof (sat_sub_range _ bytes Hf H0) as Hf'. set (s0 := Cubic.mk _ _ _ (sat_sub _ _) _ _ _ _).
  destruct (Cubic.in_recovery s0 t) eqn:Er.
  - split_and!; [by split | done | done |]. intros Hr. exfalso. apply Hr. by apply in_recovery_spec.
  - split_and!; [| done | | done].
    + split; [done |]. split; [| done]. simpl. rewrite Hmd.
      pose proof (f_to_u64_range (f_mul (f_of_Z (Cubic.cwnd s)) Cubic.BETA_CUBIC)) as Hr. unfold is_u64 in Hr.
      unfold minimum_window, MAX_DATAGRAM_SIZE in *. lia.
    + intros Hr%in_recovery_spec. unfold Cubic.in_recovery in Er. simpl in Er. congruence.
Qed.
Next Obligation.
  intros s (Hmd & Hw & Hf). split; [| done]. unfold cu_inv. simpl. rewrite Hmd.
  unfold minimum_window, MAX_DATAGRAM_SIZE. split; [done |]. split; [lia | done].
Qed.

End cubic_laws.
