(* ===== verification/Bbr.v ===== *)
(** * BBR v2 congestion control ([oxiquic-transport/src/bbr.rs]) and the
    congestion-controller dispatch ([oxiquic-transport/src/cc_dispatch.rs])

    The delivery-rate estimator, the windowed maximum filter, the BBR state
    machine and the window computation, on binary64 arithmetic.  [Instant::now()]
    of the constructors is an argument.  BBR and the dispatch enum are proved to
    satisfy the interface of the other controllers. *)

From S2P Require Import Prelude Floats SentPackets Congestion.

Definition HIGH_GAIN : f64 := f_div (f_of_Z 2885390081777927) (f_of_Z 1000000000000000).
Definition CYCLE_LEN : Z := 8.
Definition PROBE_BW_GAINS : list f64 :=
  [f_div (f_of_Z 5) (f_of_Z 4); f_div (f_of_Z 3) (f_of_Z 4); f_one; f_one; f_one; f_one; f_one; f_one].
Definition PROBE_RTT_DURATION : Z := 200000000.
Definition RT_PROP_FILTER_LEN : Z := 10000000000.
Definition MIN_PIPE_CWND_PACKETS : Z := 4.
Definition DURATION_MAX : Z := u64_MAX * NANOS_PER_SEC + 999999999.

(** [RateSample::sentinel]. *)
Definition rate_sample_sentinel (sent_time size : Z) : RateSample :=
  mkRateSample 0 sent_time sent_time false sent_time size.

(** ** The delivery-rate estimator *)

Module DeliveryRateEstimator.

Record t := mk {
  delivered : Z;
  delivered_time : Z;
  first_sent_time : Z;
  app_limited : bool;
  app_limited_until : Z
}.

Definition new (now : Z) : t := mk 0 now now false 0.

Definition on_packet_sent (s : t) (pkt_size now : Z) : RateSample * t :=
  let s := if first_sent_time s =? delivered_time s
           then mk (delivered s) (delivered_time s) now (app_limited s) (app_limited_until s)
           else s in
  (mkRateSample (delivered s) (delivered_time s) (first_sent_time s) (app_limited s) now pkt_size, s).

(** [samples.iter().min_by_key(|s| s.sent_time)]: the first of the minima. *)
Definition oldest_sample (samples : list RateSample) : option RateSample :=
  fold_left (fun acc x => match acc with
                          | None => Some x
                          | Some m => if rs_sent_time x <? rs_sent_time m then Some x else Some m
                          end) samples None.

Definition on_packets_acked (s : t) (samples : list RateSample) (acked_bytes now : Z) : option f64 * t :=
  let s := mk (u64_add (delivered s) acked_bytes) now (first_sent_time s) (app_limited s)
              (app_limited_until s) in
  (match oldest_sample samples with
   | None => None
   | Some oldest =>
       if rs_is_app_limited oldest then None
       else
         let delivered_delta := sat_sub (delivered s) (rs_delivered oldest) in
         let ack_elapsed := as_secs_f64 (duration_since now (rs_delivered_time oldest)) in
         let send_elapsed := as_secs_f64 (duration_since now (rs_first_sent_time oldest)) in
         let elapsed := f_max ack_elapsed send_elapsed in
         if f_le elapsed f_zero || (delivered_delta =? 0) then None
         else if negb (existsb (fun x => 0 <? rs_size x) samples) then None
         else Some (f_div (f_of_Z delivered_delta) elapsed)
   end, s).

Definition set_app_limited (s : t) (bytes_in_flight : Z) : t :=
  mk (delivered s) (delivered_time s) (first_sent_time s) true (u64_add (delivered s) bytes_in_flight).

Definition check_app_limited (s : t) : t :=
  if app_limited s && (app_limited_until s <=? delivered s)
  then mk (delivered s) (delivered_time s) (first_sent_time s) false (app_limited_until s)
  else s.

End DeliveryRateEstimator.

(** ** States and the bandwidth filter *)

Inductive BbrState :=
| Startup
| Drain
| ProbeBW (cycle_index : Z)
| ProbeRTT (probe_rtt_start : Z) (min_rtt_expired : bool).

Definition is_probe_rtt (st : BbrState) : bool := match st with ProbeRTT _ _ => true | _ => false end.

Record WindowedMaxFilter := mkFilter { slot0 : f64 * Z; slot1 : f64 * Z; slot2 : f64 * Z }.

Definition filter_new : WindowedMaxFilter := mkFilter (f_zero, 0) (f_zero, 0) (f_zero, 0).
Definition filter_get (w : WindowedMaxFilter) : f64 := (slot0 w).1.

Definition filter_update (w : WindowedMaxFilter) (value : f64) (round_count win_len : Z) : WindowedMaxFilter :=
  if f_le (slot0 w).1 value || (win_len <=? sat_sub round_count (slot2 w).2)
  then mkFilter (value, round_count) (value, round_count) (value, round_count)
  else
    let w := if f_le (slot1 w).1 value
             then mkFilter (slot0 w) (value, round_count) (value, round_count)
             else if f_le (slot2 w).1 value then mkFilter (slot0 w) (slot1 w) (value, round_count)
             else w in
    if win_len <=? sat_sub round_count (slot0 w).2
    then mkFilter (slot1 w) (slot2 w) (value, round_count)
    else if win_len <=? sat_sub round_count (slot1 w).2
    then mkFilter (slot0 w) (slot2 w) (value, round_count)
    else w.

(** ** The controller *)

Module Bbr.

Record t := mk {
  max_datagram : Z;
  state : BbrState;
  btl_bw : f64;
  bw_filter : WindowedMaxFilter;
  rt_prop : Z;
  rt_prop_stamp : Z;
  pacing_gain : f64;
  cwnd_gain : f64;
  congestion_window : Z;
  bytes_in_flight : Z;
  round_count : Z;
  round_start : bool;
  next_round_delivered : Z;
  delivered : Z;
  rate_estimator : DeliveryRateEstimator.t;
  filled_pipe : bool;
  full_bw : f64;
  full_bw_count : Z;
  cycle_stamp : Z;
  cycle_index : Z;
  probe_rtt_done_stamp : option Z;
  probe_rtt_round_done : bool;
  prior_cwnd : Z;
  idle_restart : bool;
  bw_hi : f64;
  bw_lo : f64;
  inflight_hi : Z;
  inflight_lo : Z;
  recovery_start_time : option Z
}.

(** Field assignments. *)

Definition set_state (v : BbrState) (s : t) : t :=
  mk (max_datagram s) v (btl_bw s) (bw_filter s) (rt_prop s) (rt_prop_stamp s) (pacing_gain s)
    (cwnd_gain s) (congestion_window s) (bytes_in_flight s) (round_count s) (round_start s)
    (next_round_delivered s) (delivered s) (rate_estimator s) (filled_pipe s) (full_bw s)
    (full_bw_count s) (cycle_stamp s) (cycle_index s) (probe_rtt_done_stamp s)
    (probe_rtt_round_done s) (prior_cwnd s) (idle_restart s) (bw_hi s) (bw_lo s) (inflight_hi s)
    (inflight_lo s) (recovery_start_time s).
Definition set_btl_bw (v : f64) (s : t) : t :=
  mk (max_datagram s) (state s) v (bw_filter s) (rt_prop s) (rt_prop_stamp s) (pacing_gain s)
    (cwnd_gain s) (congestion_window s) (bytes_in_flight s) (round_count s) (round_start s)
    (next_round_delivered s) (delivered s) (rate_estimator s) (filled_pipe s) (full_bw s)
    (full_bw_count s) (cycle_stamp s) (cycle_index s) (probe_rtt_done_stamp s)
    (probe_rtt_round_done s) (prior_cwnd s) (idle_restart s) (bw_hi s) (bw_lo s) (inflight_hi s)
    (inflight_lo s) (recovery_start_time s).
Definition set_bw_filter (v : WindowedMaxFilter) (s : t) : t :=
  mk (max_datagram s) (state s) (btl_bw s) v (rt_prop s) (rt_prop_stamp s) (pacing_gain s)
    (cwnd_gain s) (congestion_window s) (bytes_in_flight s) (round_count s) (round_start s)
    (next_round_delivered s) (delivered s) (rate_estimator s) (filled_pipe s) (full_bw s)
    (full_bw_count s) (cycle_stamp s) (cycle_index s) (probe_rtt_done_stamp s)
    (probe_rtt_round_done s) (prior_cwnd s) (idle_restart s) (bw_hi s) (bw_lo s) (inflight_hi s)
    (inflight_lo s) (recovery_start_time s).
Definition set_rt_prop (v : Z) (s : t) : t :=
  mk (max_datagram s) (state s) (btl_bw s) (bw_filter s) v (rt_prop_stamp s) (pacing_gain s)
    (cwnd_gain s) (congestion_window s) (bytes_in_flight s) (round_count s) (round_start s)
    (next_round_delivered s) (delivered s) (rate_estimator s) (filled_pipe s) (full_bw s)
    (full_bw_count s) (cycle_stamp s) (cycle_index s) (probe_rtt_done_stamp s)
    (probe_rtt_round_done s) (prior_cwnd s) (idle_restart s) (bw_hi s) (bw_lo s) (inflight_hi s)
    (inflight_lo s) (recovery_start_time s).
Definition set_rt_prop_stamp (v : Z) (s : t) : t :=
  mk (max_datagram s) (state s) (btl_bw s) (bw_filter s) (rt_prop s) v (pacing_gain s)
    (cwnd_gain s) (congestion_window s) (bytes_in_flight s) (round_count s) (round_start s)
    (next_round_delivered s) (delivered s) (rate_estimator s) (filled_pipe s) (full_bw s)
    (full_bw_count s) (cycle_stamp s) (cycle_index s) (probe_rtt_done_stamp s)
    (probe_rtt_round_done s) (prior_cwnd s) (idle_restart s) (bw_hi s) (bw_lo s) (inflight_hi s)
    (inflight_lo s) (recovery_start_time s).
Definition set_pacing_gain (v : f64) (s : t) : t :=
  mk (max_datagram s) (state s) (btl_bw s) (bw_filter s) (rt_prop s) (rt_prop_stamp s) v
    (cwnd_gain s) (congestion_window s) (bytes_in_flight s) (round_count s) (round_start s)
    (next_round_delivered s) (delivered s) (rate_estimator s) (filled_pipe s) (full_bw s)
    (full_bw_count s) (cycle_stamp s) (cycle_index s) (probe_rtt_done_stamp s)
    (probe_rtt_round_done s) (prior_cwnd s) (idle_restart s) (bw_hi s) (bw_lo s) (inflight_hi s)
    (inflight_lo s) (recovery_start_time s).
Definition set_cwnd_gain (v : f64) (s : t) : t :=
  mk (max_datagram s) (state s) (btl_bw s) (bw_filter s) (rt_prop s) (rt_prop_stamp s)
    (pacing_gain s) v (congestion_window s) (bytes_in_flight s) (round_count s) (round_start s)
    (next_round_delivered s) (delivered s) (rate_estimator s) (filled_pipe s) (full_bw s)
    (full_bw_count s) (cycle_stamp s) (cycle_index s) (probe_rtt_done_stamp s)
    (probe_rtt_round_done s) (prior_cwnd s) (idle_restart s) (bw_hi s) (bw_lo s) (inflight_hi s)
    (inflight_lo s) (recovery_start_time s).
Definition set_congestion_window (v : Z) (s : t) : t :=
  mk (max_datagram s) (state s) (btl_bw s) (bw_filter s) (rt_prop s) (rt_prop_stamp s)
    (pacing_gain s) (cwnd_gain s) v (bytes_in_flight s) (round_count s) (round_start s)
    (next_round_delivered s) (delivered s) (rate_estimator s) (filled_pipe s) (full_bw s)
    (full_bw_count s) (cycle_stamp s) (cycle_index s) (probe_rtt_done_stamp s)
    (probe_rtt_round_done s) (prior_cwnd s) (idle_restart s) (bw_hi s) (bw_lo s) (inflight_hi s)
    (inflight_lo s) (recovery_start_time s).
Definition set_bytes_in_flight (v : Z) (s : t) : t :=
  mk (max_datagram s) (state s) (btl_bw s) (bw_filter s) (rt_prop s) (rt_prop_stamp s)
    (pacing_gain s) (cwnd_gain s) (congestion_window s) v (round_count s) (round_start s)
    (next_round_delivered s) (delivered s) (rate_estimator s) (filled_pipe s) (full_bw s)
    (full_bw_count s) (cycle_stamp s) (cycle_index s) (probe_rtt_done_stamp s)
    (probe_rtt_round_done s) (prior_cwnd s) (idle_restart s) (bw_hi s) (bw_lo s) (inflight_hi s)
    (inflight_lo s) (recovery_start_time s).
Definition set_round_count (v : Z) (s : t) : t :=
  mk (max_datagram s) (state s) (btl_bw s) (bw_filter s) (rt_prop s) (rt_prop_stamp s)
    (pacing_gain s) (cwnd_gain s) (congestion_window s) (bytes_in_flight s) v (round_start s)
    (next_round_delivered s) (delivered s) (rate_estimator s) (filled_pipe s) (full_bw s)
    (full_bw_count s) (cycle_stamp s) (cycle_index s) (probe_rtt_done_stamp s)
    (probe_rtt_round_done s) (prior_cwnd s) (idle_restart s) (bw_hi s) (bw_lo s) (inflight_hi s)
    (inflight_lo s) (recovery_start_time s).
Definition set_round_start (v : bool) (s : t) : t :=
  mk (max_datagram s) (state s) (btl_bw s) (bw_filter s) (rt_prop s) (rt_prop_stamp s)
    (pacing_gain s) (cwnd_gain s) (congestion_window s) (bytes_in_flight s) (round_count s) v
    (next_round_delivered s) (delivered s) (rate_estimator s) (filled_pipe s) (full_bw s)
    (full_bw_count s) (cycle_stamp s) (cycle_index s) (probe_rtt_done_stamp s)
    (probe_rtt_round_done s) (prior_cwnd s) (idle_restart s) (bw_hi s) (bw_lo s) (inflight_hi s)
    (inflight_lo s) (recovery_start_time s).
Definition set_next_round_delivered (v : Z) (s : t) : t :=
  mk (max_datagram s) (state s) (btl_bw s) (bw_filter s) (rt_prop s) (rt_prop_stamp s)
    (pacing_gain s) (cwnd_gain s) (congestion_window s) (bytes_in_flight s) (round_count s)
    (round_start s) v (delivered s) (rate_estimator s) (filled_pipe s) (full_bw s)
    (full_bw_count s) (cycle_stamp s) (cycle_index s) (probe_rtt_done_stamp s)
    (probe_rtt_round_done s) (prior_cwnd s) (idle_restart s) (bw_hi s) (bw_lo s) (inflight_hi s)
    (inflight_lo s) (recovery_start_time s).
Definition set_delivered (v : Z) (s : t) : t :=
  mk (max_datagram s) (state s) (btl_bw s) (bw_filter s) (rt_prop s) (rt_prop_stamp s)
    (pacing_gain s) (cwnd_gain s) (congestion_window s) (bytes_in_flight s) (round_count s)
    (round_start s) (next_round_delivered s) v (rate_estimator s) (filled_pipe s) (full_bw s)
    (full_bw_count s) (cycle_stamp s) (cycle_index s) (probe_rtt_done_stamp s)
    (probe_rtt_round_done s) (prior_cwnd s) (idle_restart s) (bw_hi s) (bw_lo s) (inflight_hi s)
    (inflight_lo s) (recovery_start_time s).
Definition set_rate_estimator (v : DeliveryRateEstimator.t) (s : t) : t :=
  mk (max_datagram s) (state s) (btl_bw s) (bw_filter s) (rt_prop s) (rt_prop_stamp s)
    (pacing_gain s) (cwnd_gain s) (congestion_window s) (bytes_in_flight s) (round_count s)
    (round_start s) (next_round_delivered s) (delivered s) v (filled_pipe s) (full_bw s)
    (full_bw_count s) (cycle_stamp s) (cycle_index s) (probe_rtt_done_stamp s)
    (probe_rtt_round_done s) (prior_cwnd s) (idle_restart s) (bw_hi s) (bw_lo s) (inflight_hi s)
    (inflight_lo s) (recovery_start_time s).
Definition set_filled_pipe (v : bool) (s : t) : t :=
  mk (max_datagram s) (state s) (btl_bw s) (bw_filter s) (rt_prop s) (rt_prop_stamp s)
    (pacing_gain s) (cwnd_gain s) (congestion_window s) (bytes_in_flight s) (round_count s)
    (round_start s) (next_round_delivered s) (delivered s) (rate_estimator s) v (full_bw s)
    (full_bw_count s) (cycle_stamp s) (cycle_index s) (probe_rtt_done_stamp s)
    (probe_rtt_round_done s) (prior_cwnd s) (idle_restart s) (bw_hi s) (bw_lo s) (inflight_hi s)
    (inflight_lo s) (recovery_start_time s).
Definition set_full_bw (v : f64) (s : t) : t :=
  mk (max_datagram s) (state s) (btl_bw s) (bw_filter s) (rt_prop s) (rt_prop_stamp s)
    (pacing_gain s) (cwnd_gain s) (congestion_window s) (bytes_in_flight s) (round_count s)
    (round_start s) (next_round_delivered s) (delivered s) (rate_estimator s) (filled_pipe s) v
    (full_bw_count s) (cycle_stamp s) (cycle_index s) (probe_rtt_done_stamp s)
    (probe_rtt_round_done s) (prior_cwnd s) (idle_restart s) (bw_hi s) (bw_lo s) (inflight_hi s)
    (inflight_lo s) (recovery_start_time s).
Definition set_full_bw_count (v : Z) (s : t) : t :=
  mk (max_datagram s) (state s) (btl_bw s) (bw_filter s) (rt_prop s) (rt_prop_stamp s)
    (pacing_gain s) (cwnd_gain s) (congestion_window s) (bytes_in_flight s) (round_count s)
    (round_start s) (next_round_delivered s) (delivered s) (rate_estimator s) (filled_pipe s)
    (full_bw s) v (cycle_stamp s) (cycle_index s) (probe_rtt_done_stamp s) (probe_rtt_round_done
    s) (prior_cwnd s) (idle_restart s) (bw_hi s) (bw_lo s) (inflight_hi s) (inflight_lo s)
    (recovery_start_time s).
Definition set_cycle_stamp (v : Z) (s : t) : t :=
  mk (max_datagram s) (state s) (btl_bw s) (bw_filter s) (rt_prop s) (rt_prop_stamp s)
    (pacing_gain s) (cwnd_gain s) (congestion_window s) (bytes_in_flight s) (round_count s)
    (round_start s) (next_round_delivered s) (delivered s) (rate_estimator s) (filled_pipe s)
    (full_bw s) (full_bw_count s) v (cycle_index s) (probe_rtt_done_stamp s)
    (probe_rtt_round_done s) (prior_cwnd s) (idle_restart s) (bw_hi s) (bw_lo s) (inflight_hi s)
    (inflight_lo s) (recovery_start_time s).
Definition set_cycle_index (v : Z) (s : t) : t :=
  mk (max_datagram s) (state s) (btl_bw s) (bw_filter s) (rt_prop s) (rt_prop_stamp s)
    (pacing_gain s) (cwnd_gain s) (congestion_window s) (bytes_in_flight s) (round_count s)
    (round_start s) (next_round_delivered s) (delivered s) (rate_estimator s) (filled_pipe s)
    (full_bw s) (full_bw_count s) (cycle_stamp s) v (probe_rtt_done_stamp s)
    (probe_rtt_round_done s) (prior_cwnd s) (idle_restart s) (bw_hi s) (bw_lo s) (inflight_hi s)
    (inflight_lo s) (recovery_start_time s).
Definition set_probe_rtt_done_stamp (v : option Z) (s : t) : t :=
  mk (max_datagram s) (state s) (btl_bw s) (bw_filter s) (rt_prop s) (rt_prop_stamp s)
    (pacing_gain s) (cwnd_gain s) (congestion_window s) (bytes_in_flight s) (round_count s)
    (round_start s) (next_round_delivered s) (delivered s) (rate_estimator s) (filled_pipe s)
    (full_bw s) (full_bw_count s) (cycle_stamp s) (cycle_index s) v (probe_rtt_round_done s)
    (prior_cwnd s) (idle_restart s) (bw_hi s) (bw_lo s) (inflight_hi s) (inflight_lo s)
    (recovery_start_time s).
Definition set_probe_rtt_round_done (v : bool) (s : t) : t :=
  mk (max_datagram s) (state s) (btl_bw s) (bw_filter s) (rt_prop s) (rt_prop_stamp s)
    (pacing_gain s) (cwnd_gain s) (congestion_window s) (bytes_in_flight s) (round_count s)
    (round_start s) (next_round_delivered s) (delivered s) (rate_estimator s) (filled_pipe s)
    (full_bw s) (full_bw_count s) (cycle_stamp s) (cycle_index s) (probe_rtt_done_stamp s) v
    (prior_cwnd s) (idle_restart s) (bw_hi s) (bw_lo s) (inflight_hi s) (inflight_lo s)
    (recovery_start_time s).
Definition set_prior_cwnd (v : Z) (s : t) : t :=
  mk (max_datagram s) (state s) (btl_bw s) (bw_filter s) (rt_prop s) (rt_prop_stamp s)
    (pacing_gain s) (cwnd_gain s) (congestion_window s) (bytes_in_flight s) (round_count s)
    (round_start s) (next_round_delivered s) (delivered s) (rate_estimator s) (filled_pipe s)
    (full_bw s) (full_bw_count s) (cycle_stamp s) (cycle_index s) (probe_rtt_done_stamp s)
    (probe_rtt_round_done s) v (idle_restart s) (bw_hi s) (bw_lo s) (inflight_hi s) (inflight_lo
    s) (recovery_start_time s).
Definition set_idle_restart (v : bool) (s : t) : t :=
  mk (max_datagram s) (state s) (btl_bw s) (bw_filter s) (rt_prop s) (rt_prop_stamp s)
    (pacing_gain s) (cwnd_gain s) (congestion_window s) (bytes_in_flight s) (round_count s)
    (round_start s) (next_round_delivered s) (delivered s) (rate_estimator s) (filled_pipe s)
    (full_bw s) (full_bw_count s) (cycle_stamp s) (cycle_index s) (probe_rtt_done_stamp s)
    (probe_rtt_round_done s) (prior_cwnd s) v (bw_hi s) (bw_lo s) (inflight_hi s) (inflight_lo
    s) (recovery_start_time s).
Definition set_bw_hi (v : f64) (s : t) : t :=
  mk (max_datagram s) (state s) (btl_bw s) (bw_filter s) (rt_prop s) (rt_prop_stamp s)
    (pacing_gain s) (cwnd_gain s) (congestion_window s) (bytes_in_flight s) (round_count s)
    (round_start s) (next_round_delivered s) (delivered s) (rate_estimator s) (filled_pipe s)
    (full_bw s) (full_bw_count s) (cycle_stamp s) (cycle_index s) (probe_rtt_done_stamp s)
    (probe_rtt_round_done s) (prior_cwnd s) (idle_restart s) v (bw_lo s) (inflight_hi s)
    (inflight_lo s) (recovery_start_time s).
Definition set_inflight_hi (v : Z) (s : t) : t :=
  mk (max_datagram s) (state s) (btl_bw s) (bw_filter s) (rt_prop s) (rt_prop_stamp s)
    (pacing_gain s) (cwnd_gain s) (congestion_window s) (bytes_in_flight s) (round_count s)
    (round_start s) (next_round_delivered s) (delivered s) (rate_estimator s) (filled_pipe s)
    (full_bw s) (full_bw_count s) (cycle_stamp s) (cycle_index s) (probe_rtt_done_stamp s)
    (probe_rtt_round_done s) (prior_cwnd s) (idle_restart s) (bw_hi s) (bw_lo s) v (inflight_lo
    s) (recovery_start_time s).
Definition set_recovery_start_time (v : option Z) (s : t) : t :=
  mk (max_datagram s) (state s) (btl_bw s) (bw_filter s) (rt_prop s) (rt_prop_stamp s)
    (pacing_gain s) (cwnd_gain s) (congestion_window s) (bytes_in_flight s) (round_count s)
    (round_start s) (next_round_delivered s) (delivered s) (rate_estimator s) (filled_pipe s)
    (full_bw s) (full_bw_count s) (cycle_stamp s) (cycle_index s) (probe_rtt_done_stamp s)
    (probe_rtt_round_done s) (prior_cwnd s) (idle_restart s) (bw_hi s) (bw_lo s) (inflight_hi s)
    (inflight_lo s) v.

Definition BW_WINDOW_ROUNDS : Z := 10.

Definition with_max_datagram (md now : Z) : t :=
  let init_cwnd := initial_window md in
  mk md Startup f_zero filter_new DURATION_MAX now HIGH_GAIN (f_of_Z 2) init_cwnd 0 0 false 0 0
     (DeliveryRateEstimator.new now) false f_zero 0 now 0 None false init_cwnd false f_infinity f_zero
     u64_MAX 0 None.
Definition new (now : Z) : t := with_max_datagram MAX_DATAGRAM_SIZE now.

Definition can_send (s : t) (bytes : Z) : bool :=
  u64_add (bytes_in_flight s) bytes <=? congestion_window s.

Definition pacing_rate (s : t) : option Z :=
  if f_le (btl_bw s) f_zero || negb (f_is_finite (btl_bw s)) then None
  else
    let rate := f_mul (pacing_gain s) (btl_bw s) in
    let rate := f_max (f_min rate (bw_hi s)) (bw_lo s) in
    Some (f_to_u64 (f_max rate f_zero)).

Definition on_packet_sent (s : t) (bytes now : Z) : RateSample * t :=
  let s := set_idle_restart (bytes_in_flight s =? 0) s in
  let s := set_bytes_in_flight (u64_add (bytes_in_flight s) bytes) s in
  let '(sample, re) := DeliveryRateEstimator.on_packet_sent (rate_estimator s) bytes now in
  (sample, set_rate_estimator re s).

Definition update_round_count (s : t) : t :=
  if next_round_delivered s <=? delivered s then
    let s := set_next_round_delivered (delivered s) s in
    let s := set_round_count (u64_add (round_count s) 1) s in
    set_round_start true s
  else set_round_start false s.

Definition check_startup_full_pipe (s : t) : t :=
  if f_le (f_mul (full_bw s) (f_div (f_of_Z 5) (f_of_Z 4))) (btl_bw s) then
    set_full_bw_count 0 (set_full_bw (btl_bw s) s)
  else
    let s := set_full_bw_count (as_u32 (full_bw_count s + 1)) s in
    if 3 <=? full_bw_count s then set_filled_pipe true s else s.

(** The RTT the model uses: [rt_prop], or 100 ms before the first sample. *)
Definition model_rtt (s : t) : Z := if rt_prop s =? DURATION_MAX then 100000000 else rt_prop s.

Definition bdp (s : t) : Z :=
  f_to_u64 (f_max (f_mul (btl_bw s) (as_secs_f64 (model_rtt s))) f_zero).

Definition inflight_limit (s : t) : Z :=
  let model_limit :=
    f_to_u64 (f_max (f_mul (f_mul (cwnd_gain s) (btl_bw s)) (as_secs_f64 (model_rtt s))) f_zero) in
  Z.max (Z.min model_limit (inflight_hi s)) (inflight_lo s).

Definition min_pipe_cwnd (s : t) : Z := u64_mul MIN_PIPE_CWND_PACKETS (max_datagram s).

Definition set_cwnd (s : t) : t :=
  match state s with
  | ProbeRTT _ _ => set_congestion_window (min_pipe_cwnd s) s
  | _ =>
      let target := if f_le (btl_bw s) f_zero then initial_window (max_datagram s)
                    else Z.max (inflight_limit s) (min_pipe_cwnd s) in
      set_congestion_window target s
  end.

Definition enter_drain (s : t) : t :=
  set_cwnd_gain f_one (set_pacing_gain (f_div f_one HIGH_GAIN) (set_state Drain s)).

Definition probe_bw_gain (i : Z) : f64 := nth (Z.to_nat i) PROBE_BW_GAINS f_one.

Definition enter_probe_bw (s : t) (now : Z) : t :=
  let s := set_state (ProbeBW 1) s in
  let s := set_cycle_index 1 s in
  let s := set_pacing_gain (probe_bw_gain 1) s in
  let s := set_cwnd_gain (f_of_Z 2) s in
  set_cycle_stamp now s.

Definition enter_probe_rtt (s : t) (now : Z) : t :=
  let s := set_prior_cwnd (congestion_window s) s in
  let s := set_state (ProbeRTT now true) s in
  let s := set_pacing_gain f_one s in
  let s := set_cwnd_gain f_one s in
  let s := set_probe_rtt_done_stamp None s in
  set_probe_rtt_round_done false s.

Definition enter_startup (s : t) : t :=
  set_cwnd_gain (f_of_Z 2) (set_pacing_gain HIGH_GAIN (set_state Startup s)).

Definition advance_cycle_phase (s : t) (now : Z) : t :=
  if model_rtt s <=? duration_since now (cycle_stamp s) then
    let s := set_cycle_index ((cycle_index s + 1) mod CYCLE_LEN) s in
    let s := set_cycle_stamp now s in
    let s := set_pacing_gain (probe_bw_gain (cycle_index s)) s in
    set_state (ProbeBW (cycle_index s)) s
  else s.

Definition handle_probe_rtt (s : t) (now : Z) : t :=
  let s := set_rt_prop_stamp now s in
  if is_none (probe_rtt_done_stamp s) && (bytes_in_flight s <=? min_pipe_cwnd s) then
    let s := set_probe_rtt_done_stamp (Some (now + PROBE_RTT_DURATION)) s in
    let s := set_probe_rtt_round_done false s in
    set_next_round_delivered (delivered s) s
  else
    match probe_rtt_done_stamp s with
    | None => s
    | Some done =>
        let s := if round_start s then set_probe_rtt_round_done true s else s in
        if probe_rtt_round_done s && (done <=? now) then
          let s := set_rt_prop_stamp now s in
          let s := set_congestion_window (prior_cwnd s) s in
          if negb (filled_pipe s) then enter_startup s else enter_probe_bw s now
        else s
    end.

Definition update_state (s : t) (now : Z) (probe_rtt_trigger : bool) : t :=
  match state s with
  | Startup => if filled_pipe s then enter_drain s else s
  | Drain => if bytes_in_flight s <=? bdp s then enter_probe_bw s now else s
  | ProbeBW _ => if probe_rtt_trigger then enter_probe_rtt s now else advance_cycle_phase s now
  | ProbeRTT _ _ => handle_probe_rtt s now
  end.

(** Step 2 of [on_packets_acked]: the minimum RTT. *)
Definition update_rt_prop (s : t) (sent_times : list Z) (now : Z) : t :=
  match fold_left opt_max sent_times None with
  | None => s
  | Some latest =>
      let rtt_sample := duration_since now latest in
      if rtt_sample <? rt_prop s then set_rt_prop_stamp now (set_rt_prop rtt_sample s) else s
  end.

(** Step 4: the bandwidth filter. *)
Definition update_bw (s : t) (bw_sample : option f64) : t :=
  match bw_sample with
  | Some bw =>
      if f_lt f_zero bw then
        let s := set_bw_filter (filter_update (bw_filter s) bw (round_count s) BW_WINDOW_ROUNDS) s in
        let new_btl_bw := f_min (filter_get (bw_filter s)) (bw_hi s) in
        if f_lt (btl_bw s) new_btl_bw then set_btl_bw new_btl_bw s else s
      else s
  | None => s
  end.

Definition on_packets_acked (s : t) (acked : list (Z * Z * RateSample)) (now : Z) : t :=
  let acked_bytes := foldr (fun a n => a.1.1 + n) 0 acked in
  let samples := map snd acked in
  let s := set_bytes_in_flight (sat_sub (bytes_in_flight s) acked_bytes) s in
  let s := set_delivered (u64_add (delivered s) acked_bytes) s in
  let s := set_rate_estimator (DeliveryRateEstimator.check_app_limited (rate_estimator s)) s in
  let '(bw_sample, re) :=
    DeliveryRateEstimator.on_packets_acked (rate_estimator s) samples acked_bytes now in
  let s := set_rate_estimator re s in
  let s := update_rt_prop s (map (fun a => a.1.2) acked) now in
  let s := update_round_count s in
  let s := update_bw s bw_sample in
  let s := if negb (filled_pipe s) && round_start s then check_startup_full_pipe s else s in
  let probe_rtt_trigger :=
    (RT_PROP_FILTER_LEN <=? duration_since now (rt_prop_stamp s)) && negb (is_probe_rtt (state s)) in
  let s := update_state s now probe_rtt_trigger in
  set_cwnd s.

Definition on_packets_lost (s : t) (lost_bytes largest_lost_sent_time now : Z) : t :=
  let inflight_at_loss := u64_add (bytes_in_flight s) lost_bytes in
  let s := set_bytes_in_flight (sat_sub (bytes_in_flight s) lost_bytes) s in
  let already_in_recovery :=
    match recovery_start_time s with Some r => largest_lost_sent_time <=? r | None => false end in
  if already_in_recovery then s
  else
    let s := set_recovery_start_time (Some now) s in
    let new_inflight_hi := Z.max (u64_mul inflight_at_loss 7 / 10) (bdp s) in
    let s := set_inflight_hi new_inflight_hi s in
    let s := if f_lt f_zero (btl_bw s) then set_bw_hi (btl_bw s) s else s in
    set_cwnd s.

End Bbr.

(** ** Dispatch *)

Inductive CongestionAlgorithm := AlgoNewReno | AlgoCubic | AlgoBbr.

Inductive CongestionController :=
| CCNewReno (nr : NewReno.t)
| CCCubic (c : Cubic.t)
| CCBbr (b : Bbr.t).

Section dispatch.
Context (cbrt : f64 -> f64).

Definition cc_from_config (algo : CongestionAlgorithm) (now : Z) : CongestionController :=
  match algo with
  | AlgoNewReno => CCNewReno NewReno.new
  | AlgoCubic => CCCubic Cubic.new
  | AlgoBbr => CCBbr (Bbr.new now)
  end.

Definition ctl_congestion_window (c : CongestionController) : Z :=
  match c with
  | CCNewReno nr => NewReno.congestion_window nr | CCCubic c => Cubic.cwnd c
  | CCBbr b => Bbr.congestion_window b
  end.

Definition ctl_bytes_in_flight (c : CongestionController) : Z :=
  match c with
  | CCNewReno nr => NewReno.bytes_in_flight nr | CCCubic c => Cubic.bytes_in_flight c
  | CCBbr b => Bbr.bytes_in_flight b
  end.

Definition ctl_can_send (c : CongestionController) (bytes : Z) : bool :=
  match c with
  | CCNewReno nr => NewReno.can_send nr bytes | CCCubic c => Cubic.can_send c bytes
  | CCBbr b => Bbr.can_send b bytes
  end.

Definition ctl_on_packet_sent (c : CongestionController) (bytes now : Z)
    : option RateSample * CongestionController :=
  match c with
  | CCBbr b => let '(sample, b) := Bbr.on_packet_sent b bytes now in (Some sample, CCBbr b)
  | CCNewReno nr => (None, CCNewReno (NewReno.on_packet_sent nr bytes))
  | CCCubic c => (None, CCCubic (Cubic.on_packet_sent c bytes))
  end.

(** The sample of an acknowledged packet, or the sentinel. *)
Definition acked_sample (a : acked_packet) : Z * Z * RateSample :=
  let '(bytes, sent_time, rs) := a in
  (bytes, sent_time, unwrap_or rs (rate_sample_sentinel sent_time bytes)).

Definition ctl_on_packets_acked (c : CongestionController) (acked : list acked_packet) (now : Z)
    : CongestionController :=
  match c with
  | CCBbr b => CCBbr (Bbr.on_packets_acked b (map acked_sample acked) now)
  | CCNewReno nr => CCNewReno (NewReno.on_packets_acked nr (map fst acked))
  | CCCubic c => CCCubic (Cubic.on_packets_acked cbrt c (map fst acked) now)
  end.

Definition ctl_on_packets_lost (c : CongestionController) (lost_bytes largest_lost_sent_time now : Z)
    : CongestionController :=
  match c with
  | CCBbr b => CCBbr (Bbr.on_packets_lost b lost_bytes largest_lost_sent_time now)
  | CCNewReno nr => CCNewReno (NewReno.on_packets_lost nr lost_bytes largest_lost_sent_time now)
  | CCCubic c => CCCubic (Cubic.on_packets_lost c lost_bytes largest_lost_sent_time now)
  end.

Definition ctl_on_persistent_congestion (c : CongestionController) : CongestionController :=
  match c with
  | CCBbr b => CCBbr b
  | CCNewReno nr => CCNewReno (NewReno.on_persistent_congestion nr)
  | CCCubic c => CCCubic (Cubic.on_persistent_congestion c)
  end.

End dispatch.

(** ** Lemmas: BBR satisfies the interface *)

(** The part of the state the window and in-flight accounting depend on. *)
Definition geom (s : Bbr.t) : Z * Z * Z * Z * option Z :=
  (Bbr.max_datagram s, Bbr.bytes_in_flight s, Bbr.inflight_hi s, Bbr.inflight_lo s, Bbr.recovery_start_time s).

Definition bbr_base (s : Bbr.t) : Prop :=
  Bbr.max_datagram s = MAX_DATAGRAM_SIZE /\ is_u64 (Bbr.bytes_in_flight s) /\
  is_u64 (Bbr.inflight_hi s) /\ is_u64 (Bbr.inflight_lo s).

Definition bbr_inv (s : Bbr.t) : Prop :=
  bbr_base s /\ minimum_window MAX_DATAGRAM_SIZE <= Bbr.congestion_window s < 2 ^ 64.

Lemma geom_base s s' : geom s' = geom s -> bbr_base s -> bbr_base s'.
Proof. unfold geom, bbr_base. intros [= -> -> -> -> _]. done. Qed.

Lemma geom_update_rt_prop s l now : geom (Bbr.update_rt_prop s l now) = geom s.
Proof. unfold Bbr.update_rt_prop. by repeat case_match. Qed.

Lemma geom_update_round_count s : geom (Bbr.update_round_count s) = geom s.
Proof. unfold Bbr.update_round_count. by case_match. Qed.

Lemma geom_update_bw s b : geom (Bbr.update_bw s b) = geom s.
Proof. unfold Bbr.update_bw. by repeat case_match. Qed.

Lemma geom_full_pipe s : geom (Bbr.check_startup_full_pipe s) = geom s.
Proof. unfold Bbr.check_startup_full_pipe. by repeat case_match. Qed.

Lemma geom_handle_probe_rtt s now : geom (Bbr.handle_probe_rtt s now) = geom s.
Proof. unfold Bbr.handle_probe_rtt. by repeat case_match. Qed.

Lemma geom_update_state s now b : geom (Bbr.update_state s now b) = geom s.
Proof.
  unfold Bbr.update_state, Bbr.advance_cycle_phase. repeat case_match; try done. apply geom_handle_probe_rtt.
Qed.

Lemma geom_set_cwnd s : geom (Bbr.set_cwnd s) = geom s.
Proof. unfold Bbr.set_cwnd. by repeat case_match. Qed.

(** Recomputing the window gives at least four datagrams, whatever the state. *)
Lemma set_cwnd_inv s : bbr_base s -> bbr_inv (Bbr.set_cwnd s) /\ 4 * MAX_DATAGRAM_SIZE <= Bbr.congestion_window (Bbr.set_cwnd s).
Proof.
  intros Hb. pose proof (geom_base _ _ (geom_set_cwnd s) Hb) as Hb'. destruct Hb as (Hmd & Hf & Hhi & Hlo).
  assert (Hmin : Bbr.min_pipe_cwnd s = 4800).
  { unfold Bbr.min_pipe_cwnd. rewrite Hmd. reflexivity. }
  assert (Hlim : is_u64 (Bbr.inflight_limit s)).
  { unfold Bbr.inflight_limit. set (x := f_to_u64 _). pose proof (f_to_u64_range (f_max (f_mul (f_mul (Bbr.cwnd_gain s) (Bbr.btl_bw s)) (as_secs_f64 (Bbr.model_rtt s))) f_zero)) as Hx.
    fold x in Hx. unfold is_u64 in *. lia. }
  assert (Hw : 4800 <= Bbr.congestion_window (Bbr.set_cwnd s) < 2 ^ 64).
  { unfold is_u64 in *. unfold Bbr.set_cwnd. repeat case_match; simpl; rewrite ?Hmin, ?Hmd; try lia;
      change (initial_window MAX_DATAGRAM_SIZE) with 12000; lia. }
  unfold bbr_inv, minimum_window, MAX_DATAGRAM_SIZE. split; [split; [done | lia] | lia].
Qed.

Lemma geom_in_flight s s' : geom s' = geom s -> Bbr.bytes_in_flight s' = Bbr.bytes_in_flight s.
Proof. unfold geom. by intros [= _ -> _ _ _]. Qed.

Lemma bbr_acked_bytes (acked : list acked_packet) :
  foldr (fun (a : Z * Z * RateSample) n => a.1.1 + n) 0 (map acked_sample acked) = acked_bytes acked.
Proof. induction acked as [| [[b t] r] l IH]; simpl; [done | by rewrite IH]. Qed.

(** [on_packets_acked] as a chain of steps that keep [geom], then the window. *)
Lemma bbr_acked_geom s acked now :
  exists s1, Bbr.on_packets_acked s acked now = Bbr.set_cwnd s1 /\
    geom s1 = geom (Bbr.set_bytes_in_flight
                      (sat_sub (Bbr.bytes_in_flight s) (foldr (fun a n => a.1.1 + n) 0 acked)) s).
Proof.
  unfold Bbr.on_packets_acked. destruct (DeliveryRateEstimator.on_packets_acked _ _ _ _) as [bw re].
  eexists. split; [reflexivity |]. rewrite geom_update_state.
  assert (Hif : forall b x, geom (if b : bool then Bbr.check_startup_full_pipe x else x) = geom x)
    by (intros [] x; [apply geom_full_pipe | done]).
  by rewrite Hif, geom_update_bw, geom_update_round_count, geom_update_rt_prop.
Qed.

#[export] Program Instance bbr_cc : CongestionControl Bbr.t := {|
  cc_window := Bbr.congestion_window;
  cc_in_flight := Bbr.bytes_in_flight;
  cc_recovery := Bbr.recovery_start_time;
  cc_can_send := Bbr.can_send;
  cc_sent s bytes now := let '(sample, s) := Bbr.on_packet_sent s bytes now in (Some sample, s);
  cc_acked s acked now := Bbr.on_packets_acked s (map acked_sample acked) now;
  cc_lost := Bbr.on_packets_lost;
  cc_persistent s := s;
  cc_inv := bbr_inv;
  cc_growth_ok _ _ _ := True
|}.
Next Obligation. intros s [_ ?]. done. Qed.
Next Obligation. intros s [(_ & ? & _) _]. done. Qed.
Next Obligation.
  intros s bytes [(_ & Hf & _) _] H0 Ho. unfold Bbr.can_send, is_u64 in *.
  rewrite u64_add_small by (unfold is_u64; lia). apply Z.leb_le.
Qed.
Next Obligation.
  intros s bytes now [(Hmd & Hf & Hhi & Hlo) Hw] H0 Ho. unfold is_u64 in Hf. unfold Bbr.on_packet_sent.
  destruct (DeliveryRateEstimator.on_packet_sent _ _ _) as [sample re]. simpl.
  rewrite u64_add_small by (unfold is_u64; lia). split; [| done]. split; [| done].
  split; [done |]. split; [| done]. simpl. unfold is_u64. lia.
Qed.
Next Obligation.
  intros s acked now [(Hmd & Hf & Hhi & Hlo) Hw] Hb _.
  destruct (bbr_acked_geom s (map acked_sample acked) now) as (s1 & -> & Hg). rewrite bbr_acked_bytes in Hg.
  assert (Hb1 : bbr_base s1).
  { eapply geom_base; [exact Hg |]. split; [done |]. split; [| done]. simpl.
    apply sat_sub_range; [done | by apply foldr_nonneg]. }
  split; [by apply set_cwnd_inv |].
  rewrite (geom_in_flight _ _ (geom_set_cwnd s1)), (geom_in_flight _ _ Hg). done.
Qed.
Next Obligation.
  intros s bytes t now [(Hmd & Hf & Hhi & Hlo) Hw] H0 Ho. unfold Bbr.on_packets_lost.
  pose proof (sat_sub_range _ bytes Hf H0) as Hf'. simpl.
  destruct (match Bbr.recovery_start_time s with Some r => t <=? r | None => false end) eqn:Er.
  - split_and!; [by split | done | done |]. intros Hr. exfalso. apply Hr. by apply in_recovery_spec.
  - set (s1 := Bbr.set_inflight_hi _ _). set (s2 := if f_lt f_zero (Bbr.btl_bw s) then _ else s1).
    assert (Hhi1 : is_u64 (Bbr.inflight_hi s1)).
    { unfold s1, Bbr.bdp. simpl. set (x := f_max _ _). pose proof (f_to_u64_range x) as Hx.
      unfold is_u64 in *. rewrite (u64_add_small (Bbr.bytes_in_flight s)) by (unfold is_u64; lia).
      rewrite u64_mul_small by (unfold is_u64; lia). split; [lia |]. apply Z.max_lub_lt; [| lia].
      apply Z.div_lt_upper_bound; lia. }
    assert (Hg : geom s2 = geom s1) by (unfold s2; by destruct (f_lt f_zero (Bbr.btl_bw s))).
    assert (Hb2 : bbr_base s2) by (eapply geom_base; [exact Hg |]; split; [exact Hmd |]; split; [exact Hf' |]; by split).
    split_and!; [by apply set_cwnd_inv | | |].
    + by rewrite (geom_in_flight _ _ (geom_set_cwnd s2)), (geom_in_flight _ _ Hg).
    + intros Hr%in_recovery_spec. congruence.
    + intros _. pose proof (geom_set_cwnd s2) as Hg2. rewrite Hg in Hg2. unfold geom in Hg2. by injection Hg2 as _ _ _ _ ->.
Qed.
Next Obligation. done. Qed.

(** ** The dispatch enum satisfies the interface *)

Definition ctl_inv (c : CongestionController) : Prop :=
  match c with CCNewReno x => nr_inv x | CCCubic x => cu_inv x | CCBbr x => bbr_inv x end.

Definition ctl_recovery (c : CongestionController) : option Z :=
  match c with
  | CCNewReno x => NewReno.recovery_start_time x | CCCubic x => Cubic.recovery_start_time x
  | CCBbr x => Bbr.recovery_start_time x
  end.

(** The arithmetic of the controllers is irrelevant to the dispatch. *)
Strategy opaque [Bbr.on_packets_acked Bbr.on_packets_lost Cubic.on_packets_acked Cubic.on_packets_lost].

Section dispatch_laws.
Context (cbrt : f64 -> f64).

Local Instance cubic_cc_here : CongestionControl Cubic.t := cubic_cc cbrt.

Definition ctl_growth_ok (c : CongestionController) (acked : list acked_packet) (now : Z) : Prop :=
  match c with
  | CCNewReno x => cc_growth_ok x acked now | CCCubic x => cc_growth_ok x acked now
  | CCBbr x => cc_growth_ok x acked now
  end.

Lemma ctl_acked_newreno x acked now :
  ctl_on_packets_acked cbrt (CCNewReno x) acked now = CCNewReno (cc_acked x acked now).
Proof. done. Qed.
Lemma ctl_acked_cubic x acked now :
  ctl_on_packets_acked cbrt (CCCubic x) acked now = CCCubic (cc_acked x acked now).
Proof. done. Qed.
Lemma ctl_acked_bbr x acked now :
  ctl_on_packets_acked cbrt (CCBbr x) acked now = CCBbr (cc_acked x acked now).
Proof. done. Qed.
Lemma ctl_in_flight_newreno x : ctl_bytes_in_flight (CCNewReno x) = cc_in_flight x.
Proof. done. Qed.
Lemma ctl_in_flight_cubic x : ctl_bytes_in_flight (CCCubic x) = cc_in_flight x.
Proof. done. Qed.
Lemma ctl_in_flight_bbr x : ctl_bytes_in_flight (CCBbr x) = cc_in_flight x.
Proof. done. Qed.

#[export] Program Instance controller_cc : CongestionControl CongestionController := {|
  cc_window := ctl_congestion_window;
  cc_in_flight := ctl_bytes_in_flight;
  cc_recovery := ctl_recovery;
  cc_can_send := ctl_can_send;
  cc_sent := ctl_on_packet_sent;
  cc_acked := ctl_on_packets_acked cbrt;
  cc_lost := ctl_on_packets_lost;
  cc_persistent := ctl_on_persistent_congestion;
  cc_inv := ctl_inv;
  cc_growth_ok := ctl_growth_ok
|}.
Next Obligation. intros [x | x | x]; exact (cc_inv_window x). Qed.
Next Obligation. intros [x | x | x]; exact (cc_inv_flight x). Qed.
Next Obligation. intros [x | x | x]; exact (cc_can_send_spec x). Qed.
Next Obligation.
  intros [x | x | x] bytes now Hi H0 Ho; [exact (cc_sent_law x bytes now Hi H0 Ho) | exact (cc_sent_law x bytes now Hi H0 Ho) |].
  pose proof (cc_sent_law x bytes now Hi H0 Ho) as H. simpl in *.
  by destruct (Bbr.on_packet_sent x bytes now).
Qed.
Next Obligation.
  intros [x | x | x] acked now Hi Hb Hg.
  - rewrite ctl_acked_newreno, ctl_in_flight_newreno. exact (cc_acked_law x acked now Hi Hb Hg).
  - rewrite ctl_acked_cubic, ctl_in_flight_cubic. exact (cc_acked_law x acked now Hi Hb Hg).
  - rewrite ctl_acked_bbr, ctl_in_flight_bbr. exact (cc_acked_law x acked now Hi Hb Hg).
Qed.
Next Obligation. intros [x | x | x]; exact (cc_lost_law x). Qed.
Next Obligation. intros [x | x | x]; exact (cc_persistent_law x). Qed.

End dispatch_laws.

Strategy transparent [Bbr.on_packets_acked Bbr.on_packets_lost Cubic.on_packets_acked Cubic.on_packets_lost].

(** ** Lemmas: bytes in flight, whatever the window does *)

(** The deductions need no invariant of the controller. *)
Lemma fold_deducts {T A} (step : T -> A -> T) (m : T -> Z) (w : A -> Z) l s :
  (forall s a, m (step s a) = sat_sub (m s) (w a)) -> 0 <= m s -> Forall (fun a => 0 <= w a) l ->
  m (fold_left step l s) = sat_sub (m s) (foldr (fun a n => w a + n) 0 l).
Proof.
  intros Hstep Hm Hw.
  apply (fold_inv step (fun _ _ => True) (fun _ => True) m w); try done.
  revert s Hm. induction l as [| a l IH]; intros s Hm; [done |]. apply Forall_cons in Hw as [Hwa Hw].
  split; [done |]. apply IH; [done |]. rewrite Hstep. unfold sat_sub. lia.
Qed.

Lemma ctl_sent_bytes cc bytes now :
  0 <= ctl_bytes_in_flight cc -> 0 <= bytes -> ctl_bytes_in_flight cc + bytes < 2 ^ 64 ->
  ctl_bytes_in_flight (ctl_on_packet_sent cc bytes now).2 = ctl_bytes_in_flight cc + bytes.
Proof.
  intros H0 Hb Hs. destruct cc as [x | x | x]; simpl in *;
    apply u64_add_small; unfold is_u64; lia.
Qed.

Lemma ctl_lost_bytes cc bytes t now :
  ctl_bytes_in_flight (ctl_on_packets_lost cc bytes t now) = sat_sub (ctl_bytes_in_flight cc) bytes.
Proof.
  destruct cc as [x | x | x]; simpl.
  - unfold NewReno.on_packets_lost, NewReno.on_congestion_event. by case_match.
  - unfold Cubic.on_packets_lost. by case_match.
  - unfold Bbr.on_packets_lost. cbv zeta.
    destruct (match Bbr.recovery_start_time _ with Some r => t <=? r | None => false end); [done |].
    rewrite (geom_in_flight _ _ (geom_set_cwnd _)). by destruct (f_lt f_zero _).
Qed.

Lemma ctl_persistent_bytes cc : ctl_bytes_in_flight (ctl_on_persistent_congestion cc) = ctl_bytes_in_flight cc.
Proof. by destruct cc. Qed.

Lemma ctl_acked_bytes cbrt cc acked now :
  0 <= ctl_bytes_in_flight cc -> Forall (fun a : acked_packet => 0 <= a.1.1) acked ->
  ctl_bytes_in_flight (ctl_on_packets_acked cbrt cc acked now) = sat_sub (ctl_bytes_in_flight cc) (acked_bytes acked).
Proof.
  intros H0 Hb. destruct cc as [x | x | x]; simpl in *.
  - rewrite <- acked_simple_bytes. apply fold_deducts; [| done | by apply acked_simple_Forall].
    intros s [bytes t]. unfold NewReno.ack_one. by case_match.
  - rewrite <- acked_simple_bytes. apply fold_deducts; [| done | by apply acked_simple_Forall].
    intros s [bytes t]. unfold Cubic.ack_one. repeat case_match; try done; unfold Cubic.set_cwnd; simpl;
      by destruct (start_epoch_fields cbrt (Cubic.mk (Cubic.max_datagram s) (Cubic.cwnd s) (Cubic.ssthresh s)
        (sat_sub (Cubic.bytes_in_flight s) bytes) (Cubic.w_max s) (Cubic.epoch_start s) (Cubic.k_secs s) (Cubic.recovery_start_time s)) now) as (_ & _ & ->).
  - destruct (bbr_acked_geom x (map acked_sample acked) now) as (s1 & -> & Hg). rewrite bbr_acked_bytes in Hg.
    by rewrite (geom_in_flight _ _ (geom_set_cwnd s1)), (geom_in_flight _ _ Hg).
Qed.

(** ** Runs of a controller *)

Inductive cc_event :=
| CESent (bytes now : Z)
| CEAcked (acked : list acked_packet) (now : Z)
| CELost (bytes largest_lost_sent_time now : Z)
| CEPersistent.

Section runs.
Context {T : Type} `{CongestionControl T}.

(** The controller and the bytes outstanding according to the sender's books. *)
Definition cc_step (st : T * Z) (ev : cc_event) : T * Z :=
  let '(c, out) := st in
  match ev with
  | CESent bytes now => ((cc_sent c bytes now).2, out + bytes)
  | CEAcked acked now => (cc_acked c acked now, out - acked_bytes acked)
  | CELost bytes t now => (cc_lost c bytes t now, out - bytes)
  | CEPersistent => (cc_persistent c, out)
  end.

(** Only outstanding bytes are acknowledged or lost, and at most [2^59] are ever
    outstanding. *)
Definition cc_event_ok (st : T * Z) (ev : cc_event) : Prop :=
  let '(c, out) := st in
  match ev with
  | CESent bytes _ => 0 <= bytes /\ out + bytes < 2 ^ 59
  | CEAcked acked now =>
      Forall (fun a => 0 <= a.1.1) acked /\ acked_bytes acked <= out /\ cc_growth_ok c acked now
  | CELost bytes _ _ => 0 <= bytes <= out
  | CEPersistent => True
  end.

Lemma cc_step_inv c out ev :
  cc_inv c -> cc_in_flight c = out -> 0 <= out < 2 ^ 59 -> cc_event_ok (c, out) ev ->
  let '(c', out') := cc_step (c, out) ev in cc_inv c' /\ cc_in_flight c' = out' /\ 0 <= out' < 2 ^ 59.
Proof.
  intros Hi Hf Ho Hok. destruct ev as [bytes now | acked now | bytes t now |]; simpl in *.
  - destruct Hok as [H0 Hb]. destruct (cc_sent_law c bytes now Hi H0 ltac:(lia)) as (? & -> & _).
    split; [done |]. lia.
  - destruct Hok as (Hb & Hle & Hg). destruct (cc_acked_law c acked now Hi Hb Hg) as [? ->].
    split; [done |]. pose proof (foldr_nonneg (fun a : acked_packet => a.1.1) acked Hb) as Hn. unfold sat_sub.
    change (0 <= acked_bytes acked) in Hn. lia.
  - destruct (cc_lost_law c bytes t now Hi ltac:(lia) ltac:(lia)) as (? & -> & _).
    split; [done |]. unfold sat_sub. lia.
  - destruct (cc_persistent_law c Hi) as [? ->]. done.
Qed.

Lemma cc_run_inv evs c out :
  cc_inv c -> cc_in_flight c = out -> 0 <= out < 2 ^ 59 -> fold_ok cc_step cc_event_ok (c, out) evs ->
  let '(c', out') := fold_left cc_step evs (c, out) in cc_inv c' /\ cc_in_flight c' = out'.
Proof.
  revert c out. induction evs as [| ev evs IH]; intros c out Hi Hf Ho Hok; [by split |].
  destruct Hok as [Hev Hok]. cbn [fold_left].
  pose proof (cc_step_inv c out ev Hi Hf Ho Hev) as Hs.
  destruct (cc_step (c, out) ev) as [c' out']. destruct Hs as (? & ? & ?). by apply IH.
Qed.

End runs.

Lemma cc_from_config_inv algo now : ctl_inv (cc_from_config algo now).
Proof.
  destruct algo; simpl; unfold nr_inv, cu_inv, bbr_inv, bbr_base, is_u64, minimum_window, MAX_DATAGRAM_SIZE, u64_MAX; simpl;
    unfold MAX_DATAGRAM_SIZE; change (initial_window 1200) with 12000; split_and!; try done; lia.
Qed.

(** *** Round counting *)

Definition rounds (s : Bbr.t) : bool * Z * Z := (Bbr.round_start s, Bbr.round_count s, Bbr.delivered s).

(** The steps after the round update keep the round and either keep the next
    threshold or set it to the bytes delivered. *)
Definition keeps_round (s s' : Bbr.t) : Prop :=
  rounds s' = rounds s /\
  (Bbr.next_round_delivered s <= Bbr.delivered s -> Bbr.next_round_delivered s' <= Bbr.delivered s').

Lemma keeps_update_bw s b : keeps_round s (Bbr.update_bw s b).
Proof. unfold Bbr.update_bw. by repeat case_match. Qed.

Lemma keeps_full_pipe s : keeps_round s (Bbr.check_startup_full_pipe s).
Proof. unfold Bbr.check_startup_full_pipe. by repeat case_match. Qed.

Lemma keeps_update_state s now b : keeps_round s (Bbr.update_state s now b).
Proof.
  unfold Bbr.update_state, Bbr.advance_cycle_phase, Bbr.handle_probe_rtt.
  repeat case_match; try done.
Qed.

Lemma keeps_set_cwnd s : keeps_round s (Bbr.set_cwnd s).
Proof. unfold Bbr.set_cwnd. by repeat case_match. Qed.

Lemma keeps_trans s1 s2 s3 : keeps_round s1 s2 -> keeps_round s2 s3 -> keeps_round s1 s3.
Proof. intros [H1 H2] [H3 H4]. split; [by rewrite H3 | auto]. Qed.

Lemma rounds_rt_prop s l now :
  rounds (Bbr.update_rt_prop s l now) = rounds s /\
  Bbr.next_round_delivered (Bbr.update_rt_prop s l now) = Bbr.next_round_delivered s.
Proof. unfold Bbr.update_rt_prop. by repeat case_match. Qed.

Lemma bbr_acked_rounds s acked now :
  exists s1,
    rounds s1 = (Bbr.round_start s, Bbr.round_count s,
                 u64_add (Bbr.delivered s) (foldr (fun (a : Z * Z * RateSample) n => a.1.1 + n) 0 acked)) /\
    Bbr.next_round_delivered s1 = Bbr.next_round_delivered s /\
    keeps_round (Bbr.update_round_count s1) (Bbr.on_packets_acked s acked now).
Proof.
  unfold Bbr.on_packets_acked. destruct (DeliveryRateEstimator.on_packets_acked _ _ _ _) as [bw re].
  set (s0 := Bbr.set_rate_estimator re _). exists (Bbr.update_rt_prop s0 (map (fun a => a.1.2) acked) now).
  destruct (rounds_rt_prop s0 (map (fun a => a.1.2) acked) now) as [-> ->].
  split; [done |]. split; [done |].
  eapply keeps_trans; [| apply keeps_set_cwnd]. eapply keeps_trans; [| apply keeps_update_state].
  eapply keeps_trans; [apply keeps_update_bw |]. case_match; [apply keeps_full_pipe | done].
Qed.

(** ** Properties *)


Definition demo_cc_events : list cc_event :=
  [CESent 1200 10; CESent 1200 20; CESent 800 30; CEAcked [(1200, 10, None)] 50; CELost 1200 20 60; CEPersistent;
   CEAcked [(800, 30, None)] 90].


(** A congestion controller reduces its window at most once per recovery
    period: after a loss, further losses of packets sent no later than the start
    of the recovery period leave the window unchanged. *)
Theorem single_reduction_per_recovery cbrt (c : CongestionController) bytes t now bytes2 t2 now2 r :
  let H := controller_cc cbrt in
  ctl_inv c -> 0 <= bytes -> ctl_bytes_in_flight c + bytes < 2 ^ 60 -> 0 <= bytes2 < 2 ^ 59 ->
  ctl_bytes_in_flight c < 2 ^ 59 ->
  let c1 := ctl_on_packets_lost c bytes t now in
  ctl_recovery c1 = Some r -> t2 <= r ->
  ctl_congestion_window (ctl_on_packets_lost c1 bytes2 t2 now2) = ctl_congestion_window c1.
Proof.
  intros H Hi H0 Ho H2 Hf c1 Hr Ht.
  pose proof (cc_lost_law (CongestionControl:=H) c bytes t now Hi H0 Ho) as (Hi1 & Hf1 & _).
  fold c1 in Hi1, Hf1. change (ctl_bytes_in_flight c1 = sat_sub (ctl_bytes_in_flight c) bytes) in Hf1.
  pose proof (cc_inv_flight (CongestionControl:=H) c Hi) as Hu. unfold is_u64 in Hu. simpl in Hu.
  apply (cc_lost_law (CongestionControl:=H) c1 bytes2 t2 now2 Hi1 ltac:(lia)).
  - simpl. rewrite Hf1. unfold sat_sub. lia.
  - by exists r.
Qed.

Lemma single_reduction_per_recovery_witness :
  let c1 := ctl_on_packets_lost (cc_from_config AlgoNewReno 0) 0 30 60 in
  ctl_congestion_window (ctl_on_packets_lost c1 0 45 70) = ctl_congestion_window c1.
Proof.
  apply (single_reduction_per_recovery (fun x => x) (cc_from_config AlgoNewReno 0) 0 30 60 0 45 70 60);
    try (vm_compute; congruence); try (vm_compute; split; congruence). apply cc_from_config_inv.
Defined.

(** The BBR round counter does not count round trips: since the threshold for
    the next round is set to the bytes already delivered, every acknowledgement
    batch, however small, starts a new round, so the three-round plateau test and
    the ten-round bandwidth window measure acknowledgements instead. *)
Theorem bbr_round_every_ack s acked now :
  Bbr.next_round_delivered s <= Bbr.delivered s -> 0 <= Bbr.delivered s ->
  Forall (fun a : Z * Z * RateSample => 0 <= a.1.1) acked ->
  Bbr.delivered s + foldr (fun (a : Z * Z * RateSample) n => a.1.1 + n) 0 acked < 2 ^ 64 ->
  let s' := Bbr.on_packets_acked s acked now in
  Bbr.round_start s' = true /\ Bbr.round_count s' = u64_add (Bbr.round_count s) 1 /\
  Bbr.next_round_delivered s' <= Bbr.delivered s'.
Proof.
  intros Hn H0 Ha Ho s'. pose proof (foldr_nonneg (fun a : Z * Z * RateSample => a.1.1) acked Ha) as Hs.
  destruct (bbr_acked_rounds s acked now) as (s1 & Hr1 & Hn1 & Hr & Hnext). fold s' in Hr, Hnext. clearbody s'.
  cbv beta in Hs.
  assert (Hd1 : Bbr.next_round_delivered s1 <= Bbr.delivered s1).
  { unfold rounds in Hr1. injection Hr1 as _ _ ->. rewrite Hn1, u64_add_small by (unfold is_u64; lia). lia. }
  unfold Bbr.update_round_count in Hr, Hnext. rewrite (proj2 (Z.leb_le _ _) Hd1) in Hr, Hnext.
  unfold rounds in Hr1, Hr. simpl in Hr, Hnext. injection Hr1 as _ Ec Ed. injection Hr as -> -> Ed'.
  split; [done |]. split; [by rewrite Ec |]. lia.
Qed.

Lemma bbr_round_every_ack_witness :
  let s' := Bbr.on_packets_acked (Bbr.new 0) [(1, 5, mkRateSample 0 0 0 false 5 1)] 9 in
  Bbr.round_start s' = true /\ Bbr.round_count s' = u64_add (Bbr.round_count (Bbr.new 0)) 1 /\
  Bbr.next_round_delivered s' <= Bbr.delivered s'.
Proof.
  apply (bbr_round_every_ack (Bbr.new 0) [(1, 5, mkRateSample 0 0 0 false 5 1)] 9); try (vm_compute; congruence).
  apply Forall_cons. split; [vm_compute; congruence | apply Forall_nil; exact I].
Defined.

(** With 10000 bytes in flight of which 2000 are lost, the bound is 70% of 12000:
    the lost bytes, still part of [bytes_in_flight], are counted twice. *)
Example bbr_inflight_counts_lost_twice :
  let s := (Bbr.on_packet_sent (Bbr.new 0) 10000 0).2 in
  Bbr.inflight_hi (Bbr.on_packets_lost s 2000 0 5) = 8400.
Proof. vm_compute. reflexivity. Qed.
