(* ===== verification/CidPool.v ===== *)
(** * Connection-ID pools ([oxiquic-transport/src/connection/cid.rs])

    The connection IDs an endpoint issued to its peer ([LocalCidPool]) and those
    the peer issued to it ([PeerCidPool]).  HMAC-SHA256 belongs to a third-party
    crate and is a parameter. *)

From S2P Require Import Prelude CoreTypes.

Record IssuedCid := mkIssued { ic_seq : Z; ic_cid : list Z; ic_token : list Z }.
Record PeerCid := mkPeerCid { pc_seq : Z; pc_cid : list Z; pc_token : list Z }.

#[export] Instance IssuedCid_eq_dec : EqDecision IssuedCid.
Proof. solve_decision. Defined.
#[export] Instance PeerCid_eq_dec : EqDecision PeerCid.
Proof. solve_decision. Defined.

Inductive CidEvent := Register (cid : list Z) | Unregister (cid : list Z) | InitialRetired (dcid : list Z).

#[export] Instance CidEvent_eq_dec : EqDecision CidEvent.
Proof. solve_decision. Defined.

(** ** Local CIDs *)

Module LocalCidPool.

Section pool.
Context (hmac_sha256 : list Z -> list Z -> list Z).

Definition stateless_reset_token (secret cid : list Z) : list Z := take 16 (hmac_sha256 secret cid).

Record t := mk {
  active : list IssuedCid;
  next_seq : Z;
  pending_new : list IssuedCid;
  secret : list Z;
  limit : Z
}.

Definition new (initial_cid secret : list Z) (limit : Z) : t :=
  mk [mkIssued 0 initial_cid (stateless_reset_token secret initial_cid)] 1 [] secret limit.

Definition issue_new_cid (s : t) (raw : list Z) : result OxiQuicError (Z * list Z * t) :=
  if limit s <=? len (active s) then Err EProtocol
  else
    let cid := raw in
    let token := stateless_reset_token (secret s) cid in
    let seq := next_seq s in
    let issued := mkIssued seq cid token in
    Ok (seq, cid, mk (active s ++ [issued]) (u64_add (next_seq s) 1) (pending_new s ++ [issued])
                     (secret s) (limit s)).

(** [position(|c| c.seq == seq)] and [remove(pos)]. *)
Definition handle_peer_retirement (s : t) (seq : Z) : option (list Z) * t :=
  match list_find (fun c => ic_seq c = seq) (active s) with
  | None => (None, s)
  | Some (pos, removed) =>
      (Some (ic_cid removed), mk (delete pos (active s)) (next_seq s) (pending_new s) (secret s) (limit s))
  end.

Definition pop_pending_new (s : t) : option IssuedCid * t :=
  match pending_new s with
  | [] => (None, s)
  | c :: tl => (Some c, mk (active s) (next_seq s) tl (secret s) (limit s))
  end.

Definition push_front_new (s : t) (c : IssuedCid) : t :=
  mk (active s) (next_seq s) (c :: pending_new s) (secret s) (limit s).

Definition has_pending_new (s : t) : bool := match pending_new s with [] => false | _ => true end.
Definition active_count (s : t) : Z := len (active s).
Definition can_issue (s : t) : bool := len (active s) <? limit s.

End pool.

End LocalCidPool.

(** ** Peer CIDs *)

Module PeerCidPool.

Record t := mk {
  active : list PeerCid;
  retire_threshold : Z;
  pending_retire : list Z;
  limit : Z
}.

Definition new (initial_cid : list Z) (limit : Z) : t :=
  mk [mkPeerCid 0 initial_cid (replicate 16 0)] 0 [] limit.

Definition receive_new_cid (s : t) (seq retire_prior_to : Z) (cid token : list Z) : result OxiQuicError t :=
  if seq <? retire_prior_to
  then Err (ETransportError FrameEncodingError (Some FT_NewConnectionId))
  else if existsb (fun c => pc_seq c =? seq) (active s) then Ok s
  else
    let active_after := len (filter (fun c => retire_prior_to <= pc_seq c) (active s)) + 1 in
    if limit s <? active_after
    then Err (ETransportError ConnectionIdLimitError (Some FT_NewConnectionId))
    else
      let s :=
        if retire_threshold s <? retire_prior_to then
          mk (filter (fun c => retire_prior_to <= pc_seq c) (active s)) retire_prior_to
             (pending_retire s ++ map pc_seq (filter (fun c => pc_seq c < retire_prior_to) (active s)))
             (limit s)
        else s in
      Ok (mk (active s ++ [mkPeerCid seq cid token]) (retire_threshold s) (pending_retire s) (limit s)).

Definition pop_pending_retire (s : t) : option Z * t :=
  match pending_retire s with
  | [] => (None, s)
  | q :: tl => (Some q, mk (active s) (retire_threshold s) tl (limit s))
  end.

Definition push_front_retire (s : t) (seq : Z) : t :=
  mk (active s) (retire_threshold s) (seq :: pending_retire s) (limit s).

Definition has_pending_retire (s : t) : bool := match pending_retire s with [] => false | _ => true end.

(** [active.iter().min_by_key(|c| c.seq)]: the first of the minima. *)
Definition preferred (l : list PeerCid) : option PeerCid :=
  fold_left (fun acc x => match acc with
                          | None => Some x
                          | Some m => if pc_seq x <? pc_seq m then Some x else Some m
                          end) l None.

Definition preferred_cid (s : t) : option (list Z) := pc_cid <$> preferred (active s).

Definition matches_stateless_reset (s : t) (token : list Z) : bool :=
  existsb (fun c => bool_decide (pc_token c = token)) (active s).

Definition active_count (s : t) : Z := len (active s).

End PeerCidPool.

(** ** Lemmas: the local pool *)

Lemma sorted_map_delete {A} (f : A -> Z) (l : list A) i :
  StronglySorted Z.lt (map f l) -> StronglySorted Z.lt (map f (delete i l)).
Proof.
  revert i. induction l as [| a l IH]; intros [| i] H; simpl in *; try done;
    apply StronglySorted_inv in H as [Hs Hall]; [done |].
  constructor; [by apply IH |]. rewrite Forall_forall in *. intros x Hx. apply Hall.
  apply list_elem_of_fmap in Hx as (y & -> & Hy). apply list_elem_of_fmap. exists y. split; [done |].
  by eapply list_elem_of_delete_inv.
Qed.

(** In a list with increasing keys, deleting the entry found for a key removes
    exactly the entries with that key. *)
Lemma delete_by_key (l : list IssuedCid) pos c seq :
  StronglySorted Z.lt (map ic_seq l) -> l !! pos = Some c -> ic_seq c = seq ->
  forall x, x ∈ delete pos l <-> x ∈ l /\ ic_seq x <> seq.
Proof.
  revert pos. induction l as [| a l IH]; intros [| pos] Hs Hl Hseq x; simpl in *; try done;
    apply StronglySorted_inv in Hs as [Hs Hall]; rewrite Forall_forall in Hall.
  - injection Hl as ->. rewrite elem_of_cons. split.
    + intros Hx. split; [by right |]. specialize (Hall (ic_seq x)). rewrite list_elem_of_fmap in Hall.
      specialize (Hall ltac:(by exists x)). lia.
    + intros [[-> | ?] ?]; done.
  - rewrite !elem_of_cons, (IH pos Hs Hl Hseq). split.
    + intros [-> | [? ?]]; [| by split; [right |]]. split; [by left |].
      specialize (Hall (ic_seq c)). rewrite list_elem_of_fmap in Hall.
      specialize (Hall ltac:(exists c; split; [done | by eapply list_elem_of_lookup_2])). lia.
    + intros [[-> | ?] ?]; [by left | by right].
Qed.

Section local_lemmas.
Context (hmac : list Z -> list Z -> list Z).

(** Issued IDs are active in increasing sequence order below [next_seq], carry
    the token derived from the secret, and respect the limit. *)
Record local_inv (s : LocalCidPool.t) : Prop := {
  li_next : 0 <= LocalCidPool.next_seq s;
  li_sorted : StronglySorted Z.lt (map ic_seq (LocalCidPool.active s));
  li_below : forall c, c ∈ LocalCidPool.active s -> 0 <= ic_seq c < LocalCidPool.next_seq s;
  li_token : forall c, c ∈ LocalCidPool.active s ->
    ic_token c = LocalCidPool.stateless_reset_token hmac (LocalCidPool.secret s) (ic_cid c);
  li_limit : len (LocalCidPool.active s) <= Z.max 1 (LocalCidPool.limit s)
}.

Lemma local_inv_new cid secret limit : local_inv (LocalCidPool.new hmac cid secret limit).
Proof.
  split; simpl.
  - lia.
  - repeat constructor.
  - intros c ->%list_elem_of_singleton. simpl. lia.
  - by intros c ->%list_elem_of_singleton.
  - lia.
Qed.

Lemma local_inv_issue s raw seq cid s' :
  local_inv s -> LocalCidPool.next_seq s < 2 ^ 62 ->
  LocalCidPool.issue_new_cid hmac s raw = Ok (seq, cid, s') ->
  local_inv s' /\ seq = LocalCidPool.next_seq s /\ LocalCidPool.next_seq s' = seq + 1 /\
  LocalCidPool.active s' = LocalCidPool.active s ++ [mkIssued seq raw (LocalCidPool.stateless_reset_token hmac (LocalCidPool.secret s) raw)].
Proof.
  intros [I0 I1 I2 I3 I4] Hn. unfold LocalCidPool.issue_new_cid.
  destruct (Z.leb_spec (LocalCidPool.limit s) (len (LocalCidPool.active s))); [done |].
  intros [= <- <- <-]. simpl. rewrite u64_add_small by (unfold is_u64; lia).
  split; [| done]. split; simpl; rewrite ?u64_add_small by (unfold is_u64; lia).
  - lia.
  - rewrite map_app. apply StronglySorted_app_2; [| done | repeat constructor].
    intros x y Hx ->%list_elem_of_singleton. apply list_elem_of_fmap in Hx as (c & -> & Hc).
    by apply I2.
  - intros c [Hc | ->%list_elem_of_singleton]%elem_of_app; [specialize (I2 c Hc) | simpl]; lia.
  - intros c [Hc | ->%list_elem_of_singleton]%elem_of_app; [by apply I3 | done].
  - rewrite length_app. simpl. lia.
Qed.

Lemma local_inv_retire s seq :
  local_inv s ->
  let '(r, s') := LocalCidPool.handle_peer_retirement s seq in
  local_inv s' /\ LocalCidPool.next_seq s' = LocalCidPool.next_seq s /\
  (forall c, c ∈ LocalCidPool.active s' <-> c ∈ LocalCidPool.active s /\ ic_seq c <> seq) /\
  match r with
  | Some cid => exists c, c ∈ LocalCidPool.active s /\ ic_seq c = seq /\ ic_cid c = cid
  | None => s' = s
  end.
Proof.
  intros [I0 I1 I2 I3 I4]. unfold LocalCidPool.handle_peer_retirement.
  destruct (list_find (fun c => ic_seq c = seq) (LocalCidPool.active s)) as [[pos c] |] eqn:E.
  - apply list_find_Some in E as (Hl & Hseq & Hbefore).
    assert (Hmem : forall x, x ∈ delete pos (LocalCidPool.active s) <-> x ∈ LocalCidPool.active s /\ ic_seq x <> seq).
    { by eapply delete_by_key. }
    split; [| split; [done | split; [done |]]].
    + split; simpl; [done | by apply sorted_map_delete | | |].
      * intros x Hx. apply I2. by apply Hmem in Hx as [? _].
      * intros x Hx. apply I3. by apply Hmem in Hx as [? _].
      * pose proof (length_delete (LocalCidPool.active s) pos ltac:(by exists c)). lia.
    + exists c. split; [by eapply list_elem_of_lookup_2 | done].
  - apply list_find_None in E. rewrite Forall_forall in E. split; [done |]. split; [done |].
    split; [| done]. intros x. split; [intros Hx; split; [done | by apply E] | by intros [? _]].
Qed.

End local_lemmas.

(** ** Lemmas: the peer pool *)

(** What a well-behaved peer keeps true: sequence numbers are distinct and at
    least the retirement threshold, and their count is within the limit. *)
Record peer_inv (s : PeerCidPool.t) : Prop := {
  pi_nodup : NoDup (map pc_seq (PeerCidPool.active s));
  pi_threshold : forall c, c ∈ PeerCidPool.active s -> PeerCidPool.retire_threshold s <= pc_seq c;
  pi_limit : len (PeerCidPool.active s) <= PeerCidPool.limit s
}.

Lemma filter_all {A} (P : A -> Prop) `{!∀ x, Decision (P x)} (l : list A) : (forall x, x ∈ l -> P x) -> filter P l = l.
Proof.
  induction l as [| a l IH]; intros HP; [done |]. rewrite filter_cons, decide_True by (apply HP, list_elem_of_here).
  f_equal. apply IH. intros x Hx. by apply HP, list_elem_of_further.
Qed.

Lemma filter_none {A} (P : A -> Prop) `{!∀ x, Decision (P x)} (l : list A) : (forall x, x ∈ l -> ~ P x) -> filter P l = [].
Proof.
  induction l as [| a l IH]; intros HP; [done |]. rewrite filter_cons, decide_False by (apply HP, list_elem_of_here).
  apply IH. intros x Hx. by apply HP, list_elem_of_further.
Qed.

(** Under the invariant, a fresh frame whose [retire_prior_to] does not go back is
    stored, and exactly the IDs below it move to the retirement queue. *)
Lemma receive_new_cid_Ok s seq rpt cid token s' :
  peer_inv s -> PeerCidPool.retire_threshold s <= rpt ->
  PeerCidPool.receive_new_cid s seq rpt cid token = Ok s' ->
  (exists c, c ∈ PeerCidPool.active s /\ pc_seq c = seq) /\ s' = s \/
  (forall c, c ∈ PeerCidPool.active s -> pc_seq c <> seq) /\
  PeerCidPool.active s' = filter (fun c => rpt <= pc_seq c) (PeerCidPool.active s) ++ [mkPeerCid seq cid token] /\
  PeerCidPool.pending_retire s' =
    PeerCidPool.pending_retire s ++ map pc_seq (filter (fun c => pc_seq c < rpt) (PeerCidPool.active s)) /\
  PeerCidPool.retire_threshold s' = rpt /\ PeerCidPool.limit s' = PeerCidPool.limit s /\ rpt <= seq /\
  len (PeerCidPool.active s') <= PeerCidPool.limit s.
Proof.
  intros [I1 I2 I3] Hrpt. unfold PeerCidPool.receive_new_cid.
  destruct (Z.ltb_spec seq rpt); [done |].
  destruct (existsb (fun c => pc_seq c =? seq) (PeerCidPool.active s)) eqn:Ed.
  - intros [= <-]. left. split; [| done]. apply existsb_exists in Ed as (c & Hc & Hs).
    exists c. split; [by apply list_elem_of_In | by apply Z.eqb_eq].
  - destruct (Z.ltb_spec (PeerCidPool.limit s)
      (len (filter (fun c => rpt <= pc_seq c) (PeerCidPool.active s)) + 1)); [done |].
    intros [= <-]. right. split.
    { intros c Hc E. assert (Hx : existsb (fun c => pc_seq c =? seq) (PeerCidPool.active s) = true); [| congruence].
      apply existsb_exists. exists c. split; [by apply list_elem_of_In | by apply Z.eqb_eq]. }
    destruct (Z.ltb_spec (PeerCidPool.retire_threshold s) rpt); simpl.
    + rewrite length_app. simpl. split_and!; try done; lia.
    + assert (rpt = PeerCidPool.retire_threshold s) as -> by lia.
      rewrite filter_all in * by done. rewrite filter_none, app_nil_r by (intros c Hc; specialize (I2 c Hc); lia).
      rewrite length_app. simpl. split_and!; try done; lia.
Qed.

Lemma peer_inv_receive s seq rpt cid token s' :
  peer_inv s -> PeerCidPool.retire_threshold s <= rpt ->
  PeerCidPool.receive_new_cid s seq rpt cid token = Ok s' -> peer_inv s'.
Proof.
  intros Hi Hrpt Hr. destruct (receive_new_cid_Ok _ _ _ _ _ _ Hi Hrpt Hr)
    as [[_ ->] | (Hfresh & Ha & _ & Ht & Hl & Hle & Hc)]; [done |].
  destruct Hi as [I1 I2 I3]. split; [| | by rewrite Hl].
  - rewrite Ha, map_app. apply NoDup_app. split; [| split; [| apply NoDup_singleton]].
    + clear - I1. induction (PeerCidPool.active s) as [| c l IH]; [constructor |].
      simpl in I1. apply NoDup_cons in I1 as [Hn I1]. rewrite filter_cons. case_decide; [| by apply IH].
      simpl. constructor; [| by apply IH]. intros Hx. apply Hn.
      apply list_elem_of_fmap in Hx as (y & -> & Hy). apply list_elem_of_filter in Hy as [_ Hy].
      apply list_elem_of_fmap. by exists y.
    + intros x Hx ->%list_elem_of_singleton. simpl in Hx. apply list_elem_of_fmap in Hx as (c & Hseq & Hc').
      apply list_elem_of_filter in Hc' as [_ Hc']. by apply (Hfresh c).
  - intros c. rewrite Ha, Ht. intros [Hc' | ->%list_elem_of_singleton]%elem_of_app; [| done].
    by apply list_elem_of_filter in Hc' as [? _].
Qed.

(** ** Properties *)

(** A run of the local pool: issuing from random bytes and retirements by the
    peer, with the log of sequence numbers handed out. *)
Inductive local_reach (hmac : list Z -> list Z -> list Z) : list Z -> LocalCidPool.t -> Prop :=
| lr_new cid secret limit : local_reach hmac [0] (LocalCidPool.new hmac cid secret limit)
| lr_issue log s raw seq cid s' :
    local_reach hmac log s -> LocalCidPool.next_seq s < 2 ^ 62 ->
    LocalCidPool.issue_new_cid hmac s raw = Ok (seq, cid, s') -> local_reach hmac (log ++ [seq]) s'
| lr_retire log s seq :
    local_reach hmac log s -> local_reach hmac log (LocalCidPool.handle_peer_retirement s seq).2
| lr_pop log s : local_reach hmac log s -> local_reach hmac log (LocalCidPool.pop_pending_new s).2.

(** The pool of locally issued connection IDs is sound for every hash
    function: over any run of issuing, retirement and transmission, the numbers
    handed out are 0, 1, 2, ... without reuse, the active IDs are distinct and a
    subset of them, each active ID carries the reset token derived from the
    secret, and the number active never exceeds the advertised limit (or the one
    initial ID). *)
Theorem local_cid_pool_sound hmac log s :
  local_reach hmac log s ->
  log = map Z.of_nat (seq 0 (length log)) /\ LocalCidPool.next_seq s = len log /\
  StronglySorted Z.lt (map ic_seq (LocalCidPool.active s)) /\
  (forall c, c ∈ LocalCidPool.active s -> ic_seq c ∈ log /\
     ic_token c = LocalCidPool.stateless_reset_token hmac (LocalCidPool.secret s) (ic_cid c)) /\
  LocalCidPool.active_count s <= Z.max 1 (LocalCidPool.limit s).
Proof.
  intros Hr.
  assert (H : local_inv hmac s /\ log = map Z.of_nat (seq 0 (length log)) /\ LocalCidPool.next_seq s = len log).
  { induction Hr as [cid secret limit | log s raw q cid s' _ (IH & Hlog & Hn) Hlt Hi | log s q _ (IH & Hlog & Hn)
      | log s _ (IH & Hlog & Hn)].
    - split; [apply local_inv_new | done].
    - destruct (local_inv_issue _ _ _ _ _ _ IH Hlt Hi) as (IH' & -> & Hn' & _).
      split; [done |]. rewrite length_app. simpl. split; [| rewrite Hn', Hn; lia].
      rewrite seq_app, map_app, <- Hlog. simpl. by rewrite Hn.
    - pose proof (local_inv_retire hmac s q IH) as Hret.
      destruct (LocalCidPool.handle_peer_retirement s q) as [r s']. destruct Hret as (? & Hn' & _). simpl.
      by rewrite Hn'.
    - unfold LocalCidPool.pop_pending_new. destruct (LocalCidPool.pending_new s); [done |]. simpl.
      destruct IH as [I0 I1 I2 I3 I4]. by split. }
  destruct H as ([I0 I1 I2 I3 I4] & Hlog & Hn). split_and!; [done | done | done | | done].
  intros c Hc. split; [| by apply I3]. rewrite Hlog. specialize (I2 c Hc).
  apply list_elem_of_fmap. exists (Z.to_nat (ic_seq c)). split; [lia |]. apply elem_of_seq. lia.
Qed.

Definition toy_hmac (key msg : list Z) : list Z := key ++ msg ++ replicate 16 0.

Definition demo_local_pool : LocalCidPool.t :=
  LocalCidPool.mk [mkIssued 1 [9; 9] (LocalCidPool.stateless_reset_token toy_hmac [5] [9; 9])] 2
    [mkIssued 1 [9; 9] (LocalCidPool.stateless_reset_token toy_hmac [5] [9; 9])] [5] 2.

Lemma local_cid_pool_sound_witness :
  [0; 1] = map Z.of_nat (seq 0 (length [0; 1])) /\ LocalCidPool.next_seq demo_local_pool = len [0; 1] /\
  StronglySorted Z.lt (map ic_seq (LocalCidPool.active demo_local_pool)) /\
  (forall c, c ∈ LocalCidPool.active demo_local_pool -> ic_seq c ∈ [0; 1] /\
     ic_token c = LocalCidPool.stateless_reset_token toy_hmac (LocalCidPool.secret demo_local_pool) (ic_cid c)) /\
  LocalCidPool.active_count demo_local_pool <= Z.max 1 (LocalCidPool.limit demo_local_pool).
Proof.
  apply (local_cid_pool_sound toy_hmac [0; 1] demo_local_pool).
  set (s1 := LocalCidPool.mk [mkIssued 0 [7] (LocalCidPool.stateless_reset_token toy_hmac [5] [7]);
                              mkIssued 1 [9; 9] (LocalCidPool.stateless_reset_token toy_hmac [5] [9; 9])] 2
               [mkIssued 1 [9; 9] (LocalCidPool.stateless_reset_token toy_hmac [5] [9; 9])] [5] 2).
  apply (lr_retire toy_hmac [0; 1] s1 0).
  apply (lr_issue toy_hmac [0] (LocalCidPool.new toy_hmac [7] [5] 2) [9; 9] 1 [9; 9] s1);
    [apply lr_new | vm_compute; reflexivity | reflexivity].
Defined.

(** The pool of peer-issued connection IDs against a peer whose
    [retire_prior_to] never goes back: processing a NEW_CONNECTION_ID keeps the
    sequence numbers distinct, at or above the threshold and within the limit; a
    repeated sequence number changes nothing, and otherwise the new ID is stored
    and exactly the IDs below [retire_prior_to] are queued for retirement, each
    once. *)
Theorem peer_cid_pool_sound s seq rpt cid token s' :
  peer_inv s -> PeerCidPool.retire_threshold s <= rpt ->
  PeerCidPool.receive_new_cid s seq rpt cid token = Ok s' ->
  peer_inv s' /\
  (s' = s \/
   PeerCidPool.active s' = filter (fun c => rpt <= pc_seq c) (PeerCidPool.active s) ++ [mkPeerCid seq cid token] /\
   PeerCidPool.pending_retire s' =
     PeerCidPool.pending_retire s ++ map pc_seq (filter (fun c => pc_seq c < rpt) (PeerCidPool.active s))).
Proof.
  intros Hi Hrpt Hr. split; [by eapply peer_inv_receive |].
  destruct (receive_new_cid_Ok _ _ _ _ _ _ Hi Hrpt Hr) as [[_ ->] | (_ & Ha & Hp & _)]; [by left | by right].
Qed.

Definition demo_peer_pool : PeerCidPool.t := PeerCidPool.mk [mkPeerCid 0 [1] []; mkPeerCid 1 [2] []] 0 [] 2.
Definition demo_peer_pool' : PeerCidPool.t := PeerCidPool.mk [mkPeerCid 1 [2] []; mkPeerCid 2 [3] []] 1 [0] 2.

Lemma peer_cid_pool_sound_witness :
  peer_inv demo_peer_pool' /\
  (demo_peer_pool' = demo_peer_pool \/
   PeerCidPool.active demo_peer_pool' =
     filter (fun c => 1 <= pc_seq c) (PeerCidPool.active demo_peer_pool) ++ [mkPeerCid 2 [3] []] /\
   PeerCidPool.pending_retire demo_peer_pool' =
     PeerCidPool.pending_retire demo_peer_pool ++
     map pc_seq (filter (fun c => pc_seq c < 1) (PeerCidPool.active demo_peer_pool))).
Proof.
  apply (peer_cid_pool_sound demo_peer_pool 2 1 [3] [] demo_peer_pool').
  - split; [eapply bool_decide_unpack; vm_compute; exact I | | vm_compute; congruence].
    intros c [-> | ->%list_elem_of_singleton]%elem_of_cons; simpl; lia.
  - vm_compute. congruence.
  - reflexivity.
Defined.

(** A reordered NEW_CONNECTION_ID defeats the limit: with a limit of two, the
    frames (5, retire 5), (3, retire 0) and (6, retire 4) are all accepted and
    leave three active IDs, among them one below the threshold. *)
Theorem peer_cid_limit_bypass :
  exists s1 s2 s3,
    PeerCidPool.receive_new_cid (PeerCidPool.new [0] 2) 5 5 [5] [] = Ok s1 /\
    PeerCidPool.receive_new_cid s1 3 0 [3] [] = Ok s2 /\
    PeerCidPool.receive_new_cid s2 6 4 [6] [] = Ok s3 /\
    PeerCidPool.active_count s3 = 3 /\ PeerCidPool.limit s3 = 2 /\
    PeerCidPool.retire_threshold s3 = 5 /\ 3 ∈ map pc_seq (PeerCidPool.active s3).
Proof.
  do 3 eexists. split; [reflexivity |]. split; [reflexivity |]. split; [reflexivity |].
  split_and!; try reflexivity. eapply bool_decide_unpack. vm_compute. exact I.
Qed.

(** A fresh connection accepts an all-zero stateless reset: the peer's initial
    connection ID is stored with a zero token, so a forged packet that ends in
    sixteen zero bytes matches, although the peer never issued that token. *)
Theorem zero_reset_token_matches cid limit :
  PeerCidPool.matches_stateless_reset (PeerCidPool.new cid limit) (replicate 16 0) = true.
Proof. reflexivity. Qed.
