(* ===== verification/Packet.v ===== *)
(** * Packets: coding and protection (packet.rs)

    Long- and short-header packet builders and parsers, the header-protection and
    AEAD steps around them, and the unprotected Version Negotiation and Retry
    packets.

    The ciphers live outside the repository ([rustls::quic::PacketKey],
    [HeaderProtectionKey] and [aes_gcm]): they are the operations of the class
    [PacketCrypto].  What the code relies on is stated by [aead_pair] and
    [hp_pair]: opening what the other side sealed gives the plaintext back, and
    header protection only touches the low bits of the first byte and the
    packet-number bytes.  The buffers are mutated in place, so every parser also
    returns the datagram as it leaves it, on the error paths too. *)

From stdpp Require Import strings.
From S2P Require Import Prelude CoreTypes Coding.

(** ** The cipher interface *)

Class PacketCrypto (HeaderKey PacketKey : Type) := {
  (** [PacketKey::tag_len] *)
  tag_len : PacketKey -> Z;
  (** [PacketKey::encrypt_in_place(pn, header, payload)]: the sealed payload and the tag. *)
  pk_encrypt : PacketKey -> Z -> list Z -> list Z -> option (list Z * list Z);
  (** [PacketKey::decrypt_in_place(pn, header, payload)]: the buffer it leaves, and the plaintext. *)
  pk_decrypt : PacketKey -> Z -> list Z -> list Z -> list Z * option (list Z);
  (** [HeaderProtectionKey::sample_len] *)
  sample_len : HeaderKey -> Z;
  (** [HeaderProtectionKey::{encrypt,decrypt}_in_place(sample, first, packet_number)] *)
  hp_encrypt : HeaderKey -> list Z -> Z -> list Z -> option (Z * list Z);
  hp_decrypt : HeaderKey -> list Z -> Z -> list Z -> option (Z * list Z)
}.

(** ** Errors and parameters *)

Inductive PacketError :=
| PE_Truncated
| PE_Malformed (field : string)
| PE_Crypto
| PE_Version (v : Z).

#[export] Instance PacketError_eq_dec : EqDecision PacketError.
Proof. solve_decision. Defined.

(** [impl From<CodecError> for PacketError]. *)
Definition packet_error_from_codec {A} (m : result CodecError A) : result PacketError A :=
  map_err (fun _ => PE_Truncated) m.

Definition HP_SAMPLE_OFFSET : nat := 4.

Inductive LongType := LT_Initial | LT_ZeroRtt | LT_Handshake.

#[export] Instance LongType_eq_dec : EqDecision LongType.
Proof. solve_decision. Defined.

Definition type_bits (t : LongType) : Z :=
  match t with LT_Initial => 0 | LT_ZeroRtt => 1 | LT_Handshake => 2 end.

Record BuildLong := mkBuildLong {
  bl_long_type : LongType;
  bl_version : Z;
  bl_dcid : list Z;
  bl_scid : list Z;
  bl_token : list Z;
  bl_packet_number : Z;
  bl_largest_acked : option Z
}.

Record BuildShort := mkBuildShort {
  bs_dcid : list Z;
  bs_packet_number : Z;
  bs_largest_acked : option Z;
  bs_key_phase : bool
}.

Record PnLayout := mkPnLayout { pl_start : nat; pl_pn_offset : nat; pl_pn_len : nat; pl_packet_number : Z }.

Record ParsedPacket := mkParsed {
  pp_packet_type : PacketType;
  pp_scid : list Z;
  pp_dcid : list Z;
  pp_packet_number : Z;
  pp_payload : list Z;
  pp_consumed : nat;
  pp_key_phase : bool
}.

Record LongHeaderLayout := mkLongLayout {
  lh_packet_type : PacketType;
  lh_version : Z;
  lh_scid : list Z;
  lh_dcid : list Z;
  lh_pn_offset : nat;
  lh_packet_end : nat
}.

(** [u32::to_be_bytes]. *)
Definition be32 (v : Z) : list Z :=
  [as_u8 (Z.shiftr v 24); as_u8 (Z.shiftr v 16); as_u8 (Z.shiftr v 8); as_u8 v].

(** [slice.get(a..b)], and writing a sub-slice back. *)
Definition get_range (l : list Z) (a b : nat) : option (list Z) :=
  if (a <=? b)%nat && (b <=? length l)%nat then Some (slice l a b) else None.
Definition write_range (l : list Z) (a : nat) (xs : list Z) : list Z :=
  take a l ++ xs ++ drop (a + length xs) l.

Section protected.
Context {HeaderKey PacketKey : Type} `{PC : PacketCrypto HeaderKey PacketKey}.

(** ** Building *)

Definition finish_packet (datagram : list Z) (layout : PnLayout) (payload : list Z)
    (packet_key : PacketKey) (header_key : HeaderKey) : list Z * result PacketError unit :=
  let start := pl_start layout in
  let pn_offset := pl_pn_offset layout in
  let pn_len := pl_pn_len layout in
  let sl := Z.to_nat (sample_len header_key) in
  let min_plaintext := (HP_SAMPLE_OFFSET + sl - (pn_len + 16))%nat in
  let effective_payload :=
    if (length payload <? min_plaintext)%nat
    then payload ++ replicate (min_plaintext - length payload) 0
    else payload in
  let header := drop start datagram in
  match pk_encrypt packet_key (pl_packet_number layout) header effective_payload with
  | None => (datagram, Err PE_Crypto)
  | Some (sealed, tag) =>
      let datagram := (datagram ++ sealed) ++ tag in
      let sample_start := (pn_offset + HP_SAMPLE_OFFSET)%nat in
      match get_range datagram sample_start (sample_start + sl) with
      | None => (datagram, Err PE_Crypto)
      | Some sample =>
          match hp_encrypt header_key sample (nth start datagram 0)
                  (slice datagram pn_offset (pn_offset + pn_len)) with
          | None => (datagram, Err PE_Crypto)
          | Some (first_byte, pn_bytes) =>
              (write_range (write_range datagram start [first_byte]) pn_offset pn_bytes, Ok tt)
          end
      end
  end.

Definition build_long_packet (datagram : list Z) (params : BuildLong) (payload : list Z)
    (packet_key : PacketKey) (header_key : HeaderKey) : list Z * result PacketError Z :=
  let start := length datagram in
  let pn_len := packet_number_len (bl_packet_number params) (bl_largest_acked params) in
  let first := Z.lor (Z.lor (Z.lor 0x80 0x40) (Z.shiftl (type_bits (bl_long_type params)) 4)) (as_u8 pn_len - 1) in
  let datagram := datagram ++ [first] in
  let datagram := datagram ++ be32 (bl_version params) in
  let datagram := datagram ++ [as_u8 (len (bl_dcid params))] in
  let datagram := datagram ++ bl_dcid params in
  let datagram := datagram ++ [as_u8 (len (bl_scid params))] in
  let datagram := datagram ++ bl_scid params in
  let datagram :=
    if decide (bl_long_type params = LT_Initial)
    then put_varint datagram (len (bl_token params)) ++ bl_token params
    else datagram in
  let length_ := pn_len + len payload + tag_len packet_key in
  let datagram := put_varint datagram length_ in
  let pn_offset := length datagram in
  let datagram := encode_packet_number datagram (bl_packet_number params) pn_len in
  let layout := mkPnLayout start pn_offset (Z.to_nat pn_len) (bl_packet_number params) in
  match finish_packet datagram layout payload packet_key header_key with
  | (datagram, Err e) => (datagram, Err e)
  | (datagram, Ok _) => (datagram, Ok (len datagram - Z.of_nat start))
  end.

Definition build_short_packet (datagram : list Z) (params : BuildShort) (payload : list Z)
    (packet_key : PacketKey) (header_key : HeaderKey) : list Z * result PacketError Z :=
  let start := length datagram in
  let pn_len := packet_number_len (bs_packet_number params) (bs_largest_acked params) in
  let key_phase_bit := if bs_key_phase params then 0x04 else 0x00 in
  let first := Z.lor (Z.lor 0x40 key_phase_bit) (as_u8 pn_len - 1) in
  let datagram := datagram ++ [first] in
  let datagram := datagram ++ bs_dcid params in
  let pn_offset := length datagram in
  let datagram := encode_packet_number datagram (bs_packet_number params) pn_len in
  let layout := mkPnLayout start pn_offset (Z.to_nat pn_len) (bs_packet_number params) in
  match finish_packet datagram layout payload packet_key header_key with
  | (datagram, Err e) => (datagram, Err e)
  | (datagram, Ok _) => (datagram, Ok (len datagram - Z.of_nat start))
  end.

(** ** Parsing *)

Definition parse_long_header (datagram : list Z) (offset : nat) (first : Z)
    : result PacketError LongHeaderLayout :=
  let buf := buf_new (drop offset datagram) in
  '(_, buf) ← packet_error_from_codec (get_u8 buf);
  '(version, buf) ← packet_error_from_codec (get_u32 buf);
  '(dcid_len, buf) ← packet_error_from_codec (get_u8 buf);
  if 20 <? dcid_len then Err (PE_Malformed "dcid too long") else
  '(dcid, buf) ← packet_error_from_codec (get_bytes dcid_len buf);
  '(scid_len, buf) ← packet_error_from_codec (get_u8 buf);
  if 20 <? scid_len then Err (PE_Malformed "scid too long") else
  '(scid, buf) ← packet_error_from_codec (get_bytes scid_len buf);
  let packet_type := packet_type_from_first_byte_and_version first version in
  buf ← (if decide (packet_type = PT_Initial) then
           '(token_len, buf) ← packet_error_from_codec (get_varint buf);
           '(_, buf) ← packet_error_from_codec (get_bytes token_len buf);
           Ok buf
         else Ok buf);
  '(length_, buf) ← packet_error_from_codec (get_varint buf);
  let pn_offset := Z.of_nat offset + position buf in
  packet_end ← ok_or (checked_add pn_offset length_) PE_Truncated;
  if len datagram <? packet_end then Err PE_Truncated else
  Ok (mkLongLayout packet_type version scid dcid (Z.to_nat pn_offset) (Z.to_nat packet_end)).

Definition unprotect_and_decrypt (datagram : list Z) (packet_start pn_offset packet_end : nat)
    (largest_pn : option Z) (packet_key : PacketKey) (header_key : HeaderKey)
    : list Z * result PacketError (Z * list Z * Z) :=
  let sample_start := (pn_offset + HP_SAMPLE_OFFSET)%nat in
  let sl := Z.to_nat (sample_len header_key) in
  if (packet_end <? sample_start + sl)%nat then (datagram, Err PE_Truncated) else
  let sample := slice datagram sample_start (sample_start + sl) in
  match take pn_offset datagram !! packet_start with
  | None => (datagram, Err (PE_Malformed "missing first byte"))
  | Some first_byte =>
      let pn_field_len := Nat.min (length (drop pn_offset datagram)) 4 in
      match hp_decrypt header_key sample first_byte (take pn_field_len (drop pn_offset datagram)) with
      | None => (datagram, Err PE_Crypto)
      | Some (deprotected_first, pn_field) =>
          let datagram := write_range (write_range datagram packet_start [deprotected_first]) pn_offset pn_field in
          let pn_len := Z.to_nat (Z.land deprotected_first 0x03 + 1) in
          let truncated := read_truncated (slice datagram pn_offset (pn_offset + pn_len)) in
          let packet_number := decode_packet_number largest_pn truncated (Z.of_nat pn_len) in
          let header := slice datagram packet_start (pn_offset + pn_len) in
          let payload_start := (pn_offset + pn_len)%nat in
          match get_range datagram payload_start packet_end with
          | None => (datagram, Err PE_Truncated)
          | Some payload =>
              let '(payload', plaintext) := pk_decrypt packet_key packet_number header payload in
              let datagram := write_range datagram payload_start payload' in
              match plaintext with
              | None => (datagram, Err PE_Crypto)
              | Some plaintext => (datagram, Ok (packet_number, plaintext, deprotected_first))
              end
          end
      end
  end.

Definition parse_long_packet (datagram : list Z) (offset : nat) (expected_version : Z)
    (largest_pn : option Z) (packet_key : PacketKey) (header_key : HeaderKey)
    : list Z * result PacketError ParsedPacket :=
  match datagram !! offset with
  | None => (datagram, Err PE_Truncated)
  | Some first =>
      match parse_long_header datagram offset first with
      | Err e => (datagram, Err e)
      | Ok layout =>
          if negb (lh_version layout =? expected_version) then (datagram, Err (PE_Version (lh_version layout))) else
          match unprotect_and_decrypt datagram offset (lh_pn_offset layout) (lh_packet_end layout)
                  largest_pn packet_key header_key with
          | (datagram, Err e) => (datagram, Err e)
          | (datagram, Ok (packet_number, payload, _)) =>
              (datagram, Ok (mkParsed (lh_packet_type layout) (lh_scid layout) (lh_dcid layout)
                               packet_number payload (lh_packet_end layout) false))
          end
      end
  end.

Definition parse_short_packet (datagram : list Z) (offset dcid_len : nat)
    (largest_pn : option Z) (packet_key : PacketKey) (header_key : HeaderKey)
    : list Z * result PacketError ParsedPacket :=
  if (length datagram <=? offset)%nat then (datagram, Err PE_Truncated) else
  match get_range datagram (offset + 1) (offset + 1 + dcid_len) with
  | None => (datagram, Err PE_Truncated)
  | Some dcid =>
      let pn_offset := (offset + 1 + dcid_len)%nat in
      let packet_end := length datagram in
      match unprotect_and_decrypt datagram offset pn_offset packet_end largest_pn packet_key header_key with
      | (datagram, Err e) => (datagram, Err e)
      | (datagram, Ok (packet_number, payload, deprotected_first)) =>
          let key_phase := negb (Z.land deprotected_first 0x04 =? 0) in
          (datagram, Ok (mkParsed PT_Short [] dcid packet_number payload packet_end key_phase))
      end
  end.

Definition strip_short_header_protection (datagram : list Z) (offset dcid_len : nat) (header_key : HeaderKey)
    : list Z * result PacketError (bool * Z) :=
  if (length datagram <=? offset)%nat then (datagram, Err PE_Truncated) else
  let pn_offset := (offset + 1 + dcid_len)%nat in
  let packet_end := length datagram in
  let sample_start := (pn_offset + HP_SAMPLE_OFFSET)%nat in
  let sl := Z.to_nat (sample_len header_key) in
  if (packet_end <? sample_start + sl)%nat then (datagram, Err PE_Truncated) else
  let sample := slice datagram sample_start (sample_start + sl) in
  match take pn_offset datagram !! offset with
  | None => (datagram, Err (PE_Malformed "missing first byte"))
  | Some first_byte =>
      let pn_field_len := Nat.min (length (drop pn_offset datagram)) 4 in
      match hp_decrypt header_key sample first_byte (take pn_field_len (drop pn_offset datagram)) with
      | None => (datagram, Err PE_Crypto)
      | Some (deprotected_first, pn_field) =>
          (write_range (write_range datagram offset [deprotected_first]) pn_offset pn_field,
           Ok (negb (Z.land deprotected_first 0x04 =? 0), deprotected_first))
      end
  end.

Definition decrypt_short_packet_body (datagram : list Z) (offset dcid_len : nat)
    (largest_pn : option Z) (packet_key : PacketKey) : list Z * result PacketError ParsedPacket :=
  if (length datagram <=? offset)%nat then (datagram, Err PE_Truncated) else
  match get_range datagram (offset + 1) (offset + 1 + dcid_len) with
  | None => (datagram, Err PE_Truncated)
  | Some dcid =>
      let pn_offset := (offset + 1 + dcid_len)%nat in
      let packet_end := length datagram in
      let deprotected_first := nth offset datagram 0 in
      let key_phase := negb (Z.land deprotected_first 0x04 =? 0) in
      let pn_len := Z.to_nat (Z.land deprotected_first 0x03 + 1) in
      if (packet_end <? pn_offset + pn_len)%nat then (datagram, Err PE_Truncated) else
      let truncated := read_truncated (slice datagram pn_offset (pn_offset + pn_len)) in
      let packet_number := decode_packet_number largest_pn truncated (Z.of_nat pn_len) in
      let header := slice datagram offset (pn_offset + pn_len) in
      let payload_start := (pn_offset + pn_len)%nat in
      if (packet_end <? payload_start)%nat then (datagram, Err PE_Truncated) else
      match get_range datagram payload_start packet_end with
      | None => (datagram, Err PE_Truncated)
      | Some payload =>
          let '(payload', plaintext) := pk_decrypt packet_key packet_number header payload in
          let datagram := write_range datagram payload_start payload' in
          match plaintext with
          | None => (datagram, Err PE_Crypto)
          | Some plaintext =>
              (datagram, Ok (mkParsed PT_Short [] dcid packet_number plaintext packet_end key_phase))
          end
      end
  end.

End protected.

(** ** Version Negotiation *)

Definition encode_version_negotiation (client_scid client_dcid : list Z) (supported_versions : list Z) : list Z :=
  let buf := [0x80] in
  let buf := buf ++ be32 0 in
  let buf := buf ++ [as_u8 (len client_scid)] in
  let buf := buf ++ client_scid in
  let buf := buf ++ [as_u8 (len client_dcid)] in
  let buf := buf ++ client_dcid in
  fold_left (fun buf v => buf ++ be32 v) supported_versions buf.

(** [for _ in 0..n { versions.push(buf.get_u32().ok()?) }]. *)
Fixpoint get_versions (n : nat) (versions : list Z) (buf : Buf) : option (list Z) :=
  match n with
  | O => Some versions
  | S k => '(v, buf) ← result_ok (get_u32 buf);
           get_versions k (versions ++ [v]) buf
  end.

Definition decode_version_negotiation (datagram : list Z) : option (list Z) :=
  let buf := buf_new datagram in
  '(first, buf) ← result_ok (get_u8 buf);
  if Z.land first 0x80 =? 0 then None else
  '(version, buf) ← result_ok (get_u32 buf);
  if negb (version =? 0) then None else
  '(dcid_len, buf) ← result_ok (get_u8 buf);
  '(_, buf) ← result_ok (get_bytes dcid_len buf);
  '(scid_len, buf) ← result_ok (get_u8 buf);
  '(_, buf) ← result_ok (get_bytes scid_len buf);
  let remaining := len datagram - position buf in
  if negb (remaining mod 4 =? 0) then None else
  get_versions (Z.to_nat (remaining / 4)) [] buf.

(** ** Retry *)

Definition RETRY_KEY : list Z :=
  [0xbe; 0x0c; 0x69; 0x0b; 0x9f; 0x66; 0x57; 0x5a; 0x1d; 0x76; 0x6b; 0x54; 0xe3; 0x68; 0xc8; 0x4e].
Definition RETRY_NONCE : list Z :=
  [0x46; 0x15; 0x99; 0xd3; 0x5d; 0x63; 0x2b; 0xf2; 0x23; 0x98; 0x25; 0xbb].

Section retry.
(** [Aes128Gcm::new(key).encrypt(nonce, Payload { msg, aad })]. *)
Variable aes128gcm_encrypt : list Z -> list Z -> list Z -> list Z -> option (list Z).

Definition compute_retry_integrity_tag (odcid retry_packet_without_tag : list Z) : option (list Z) :=
  let pseudo := [as_u8 (len odcid)] in
  let pseudo := pseudo ++ odcid in
  let pseudo := pseudo ++ retry_packet_without_tag in
  sealed ← aes128gcm_encrypt RETRY_KEY RETRY_NONCE [] pseudo;
  if negb (len sealed =? 16) then None else Some sealed.

(** The constant-time comparison: [diff |= a ^ b] over the zipped bytes. *)
Definition ct_diff (computed received_tag : list Z) : Z :=
  fold_left (fun diff ab => Z.lor diff (Z.lxor ab.1 ab.2)) (zip computed received_tag) 0.

Definition verify_retry_integrity_tag (odcid retry_packet : list Z) : bool :=
  if len retry_packet <? 16 then false else
  let at_ := (length retry_packet - 16)%nat in
  let without_tag := take at_ retry_packet in
  let received_tag := drop at_ retry_packet in
  match compute_retry_integrity_tag odcid without_tag with
  | Some computed => ct_diff computed received_tag =? 0
  | None => false
  end.

Definition encode_retry_packet (scid dcid odcid token : list Z) : option (list Z) :=
  let buf := [0xf1] in
  let buf := buf ++ be32 0x00000001 in
  let buf := buf ++ [as_u8 (len dcid)] in
  let buf := buf ++ dcid in
  let buf := buf ++ [as_u8 (len scid)] in
  let buf := buf ++ scid in
  let buf := buf ++ token in
  tag ← compute_retry_integrity_tag odcid buf;
  Some (buf ++ tag).

End retry.

Definition parse_retry_packet (datagram : list Z) : option (list Z * list Z * list Z) :=
  if len datagram <? 23 then None else
  let buf := buf_new datagram in
  '(first, buf) ← result_ok (get_u8 buf);
  if (Z.land first 0x80 =? 0) || negb (Z.land first 0x30 =? 0x30) then None else
  '(version, buf) ← result_ok (get_u32 buf);
  if negb (version =? 0x00000001) then None else
  '(dcid_len, buf) ← result_ok (get_u8 buf);
  '(dcid, buf) ← result_ok (get_bytes dcid_len buf);
  '(scid_len, buf) ← result_ok (get_u8 buf);
  '(scid, buf) ← result_ok (get_bytes scid_len buf);
  let consumed := position buf in
  if len datagram <? consumed + 16 then None else
  let token := slice datagram (Z.to_nat consumed) (length datagram - 16) in
  Some (scid, dcid, token).

Definition parse_initial_token (datagram : list Z) : option (list Z) :=
  first ← datagram !! 0%nat;
  if Z.land first 0x80 =? 0 then None else
  if negb (Z.land first 0x30 =? 0) then None else
  let buf := buf_new datagram in
  '(_, buf) ← result_ok (get_u8 buf);
  '(_, buf) ← result_ok (get_u32 buf);
  '(dcid_len, buf) ← result_ok (get_u8 buf);
  '(_, buf) ← result_ok (get_bytes dcid_len buf);
  '(scid_len, buf) ← result_ok (get_u8 buf);
  '(_, buf) ← result_ok (get_bytes scid_len buf);
  '(token_len, buf) ← result_ok (get_varint buf);
  '(token, _) ← result_ok (get_bytes token_len buf);
  Some token.

(** ** Routing *)

Definition peek_dcid (datagram : list Z) (short_dcid_len : nat) : result PacketError (PacketType * list Z) :=
  match datagram !! 0%nat with
  | None => Err PE_Truncated
  | Some first =>
      if Z.land first 0x80 =? 0 then
        match get_range datagram 1 (1 + short_dcid_len) with
        | None => Err PE_Truncated
        | Some dcid => Ok (PT_Short, dcid)
        end
      else
        let buf := buf_new datagram in
        '(_, buf) ← packet_error_from_codec (get_u8 buf);
        '(version, buf) ← packet_error_from_codec (get_u32 buf);
        '(dcid_len, buf) ← packet_error_from_codec (get_u8 buf);
        '(dcid, buf) ← packet_error_from_codec (get_bytes dcid_len buf);
        Ok (packet_type_from_first_byte_and_version first version, dcid)
  end.

(** ** What the code relies on from the ciphers *)

Section laws.
Context {HeaderKey PacketKey : Type} `{PC : PacketCrypto HeaderKey PacketKey}.

(** [kd] opens what [ke] seals (AEAD correctness, 16-byte tags, length-preserving). *)
Record aead_pair (ke kd : PacketKey) : Prop := {
  ap_tag : tag_len ke = 16;
  ap_len : forall pn h p c t, pk_encrypt ke pn h p = Some (c, t) -> length c = length p /\ length t = 16%nat;
  ap_open : forall pn h p c t, pk_encrypt ke pn h p = Some (c, t) -> (pk_decrypt kd pn h (c ++ t)).2 = Some p
}.

(** [kd] removes the header protection [ke] applies: samples are 16 bytes, the bits
    above the mask (low four bits of a long, low five of a short first byte) stay,
    and the packet-number length is read from the unmasked first byte, so that
    further bytes of the field are left alone. *)
Record hp_pair (ke kd : HeaderKey) : Prop := {
  hp_sample : sample_len ke = 16 /\ sample_len kd = 16;
  hp_len : forall s f pn f' pn', hp_encrypt ke s f pn = Some (f', pn') -> length pn' = length pn;
  hp_high : forall s f pn f' pn', hp_encrypt ke s f pn = Some (f', pn') -> is_u8 f ->
    Z.land f' 0xe0 = Z.land f 0xe0 /\ (Z.land f 0x80 <> 0 -> Z.land f' 0xf0 = Z.land f 0xf0);
  hp_open : forall s f pn f' pn' tl, hp_encrypt ke s f pn = Some (f', pn') ->
    len pn = Z.land f 0x03 + 1 -> (length pn + length tl <= 4)%nat ->
    hp_decrypt kd s f' (pn' ++ tl) = Some (f, pn ++ tl);
  hp_dec_len : forall s f pn f' pn', hp_decrypt kd s f pn = Some (f', pn') -> length pn' = length pn
}.

End laws.

(** ** Lemmas: slices of concatenations *)

Lemma slice_app_mid {A} (l xs r : list A) n m :
  n = length l -> m = (length l + length xs)%nat -> slice (l ++ xs ++ r) n m = xs.
Proof.
  intros -> ->. unfold slice. rewrite drop_app_length.
  replace (length l + length xs - length l)%nat with (length xs) by lia. by rewrite take_app_length.
Qed.

Lemma get_range_mid l xs r n m :
  n = length l -> m = (length l + length xs)%nat -> get_range (l ++ xs ++ r) n m = Some xs.
Proof.
  intros -> ->. unfold get_range. rewrite !length_app.
  rewrite (proj2 (Nat.leb_le _ _)) by lia. rewrite (proj2 (Nat.leb_le _ _)) by lia.
  simpl. f_equal. by apply slice_app_mid.
Qed.

Lemma put_range_mid l xs ys r n :
  n = length l -> length ys = length xs -> write_range (l ++ xs ++ r) n ys = l ++ ys ++ r.
Proof.
  intros -> Hl. unfold write_range. rewrite take_app_length, Hl, <- drop_drop, drop_app_length.
  by rewrite drop_app_length.
Qed.

(** The sixteen sampled bytes lie behind the packet number, so they are the same
    whether or not the header is protected and whatever follows the packet. *)
Lemma sample_past_pn (l pn X tl : list Z) n :
  n = length l -> (length pn <= 4)%nat -> (20 <= length pn + length X)%nat ->
  slice (l ++ pn ++ X ++ tl) (n + 4) (n + 4 + 16) = take 16 (drop (4 - length pn) X).
Proof.
  intros -> Hpn HX. unfold slice. rewrite <- drop_drop, drop_app_length.
  replace (length l + 4 + 16 - (length l + 4))%nat with 16%nat by lia.
  rewrite drop_app_ge by lia. rewrite drop_app_le by lia. rewrite take_app_le; [done |].
  rewrite length_drop. lia.
Qed.

Lemma nth_mid (l : list Z) x r s : nth (length l) ((l ++ x :: r) ++ s) 0 = x.
Proof. rewrite <- app_assoc, app_nth2, Nat.sub_diag by lia. done. Qed.

(** ** Lemmas: sealing and opening one packet *)

Section protection_lemmas.
Context {HeaderKey PacketKey : Type} `{PC : PacketCrypto HeaderKey PacketKey}.

(** The plaintext that is sealed: zero (PADDING) bytes up to the sample minimum. *)
Definition padded (pn_len : nat) (payload : list Z) : list Z := payload ++ replicate (4 - pn_len - length payload) 0.

(** A packet after protection: same layout, header-protected first byte and packet number. *)
Lemma finish_packet_shape ke kd hke hkd pre first mid pnb payload pn dg' :
  aead_pair ke kd -> hp_pair hke hkd ->
  (1 <= length pnb <= 4)%nat ->
  finish_packet (pre ++ first :: mid ++ pnb)
    (mkPnLayout (length pre) (length pre + 1 + length mid) (length pnb) pn) payload ke hke = (dg', Ok ()) ->
  exists first' pnb' c t,
    dg' = (pre ++ first' :: mid) ++ pnb' ++ (c ++ t) /\
    length pnb' = length pnb /\ length (c ++ t) = (length (padded (length pnb) payload) + 16)%nat /\
    pk_encrypt ke pn (first :: mid ++ pnb) (padded (length pnb) payload) = Some (c, t) /\
    hp_encrypt hke (take 16 (drop (4 - length pnb) (c ++ t))) first pnb = Some (first', pnb').
Proof.
  intros [A1 A2 A3] [[H0 _] H1 H2 H3 _] Hn. unfold finish_packet. cbn [pl_start pl_pn_offset pl_pn_len pl_packet_number]. rewrite H0.
  change (Z.to_nat 16) with 16%nat. unfold HP_SAMPLE_OFFSET.
  replace (4 + 16 - (length pnb + 16))%nat with (4 - length pnb)%nat by lia.
  assert (Hpad : (if (length payload <? 4 - length pnb)%nat
                  then payload ++ replicate (4 - length pnb - length payload) 0 else payload)
                 = padded (length pnb) payload).
  { unfold padded. destruct (Nat.ltb_spec (length payload) (4 - length pnb)); [done |].
    replace (4 - length pnb - length payload)%nat with 0%nat by lia. simpl. by rewrite app_nil_r. }
  rewrite Hpad, drop_app_length.
  destruct (pk_encrypt ke pn (first :: mid ++ pnb) (padded (length pnb) payload)) as [[c t] |] eqn:E; [| done].
  destruct (A2 _ _ _ _ _ E) as [Hc Ht].
  assert (Hlen : (4 - length pnb <= length (padded (length pnb) payload))%nat).
  { unfold padded. rewrite length_app, length_replicate. lia. }
  assert (Hdg : (((pre ++ first :: mid ++ pnb) ++ c) ++ t) = (pre ++ first :: mid) ++ pnb ++ (c ++ t) ++ []).
  { rewrite app_nil_r. repeat (rewrite <- !app_assoc; simpl). done. }
  assert (Hp : (length pre + 1 + length mid)%nat = length (pre ++ first :: mid)) by (rewrite length_app; simpl; lia).
  rewrite Hdg, Hp. unfold get_range.
  rewrite (proj2 (Nat.leb_le _ _)) by lia.
  rewrite (proj2 (Nat.leb_le _ _)) by (rewrite !length_app; simpl; lia). simpl andb. cbv iota.
  rewrite (sample_past_pn _ pnb (c ++ t) []) by (rewrite ?length_app; lia).
  rewrite slice_app_mid, nth_mid by done.
  destruct (hp_encrypt hke _ first pnb) as [[first' pnb'] |] eqn:Eh; [| done].
  intros [= <-]. exists first', pnb', c, t. split_and!; try done.
  - rewrite <- app_assoc. change ((first :: mid) ++ pnb ++ (c ++ t) ++ []) with ([first] ++ (mid ++ pnb ++ (c ++ t) ++ [])).
    rewrite (put_range_mid pre [first] [first']) by done.
    assert (Hre : pre ++ [first'] ++ mid ++ pnb ++ (c ++ t) ++ [] = (pre ++ first' :: mid) ++ pnb ++ (c ++ t)).
    { rewrite app_nil_r, <- app_assoc. done. }
    rewrite Hre. apply put_range_mid; [rewrite !length_app; simpl; lia | by eapply H1].
  - by eapply H1.
  - rewrite length_app. lia.
Qed.

(** Opening the protected packet, in place and with anything behind it. *)
Lemma unprotect_finished ke kd hke hkd pre first mid pnb payload pn dg' tl largest :
  aead_pair ke kd -> hp_pair hke hkd ->
  (1 <= length pnb <= 4)%nat -> len pnb = Z.land first 0x03 + 1 ->
  decode_packet_number largest (read_truncated pnb) (len pnb) = pn ->
  finish_packet (pre ++ first :: mid ++ pnb)
    (mkPnLayout (length pre) (length pre + 1 + length mid) (length pnb) pn) payload ke hke = (dg', Ok ()) ->
  (unprotect_and_decrypt (dg' ++ tl) (length pre) (length pre + 1 + length mid) (length dg') largest kd hkd).2
  = Ok (pn, padded (length pnb) payload, first).
Proof.
  intros HA HH Hn Hlen Hdec Hf.
  destruct (finish_packet_shape _ _ _ _ _ _ _ _ _ _ _ HA HH Hn Hf)
    as (first' & pnb' & c & t & -> & Hl' & Hct & He & Hhp).
  destruct HA as [A1 A2 A3]. destruct HH as [[H0 H0'] H1 H2 H3 _].
  assert (Hpad : (4 - length pnb <= length (padded (length pnb) payload))%nat).
  { unfold padded. rewrite length_app, length_replicate. lia. }
  unfold unprotect_and_decrypt, HP_SAMPLE_OFFSET. rewrite H0'. change (Z.to_nat 16) with 16%nat.
  set (X := c ++ t) in *.
  assert (Hp : (length pre + 1 + length mid)%nat = length (pre ++ first' :: mid)) by (rewrite length_app; simpl; lia).
  assert (Hdg : ((pre ++ first' :: mid) ++ pnb' ++ X) ++ tl = (pre ++ first' :: mid) ++ pnb' ++ X ++ tl)
    by (rewrite <- !app_assoc; done).
  rewrite Hp, Hdg.
  assert (Hnot : forall a b, (b <= a)%nat -> (a <? b)%nat = false) by (intros; by apply Nat.ltb_ge).
  rewrite Hnot by (rewrite !length_app; simpl; lia).
  rewrite (sample_past_pn _ pnb' X tl), Hl' by (rewrite ?Hl'; lia).
  rewrite take_app_length, list_lookup_middle by done. rewrite drop_app_length.
  rewrite Nat.min_r by (rewrite !length_app; lia).
  rewrite take_app_ge by lia. rewrite Hl'.
  rewrite (H3 _ _ _ _ _ (take (4 - length pnb) (X ++ tl)) Hhp Hlen) by (rewrite length_take; lia).
  rewrite <- app_assoc. change ((first' :: mid) ++ pnb' ++ X ++ tl) with ([first'] ++ (mid ++ pnb' ++ X ++ tl)).
  rewrite (put_range_mid pre [first'] [first]) by done.
  replace (pre ++ [first] ++ mid ++ pnb' ++ X ++ tl)
    with ((pre ++ first :: mid) ++ (pnb' ++ take (4 - length pnb) (X ++ tl)) ++ drop (4 - length pnb) (X ++ tl)).
  2: { rewrite <- (app_assoc pnb'), take_drop, <- app_assoc. done. }
  rewrite put_range_mid by (rewrite ?length_app; simpl; lia).
  rewrite <- (app_assoc pnb), take_drop. rewrite <- Hlen, Nat2Z.id.
  rewrite (slice_app_mid (pre ++ first :: mid) pnb (X ++ tl)) by (rewrite ?length_app; simpl; lia).
  rewrite Hdec.
  replace ((pre ++ first :: mid) ++ pnb ++ X ++ tl) with (pre ++ (first :: mid ++ pnb) ++ X ++ tl)
    by (rewrite <- app_assoc; simpl; rewrite <- app_assoc; done).
  rewrite (slice_app_mid pre (first :: mid ++ pnb)) by (rewrite ?length_app; simpl; rewrite ?length_app; lia).
  rewrite (app_assoc pre (first :: mid ++ pnb)).
  rewrite get_range_mid by (rewrite !length_app; simpl; rewrite ?length_app; lia).
  specialize (A3 _ _ _ _ _ He). fold X in A3.
  destruct (pk_decrypt kd pn (first :: mid ++ pnb) X) as [buf pl]. simpl in A3. by subst pl.
Qed.

End protection_lemmas.

(** ** Lemmas: the common long-header prefix *)

Lemma be32_Horner v :
  is_u32 v ->
  Z.lor (as_u32 (Z.shiftl (Z.lor (as_u16 (Z.shiftl (as_u8 (Z.shiftr v 24)) 8)) (as_u8 (Z.shiftr v 16))) 16))
        (Z.lor (as_u16 (Z.shiftl (as_u8 (Z.shiftr v 8)) 8)) (as_u8 v)) = v.
Proof.
  unfold is_u32, as_u8, as_u16, as_u32. intros Hv. rewrite !Z.shiftr_div_pow2, !Z.shiftl_mul_pow2 by lia.
  change (2 ^ 24) with 16777216. change (2 ^ 16) with 65536. change (2 ^ 8) with 256. change (2 ^ 32) with 4294967296 in *.
  rewrite !(Z.mod_small _ 65536) by zdm.
  rewrite (lor_disjoint_add (_ mod _) (_ mod 256) 8) by (change (2 ^ 8) with 256; zdm).
  rewrite (lor_disjoint_add ((v / 256) mod _) (_ mod 256) 8) by (change (2 ^ 8) with 256; zdm).
  change (2 ^ 8) with 256. rewrite Z.mod_small by zdm.
  rewrite (lor_disjoint_add _ _ 16) by (change (2 ^ 16) with 65536; zdm). change (2 ^ 16) with 65536. zdm.
Qed.

Lemma get_u32_be32 v b tl : is_u32 v -> rest b = be32 v ++ tl -> get_u32 b = Ok (v, advance b 4).
Proof.
  intros Hv Hr. unfold be32 in Hr. simpl in Hr. unfold get_u32, get_u16, mbind, result_bind.
  erewrite (get_u8_cons b) by exact Hr.
  erewrite (get_u8_cons (advance b 1)) by (rewrite rest_advance, Hr; reflexivity).
  rewrite advance_advance.
  erewrite (get_u8_cons (advance b _)) by (rewrite rest_advance, Hr; reflexivity).
  rewrite advance_advance.
  erewrite (get_u8_cons (advance b _)) by (rewrite rest_advance, Hr; reflexivity).
  rewrite advance_advance, be32_Horner by done. done.
Qed.

(** The invariant prefix: first byte, version, and the two length-prefixed IDs. *)
Definition long_prefix (f v : Z) (dcid scid tl : list Z) : list Z :=
  f :: be32 v ++ as_u8 (len dcid) :: dcid ++ as_u8 (len scid) :: scid ++ tl.

Lemma read_long_prefix f v dcid scid tl :
  let L := long_prefix f v dcid scid tl in
  let p := (7 + length dcid + length scid)%nat in
  is_u32 v -> len dcid < 256 -> len scid < 256 -> len L <= u64_MAX ->
  get_u8 (buf_new L) = Ok (f, mkBuf L 1) /\
  get_u32 (mkBuf L 1) = Ok (v, mkBuf L 5) /\
  get_u8 (mkBuf L 5) = Ok (len dcid, mkBuf L 6) /\
  get_bytes (len dcid) (mkBuf L 6) = Ok (dcid, mkBuf L (6 + length dcid)) /\
  get_u8 (mkBuf L (6 + length dcid)) = Ok (len scid, mkBuf L (7 + length dcid)) /\
  get_bytes (len scid) (mkBuf L (7 + length dcid)) = Ok (scid, mkBuf L p) /\
  rest (mkBuf L p) = tl.
Proof.
  intros L p Hv Hd Hs HL.
  assert (R6 : rest (mkBuf L 6) = dcid ++ as_u8 (len scid) :: scid ++ tl) by done.
  assert (R6d : rest (mkBuf L (6 + length dcid)) = as_u8 (len scid) :: scid ++ tl).
  { rewrite <- (drop_app_length dcid (as_u8 (len scid) :: scid ++ tl)), <- R6. unfold rest. simpl. done. }
  assert (R7 : rest (mkBuf L (7 + length dcid)) = scid ++ tl).
  { change (7 + length dcid)%nat with (S (6 + length dcid)). rewrite <- Nat.add_1_r.
    change (mkBuf L (6 + length dcid + 1)) with (advance (mkBuf L (6 + length dcid)) 1).
    by rewrite rest_advance, R6d. }
  assert (Rp : rest (mkBuf L p) = tl) by (by apply (rest_advance_app (mkBuf L (7 + length dcid)) scid tl)).
  assert (HLl : length L = (7 + length dcid + length scid + length tl)%nat).
  { subst L. unfold long_prefix. simpl. rewrite !length_app. simpl. rewrite length_app. lia. }
  rewrite <- (as_u8_small (len dcid)) at 1 by (unfold is_u8; lia).
  split_and!; try done.
  - by erewrite get_u32_be32.
  - rewrite (get_bytes_app _ dcid (as_u8 (len scid) :: scid ++ tl)); [done | | done]. split; cbn [buf_pos buf_bytes]; lia.
  - rewrite (get_u8_cons _ _ _ R6d), as_u8_small by (unfold is_u8; lia). unfold advance. simpl. by rewrite Nat.add_1_r.
  - rewrite (get_bytes_app _ scid tl); [done | | done]. split; cbn [buf_pos buf_bytes]; lia.
Qed.

(** ** Lemmas: the builders, as one concatenation *)

Section build_lemmas.
Context {HeaderKey PacketKey : Type} `{PC : PacketCrypto HeaderKey PacketKey}.

Definition long_first (t : LongType) (pn_len : Z) : Z :=
  Z.lor (Z.lor (Z.lor 0x80 0x40) (Z.shiftl (type_bits t) 4)) (as_u8 pn_len - 1).
Definition short_first (key_phase : bool) (pn_len : Z) : Z :=
  Z.lor (Z.lor 0x40 (if key_phase then 0x04 else 0x00)) (as_u8 pn_len - 1).

(** What follows the two connection IDs: the token of an Initial, and the length. *)
Definition token_part (p : BuildLong) : list Z :=
  if decide (bl_long_type p = LT_Initial) then varint_bytes (len (bl_token p)) ++ bl_token p else [].

Definition long_mid (p : BuildLong) (length_ : Z) : list Z :=
  be32 (bl_version p) ++ as_u8 (len (bl_dcid p)) :: bl_dcid p ++ as_u8 (len (bl_scid p)) :: bl_scid p
  ++ token_part p ++ varint_bytes length_.

Lemma build_long_concat dg p payload (pk : PacketKey) (hk : HeaderKey) dg' n :
  build_long_packet dg p payload pk hk = (dg', Ok n) ->
  let k := packet_number_len (bl_packet_number p) (bl_largest_acked p) in
  let mid := long_mid p (k + len payload + tag_len pk) in
  let pnb := pn_bytes (bl_packet_number p) (Z.to_nat k) in
  finish_packet (dg ++ long_first (bl_long_type p) k :: mid ++ pnb)
    (mkPnLayout (length dg) (length dg + 1 + length mid) (length pnb) (bl_packet_number p)) payload pk hk
  = (dg', Ok ()) /\ n = len dg' - len dg.
Proof.
  intros Hb k mid pnb. unfold build_long_packet in Hb. fold k in Hb.
  rewrite put_varint_app, encode_packet_number_bytes in Hb by apply packet_number_len_range.
  fold pnb in Hb.
  match type of Hb with context [finish_packet (?D ++ pnb) (mkPnLayout _ _ _ _)] =>
    assert (HD : D = dg ++ long_first (bl_long_type p) k :: mid) end.
  { subst mid. unfold long_mid, token_part. destruct (decide (bl_long_type p = LT_Initial)).
    - rewrite put_varint_app. repeat (rewrite <- !app_assoc; simpl). done.
    - repeat (rewrite <- !app_assoc; simpl). done. }
  rewrite HD in Hb. replace (Z.to_nat k) with (length pnb) in Hb by apply pn_bytes_length.
  rewrite <- app_assoc in Hb. simpl in Hb.
  replace (length (dg ++ long_first (bl_long_type p) k :: mid)) with (length dg + 1 + length mid)%nat in Hb
    by (rewrite length_app; simpl; lia).
  destruct (finish_packet _ _ payload pk hk) as [d [[] | e]]; [| done]. by injection Hb as <- <-.
Qed.

Lemma build_short_concat dg p payload (pk : PacketKey) (hk : HeaderKey) dg' n :
  build_short_packet dg p payload pk hk = (dg', Ok n) ->
  let k := packet_number_len (bs_packet_number p) (bs_largest_acked p) in
  let pnb := pn_bytes (bs_packet_number p) (Z.to_nat k) in
  finish_packet (dg ++ short_first (bs_key_phase p) k :: bs_dcid p ++ pnb)
    (mkPnLayout (length dg) (length dg + 1 + length (bs_dcid p)) (length pnb) (bs_packet_number p)) payload pk hk
  = (dg', Ok ()) /\ n = len dg' - len dg.
Proof.
  intros Hb k pnb. unfold build_short_packet in Hb. fold k in Hb.
  rewrite encode_packet_number_bytes in Hb by apply packet_number_len_range. fold pnb in Hb.
  replace (Z.to_nat k) with (length pnb) in Hb by apply pn_bytes_length.
  change (Z.lor (Z.lor 0x40 (if bs_key_phase p then 0x04 else 0x00)) (as_u8 k - 1))
    with (short_first (bs_key_phase p) k) in Hb.
  rewrite <- !app_assoc in Hb. simpl in Hb.
  replace (length (dg ++ short_first (bs_key_phase p) k :: bs_dcid p)) with (length dg + 1 + length (bs_dcid p))%nat in Hb
    by (rewrite length_app; simpl; lia).
  destruct (finish_packet _ _ payload pk hk) as [d [[] | e]]; [| done]. by injection Hb as <- <-.
Qed.

Lemma long_first_facts t n :
  1 <= n <= 4 ->
  is_u8 (long_first t n) /\ n = Z.land (long_first t n) 0x03 + 1 /\ Z.land (long_first t n) 0x80 <> 0 /\
  Z.land (long_first t n) 0xf0 = 0xc0 + 16 * type_bits t.
Proof.
  intros Hn. assert (n = 1 \/ n = 2 \/ n = 3 \/ n = 4) as [-> | [-> | [-> | ->]]] by lia;
    destruct t; (split_and!; [split; vm_compute; congruence | done ..]).
Qed.

Lemma short_first_facts kp n :
  1 <= n <= 4 ->
  is_u8 (short_first kp n) /\ n = Z.land (short_first kp n) 0x03 + 1 /\ Z.land (short_first kp n) 0xe0 = 0x40 /\
  negb (Z.land (short_first kp n) 0x04 =? 0) = kp.
Proof.
  intros Hn. assert (n = 1 \/ n = 2 \/ n = 3 \/ n = 4) as [-> | [-> | [-> | ->]]] by lia;
    destruct kp; (split_and!; [split; vm_compute; congruence | done ..]).
Qed.

Definition packet_type_of (t : LongType) : PacketType :=
  match t with LT_Initial => PT_Initial | LT_ZeroRtt => PT_ZeroRtt | LT_Handshake => PT_Handshake end.

(** The type is read from the protected first byte: its high nibble is enough. *)
Lemma packet_type_high f t v :
  v <> 0 -> Z.land f 0xf0 = 0xc0 + 16 * type_bits t ->
  packet_type_from_first_byte_and_version f v = packet_type_of t.
Proof.
  intros Hv Hf. unfold packet_type_from_first_byte_and_version, packet_type_from_first_byte.
  rewrite (proj2 (Z.eqb_neq v 0)) by done. rewrite andb_false_r.
  assert (H80 : Z.land f 0x80 = Z.land (0xc0 + 16 * type_bits t) 0x80) by (by rewrite <- Hf, <- Z.land_assoc).
  assert (H30 : Z.land f 0x30 = Z.land (0xc0 + 16 * type_bits t) 0x30) by (by rewrite <- Hf, <- Z.land_assoc).
  rewrite H80, H30. by destruct t.
Qed.

End build_lemmas.

(** ** Lemmas: parsing what was built *)

(** One step of a parser: rewrite the read with its result and enter the continuation. *)
Ltac rstep E := rewrite E; cbn [packet_error_from_codec map_err result_ok]; cbv beta iota.

Section parse_lemmas.
Context {HeaderKey PacketKey : Type} `{PC : PacketCrypto HeaderKey PacketKey}.

Definition long_params_ok (p : BuildLong) : Prop :=
  is_u32 (bl_version p) /\ bl_version p <> 0 /\ len (bl_dcid p) <= 20 /\ len (bl_scid p) <= 20.

#[export] Instance long_params_ok_dec p : Decision (long_params_ok p) := _.

(** The header of a (protected) long packet parses to its fields and to the offsets
    of the packet number and of the packet end. *)
Lemma parse_long_header_mid (dg : list Z) p length_ f tl :
  long_params_ok p -> Z.land f 0xf0 = 0xc0 + 16 * type_bits (bl_long_type p) ->
  is_varint length_ -> length_ <= len tl ->
  len (dg ++ f :: long_mid p length_ ++ tl) <= VARINT_MAX ->
  parse_long_header (dg ++ f :: long_mid p length_ ++ tl) (length dg) f =
  Ok (mkLongLayout (packet_type_of (bl_long_type p)) (bl_version p) (bl_scid p) (bl_dcid p)
        (length dg + 1 + length (long_mid p length_))
        (length dg + 1 + length (long_mid p length_) + Z.to_nat length_)).
Proof.
  intros (Hv & Hv0 & Hd & Hs) Hf Hlen Hle Hmax. unfold parse_long_header. rewrite drop_app_length.
  assert (HL : f :: long_mid p length_ ++ tl =
    long_prefix f (bl_version p) (bl_dcid p) (bl_scid p) (token_part p ++ varint_bytes length_ ++ tl)).
  { unfold long_mid, long_prefix. repeat (rewrite <- !app_assoc; simpl). done. }
  rewrite HL in *. rewrite length_app in Hmax.
  set (L := long_prefix _ _ _ _ _) in *.
  assert (HVM : VARINT_MAX < u64_MAX) by (vm_compute; congruence).
  destruct (read_long_prefix f (bl_version p) (bl_dcid p) (bl_scid p) (token_part p ++ varint_bytes length_ ++ tl))
    as (E1 & E2 & E3 & E4 & E5 & E6 & Hrest); [done | lia | lia | subst L; lia |].
  fold L in E1, E2, E3, E4, E5, E6, Hrest.
  unfold mbind, result_bind. rstep E1. rstep E2. rstep E3. rewrite (proj2 (Z.ltb_ge _ _)) by lia.
  rstep E4. rstep E5. rewrite (proj2 (Z.ltb_ge _ _)) by lia. rstep E6.
  rewrite (packet_type_high f (bl_long_type p)) by done.
  set (q := (7 + length (bl_dcid p) + length (bl_scid p))%nat) in *.
  assert (HLl : length L = (q + length (token_part p ++ varint_bytes length_ ++ tl))%nat).
  { subst L q. unfold long_prefix. simpl. rewrite !length_app. simpl. rewrite !length_app. lia. }
  assert (Htok : (if decide (packet_type_of (bl_long_type p) = PT_Initial)
    then match packet_error_from_codec (get_varint (mkBuf L q)) with
         | Ok (token_len, buf) => match packet_error_from_codec (get_bytes token_len buf) with
                                  | Ok (_, buf) => Ok buf | Err e => Err e end
         | Err e => Err e end
    else Ok (mkBuf L q)) = @Ok PacketError _ (mkBuf L (q + length (token_part p)))).
  { unfold token_part in *. destruct (decide (bl_long_type p = LT_Initial)) as [Ei | Ei].
    - rewrite decide_True by (by rewrite Ei).
      rewrite !length_app in HLl. rewrite <- app_assoc in Hrest.
      rstep (get_varint_bytes (len (bl_token p)) _ _ ltac:(unfold is_varint; lia) Hrest).
      rewrite (get_bytes_app (advance (mkBuf L q) (length (varint_bytes (len (bl_token p)))))
                 (bl_token p) (varint_bytes length_ ++ tl)).
      + simpl. unfold advance. simpl. by rewrite length_app, Nat.add_assoc.
      + split; cbn [buf_pos buf_bytes advance]; lia.
      + by apply (rest_advance_app (mkBuf L q)).
    - rewrite decide_False by (by destruct (bl_long_type p)). simpl. by rewrite Nat.add_0_r. }
  rewrite Htok. clear Htok.
  assert (Hrest' : rest (mkBuf L (q + length (token_part p))) = varint_bytes length_ ++ tl)
    by (by apply (rest_advance_app (mkBuf L q))).
  rstep (get_varint_bytes length_ _ tl Hlen Hrest').
  assert (Hmid : length (long_mid p length_) = (q + length (token_part p ++ varint_bytes length_) - 1)%nat).
  { subst q. unfold long_mid. simpl. rewrite !length_app. simpl. rewrite !length_app. lia. }
  rewrite !length_app in HLl. rewrite !length_app in Hmid. unfold position, checked_add, advance. cbn [buf_pos buf_bytes].
  destruct Hlen as [Hl0 Hl1].
  rewrite (proj2 (Z.ltb_ge _ _)) by lia. simpl ok_or. cbv iota.
  rewrite (proj2 (Z.ltb_ge _ _)) by (rewrite length_app; lia).
  do 2 f_equal; lia.
Qed.

End parse_lemmas.

Section roundtrip_lemmas.
Context {HeaderKey PacketKey : Type} `{PC : PacketCrypto HeaderKey PacketKey}.

Lemma peek_long_prefix f v dcid scid tl k :
  is_u32 v -> len dcid < 256 -> len scid < 256 -> len (long_prefix f v dcid scid tl) <= u64_MAX ->
  Z.land f 0x80 <> 0 ->
  peek_dcid (long_prefix f v dcid scid tl) k = Ok (packet_type_from_first_byte_and_version f v, dcid).
Proof.
  intros Hv Hd Hs HL Hf. destruct (read_long_prefix f v dcid scid tl) as (E1 & E2 & E3 & E4 & _); [done .. |].
  unfold peek_dcid. simpl (_ !! _). cbv iota. rewrite (proj2 (Z.eqb_neq _ _)) by done.
  unfold mbind, result_bind. rstep E1. rstep E2. rstep E3. rstep E4. done.
Qed.

Lemma padded_long n payload : (4 - n <= length payload)%nat -> padded n payload = payload.
Proof.
  intros. unfold padded. replace (4 - n - length payload)%nat with 0%nat by lia. apply app_nil_r.
Qed.

Lemma pnb_facts pn acked :
  let k := packet_number_len pn acked in
  len (pn_bytes pn (Z.to_nat k)) = k /\ (1 <= length (pn_bytes pn (Z.to_nat k)) <= 4)%nat.
Proof.
  intros k. pose proof (packet_number_len_range pn acked) as Hk. fold k in Hk.
  rewrite pn_bytes_length. lia.
Qed.

(** The protected packet in place: where its header starts, what it parses to, and
    that it opens. *)
Lemma long_packet_layout (ke kd : PacketKey) (hke hkd : HeaderKey) dg p payload dg' n tl largest :
  aead_pair ke kd -> hp_pair hke hkd -> long_params_ok p ->
  pn_in_window (bl_packet_number p) (bl_largest_acked p) largest ->
  4 - packet_number_len (bl_packet_number p) (bl_largest_acked p) <= len payload ->
  build_long_packet dg p payload ke hke = (dg', Ok n) ->
  len (dg' ++ tl) <= VARINT_MAX ->
  exists f' X,
    n = len dg' - len dg /\
    dg' ++ tl = dg ++ long_prefix f' (bl_version p) (bl_dcid p) (bl_scid p) X /\
    take (length dg) dg' = dg /\
    Z.land f' 0xf0 = 0xc0 + 16 * type_bits (bl_long_type p) /\
    let pn_offset := (length dg + 1 + length (long_mid p
      (packet_number_len (bl_packet_number p) (bl_largest_acked p) + len payload + tag_len ke)))%nat in
    parse_long_header (dg' ++ tl) (length dg) f' =
      Ok (mkLongLayout (packet_type_of (bl_long_type p)) (bl_version p) (bl_scid p) (bl_dcid p)
            pn_offset (length dg')) /\
    (unprotect_and_decrypt (dg' ++ tl) (length dg) pn_offset (length dg') largest kd hkd).2
      = Ok (bl_packet_number p, payload,
            long_first (bl_long_type p) (packet_number_len (bl_packet_number p) (bl_largest_acked p))).
Proof.
  intros HA HH Hp Hpn Hpay Hb Hmax. destruct (build_long_concat _ _ _ _ _ _ _ Hb) as [Hf ->].
  set (k := packet_number_len _ _) in *. set (mid := long_mid _ _) in *. set (pnb := pn_bytes _ _) in *.
  destruct (pnb_facts (bl_packet_number p) (bl_largest_acked p)) as [Hk Hk4]. fold k pnb in Hk, Hk4.
  pose proof (packet_number_len_range (bl_packet_number p) (bl_largest_acked p)) as Hkr. fold k in Hkr.
  destruct (long_first_facts (bl_long_type p) k Hkr) as (Hu8 & Hfk & Hf80 & Hff0).
  assert (Hdec : decode_packet_number largest (read_truncated pnb) (len pnb) = bl_packet_number p)
    by (rewrite Hk; by apply recover_pn).
  pose proof (unprotect_finished _ _ _ _ _ _ _ _ _ _ _ tl largest HA HH Hk4 ltac:(by rewrite Hk) Hdec Hf) as Hu.
  destruct (finish_packet_shape _ _ _ _ _ _ _ _ _ _ _ HA HH Hk4 Hf) as (f' & pnb' & c & t & Hdg & Hl' & Hct & _ & Hhp).
  destruct (hp_high _ _ HH _ _ _ _ _ Hhp Hu8) as [_ Hhigh]. specialize (Hhigh Hf80). rewrite Hff0 in Hhigh.
  rewrite padded_long in Hct, Hu by lia. pose proof (ap_tag _ _ HA) as Htag.
  assert (Hdt : dg' ++ tl = dg ++ f' :: mid ++ (pnb' ++ (c ++ t) ++ tl)).
  { rewrite Hdg. repeat (rewrite <- !app_assoc; simpl). done. }
  assert (Hlen : length dg' = (length dg + 1 + length mid + Z.to_nat (k + len payload + 16))%nat).
  { rewrite Hdg, !length_app. simpl. rewrite <- (length_app c t), Hct. lia. }
  exists f', (token_part p ++ varint_bytes (k + len payload + tag_len ke) ++ pnb' ++ (c ++ t) ++ tl).
  split_and!; [done | | by rewrite Hdg, <- !app_assoc, take_app_length | done | cbv zeta; split; [| done]].
  - rewrite Hdt. subst mid. unfold long_mid, long_prefix. repeat (rewrite <- !app_assoc; simpl). done.
  - rewrite Hdt, Hlen. subst mid. rewrite Htag in *. apply parse_long_header_mid; try done.
    + rewrite length_app in Hmax. unfold is_varint. lia.
    + rewrite !length_app. rewrite length_app in Hct. lia.
    + by rewrite <- Hdt.
Qed.

Lemma land_3_range f : 0 <= Z.land f 3 <= 3.
Proof.
  pose proof (land_low_mod f 2 ltac:(lia)) as E. change (2 ^ 2 - 1) with 3 in E. rewrite E.
  pose proof (Z.mod_pos_bound f (2 ^ 2) ltac:(lia)). lia.
Qed.

(** A datagram split at a short header: first byte, destination ID, packet-number field. *)
Lemma short_split (dg : list Z) off n :
  (off + 1 + n + 4 <= length dg)%nat ->
  exists pre f dcid pnf r, dg = pre ++ [f] ++ dcid ++ pnf ++ r /\
    length pre = off /\ length dcid = n /\ length pnf = 4%nat.
Proof.
  intros Hl. exists (take off dg).
  destruct (drop off dg) as [| f r] eqn:E; [apply (f_equal length) in E; rewrite length_drop in E; simpl in E; lia |].
  assert (Hr : length (f :: r) = (length dg - off)%nat) by (by rewrite <- E, length_drop). simpl in Hr.
  exists f, (take n r), (take 4 (drop n r)), (drop 4 (drop n r)).
  rewrite !length_take, length_drop. split_and!; try lia. simpl. by rewrite !take_drop, <- E, take_drop.
Qed.

(** Stripping header protection and then opening with a chosen key, as the
    key-update receive path does, is the one-step parser. *)
Lemma parse_short_two_step dg off n largest (pk : PacketKey) (hk : HeaderKey) :
  (forall s f pn f' pn', hp_decrypt hk s f pn = Some (f', pn') -> length pn' = length pn) ->
  parse_short_packet dg off n largest pk hk =
  match strip_short_header_protection dg off n hk with
  | (dg', Err e) => (dg', Err e)
  | (dg', Ok _) => decrypt_short_packet_body dg' off n largest pk
  end.
Proof.
  intros Hlaw. unfold parse_short_packet, strip_short_header_protection, unprotect_and_decrypt, HP_SAMPLE_OFFSET.
  destruct (Nat.leb_spec (length dg) off); [done |]. set (sl := Z.to_nat (sample_len hk)).
  destruct (Nat.ltb_spec (length dg) (off + 1 + n + 4 + sl)).
  { destruct (get_range dg (off + 1) (off + 1 + n)); done. }
  destruct (short_split dg off n ltac:(lia)) as (pre & f & dcid & pnf & r & -> & <- & <- & Hpnf).
  set (sample := slice _ _ _).
  assert (Hrange : forall f pnf r, get_range (pre ++ [f] ++ dcid ++ pnf ++ r) (length pre + 1) (length pre + 1 + length dcid) = Some dcid).
  { intros. rewrite app_assoc. apply get_range_mid; rewrite length_app; simpl; lia. }
  rewrite Hrange.
  assert (Hpo : (length pre + 1 + length dcid)%nat = length (pre ++ [f] ++ dcid)) by (rewrite !length_app; simpl; lia).
  assert (Htake : take (length pre + 1 + length dcid) (pre ++ [f] ++ dcid ++ pnf ++ r) = pre ++ [f] ++ dcid).
  { rewrite Hpo. replace (pre ++ [f] ++ dcid ++ pnf ++ r) with ((pre ++ [f] ++ dcid) ++ pnf ++ r)
      by (rewrite <- !app_assoc; done). apply take_app_length. }
  assert (Hdrop : drop (length pre + 1 + length dcid) (pre ++ [f] ++ dcid ++ pnf ++ r) = pnf ++ r).
  { rewrite Hpo. replace (pre ++ [f] ++ dcid ++ pnf ++ r) with ((pre ++ [f] ++ dcid) ++ pnf ++ r)
      by (rewrite <- !app_assoc; done). apply drop_app_length. }
  rewrite Htake, Hdrop. simpl ([f] ++ dcid). rewrite list_lookup_middle by done.
  rewrite Nat.min_r, <- Hpnf, take_app_length by (rewrite length_app; lia).
  destruct (hp_decrypt hk sample f pnf) as [[f' pnf'] |] eqn:Eh; [| done].
  pose proof (Hlaw _ _ _ _ _ Eh) as Hl'.
  rewrite (put_range_mid pre [f] [f'] (dcid ++ pnf ++ r)) by done.
  replace (pre ++ [f'] ++ dcid ++ pnf ++ r) with ((pre ++ [f'] ++ dcid) ++ pnf ++ r) by (rewrite <- !app_assoc; done).
  rewrite put_range_mid by (rewrite ?length_app; simpl; lia). rewrite <- !app_assoc.
  unfold decrypt_short_packet_body. rewrite Hrange.
  assert (Hsame : length (pre ++ [f'] ++ dcid ++ pnf' ++ r) = length (pre ++ [f] ++ dcid ++ pnf ++ r))
    by (rewrite !length_app; simpl; lia).
  rewrite (proj2 (Nat.leb_gt _ _)) by lia.
  assert (Hnth : nth (length pre) (pre ++ [f'] ++ dcid ++ pnf' ++ r) 0 = f').
  { by rewrite app_nth2, Nat.sub_diag by lia. }
  rewrite Hnth, Hsame. pose proof (land_3_range f') as Hb.
  assert (Hfit : (length pre + 1 + length dcid + Z.to_nat (Z.land f' 3 + 1) <= length (pre ++ [f] ++ dcid ++ pnf ++ r))%nat).
  { rewrite !length_app. simpl. lia. }
  rewrite !(proj2 (Nat.ltb_ge _ _)) by exact Hfit.
  destruct (get_range _ _ _); [| done]. destruct (pk_decrypt _ _ _ _) as [b [pl |]]; done.
Qed.

(** The key phase reported by the strip step is the one in the stripped datagram. *)
Lemma strip_key_phase dg off n (hk : HeaderKey) dg' kp f :
  (forall s f pn f' pn', hp_decrypt hk s f pn = Some (f', pn') -> length pn' = length pn) ->
  strip_short_header_protection dg off n hk = (dg', Ok (kp, f)) ->
  (off < length dg')%nat /\ kp = negb (Z.land (nth off dg' 0) 0x04 =? 0).
Proof.
  intros Hlaw. unfold strip_short_header_protection, HP_SAMPLE_OFFSET.
  destruct (Nat.leb_spec (length dg) off); [done |].
  destruct (Nat.ltb_spec (length dg) (off + 1 + n + 4 + Z.to_nat (sample_len hk))); [done |].
  destruct (short_split dg off n ltac:(lia)) as (pre & x & dcid & pnf & r & -> & <- & <- & Hpnf).
  case_match; [| done]. destruct (hp_decrypt _ _ _ _) as [[f' pnf'] |] eqn:Eh; [| done].
  intros [= <- <- <-]. apply Hlaw in Eh.
  rewrite (put_range_mid pre [x] [f'] (dcid ++ pnf ++ r)) by done. unfold write_range.
  rewrite take_app_ge by lia. rewrite <- !app_assoc. split.
  - rewrite !length_app, !length_take. simpl length. lia.
  - rewrite app_nth2, Nat.sub_diag by lia.
    replace (length pre + 1 + length dcid - length pre)%nat with (S (length dcid)) by lia. done.
Qed.

(** A protected short packet opens, in the strip-then-decrypt order of the receive path. *)
Lemma short_packet_opens (ke kd : PacketKey) (hke hkd : HeaderKey) dg p payload dg' n largest :
  aead_pair ke kd -> hp_pair hke hkd ->
  pn_in_window (bs_packet_number p) (bs_largest_acked p) largest ->
  build_short_packet dg p payload ke hke = (dg', Ok n) ->
  let k := packet_number_len (bs_packet_number p) (bs_largest_acked p) in
  let parsed := mkParsed PT_Short [] (bs_dcid p) (bs_packet_number p) (padded (Z.to_nat k) payload)
                  (length dg') (bs_key_phase p) in
  (parse_short_packet dg' (length dg) (length (bs_dcid p)) largest kd hkd).2 = Ok parsed /\
  exists dg'' first,
    strip_short_header_protection dg' (length dg) (length (bs_dcid p)) hkd = (dg'', Ok (bs_key_phase p, first)) /\
    (decrypt_short_packet_body dg'' (length dg) (length (bs_dcid p)) largest kd).2 = Ok parsed.
Proof.
  intros HA HH Hpn Hb k parsed. destruct (build_short_concat _ _ _ _ _ _ _ Hb) as [Hf ->]. fold k in Hf.
  set (pnb := pn_bytes _ _) in *.
  destruct (pnb_facts (bs_packet_number p) (bs_largest_acked p)) as [Hk Hk4]. fold k pnb in Hk, Hk4.
  pose proof (packet_number_len_range (bs_packet_number p) (bs_largest_acked p)) as Hkr. fold k in Hkr.
  destruct (short_first_facts (bs_key_phase p) k Hkr) as (Hu8 & Hfk & He0 & Hkp).
  assert (Hdec : decode_packet_number largest (read_truncated pnb) (len pnb) = bs_packet_number p)
    by (rewrite Hk; by apply recover_pn).
  pose proof (unprotect_finished _ _ _ _ _ _ _ _ _ _ _ [] largest HA HH Hk4 ltac:(by rewrite Hk) Hdec Hf) as Hu.
  rewrite app_nil_r in Hu. replace (length pnb) with (Z.to_nat k) in Hu by lia.
  destruct (finish_packet_shape _ _ _ _ _ _ _ _ _ _ _ HA HH Hk4 Hf) as (f' & pnb' & c & t & Hdg & Hl' & Hct & _).
  assert (Hparse : (parse_short_packet dg' (length dg) (length (bs_dcid p)) largest kd hkd).2 = Ok parsed).
  { unfold parse_short_packet. rewrite (proj2 (Nat.leb_gt _ _)) by (rewrite Hdg, !length_app; simpl; lia).
    assert (Hr : get_range dg' (length dg + 1) (length dg + 1 + length (bs_dcid p)) = Some (bs_dcid p)).
    { replace dg' with ((dg ++ [f']) ++ bs_dcid p ++ pnb' ++ c ++ t) by (rewrite Hdg, <- !app_assoc; done).
      apply get_range_mid; rewrite length_app; simpl; lia. }
    rewrite Hr. destruct (unprotect_and_decrypt dg' _ _ _ _ _ _) as [d r]. simpl in Hu. subst r. simpl. by rewrite Hkp. }
  split; [done |]. rewrite parse_short_two_step in Hparse by apply (hp_dec_len _ _ HH).
  destruct (strip_short_header_protection dg' (length dg) (length (bs_dcid p)) hkd) as [dg'' [[kp first] | e]] eqn:Es; [| done].
  exists dg'', first. split; [| done].
  assert (kp = bs_key_phase p) as ->; [| done].
  apply strip_key_phase in Es as [Hlt ->]; [| apply (hp_dec_len _ _ HH)].
  unfold decrypt_short_packet_body in Hparse. repeat case_match; try done. by simplify_eq/=.
Qed.

End roundtrip_lemmas.

(** ** Lemmas: parsing keeps the datagram's length and makes progress *)

Section in_place.
Context {HeaderKey PacketKey : Type} `{PC : PacketCrypto HeaderKey PacketKey}.
Context (Hpk : forall k pn h b, length (pk_decrypt k pn h b).1 = length b).
Context (Hhp : forall k s f pn f' pn', hp_decrypt k s f pn = Some (f', pn') -> length pn' = length pn).

Lemma write_range_length l a xs :
  (a + length xs <= length l \/ length xs = 0)%nat -> length (write_range l a xs) = length l.
Proof. intros H. unfold write_range. rewrite !length_app, length_take, length_drop. lia. Qed.

Lemma write_range_grows l a xs : (length l <= length (write_range l a xs))%nat.
Proof. unfold write_range. rewrite !length_app, length_take, length_drop. lia. Qed.

Lemma finish_packet_grows dg lay payload (pk : PacketKey) (hk : HeaderKey) :
  (length dg <= length (finish_packet dg lay payload pk hk).1)%nat.
Proof.
  unfold finish_packet. destruct (pk_encrypt _ _ _ _) as [[c t] |]; [| done].
  assert (H : (length dg <= length ((dg ++ c) ++ t))%nat) by (rewrite !length_app; lia).
  destruct (get_range _ _ _); [| done]. destruct (hp_encrypt _ _ _ _) as [[f pn] |]; [| done]. cbn [fst].
  do 2 (etransitivity; [| apply write_range_grows]). done.
Qed.

Lemma put_varint_grows out v : (length out <= length (put_varint out v))%nat.
Proof. rewrite put_varint_app, length_app. lia. Qed.

Lemma build_short_grows dg p payload (pk : PacketKey) (hk : HeaderKey) :
  (length dg <= length (build_short_packet dg p payload pk hk).1)%nat.
Proof.
  unfold build_short_packet, encode_packet_number. cbv zeta.
  match goal with |- context [finish_packet ?d ?l ?y ?k ?h] =>
    pose proof (finish_packet_grows d l y k h) as H; destruct (finish_packet d l y k h) as [d' []] end;
    simpl in *; rewrite !length_app in H; lia.
Qed.

Lemma build_long_grows dg p payload (pk : PacketKey) (hk : HeaderKey) :
  (length dg <= length (build_long_packet dg p payload pk hk).1)%nat.
Proof.
  unfold build_long_packet, encode_packet_number. cbv zeta.
  match goal with |- context [finish_packet ?d ?l ?y ?k ?h] =>
    pose proof (finish_packet_grows d l y k h) as H; destruct (finish_packet d l y k h) as [d' []] end;
    cbn [fst] in *; rewrite length_app in H; (etransitivity; [| exact H]);
    (etransitivity; [| apply Nat.le_add_r]); (etransitivity; [| apply put_varint_grows]);
    case_decide; rewrite ?length_app; try (etransitivity; [| apply Nat.le_add_r]); try (etransitivity; [| apply put_varint_grows]);
    rewrite ?length_app; lia.
Qed.

Lemma get_range_inv l a b xs : get_range l a b = Some xs -> (a <= b <= length l)%nat /\ length xs = (b - a)%nat.
Proof.
  unfold get_range. destruct (Nat.leb_spec a b); [| done]. destruct (Nat.leb_spec b (length l)); [| done].
  intros [= <-]. split; [lia |]. unfold slice. rewrite length_take, length_drop. lia.
Qed.

(** Removing header protection in place. *)
Lemma unmask_length dg start pno (hk : HeaderKey) s x f' pnf' :
  take pno dg !! start = Some x ->
  hp_decrypt hk s x (take (Nat.min (length (drop pno dg)) 4) (drop pno dg)) = Some (f', pnf') ->
  length (write_range (write_range dg start [f']) pno pnf') = length dg.
Proof.
  intros Hx%lookup_lt_Some Hh%Hhp. rewrite length_take in Hx. rewrite length_take, length_drop in Hh.
  assert (H1 : length (write_range dg start [f']) = length dg) by (apply write_range_length; simpl; lia).
  rewrite write_range_length; [done | lia].
Qed.

Lemma unprotect_progress dg start pno pend largest (pk : PacketKey) (hk : HeaderKey) dg' r :
  unprotect_and_decrypt dg start pno pend largest pk hk = (dg', Ok r) ->
  length dg' = length dg /\ (pno < pend)%nat.
Proof.
  unfold unprotect_and_decrypt, HP_SAMPLE_OFFSET.
  destruct (Nat.ltb_spec pend (pno + 4 + Z.to_nat (sample_len hk))); [done |].
  destruct (take pno dg !! start) as [x |] eqn:Ex; [| done].
  destruct (hp_decrypt _ _ _ _) as [[f' pnf'] |] eqn:Eh; [| done].
  pose proof (unmask_length _ _ _ _ _ _ _ _ Ex Eh) as Hl.
  destruct (get_range _ _ _) as [payload |] eqn:Eg; [| done]. apply get_range_inv in Eg as [Hb He].
  match goal with |- context [pk_decrypt ?k ?p ?h ?b] => pose proof (Hpk k p h b) as Hd; destruct (pk_decrypt k p h b) as [b' [pl |]] end;
    [| done]. simpl in Hd. intros [= <- _]. split; [| lia].
  rewrite write_range_length; lia.
Qed.

Lemma parse_long_progress dg off v largest (pk : PacketKey) (hk : HeaderKey) dg' parsed :
  parse_long_packet dg off v largest pk hk = (dg', Ok parsed) ->
  length dg' = length dg /\ (off < pp_consumed parsed)%nat.
Proof.
  unfold parse_long_packet. destruct (dg !! off) as [first |]; [| done].
  destruct (parse_long_header dg off first) as [l | e] eqn:El; [| done].
  destruct (negb _); [done |].
  destruct (unprotect_and_decrypt _ _ _ _ _ _ _) as [d [[[pn pl] f] | e]] eqn:Eu; [| done].
  intros [= <- <-]. apply unprotect_progress in Eu as [Hl Hp]. split; [done |]. simpl.
  assert (off <= lh_pn_offset l)%nat; [| lia].
  unfold parse_long_header in El. revert El. cbv zeta.
  repeat (let x := fresh in let b := fresh "b" in let e := fresh in
          match goal with
          | |- (packet_error_from_codec ?m ≫= _) = _ -> _ =>
              destruct m as [[x b] | e]; [cbn [packet_error_from_codec map_err mbind result_bind] | done]
          | |- (if ?t then _ else _) = _ -> _ => destruct t; [done |]
          end).
  match goal with |- (?m ≫= _) = _ -> _ => destruct m as [bv | e]; [cbn [mbind result_bind] | done] end.
  destruct (get_varint bv) as [[n bw] | e]; [cbn [packet_error_from_codec map_err mbind result_bind] | done].
  destruct (ok_or _ _) as [pe | e]; [cbn [mbind result_bind] | done]. destruct (len dg <? pe); [done |].
  intros [= <-]. cbn [lh_pn_offset]. unfold position. lia.
Qed.

Lemma strip_length dg off n (hk : HeaderKey) dg' r :
  strip_short_header_protection dg off n hk = (dg', Ok r) -> length dg' = length dg /\ (off < length dg)%nat.
Proof.
  unfold strip_short_header_protection. destruct (Nat.leb_spec (length dg) off); [done |]. destruct (_ <? _)%nat; [done |].
  destruct (take _ dg !! off) as [x |] eqn:Ex; [| done]. destruct (hp_decrypt _ _ _ _) as [[f' pnf'] |] eqn:Eh; [| done].
  intros [= <- _]. split; [| done]. by eapply unmask_length.
Qed.

(** Decryption in place keeps the length whatever the outcome. *)
Lemma decrypt_short_progress dg off n largest (pk : PacketKey) dg' r :
  decrypt_short_packet_body dg off n largest pk = (dg', r) ->
  length dg' = length dg /\ match r with Ok parsed => pp_consumed parsed = length dg | Err _ => True end.
Proof.
  unfold decrypt_short_packet_body. destruct (length dg <=? off)%nat; [by intros [= <- <-] |].
  destruct (get_range dg _ _) as [dcid |]; [cbv zeta | by intros [= <- <-]].
  destruct (_ <? _)%nat; [by intros [= <- <-] |].
  destruct (get_range dg _ (length dg)) as [payload |] eqn:Eg; [| by intros [= <- <-]].
  apply get_range_inv in Eg as [Hb He].
  match goal with |- context [pk_decrypt ?k ?p ?h ?b] => pose proof (Hpk k p h b) as Hd; destruct (pk_decrypt k p h b) as [b' [pl |]] end;
    simpl in Hd; intros [= <- <-]; (rewrite write_range_length; [done | lia]).
Qed.

(** The plaintext is a byte string within the datagram. *)
Context (Hplain : forall k pn h b p, (pk_decrypt k pn h b).2 = Some p -> bytes_ok p /\ (length p <= length b)%nat).

Lemma unprotect_payload dg start pno pend largest (pk : PacketKey) (hk : HeaderKey) dg' pn plain f :
  unprotect_and_decrypt dg start pno pend largest pk hk = (dg', Ok (pn, plain, f)) ->
  bytes_ok plain /\ (length plain <= length dg)%nat.
Proof.
  unfold unprotect_and_decrypt, HP_SAMPLE_OFFSET. destruct (_ <? _)%nat; [done |].
  destruct (take pno dg !! start) as [x |] eqn:Ex; [| done].
  destruct (hp_decrypt _ _ _ _) as [[f' pnf'] |] eqn:Eh; [| done].
  pose proof (unmask_length _ _ _ _ _ _ _ _ Ex Eh) as Hl.
  destruct (get_range _ _ _) as [payload |] eqn:Eg; [| done]. apply get_range_inv in Eg as [Hb He].
  match goal with |- context [pk_decrypt ?k ?p ?h ?b] => pose proof (Hplain k p h b) as Hd; destruct (pk_decrypt k p h b) as [b' [pl |]] end;
    [| done]. specialize (Hd pl eq_refl) as [H1 H2]. intros [= _ _ <- _]. split; [done | lia].
Qed.

Lemma parse_long_payload dg off v largest (pk : PacketKey) (hk : HeaderKey) dg' parsed :
  parse_long_packet dg off v largest pk hk = (dg', Ok parsed) ->
  bytes_ok (pp_payload parsed) /\ (length (pp_payload parsed) <= length dg)%nat.
Proof.
  unfold parse_long_packet. destruct (dg !! off) as [first |]; [| done].
  destruct (parse_long_header dg off first) as [l | e]; [| done]. destruct (negb _); [done |].
  destruct (unprotect_and_decrypt _ _ _ _ _ _ _) as [d [[[pn pl] f] | e]] eqn:Eu; [| done].
  intros [= <- <-]. by eapply unprotect_payload.
Qed.

Lemma decrypt_short_payload dg off n largest (pk : PacketKey) dg' parsed :
  decrypt_short_packet_body dg off n largest pk = (dg', Ok parsed) ->
  bytes_ok (pp_payload parsed) /\ (length (pp_payload parsed) <= length dg)%nat.
Proof.
  unfold decrypt_short_packet_body. destruct (length dg <=? off)%nat; [done |].
  destruct (get_range dg _ _) as [dcid |]; [cbv zeta | done]. destruct (_ <? _)%nat; [done |].
  destruct (get_range dg _ (length dg)) as [payload |] eqn:Eg; [| by repeat case_match].
  apply get_range_inv in Eg as [Hb He].
  match goal with |- context [pk_decrypt ?k ?p ?h ?b] => pose proof (Hplain k p h b) as Hd; destruct (pk_decrypt k p h b) as [b' [pl |]] end;
    [| done]. specialize (Hd pl eq_refl) as [H1 H2]. intros [= _ <-]. simpl. split; [done | lia].
Qed.

End in_place.

(** What the parsers return came out of the cipher. *)
Section opened.
Context {HeaderKey PacketKey : Type} `{PC : PacketCrypto HeaderKey PacketKey}.
Context (Q : list Z -> Prop) (Hopen : forall k pn h b p, (pk_decrypt k pn h b).2 = Some p -> Q p).

Lemma parse_long_opened dg off v largest (pk : PacketKey) (hk : HeaderKey) dg' parsed :
  parse_long_packet dg off v largest pk hk = (dg', Ok parsed) -> Q (pp_payload parsed).
Proof.
  unfold parse_long_packet. destruct (dg !! off) as [first |]; [| done].
  destruct (parse_long_header dg off first) as [l | e]; [| done]. destruct (negb _); [done |].
  unfold unprotect_and_decrypt. destruct (_ <? _)%nat; [done |]. destruct (take _ _ !! _) as [x |]; [| done].
  destruct (hp_decrypt _ _ _ _) as [[f' pnf'] |]; [| done]. destruct (get_range _ _ _) as [payload |]; [| done].
  match goal with |- context [pk_decrypt ?k ?p ?h ?b] => pose proof (Hopen k p h b) as Hd; destruct (pk_decrypt k p h b) as [b' [pl |]] end;
    [| done]. intros [= _ <-]. by apply Hd.
Qed.

Lemma decrypt_short_opened dg off n largest (pk : PacketKey) dg' parsed :
  decrypt_short_packet_body dg off n largest pk = (dg', Ok parsed) -> Q (pp_payload parsed).
Proof.
  unfold decrypt_short_packet_body. destruct (length dg <=? off)%nat; [done |].
  destruct (get_range dg _ _) as [dcid |]; [cbv zeta | done]. destruct (_ <? _)%nat; [done |].
  destruct (get_range dg _ (length dg)) as [payload |]; [| by repeat case_match].
  match goal with |- context [pk_decrypt ?k ?p ?h ?b] => pose proof (Hopen k p h b) as Hd; destruct (pk_decrypt k p h b) as [b' [pl |]] end;
    [| done]. intros [= _ <-]. by apply Hd.
Qed.

End opened.

(** A long packet is routed and parsed as it was built. *)
Lemma long_packet_opens {HK PK} `{PC : PacketCrypto HK PK} (ke kd : PK) (hke hkd : HK)
    dg p payload dg' n tl largest short_len :
  aead_pair ke kd -> hp_pair hke hkd -> long_params_ok p ->
  pn_in_window (bl_packet_number p) (bl_largest_acked p) largest ->
  4 - packet_number_len (bl_packet_number p) (bl_largest_acked p) <= len payload ->
  build_long_packet dg p payload ke hke = (dg', Ok n) ->
  len (dg' ++ tl) <= VARINT_MAX ->
  take (length dg) dg' = dg /\ n = len dg' - len dg /\
  peek_dcid (drop (length dg) (dg' ++ tl)) short_len = Ok (packet_type_of (bl_long_type p), bl_dcid p) /\
  (parse_long_packet (dg' ++ tl) (length dg) (bl_version p) largest kd hkd).2
  = Ok (mkParsed (packet_type_of (bl_long_type p)) (bl_scid p) (bl_dcid p) (bl_packet_number p) payload
          (length dg') false).
Proof.
  intros HA HH Hp Hpn Hpay Hb Hmax.
  destruct (long_packet_layout _ _ _ _ _ _ _ _ _ tl largest HA HH Hp Hpn Hpay Hb Hmax)
    as (f' & X & Hn & Hdt & Htake & Hhigh & Hphl & Hu).
  destruct Hp as (Hv & Hv0 & Hd & Hs). split_and!; [done | done | |].
  - rewrite Hdt, drop_app_length. rewrite <- (packet_type_high f' (bl_long_type p) (bl_version p) Hv0 Hhigh).
    assert (HVM : VARINT_MAX < u64_MAX) by (vm_compute; congruence).
    apply peek_long_prefix; [done | lia | lia | |].
    + rewrite Hdt, length_app in Hmax. lia.
    + intros E0. assert (H80 : Z.land f' 0x80 = Z.land (0xc0 + 16 * type_bits (bl_long_type p)) 0x80)
        by (by rewrite <- Hhigh, <- Z.land_assoc).
      rewrite E0 in H80. by destruct (bl_long_type p).
  - unfold parse_long_packet.
    assert (Hlk : (dg' ++ tl) !! length dg = Some f') by (rewrite Hdt; by apply list_lookup_middle).
    rewrite Hlk, Hphl. cbn [lh_version lh_pn_offset lh_packet_end lh_packet_type lh_scid lh_dcid].
    rewrite Z.eqb_refl. simpl negb. cbv iota.
    destruct (unprotect_and_decrypt (dg' ++ tl) _ _ _ _ _ _) as [d r]. simpl in Hu. by subst r.
Qed.

(** ** Properties *)

(** C27: Long-header packets round-trip, coalesced or not: with matching keys, for
    every well-formed header and every payload that needs no sample padding, what
    [build_long_packet] appends to a datagram is routed by [peek_dcid] to its type
    and destination, and [parse_long_packet] at that offset, whatever follows,
    gives back type, connection IDs, full packet number and payload, and the offset
    of the next packet. *)
Theorem long_packet_roundtrip {HK PK} `{PC : PacketCrypto HK PK} (ke kd : PK) (hke hkd : HK)
    dg p payload dg' n tl largest short_len :
  aead_pair ke kd -> hp_pair hke hkd -> long_params_ok p ->
  pn_in_window (bl_packet_number p) (bl_largest_acked p) largest ->
  4 - packet_number_len (bl_packet_number p) (bl_largest_acked p) <= len payload ->
  build_long_packet dg p payload ke hke = (dg', Ok n) ->
  len (dg' ++ tl) <= VARINT_MAX ->
  take (length dg) dg' = dg /\ n = len dg' - len dg /\
  peek_dcid (drop (length dg) (dg' ++ tl)) short_len = Ok (packet_type_of (bl_long_type p), bl_dcid p) /\
  (parse_long_packet (dg' ++ tl) (length dg) (bl_version p) largest kd hkd).2
  = Ok (mkParsed (packet_type_of (bl_long_type p)) (bl_scid p) (bl_dcid p) (bl_packet_number p) payload
          (length dg') false).
Proof.
  intros HA HH Hp Hpn Hpay Hb Hmax.
  by apply (long_packet_opens ke kd hke hkd dg p payload dg' n tl largest short_len HA HH Hp Hpn Hpay Hb).
Qed.

(** A toy cipher for the witnesses: xor with the key byte, the packet number as the
    tag, and a fixed header mask. *)
Definition toy_mask_pn (first : Z) (pn : list Z) : list Z :=
  let n := Z.to_nat (Z.land first 0x03 + 1) in
  map (Z.lxor 0x5a) (take n pn) ++ drop n pn.

Definition all_u8 (l : list Z) : bool := forallb (fun x => (0 <=? x) && (x <? 256)) l.

#[export] Instance toy_crypto : PacketCrypto unit Z := {|
  tag_len _ := 16;
  pk_encrypt k pn h p := if all_u8 p then Some (map (Z.lxor k) p, replicate 16 (as_u8 pn)) else None;
  pk_decrypt k pn h b :=
    let n := (length b - 16)%nat in
    let plain := map (Z.lxor k) (take n b) in
    (b, if bool_decide (drop n b = replicate 16 (as_u8 pn)) && all_u8 plain then Some plain else None);
  sample_len _ := 16;
  hp_encrypt _ s f pn := Some (Z.lxor f 0x05, toy_mask_pn f pn);
  hp_decrypt _ s f pn := Some (Z.lxor f 0x05, toy_mask_pn (Z.lxor f 0x05) pn)
|}.

Lemma map_lxor_lxor k l : map (Z.lxor k) (map (Z.lxor k) l) = l.
Proof. induction l as [| x l IH]; [done |]. simpl. by rewrite IH, <- Z.lxor_assoc, Z.lxor_nilpotent, Z.lxor_0_l. Qed.

Lemma all_u8_bytes l : all_u8 l = true -> bytes_ok l.
Proof.
  unfold all_u8, bytes_ok. rewrite forallb_forall, Forall_forall. intros H x Hx%list_elem_of_In%H. unfold is_u8. lia.
Qed.

Lemma toy_aead_pair k : aead_pair k k.
Proof.
  assert (Hc : forall pn h p c t, pk_encrypt k pn h p = Some (c, t) ->
    all_u8 p = true /\ c = map (Z.lxor k) p /\ t = replicate 16 (as_u8 pn)).
  { intros pn h p c t. cbn [pk_encrypt toy_crypto]. destruct (all_u8 p); [| done]. by intros [= <- <-]. }
  split; [done | |]; intros pn h p c t (Hp & -> & Ht)%Hc.
  - by rewrite length_map, Ht.
  - assert (Hl : length t = 16%nat) by by rewrite Ht.
    cbn [pk_decrypt toy_crypto snd].
    rewrite length_app, Hl, Nat.add_sub, drop_app_length, take_app_length, bool_decide_true by done.
    by rewrite map_lxor_lxor, Hp.
Qed.

Lemma toy_plaintext k pn h b p :
  (pk_decrypt (PacketCrypto := toy_crypto) k pn h b).2 = Some p -> bytes_ok p /\ (length p <= length b)%nat.
Proof.
  cbn [pk_decrypt toy_crypto snd]. destruct (bool_decide _); [| done]. destruct (all_u8 _) eqn:E; [| done].
  intros [= <-]. split; [by apply all_u8_bytes |]. rewrite length_map, length_take. lia.
Qed.

Lemma toy_mask_pn_length f pn : length (toy_mask_pn f pn) = length pn.
Proof. unfold toy_mask_pn. rewrite length_app, length_map, length_take, length_drop. lia. Qed.

Lemma toy_hp_pair : hp_pair tt tt.
Proof.
  split; [done | | | | intros s f pn f' pn' [= <- <-]; apply toy_mask_pn_length].
  - intros s f pn f' pn' [= <- <-]. apply toy_mask_pn_length.
  - intros s f pn f' pn' [= <- _] Hf.
    assert (H : forallb (fun f => (Z.land (Z.lxor f 5) 0xe0 =? Z.land f 0xe0) && (Z.land (Z.lxor f 5) 0xf0 =? Z.land f 0xf0))
                  (map Z.of_nat (seq 0 256)) = true) by (vm_compute; reflexivity).
    rewrite forallb_forall in H. specialize (H f).
    assert (Hin : In f (map Z.of_nat (seq 0 256))).
    { apply in_map_iff. exists (Z.to_nat f). unfold is_u8 in Hf. split; [lia |]. apply in_seq. lia. }
    apply H in Hin. apply andb_prop in Hin as [?%Z.eqb_eq ?%Z.eqb_eq]. done.
  - intros s f pn f' pn' tl [= <- <-] Hn Hl. cbn [hp_decrypt toy_crypto].
    rewrite Z.lxor_assoc, Z.lxor_nilpotent, Z.lxor_0_r. f_equal. f_equal. unfold toy_mask_pn.
    rewrite <- Hn, Nat2Z.id, (take_ge pn), (drop_ge pn), app_nil_r by lia.
    rewrite <- (length_map (Z.lxor 0x5a) pn) at 1 2. by rewrite take_app_length, drop_app_length, map_lxor_lxor.
Qed.

Definition demo_long : BuildLong := mkBuildLong LT_Initial 1 [1; 2; 3] [4; 5] [9; 9; 9] 300 (Some 100).
Definition demo_payload : list Z := [6; 0; 2; 7; 8].
Definition demo_datagram : list Z := (build_long_packet [0xff] demo_long demo_payload 0x33 tt).1.

Lemma long_packet_roundtrip_witness :
  take (length [0xff]) demo_datagram = [0xff] /\ 40 = len demo_datagram - len [0xff] /\
  peek_dcid (drop (length [0xff]) (demo_datagram ++ [0xaa; 0xbb])) 8
    = Ok (packet_type_of (bl_long_type demo_long), bl_dcid demo_long) /\
  (parse_long_packet (demo_datagram ++ [0xaa; 0xbb]) (length [0xff]) (bl_version demo_long) (Some 299) 0x33 tt).2
  = Ok (mkParsed (packet_type_of (bl_long_type demo_long)) (bl_scid demo_long) (bl_dcid demo_long)
          (bl_packet_number demo_long) demo_payload (length demo_datagram) false).
Proof.
  apply (long_packet_roundtrip 0x33 0x33 tt tt [0xff] demo_long demo_payload demo_datagram 40 [0xaa; 0xbb] (Some 299) 8).
  - apply toy_aead_pair.
  - apply toy_hp_pair.
  - eapply bool_decide_unpack. vm_compute. exact I.
  - unfold pn_in_window. vm_compute. repeat split; congruence.
  - vm_compute. congruence.
  - vm_compute. reflexivity.
  - vm_compute. congruence.
Defined.

(** Short-header (1-RTT) packets round-trip through the key-update receive
    path: with matching keys, stripping header protection from what
    [build_short_packet] appended yields the sender's key phase, and decrypting the
    body gives back the destination ID, the full packet number, the key phase and
    the payload (followed by the PADDING bytes a short payload needs for the
    header-protection sample); the one-step parser gives the same. *)
Theorem short_packet_roundtrip {HK PK} `{PC : PacketCrypto HK PK} (ke kd : PK) (hke hkd : HK)
    dg p payload dg' n largest :
  aead_pair ke kd -> hp_pair hke hkd ->
  pn_in_window (bs_packet_number p) (bs_largest_acked p) largest ->
  build_short_packet dg p payload ke hke = (dg', Ok n) ->
  let k := packet_number_len (bs_packet_number p) (bs_largest_acked p) in
  let parsed := mkParsed PT_Short [] (bs_dcid p) (bs_packet_number p) (padded (Z.to_nat k) payload)
                  (length dg') (bs_key_phase p) in
  (parse_short_packet dg' (length dg) (length (bs_dcid p)) largest kd hkd).2 = Ok parsed /\
  exists dg'' first,
    strip_short_header_protection dg' (length dg) (length (bs_dcid p)) hkd = (dg'', Ok (bs_key_phase p, first)) /\
    (decrypt_short_packet_body dg'' (length dg) (length (bs_dcid p)) largest kd).2 = Ok parsed.
Proof. intros HA HH Hpn Hb. by apply (short_packet_opens ke kd hke hkd dg p payload dg' n largest). Qed.

Definition demo_short : BuildShort := mkBuildShort [1; 2; 3; 4] 7 (Some 5) true.
Definition demo_short_datagram : list Z := (build_short_packet [] demo_short [1] 0x33 tt).1.
Definition demo_short_parsed : ParsedPacket := mkParsed PT_Short [] [1; 2; 3; 4] 7 [1; 0; 0] 25 true.

Lemma short_packet_roundtrip_witness :
  (parse_short_packet demo_short_datagram 0 4 (Some 6) 0x33 tt).2 = Ok demo_short_parsed /\
  exists dg'' first,
    strip_short_header_protection demo_short_datagram 0 4 tt = (dg'', Ok (true, first)) /\
    (decrypt_short_packet_body dg'' 0 4 (Some 6) 0x33).2 = Ok demo_short_parsed.
Proof.
  apply (short_packet_roundtrip 0x33 0x33 tt tt [] demo_short [1] demo_short_datagram 25 (Some 6)).
  - apply toy_aead_pair.
  - apply toy_hp_pair.
  - unfold pn_in_window. vm_compute. repeat split; congruence.
  - vm_compute. reflexivity.
Defined.

(** The Length field of a long packet does not count the sample padding: when
    the payload is so short that [finish_packet] pads it, [build_long_packet] still
    succeeds, but the packet it produced does not parse, not even with the matching
    keys ([Truncated]). *)
Theorem long_packet_padding_not_counted {HK PK} `{PC : PacketCrypto HK PK} (ke kd : PK) (hke hkd : HK)
    dg p payload dg' n largest :
  aead_pair ke kd -> hp_pair hke hkd -> long_params_ok p ->
  len payload < 4 - packet_number_len (bl_packet_number p) (bl_largest_acked p) ->
  build_long_packet dg p payload ke hke = (dg', Ok n) ->
  len dg' <= VARINT_MAX ->
  parse_long_packet dg' (length dg) (bl_version p) largest kd hkd = (dg', Err PE_Truncated).
Proof.
  intros HA HH Hp Hshort Hb Hmax. destruct (build_long_concat _ _ _ _ _ _ _ Hb) as [Hf ->].
  set (k := packet_number_len _ _) in *. set (pnb := pn_bytes _ _) in *.
  destruct (pnb_facts (bl_packet_number p) (bl_largest_acked p)) as [Hk Hk4]. fold k pnb in Hk, Hk4.
  pose proof (packet_number_len_range (bl_packet_number p) (bl_largest_acked p)) as Hkr. fold k in Hkr.
  destruct (long_first_facts (bl_long_type p) k Hkr) as (Hu8 & Hfk & Hf80 & Hff0).
  destruct (finish_packet_shape _ _ _ _ _ _ _ _ _ _ _ HA HH Hk4 Hf) as (f' & pnb' & c & t & Hdg & Hl' & Hct & _ & Hhp).
  destruct (hp_high _ _ HH _ _ _ _ _ Hhp Hu8) as [_ Hhigh]. specialize (Hhigh Hf80). rewrite Hff0 in Hhigh.
  rewrite (ap_tag _ _ HA) in *. set (length_ := k + len payload + 16) in *.
  rewrite <- app_assoc in Hdg. cbn [app] in Hdg. unfold padded in Hct. rewrite !length_app, length_replicate in Hct.
  rewrite Hdg in *. unfold parse_long_packet. rewrite list_lookup_middle by done.
  assert (HVM : 100 <= VARINT_MAX) by (vm_compute; congruence).
  rewrite parse_long_header_mid; [| done | done | unfold is_varint; lia | rewrite !length_app; lia | done].
  cbn [lh_version lh_pn_offset lh_packet_end lh_packet_type lh_scid lh_dcid].
  rewrite Z.eqb_refl. simpl negb. cbv iota. unfold unprotect_and_decrypt, HP_SAMPLE_OFFSET.
  destruct (hp_sample _ _ HH) as [_ ->]. change (Z.to_nat 16) with 16%nat.
  rewrite (proj2 (Nat.ltb_lt _ _)) by lia. done.
Qed.

Definition demo_ping : BuildLong := mkBuildLong LT_Handshake 1 [1; 2; 3] [4; 5] [] 0 None.
Definition demo_ping_datagram : list Z := (build_long_packet [] demo_ping [1] 0x33 tt).1.

Lemma long_packet_padding_not_counted_witness :
  parse_long_packet demo_ping_datagram (length (@nil Z)) 1 None 0x33 tt = (demo_ping_datagram, Err PE_Truncated).
Proof.
  apply (long_packet_padding_not_counted 0x33 0x33 tt tt [] demo_ping [1] demo_ping_datagram 33 None).
  - apply toy_aead_pair.
  - apply toy_hp_pair.
  - eapply bool_decide_unpack. vm_compute. exact I.
  - reflexivity.
  - vm_compute. reflexivity.
  - vm_compute. congruence.
Defined.

(** *** Version Negotiation and Retry *)

Lemma fold_versions vs buf : fold_left (fun buf v => buf ++ be32 v) vs buf = buf ++ concat (map be32 vs).
Proof.
  revert buf. induction vs as [| v vs IH]; intros buf; simpl; [by rewrite app_nil_r |].
  by rewrite IH, <- app_assoc.
Qed.

Lemma get_versions_be32 vs acc b :
  Forall is_u32 vs -> rest b = concat (map be32 vs) -> get_versions (length vs) acc b = Some (acc ++ vs).
Proof.
  revert acc b. induction vs as [| v vs IH]; intros acc b Hv Hr; [simpl; by rewrite app_nil_r |].
  apply Forall_cons in Hv as [Hv Hvs]. simpl in Hr. cbn [get_versions length].
  rewrite (get_u32_be32 v b _ Hv Hr). cbn.
  rewrite IH; [by rewrite <- app_assoc | done | by rewrite rest_advance, Hr].
Qed.

(** Version Negotiation round-trips: for connection IDs of at most 255 bytes and
    any list of 32-bit versions, decoding what was encoded gives the list back, and
    the packet is routed to the client by the echoed source ID. *)
Theorem version_negotiation_roundtrip scid dcid vs k :
  len scid < 256 -> len dcid < 256 -> Forall is_u32 vs ->
  len (encode_version_negotiation scid dcid vs) <= VARINT_MAX ->
  decode_version_negotiation (encode_version_negotiation scid dcid vs) = Some vs /\
  peek_dcid (encode_version_negotiation scid dcid vs) k = Ok (PT_VersionNegotiation, scid).
Proof.
  intros Hs Hd Hvs Hmax.
  assert (E : encode_version_negotiation scid dcid vs = long_prefix 0x80 0 scid dcid (concat (map be32 vs))).
  { unfold encode_version_negotiation. rewrite fold_versions. unfold long_prefix.
    repeat (rewrite <- !app_assoc; simpl). done. }
  assert (HVM : VARINT_MAX < u64_MAX) by (vm_compute; congruence).
  rewrite E in *. split; [| apply peek_long_prefix; [vm_compute; split; congruence | done | done | lia | done]].
  destruct (read_long_prefix 0x80 0 scid dcid (concat (map be32 vs))) as (E1 & E2 & E3 & E4 & E5 & E6 & Hr);
    [vm_compute; split; congruence | done | done | lia |].
  unfold decode_version_negotiation. unfold mbind, option_bind.
  rstep E1. rewrite (proj2 (Z.eqb_neq _ _)) by done. rstep E2. change (negb (0 =? 0)) with false. cbv iota.
  rstep E3. rstep E4. rstep E5. rstep E6.
  assert (Hlc : length (concat (map be32 vs)) = (4 * length vs)%nat).
  { clear. induction vs as [| v vs IH]; [done |]. simpl. rewrite IH. lia. }
  assert (Hlen : len (long_prefix 0x80 0 scid dcid (concat (map be32 vs)))
                 - position (mkBuf (long_prefix 0x80 0 scid dcid (concat (map be32 vs))) (7 + length scid + length dcid))
                 = 4 * len vs).
  { unfold position, long_prefix. cbn [buf_pos]. simpl length. rewrite !length_app. simpl length.
    rewrite !length_app, Hlc. lia. }
  rewrite Hlen. rewrite (Z.mul_comm 4), Z.mod_mul, Z.div_mul, Nat2Z.id by lia. simpl negb. cbv iota.
  by rewrite (get_versions_be32 vs []).
Qed.

Lemma version_negotiation_roundtrip_witness :
  decode_version_negotiation (encode_version_negotiation [1; 2] [3] [1; 0x6b3343cf]) = Some [1; 0x6b3343cf] /\
  peek_dcid (encode_version_negotiation [1; 2] [3] [1; 0x6b3343cf]) 8 = Ok (PT_VersionNegotiation, [1; 2]).
Proof.
  apply (version_negotiation_roundtrip [1; 2] [3] [1; 0x6b3343cf] 8).
  - reflexivity.
  - reflexivity.
  - eapply bool_decide_unpack. vm_compute. exact I.
  - vm_compute. congruence.
Defined.

(** The constant-time comparison decides equality of byte strings of one length. *)
Lemma ct_diff_acc xs ys d :
  length xs = length ys -> bytes_ok xs -> bytes_ok ys ->
  fold_left (fun diff ab => Z.lor diff (Z.lxor ab.1 ab.2)) (zip xs ys) d = 0 <-> d = 0 /\ xs = ys.
Proof.
  revert ys d. induction xs as [| x xs IH]; intros [| y ys] d Hl Hx Hy; try done; [simpl; split; [done | by intros [? _]] |].
  apply Forall_cons in Hx as [Hx Hxs]. apply Forall_cons in Hy as [Hy Hys]. injection Hl as Hl.
  simpl. rewrite IH by done. rewrite Z.lor_eq_0_iff, Z.lxor_eq_0_iff.
  split; [by intros [[-> ->] ->] | by intros [-> [= -> ->]]].
Qed.

Lemma retry_tag_shape seal odcid body tag :
  (forall k n m a t, seal k n m a = Some t -> bytes_ok t) ->
  compute_retry_integrity_tag seal odcid body = Some tag -> length tag = 16%nat /\ bytes_ok tag.
Proof.
  intros Hseal. unfold compute_retry_integrity_tag, mbind, option_bind.
  destruct (seal _ _ _ _) as [x |] eqn:Es; [| done].
  destruct (Z.eqb_spec (len x) 16); [| done]. intros [= <-]. split; [lia | by eapply Hseal].
Qed.

Lemma parse_retry_prefix dcid scid token tag :
  len scid < 256 -> len dcid < 256 -> length tag = 16%nat ->
  len (long_prefix 0xf1 1 dcid scid (token ++ tag)) <= VARINT_MAX ->
  parse_retry_packet (long_prefix 0xf1 1 dcid scid (token ++ tag)) = Some (scid, dcid, token).
Proof.
  intros Hs Hd Htl Hmax. assert (HVM : VARINT_MAX < u64_MAX) by (vm_compute; congruence).
  destruct (read_long_prefix 0xf1 1 dcid scid (token ++ tag)) as (E1 & E2 & E3 & E4 & E5 & E6 & Hr);
    [vm_compute; split; congruence | done | done | lia |].
  assert (HL : length (long_prefix 0xf1 1 dcid scid (token ++ tag))
               = (7 + length dcid + length scid + length token + 16)%nat).
  { unfold long_prefix. cbn [length app be32]. rewrite length_app. cbn [length]. rewrite !length_app. lia. }
  set (L := long_prefix _ _ _ _ _) in *. clearbody L.
  unfold parse_retry_packet. rewrite (proj2 (Z.ltb_ge _ _)) by lia. unfold mbind, option_bind.
  rstep E1. change ((Z.land 0xf1 0x80 =? 0) || negb (Z.land 0xf1 0x30 =? 0x30)) with false. cbv iota.
  rstep E2. change (negb (1 =? 0x00000001)) with false. cbv iota.
  rstep E3. rstep E4. rstep E5. rstep E6. unfold position. cbn [buf_pos].
  rewrite (proj2 (Z.ltb_ge _ _)) by lia. rewrite Nat2Z.id, HL.
  unfold slice. unfold rest in Hr. cbn [buf_pos buf_bytes] in Hr. rewrite Hr.
  replace (7 + length dcid + length scid + length token + 16 - 16 - (7 + length dcid + length scid))%nat
    with (length token) by lia. by rewrite take_app_length.
Qed.

Lemma encode_retry_shape seal scid dcid odcid token pkt :
  encode_retry_packet seal scid dcid odcid token = Some pkt ->
  exists tag, length tag = 16%nat /\ pkt = long_prefix 0xf1 1 dcid scid (token ++ tag).
Proof.
  unfold encode_retry_packet, compute_retry_integrity_tag, mbind, option_bind.
  destruct (seal _ _ _ _) as [tag |]; [| done]. destruct (Z.eqb_spec (len tag) 16); cbn [negb]; [| done].
  intros [= <-]. exists tag. split; [lia |]. unfold long_prefix. repeat (rewrite <- !app_assoc; simpl). done.
Qed.

(** Retry packets are authentic and parse: for a cipher with byte-string tags, an
    encoded Retry parses back to its IDs and token and verifies under the original
    destination ID; and any packet of at least sixteen bytes verifies exactly when
    its last sixteen bytes are the tag computed over the rest, so the constant-time
    comparison loop decides equality. *)
Theorem retry_roundtrip seal scid dcid odcid token pkt :
  (forall k n m a t, seal k n m a = Some t -> bytes_ok t) ->
  len scid < 256 -> len dcid < 256 -> bytes_ok pkt -> len pkt <= VARINT_MAX ->
  encode_retry_packet seal scid dcid odcid token = Some pkt ->
  parse_retry_packet pkt = Some (scid, dcid, token) /\
  verify_retry_integrity_tag seal odcid pkt = true /\
  forall q, bytes_ok q -> 16 <= len q ->
    verify_retry_integrity_tag seal odcid q = true <->
    compute_retry_integrity_tag seal odcid (take (length q - 16) q) = Some (drop (length q - 16) q).
Proof.
  intros Hseal Hs Hd Hb Hmax He.
  assert (Hiff : forall q, bytes_ok q -> 16 <= len q ->
    verify_retry_integrity_tag seal odcid q = true <->
    compute_retry_integrity_tag seal odcid (take (length q - 16) q) = Some (drop (length q - 16) q)).
  { intros q Hq Hq16. unfold verify_retry_integrity_tag. rewrite (proj2 (Z.ltb_ge _ _)) by lia.
    destruct (compute_retry_integrity_tag seal odcid _) as [tag |] eqn:Et; [| done].
    destruct (retry_tag_shape _ _ _ _ Hseal Et) as [Hl Ht].
    rewrite Z.eqb_eq. unfold ct_diff. rewrite ct_diff_acc; [| rewrite length_drop; lia | done | by apply bytes_ok_drop].
    split; [by intros [_ ->] | by intros [= ->]]. }
  unfold encode_retry_packet, mbind, option_bind in He.
  match type of He with context [compute_retry_integrity_tag seal odcid ?B] => remember B as body eqn:Hbody in He end.
  destruct (compute_retry_integrity_tag seal odcid body) as [tag |] eqn:Et; [| done].
  assert (Hpkt : pkt = body ++ tag) by congruence. destruct (retry_tag_shape _ _ _ _ Hseal Et) as [Htl _].
  split; [| split; [| done]].
  - assert (E : pkt = long_prefix 0xf1 1 dcid scid (token ++ tag)).
    { rewrite Hpkt, Hbody. unfold long_prefix. repeat (rewrite <- !app_assoc; simpl). done. }
    rewrite E in Hmax |- *. by apply parse_retry_prefix.
  - assert (Hl : length pkt = (length body + 16)%nat) by (rewrite Hpkt, length_app; lia).
    apply Hiff; [done | lia |]. rewrite Hl, Nat.add_sub, Hpkt, take_app_length, drop_app_length. done.
Qed.

Definition toy_seal (k n m a : list Z) : option (list Z) :=
  Some (replicate 16 (as_u8 (fold_left Z.add (k ++ n ++ m ++ a) 0))).

Lemma toy_seal_bytes k n m a t : toy_seal k n m a = Some t -> bytes_ok t.
Proof. intros [= <-]. repeat (constructor; [apply as_u8_range |]). constructor. Qed.

Definition demo_retry : list Z := default [] (encode_retry_packet toy_seal [1; 2] [3] [9; 8; 7] [5; 5; 5]).

Lemma retry_roundtrip_witness :
  parse_retry_packet demo_retry = Some ([1; 2], [3], [5; 5; 5]) /\
  verify_retry_integrity_tag toy_seal [9; 8; 7] demo_retry = true /\
  forall q, bytes_ok q -> 16 <= len q ->
    verify_retry_integrity_tag toy_seal [9; 8; 7] q = true <->
    compute_retry_integrity_tag toy_seal [9; 8; 7] (take (length q - 16) q) = Some (drop (length q - 16) q).
Proof.
  apply (retry_roundtrip toy_seal [1; 2] [3] [9; 8; 7] [5; 5; 5] demo_retry).
  - apply toy_seal_bytes.
  - reflexivity.
  - reflexivity.
  - eapply bool_decide_unpack. vm_compute. exact I.
  - vm_compute. congruence.
  - vm_compute. reflexivity.
Defined.
