(* ===== verification/QuicCrypto.v ===== *)
(** * Packet and header protection keys ([oxiquic-crypto/src/quic.rs])

    The implementation of the cipher interface [PacketCrypto] that the packet code
    is written against: the header-protection mask and its application, sealing and
    opening with the per-packet nonce, and the three cipher suites.

    The block ciphers, the AEADs and rustls' nonce construction are outside the
    repository: they are the class [Primitives], and [LawfulPrimitives] states their
    documented behaviour (block and tag sizes, decryption in place undoing
    encryption).  The theorem discharges, for every suite and key, the laws
    [aead_pair] and [hp_pair] the theorems on packets assume. *)

From S2P Require Import Prelude CoreTypes Coding Packet.

Definition SAMPLE_LEN : nat := 16.
Definition MASK_LEN : nat := 5.
Definition TAG_LEN : nat := 16.

Inductive HpKind := HpAes128 | HpAes256 | HpChaCha20.
Inductive AeadKind := Aes128Gcm | Aes256Gcm | ChaCha20Poly1305.

(** [aes128_encrypt_block] and friends ([oxicrypto::cipher]), the AEAD ciphers
    ([aes_gcm], [chacha20poly1305]) and [Nonce::new] of rustls. *)
Class Primitives := {
  aes128_encrypt_block : list Z -> list Z -> option (list Z);
  aes256_encrypt_block : list Z -> list Z -> option (list Z);
  chacha20_keystream_block : list Z -> Z -> list Z -> nat -> option (list Z);
  Cipher : AeadKind -> Type;
  new_from_slice : forall k, list Z -> option (Cipher k);
  encrypt_in_place_detached : forall {k}, Cipher k -> list Z -> list Z -> list Z -> option (list Z * list Z);
  decrypt_in_place_detached : forall {k}, Cipher k -> list Z -> list Z -> list Z -> list Z -> list Z * bool;
  nonce_new : list Z -> Z -> list Z
}.

Class LawfulPrimitives (P : Primitives) : Prop := {
  aes128_block_len : forall key b out, aes128_encrypt_block key b = Some out -> length out = SAMPLE_LEN;
  aes256_block_len : forall key b out, aes256_encrypt_block key b = Some out -> length out = SAMPLE_LEN;
  chacha20_block_len : forall key n nonce l out, chacha20_keystream_block key n nonce l = Some out -> length out = l;
  seal_len : forall k (c : Cipher k) n aad p ct tag,
    encrypt_in_place_detached c n aad p = Some (ct, tag) -> length ct = length p /\ length tag = TAG_LEN;
  open_len : forall k (c : Cipher k) n aad ct tag, length (decrypt_in_place_detached c n aad ct tag).1 = length ct;
  open_bytes : forall k (c : Cipher k) n aad ct tag p,
    decrypt_in_place_detached c n aad ct tag = (p, true) -> bytes_ok p;
  open_seal : forall k (c : Cipher k) n aad p ct tag,
    encrypt_in_place_detached c n aad p = Some (ct, tag) -> decrypt_in_place_detached c n aad ct tag = (p, true)
}.

Section suites.
Context {P : Primitives}.

(** ** Header protection *)

Record HpKey := mkHpKey { hp_key : list Z; hp_kind : HpKind }.

(** [u32::from_le_bytes]. *)
Definition le32 (b : list Z) : Z :=
  nth 0 b 0 + Z.shiftl (nth 1 b 0) 8 + Z.shiftl (nth 2 b 0) 16 + Z.shiftl (nth 3 b 0) 24.

Definition mask (k : HpKey) (sample : list Z) : option (list Z) :=
  if (length sample <? SAMPLE_LEN)%nat then None
  else match hp_kind k with
       | HpAes128 => block ← aes128_encrypt_block (hp_key k) (take SAMPLE_LEN sample); Some (take MASK_LEN block)
       | HpAes256 => block ← aes256_encrypt_block (hp_key k) (take SAMPLE_LEN sample); Some (take MASK_LEN block)
       | HpChaCha20 =>
           chacha20_keystream_block (hp_key k) (le32 sample) (slice sample 4 SAMPLE_LEN) MASK_LEN
       end.

(** [for (dst, m) in packet_number.iter_mut().zip(pn_mask).take(n) { *dst ^= *m }]. *)
Fixpoint xor_zip (n : nat) (dst m : list Z) : list Z :=
  match n, dst, m with
  | S n, d :: dst, x :: m => Z.lxor d x :: xor_zip n dst m
  | _, _, _ => dst
  end.

Definition xor_in_place (k : HpKey) (sample : list Z) (first : Z) (packet_number : list Z) (masked : bool)
    : option (Z * list Z) :=
  m ← mask k sample;
  match m with
  | [] => None
  | first_mask :: pn_mask =>
      if (length pn_mask <? length packet_number)%nat then None
      else
        let bits := if Z.land first 0x80 =? 0x80 then 0x0f else 0x1f in
        let first_plain := if masked then Z.lxor first (Z.land first_mask bits) else first in
        let pn_len := Z.to_nat (Z.land first_plain 0x03 + 1) in
        Some (Z.lxor first (Z.land first_mask bits), xor_zip pn_len packet_number pn_mask)
  end.

(** ** Packet protection *)

Inductive PacketAead := AeadCipher (k : AeadKind) (c : Cipher k) | AeadInvalid.
Record QuicPacketKey := mkPacketKey { pk_aead : PacketAead; pk_iv : list Z }.

Definition packet_key_new (kind : AeadKind) (key iv : list Z) : QuicPacketKey :=
  mkPacketKey (match new_from_slice kind key with Some c => AeadCipher kind c | None => AeadInvalid end) iv.

Definition seal (k : QuicPacketKey) (packet_number : Z) (header payload : list Z) : option (list Z * list Z) :=
  match pk_aead k with
  | AeadCipher _ c => encrypt_in_place_detached c (nonce_new (pk_iv k) packet_number) header payload
  | AeadInvalid => None
  end.

(** The buffer as decryption leaves it, tag included, and the plaintext slice. *)
Definition open_packet (k : QuicPacketKey) (packet_number : Z) (header payload : list Z) : list Z * option (list Z) :=
  if (length payload <? TAG_LEN)%nat then (payload, None)
  else
    let split := (length payload - TAG_LEN)%nat in
    let ct := take split payload in
    let tag := drop split payload in
    match pk_aead k with
    | AeadCipher _ c =>
        let '(ct', ok) := decrypt_in_place_detached c (nonce_new (pk_iv k) packet_number) header ct tag in
        (ct' ++ tag, if ok : bool then Some ct' else None)
    | AeadInvalid => (payload, None)
    end.

Definition confidentiality_limit (k : QuicPacketKey) : Z :=
  match pk_aead k with
  | AeadCipher Aes128Gcm _ | AeadCipher Aes256Gcm _ => Z.shiftl 1 23
  | AeadCipher ChaCha20Poly1305 _ => u64_MAX
  | AeadInvalid => 0
  end.

Definition integrity_limit (k : QuicPacketKey) : Z :=
  match pk_aead k with
  | AeadCipher Aes128Gcm _ | AeadCipher Aes256Gcm _ => Z.shiftl 1 52
  | AeadCipher ChaCha20Poly1305 _ => Z.shiftl 1 36
  | AeadInvalid => 0
  end.

(** The methods of the traits [PacketKey] and [HeaderProtectionKey]. *)
#[export] Instance quic_crypto : PacketCrypto HpKey QuicPacketKey := {|
  tag_len _ := Z.of_nat TAG_LEN;
  pk_encrypt := seal;
  pk_decrypt := open_packet;
  sample_len _ := Z.of_nat SAMPLE_LEN;
  hp_encrypt k sample first pn := xor_in_place k sample first pn false;
  hp_decrypt k sample first pn := xor_in_place k sample first pn true
|}.

(** ** Cipher suites *)

Record QuicAlgorithm := mkAlgorithm { alg_aead : AeadKind; alg_hp : HpKind; alg_key_len : Z }.

Definition AES128_GCM : QuicAlgorithm := mkAlgorithm Aes128Gcm HpAes128 16.
Definition AES256_GCM : QuicAlgorithm := mkAlgorithm Aes256Gcm HpAes256 32.
Definition CHACHA20_POLY1305 : QuicAlgorithm := mkAlgorithm ChaCha20Poly1305 HpChaCha20 32.

Definition packet_key (a : QuicAlgorithm) (key iv : list Z) : QuicPacketKey := packet_key_new (alg_aead a) key iv.
Definition header_protection_key (a : QuicAlgorithm) (key : list Z) : HpKey := mkHpKey key (alg_hp a).

(** ** Lemmas: masking *)

Lemma xor_zip_length n dst m : length (xor_zip n dst m) = length dst.
Proof. revert dst m. induction n as [| n IH]; intros [| d dst] [| x m]; simpl; try done. by rewrite IH. Qed.

(** Masking twice with the same mask restores the first [n] bytes and leaves the rest. *)
Lemma xor_zip_undo pn tl m :
  (length pn <= length m)%nat -> xor_zip (length pn) (xor_zip (length pn) pn m ++ tl) m = pn ++ tl.
Proof.
  revert m. induction pn as [| d pn IH]; intros m Hm; [by destruct tl, m |].
  destruct m as [| x m]; [simpl in Hm; lia |]. simpl in *. rewrite IH by lia.
  by rewrite Z.lxor_assoc, Z.lxor_nilpotent, Z.lxor_0_r.
Qed.

(** The mask of the first byte does not reach the bits above [bits]. *)
Lemma masked_high f m bits keep :
  Z.land bits keep = 0 -> Z.land (Z.lxor f (Z.land m bits)) keep = Z.land f keep.
Proof.
  intros Hb. apply Z.bits_inj'. intros i Hi. apply (f_equal (fun z => Z.testbit z i)) in Hb.
  rewrite Z.land_spec, Z.bits_0 in Hb. rewrite !Z.land_spec, Z.lxor_spec, Z.land_spec.
  destruct (Z.testbit f i), (Z.testbit m i), (Z.testbit bits i), (Z.testbit keep i); done.
Qed.

Lemma lxor_undo f x : Z.lxor (Z.lxor f x) x = f.
Proof. by rewrite Z.lxor_assoc, Z.lxor_nilpotent, Z.lxor_0_r. Qed.

Section lawful.
Context `{!LawfulPrimitives P}.

Lemma mask_length k sample m : mask k sample = Some m -> length m = MASK_LEN.
Proof.
  unfold mask. destruct (_ <? _)%nat; [done |]. destruct (hp_kind k).
  - destruct (aes128_encrypt_block _ _) as [b |] eqn:E; [| done]. apply aes128_block_len in E.
    intros [= <-]. rewrite length_take, E. done.
  - destruct (aes256_encrypt_block _ _) as [b |] eqn:E; [| done]. apply aes256_block_len in E.
    intros [= <-]. rewrite length_take, E. done.
  - apply chacha20_block_len.
Qed.

Lemma open_packet_length k pn h b : length (open_packet k pn h b).1 = length b.
Proof.
  unfold open_packet. destruct (Nat.ltb_spec (length b) TAG_LEN); [done |].
  destruct (pk_aead k) as [kind c |]; [| done].
  pose proof (open_len kind c (nonce_new (pk_iv k) pn) h (take (length b - TAG_LEN) b) (drop (length b - TAG_LEN) b)) as Hl.
  destruct (decrypt_in_place_detached _ _ _ _ _) as [ct ok]. cbn [fst] in *.
  rewrite length_app, Hl, length_take, length_drop. lia.
Qed.

Lemma open_packet_plain k pn h b p :
  (open_packet k pn h b).2 = Some p -> bytes_ok p /\ (length p <= length b)%nat.
Proof.
  unfold open_packet. destruct (Nat.ltb_spec (length b) TAG_LEN); [done |].
  destruct (pk_aead k) as [kind c |]; [| done].
  pose proof (open_len kind c (nonce_new (pk_iv k) pn) h (take (length b - TAG_LEN) b) (drop (length b - TAG_LEN) b)) as Hl.
  destruct (decrypt_in_place_detached _ _ _ _ _) as [ct ok] eqn:E. destruct ok; [| done]. cbn [snd fst] in *. intros [= <-].
  split; [by eapply open_bytes | rewrite Hl, length_take; lia].
Qed.

Lemma xor_in_place_length k s f pn b f' pn' : xor_in_place k s f pn b = Some (f', pn') -> length pn' = length pn.
Proof.
  unfold xor_in_place. destruct (mask k s) as [[| m ms] |]; [done | | done]. cbn [mbind option_bind].
  destruct (_ <? _)%nat; [done |]. intros [= _ <-]. apply xor_zip_length.
Qed.

Lemma packet_key_pair k : aead_pair k k.
Proof.
  split; [done | |]; intros pn h p c t; cbn [pk_encrypt quic_crypto]; unfold seal; destruct (pk_aead k) as [kind ci |] eqn:Ek; try done.
  - apply seal_len.
  - intros E. pose proof (seal_len kind ci _ _ _ _ _ E) as [Hc Ht]. cbn [pk_decrypt quic_crypto]. unfold open_packet.
    rewrite Ek, length_app, Ht. destruct (Nat.ltb_spec (length c + TAG_LEN) TAG_LEN); [lia |].
    rewrite Nat.add_sub, take_app_length, drop_app_length, (open_seal kind ci _ _ _ _ _ E). done.
Qed.

Lemma header_key_pair k : hp_pair k k.
Proof.
  split.
  - done.
  - intros s f pn f' pn'. apply xor_in_place_length.
  - intros s f pn f' pn'. cbn [hp_encrypt quic_crypto]. unfold xor_in_place.
    destruct (mask k s) as [[| m ms] |]; [done | | done]. cbn [mbind option_bind]. destruct (_ <? _)%nat; [done |].
    intros [= <- _] Hf. destruct (Z.eqb_spec (Z.land f 0x80) 0x80) as [E | E].
    + split; [by apply masked_high | intros _; by apply masked_high].
    + split; [by apply masked_high |]. intros Hne. exfalso. apply E. clear E.
      assert (Hb : Z.land f 0x80 = if Z.testbit f 7 then 0x80 else 0); [| destruct (Z.testbit f 7); lia].
      apply Z.bits_inj'. intros i Hi. rewrite Z.land_spec. change 0x80 with (2 ^ 7). rewrite Z.pow2_bits_eqb by lia.
      destruct (Z.eqb_spec 7 i) as [<- |]; [destruct (Z.testbit f 7); rewrite ?Z.bits_0; by rewrite ?Z.pow2_bits_true by lia |].
      rewrite andb_false_r. destruct (Z.testbit f 7); [rewrite Z.pow2_bits_false by lia; done | by rewrite Z.bits_0].
  - intros s f pn f' pn' tl. cbn [hp_encrypt hp_decrypt quic_crypto]. unfold xor_in_place.
    destruct (mask k s) as [[| m ms] |] eqn:Em; [done | | done]. cbn [mbind option_bind].
    pose proof (mask_length k s _ Em) as Hm. unfold MASK_LEN in Hm. simpl in Hm.
    destruct (Nat.ltb_spec (length ms) (length pn)); [done |]. set (bits := if Z.land f 0x80 =? 0x80 then 0x0f else 0x1f).
    intros [= <- <-] Hn Hl. rewrite length_app, xor_zip_length.
    destruct (Nat.ltb_spec (length ms) (length pn + length tl)); [lia |].
    assert (Hk : Z.land (Z.lxor f (Z.land m bits)) 0x80 = Z.land f 0x80).
    { apply masked_high. subst bits. by case_match. }
    rewrite Hk. fold bits. rewrite lxor_undo, <- Hn, Nat2Z.id. f_equal. f_equal. apply xor_zip_undo. lia.
  - intros s f pn f' pn'. apply xor_in_place_length.
Qed.

End lawful.

End suites.

(** ** Properties *)

(** C35: The crypto provider satisfies what the packet code assumes of it: for every
    cipher suite, key and IV, its packet key opens exactly what it seals with 16-byte
    tags, its header-protection key removes the protection it applies and touches no
    bit above the mask and no byte behind the packet number, decryption works in
    place and never yields more bytes than the buffer holds; so a 1-RTT packet built
    with a suite's keys is opened with them, packet number, key phase and payload
    included. *)
Theorem suite_keys_lawful {P : Primitives} `{!LawfulPrimitives P} alg key iv hkey :
  let pk := packet_key alg key iv in
  let hk := header_protection_key alg hkey in
  aead_pair pk pk /\ hp_pair hk hk /\
  (forall pn h b, length (pk_decrypt pk pn h b).1 = length b /\
     forall p, (pk_decrypt pk pn h b).2 = Some p -> bytes_ok p /\ (length p <= length b)%nat) /\
  (forall dg p payload dg' n largest,
     pn_in_window (bs_packet_number p) (bs_largest_acked p) largest ->
     build_short_packet dg p payload pk hk = (dg', Ok n) ->
     (parse_short_packet dg' (length dg) (length (bs_dcid p)) largest pk hk).2 =
       Ok (mkParsed PT_Short [] (bs_dcid p) (bs_packet_number p)
             (padded (Z.to_nat (packet_number_len (bs_packet_number p) (bs_largest_acked p))) payload)
             (length dg') (bs_key_phase p))).
Proof.
  intros pk hk. split_and!; [apply packet_key_pair | apply header_key_pair | |].
  - intros pn h b. split; [apply open_packet_length | apply open_packet_plain].
  - intros dg p payload dg' n largest Hw Hb.
    apply (short_packet_opens _ _ _ _ _ _ _ _ _ _ (packet_key_pair pk) (header_key_pair hk) Hw Hb).
Qed.

(** Toy primitives: every cipher is xor with the key's first byte, the tag repeats it. *)
Definition toy_primitives : Primitives := {|
  aes128_encrypt_block key b := Some (take SAMPLE_LEN (map (Z.lxor (nth 0 key 0)) b ++ replicate SAMPLE_LEN 7));
  aes256_encrypt_block key b := Some (take SAMPLE_LEN (map (Z.lxor (nth 0 key 0)) b ++ replicate SAMPLE_LEN 9));
  chacha20_keystream_block key n nonce l := Some (replicate l (as_u8 n));
  Cipher _ := Z;
  new_from_slice _ key := Some (nth 0 key 0);
  encrypt_in_place_detached _ c n aad p :=
    if all_u8 p then Some (map (Z.lxor c) p, replicate TAG_LEN (nth 0 n 0)) else None;
  decrypt_in_place_detached _ c n aad ct tag :=
    (map (Z.lxor c) ct, bool_decide (tag = replicate TAG_LEN (nth 0 n 0)) && all_u8 (map (Z.lxor c) ct));
  nonce_new iv pn := [as_u8 pn]
|}.

#[export] Instance toy_primitives_lawful : LawfulPrimitives toy_primitives.
Proof.
  split.
  - intros key b out E. injection E as <-. unfold SAMPLE_LEN. rewrite length_take, length_app. simpl length at 2. lia.
  - intros key b out E. injection E as <-. unfold SAMPLE_LEN. rewrite length_take, length_app. simpl length at 2. lia.
  - intros key n nonce l out [= <-]. apply length_replicate.
  - intros k c n aad p ct tag. cbn. destruct (all_u8 p); [| done]. intros [= <- <-]. by rewrite length_map.
  - intros k c n aad ct tag. cbn. apply length_map.
  - intros k c n aad ct tag p. cbn. intros [= <- H]. apply andb_prop in H as [_ H]. by apply all_u8_bytes.
  - intros k c n aad p ct tag. cbn. destruct (all_u8 p) eqn:E; [| done]. intros [= <- <-].
    rewrite map_lxor_lxor, E, bool_decide_true by done. done.
Qed.

Definition toy_packet_key : @QuicPacketKey toy_primitives := packet_key CHACHA20_POLY1305 [0x33] [].
Definition toy_header_key : HpKey := header_protection_key CHACHA20_POLY1305 [0x44].
Definition toy_packet : list Z :=
  (build_short_packet (PC := @quic_crypto toy_primitives) [] demo_short [1; 2; 3; 4] toy_packet_key toy_header_key).1.

Lemma suite_keys_lawful_witness :
  aead_pair (PC := @quic_crypto toy_primitives) toy_packet_key toy_packet_key /\ hp_pair (PC := @quic_crypto toy_primitives) toy_header_key toy_header_key /\
  (parse_short_packet (PC := @quic_crypto toy_primitives) toy_packet 0 4 (Some 6) toy_packet_key toy_header_key).2 =
    Ok (mkParsed PT_Short [] [1; 2; 3; 4] 7 [1; 2; 3; 4] (length toy_packet) true).
Proof.
  destruct (suite_keys_lawful (P := toy_primitives) CHACHA20_POLY1305 [0x33] [] [0x44]) as (H1 & H2 & _ & H3).
  split_and!; [exact H1 | exact H2 |].
  apply (H3 [] demo_short [1; 2; 3; 4] toy_packet 26 (Some 6)); [vm_compute; repeat split; congruence | vm_compute; reflexivity].
Defined.
