(* ===== verification/Provider.v ===== *)
(** * The rustls crypto provider
    ([oxiquic-crypto/src/aead.rs], [hash.rs], [hmac.rs], [hkdf.rs], [suites.rs], [lib.rs])

    Record protection for TLS 1.3, hashes and HMACs behind the traits rustls asks for,
    the cipher suites and the provider made of them.  The ciphers are [Primitives];
    digests, the MAC and what rustls itself does with a record are [Digests] and
    [RustlsRecords]. *)

From S2P Require Import Prelude CoreTypes Coding Packet QuicCrypto.

(** ** Interfaces *)

Inductive HashAlgorithm := SHA256 | SHA384.

#[export] Instance HashAlgorithm_eq_dec : EqDecision HashAlgorithm.
Proof. solve_decision. Defined.

(** The crates [sha2] and [hmac]: contexts that are fed and finished. *)
Class Digests := {
  Digest : HashAlgorithm -> Type;
  digest_new : forall h, Digest h;
  digest_update : forall {h}, Digest h -> list Z -> Digest h;
  digest_finalize : forall {h}, Digest h -> list Z;
  (** [Digest::digest] *)
  digest_once : forall h : HashAlgorithm, list Z -> list Z;
  Mac : HashAlgorithm -> Type;
  mac_new_from_slice : forall h, list Z -> option (Mac h);
  mac_new_zero : forall h, Mac h;
  mac_update : forall {h}, Mac h -> list Z -> Mac h;
  mac_finalize : forall {h}, Mac h -> list Z
}.

Definition output_len (h : HashAlgorithm) : nat := match h with SHA256 => 32 | SHA384 => 48 end.

(** Feeding a context piecewise is feeding it at once; outputs have the size of the hash;
    a MAC takes a key of any length. *)
Class LawfulDigests (D : Digests) : Prop := {
  digest_update_app : forall h (d : Digest h) a b, digest_update (digest_update d a) b = digest_update d (a ++ b);
  digest_whole : forall h m, digest_once h m = digest_finalize (digest_update (digest_new h) m);
  digest_len : forall h (d : Digest h), length (digest_finalize d) = output_len h;
  mac_update_app : forall h (m : Mac h) a b, mac_update (mac_update m a) b = mac_update m (a ++ b);
  mac_any_key : forall h k, exists m, mac_new_from_slice h k = Some m;
  mac_len : forall h (m : Mac h), length (mac_finalize m) = output_len h
}.

(** What rustls does with a record: the additional data, and the content type found
    behind the plaintext once the padding is removed. *)
Class RustlsRecords := {
  make_tls13_aad : nat -> list Z;
  into_tls13_unpadded_message : list Z -> option (Z * list Z)
}.

Definition MAX_FRAGMENT_LEN : nat := Z.to_nat 16384.

Class LawfulRecords (R : RustlsRecords) : Prop :=
  unpadded_inner : forall t p, 0 < t < 256 -> (length p <= MAX_FRAGMENT_LEN)%nat -> into_tls13_unpadded_message (p ++ [t]) = Some (t, p).

(** ** Record protection *)

Section records.
Context {P : Primitives} {R : RustlsRecords}.

Record Tls13Cipher := mkTls13Cipher { t13_kind : AeadKind; t13_aead : option (Cipher t13_kind); t13_iv : list Z }.

Definition new_aead (k : AeadKind) (key : list Z) : option (Cipher k) := new_from_slice k key.

Definition encrypted_payload_len (payload_len : nat) : nat := payload_len + 1 + TAG_LEN.

(** [AeadInPlace::encrypt_in_place] appends the tag to the buffer, [decrypt_in_place]
    takes it off. *)
Definition encrypt_in_place {k} (c : Cipher k) (nonce aad buf : list Z) : option (list Z) :=
  '(ct, tag) ← encrypt_in_place_detached c nonce aad buf; Some (ct ++ tag).
Definition decrypt_in_place {k} (c : Cipher k) (nonce aad buf : list Z) : option (list Z) :=
  if (length buf <? TAG_LEN)%nat then None
  else
    let split := (length buf - TAG_LEN)%nat in
    match decrypt_in_place_detached c nonce aad (take split buf) (drop split buf) with
    | (p, true) => Some p
    | (_, false) => None
    end.

(** A message: its content type and payload; encrypted it is always application data. *)
Definition ApplicationData : Z := 23.
Definition TLSv1_2 : Z := 0x0303.

Record OpaqueMessage := mkOpaque { om_typ : Z; om_version : Z; om_payload : list Z }.

Definition encrypt (c : Tls13Cipher) (typ : Z) (chunks : list (list Z)) (seq : Z) : option OpaqueMessage :=
  aead ← t13_aead c;
  let total_len := encrypted_payload_len (length (concat chunks)) in
  let payload := concat chunks ++ [typ] in
  let nonce := nonce_new (t13_iv c) seq in
  payload ← encrypt_in_place aead nonce (make_tls13_aad total_len) payload;
  Some (mkOpaque ApplicationData TLSv1_2 payload).

Definition decrypt (c : Tls13Cipher) (m : OpaqueMessage) (seq : Z) : option (Z * list Z) :=
  aead ← t13_aead c;
  let nonce := nonce_new (t13_iv c) seq in
  plain ← decrypt_in_place aead nonce (make_tls13_aad (length (om_payload m))) (om_payload m);
  into_tls13_unpadded_message plain.

(** The three algorithms. *)
Definition tls13_cipher (k : AeadKind) (key iv : list Z) : Tls13Cipher := mkTls13Cipher k (new_aead k key) iv.
Definition key_len (k : AeadKind) : Z := match k with Aes128Gcm => 16 | Aes256Gcm => 32 | ChaCha20Poly1305 => 32 end.

Inductive ConnectionTrafficSecrets := SecretsAes128Gcm (key iv : list Z) | SecretsAes256Gcm (key iv : list Z) | SecretsChacha20Poly1305 (key iv : list Z).
Definition extract_keys (k : AeadKind) (key iv : list Z) : ConnectionTrafficSecrets :=
  match k with Aes128Gcm => SecretsAes128Gcm key iv | Aes256Gcm => SecretsAes256Gcm key iv | ChaCha20Poly1305 => SecretsChacha20Poly1305 key iv end.

End records.

(** ** Hashes and HMACs *)

Section digests.
Context {D : Digests}.

(** [Hash::start], [hash], and the methods of its [Context]. *)
Definition hash_start (h : HashAlgorithm) : Digest h := digest_new h.
Definition hash (h : HashAlgorithm) (data : list Z) : list Z := digest_once h data.
Definition ctx_update {h} (c : Digest h) (data : list Z) : Digest h := digest_update c data.
Definition ctx_fork_finish {h} (c : Digest h) : list Z := digest_finalize c.
Definition ctx_fork {h} (c : Digest h) : Digest h := c.
Definition ctx_finish {h} (c : Digest h) : list Z := digest_finalize c.

Definition with_key (h : HashAlgorithm) (key : list Z) : Mac h := default (mac_new_zero h) (mac_new_from_slice h key).
Definition tag_len (h : HashAlgorithm) : nat := output_len h.
Definition sign_concat {h} (k : Mac h) (first : list Z) (middle : list (list Z)) (last : list Z) : list Z :=
  mac_finalize (mac_update (fold_left mac_update middle (mac_update k first)) last).

End digests.

(** ** Suites and the provider *)

Inductive CipherSuite := TLS13_AES_128_GCM_SHA256 | TLS13_AES_256_GCM_SHA384 | TLS13_CHACHA20_POLY1305_SHA256.

(** [HkdfUsingHmac] is named by the hash of its HMAC. *)
Record Tls13CipherSuite := mkSuite {
  suite : CipherSuite;
  hash_provider : HashAlgorithm;
  suite_confidentiality_limit : Z;
  hkdf_provider : HashAlgorithm;
  aead_alg : AeadKind;
  suite_quic : option QuicAlgorithm
}.

Definition HKDF_SHA256 : HashAlgorithm := SHA256.
Definition HKDF_SHA384 : HashAlgorithm := SHA384.

Definition TLS_AES_128_GCM_SHA256 : Tls13CipherSuite :=
  mkSuite TLS13_AES_128_GCM_SHA256 SHA256 (Z.shiftl 1 23) HKDF_SHA256 Aes128Gcm (Some AES128_GCM).
Definition TLS_AES_256_GCM_SHA384 : Tls13CipherSuite :=
  mkSuite TLS13_AES_256_GCM_SHA384 SHA384 (Z.shiftl 1 23) HKDF_SHA384 Aes256Gcm (Some AES256_GCM).
Definition TLS_CHACHA20_POLY1305_SHA256 : Tls13CipherSuite :=
  mkSuite TLS13_CHACHA20_POLY1305_SHA256 SHA256 u64_MAX HKDF_SHA256 ChaCha20Poly1305 (Some CHACHA20_POLY1305).

Definition ALL_QUIC_SUITES : list Tls13CipherSuite := [TLS_AES_128_GCM_SHA256; TLS_AES_256_GCM_SHA384; TLS_CHACHA20_POLY1305_SHA256].
Definition tls13_aes_128_gcm_sha256_internal : Tls13CipherSuite := TLS_AES_128_GCM_SHA256.

(** A provider: its suites, and the parts taken over from another. *)
Record CryptoProvider (Rest : Type) := mkProvider { cipher_suites : list Tls13CipherSuite; provider_rest : Rest }.
Arguments mkProvider {Rest}. Arguments cipher_suites {Rest}. Arguments provider_rest {Rest}.

Definition quic_crypto_provider {Rest} (base : CryptoProvider Rest) : CryptoProvider Rest := mkProvider ALL_QUIC_SUITES (provider_rest base).
Definition all_quic_cipher_suites : list Tls13CipherSuite := ALL_QUIC_SUITES.

(** ** Theorems *)

(** A record opens with the key, IV and sequence number it was sealed under, to the
    content type and payload that were sealed; its length is the announced one, which is
    also the length the additional data states on both sides. *)
Theorem tls13_record_roundtrip {P : Primitives} {LP : LawfulPrimitives P} {R : RustlsRecords} {LR : LawfulRecords R}
    k key iv typ chunks seq m :
  0 < typ < 256 -> (length (concat chunks) <= MAX_FRAGMENT_LEN)%nat ->
  encrypt (tls13_cipher k key iv) typ chunks seq = Some m ->
  om_typ m = ApplicationData /\ length (om_payload m) = encrypted_payload_len (length (concat chunks)) /\
  decrypt (tls13_cipher k key iv) m seq = Some (typ, concat chunks).
Proof.
  intros Ht Hl. unfold encrypt, decrypt, tls13_cipher, new_aead. cbn [t13_aead t13_iv t13_kind].
  destruct (new_from_slice k key) as [c |]; [| done]. cbn [mbind option_bind]. unfold encrypt_in_place.
  destruct (encrypt_in_place_detached _ _ _ _) as [[ct tag] |] eqn:E; [| done]. cbn. intros [= <-]. cbn [om_typ om_payload].
  destruct (seal_len _ _ _ _ _ _ _ E) as [L1 L2]. rewrite length_app in L1. cbn in L1.
  assert (Hn : length (ct ++ tag) = encrypted_payload_len (length (concat chunks))) by (rewrite length_app, L1, L2; unfold encrypted_payload_len; lia).
  split_and!; [done | done |]. rewrite Hn. unfold decrypt_in_place. rewrite Hn.
  destruct (Nat.ltb_spec (encrypted_payload_len (length (concat chunks))) TAG_LEN) as [? |]; [unfold encrypted_payload_len in *; lia |].
  replace (encrypted_payload_len (length (concat chunks)) - TAG_LEN)%nat with (length ct) by (rewrite L1; unfold encrypted_payload_len; lia).
  rewrite take_app_length, drop_app_length, (open_seal _ _ _ _ _ _ _ E). cbn. by apply unpadded_inner.
Qed.

(** The transcript hash does not depend on how the data was fed, forking leaves the context
    as it is; the fallback key of [with_key] is never taken, and an HMAC over pieces is the
    HMAC of their concatenation. *)
Theorem provider_digests {D : Digests} {LD : LawfulDigests D} h pieces key first middle last :
  ctx_finish (fold_left ctx_update pieces (ctx_update (hash_start h) [])) = hash h (concat pieces) /\
  ctx_fork_finish (ctx_fork (fold_left ctx_update pieces (ctx_update (hash_start h) []))) = hash h (concat pieces) /\
  length (hash h (concat pieces)) = output_len h /\
  mac_new_from_slice h key = Some (with_key h key) /\
  sign_concat (with_key h key) first middle last = mac_finalize (mac_update (with_key h key) (first ++ concat middle ++ last)) /\
  length (sign_concat (with_key h key) first middle last) = tag_len h.
Proof.
  assert (Hd : forall l a, fold_left ctx_update l (ctx_update (hash_start h) a) = digest_update (digest_new h) (a ++ concat l)).
  { induction l as [| x l IH]; intros a; cbn; [by rewrite app_nil_r |]. unfold ctx_update at 2 3. rewrite digest_update_app.
    rewrite app_assoc. apply IH. }
  assert (Hm : forall l (m : Mac h) a, fold_left mac_update l (mac_update m a) = mac_update m (a ++ concat l)).
  { induction l as [| x l IH]; intros m a; cbn; [by rewrite app_nil_r |]. by rewrite mac_update_app, IH, app_assoc. }
  unfold ctx_finish, ctx_fork_finish, ctx_fork, hash, sign_concat, tag_len. rewrite Hd, digest_whole, Hm, mac_update_app, <- app_assoc. cbn [app].
  split_and!; [done.. | apply digest_len | | done | apply mac_len].
  unfold with_key. by destruct (mac_any_key h key) as [m ->].
Qed.

(** Every suite of the provider supports QUIC, with one AEAD and key length for records and
    packets and one hash for transcript and key schedule; the Initial keys' suite is one of them. *)
Theorem provider_suites {Rest} (base : CryptoProvider Rest) s :
  s ∈ cipher_suites (quic_crypto_provider base) ->
  exists a, suite_quic s = Some a /\ alg_aead a = aead_alg s /\ alg_key_len a = key_len (aead_alg s) /\
    hkdf_provider s = hash_provider s.
Proof. cbn. unfold ALL_QUIC_SUITES. rewrite !elem_of_cons. intros [-> | [-> | [-> | H]]]; [by eexists.. | by apply not_elem_of_nil in H]. Qed.

(** ** Concrete digests and records *)

Definition pad_to (n : nat) (l : list Z) : list Z := take n (l ++ replicate n 0).

#[export] Instance toy_digests : Digests := {|
  Digest _ := list Z; digest_new _ := []; digest_update _ d m := d ++ m; digest_finalize h d := pad_to (output_len h) d;
  digest_once h m := pad_to (output_len h) m;
  Mac _ := list Z; mac_new_from_slice _ k := Some k; mac_new_zero _ := []; mac_update _ d m := d ++ m; mac_finalize h d := pad_to (output_len h) d
|}.

#[export] Instance toy_digests_lawful : LawfulDigests toy_digests.
Proof.
  assert (Hp : forall n l, length (pad_to n l) = n) by (intros n l; unfold pad_to; rewrite length_take, length_app, length_replicate; lia).
  split; cbn; [by intros; rewrite app_assoc | done | by intros | by intros; rewrite app_assoc | by eauto | by intros].
Qed.

Fixpoint drop_zeros (l : list Z) : list Z := match l with 0 :: l => drop_zeros l | _ => l end.

#[export] Instance rfc8446_records : RustlsRecords := {|
  make_tls13_aad n := [ApplicationData; 3; 3; Z.of_nat n / 256; Z.of_nat n mod 256];
  into_tls13_unpadded_message p :=
    match drop_zeros (reverse p) with
    | t :: rest => if (length rest <=? MAX_FRAGMENT_LEN)%nat then Some (t, reverse rest) else None
    | [] => None
    end
|}.

#[export] Instance rfc8446_records_lawful : LawfulRecords rfc8446_records.
Proof.
  intros t p Ht Hl. cbn [into_tls13_unpadded_message rfc8446_records]. rewrite reverse_snoc. destruct t as [| t |]; [lia | | lia].
  cbn [drop_zeros]. rewrite length_reverse, reverse_involutive. by destruct (Nat.leb_spec (length p) MAX_FRAGMENT_LEN); [| lia].
Qed.

(** A record of two chunks under ChaCha20-Poly1305. *)
Lemma tls13_record_roundtrip_witness :
  exists m, encrypt (P := toy_primitives) (tls13_cipher ChaCha20Poly1305 [0x33] []) 22 [[1; 2]; [3]] 5 = Some m /\
    decrypt (P := toy_primitives) (tls13_cipher ChaCha20Poly1305 [0x33] []) m 5 = Some (22, [1; 2; 3]).
Proof.
  destruct (encrypt (P := toy_primitives) (tls13_cipher ChaCha20Poly1305 [0x33] []) 22 [[1; 2]; [3]] 5) as [m |] eqn:E; [| vm_compute in E; discriminate].
  exists m. split; [reflexivity |].
  apply (tls13_record_roundtrip (P := toy_primitives) ChaCha20Poly1305 [0x33] [] 22 [[1; 2]; [3]] 5 m); [lia | cbn; unfold MAX_FRAGMENT_LEN; lia | exact E].
Defined.
