(* ===== verification/Config.v ===== *)
(** * Transport configuration and Retry tokens
    ([oxiquic-transport/src/config.rs])

    The configuration record with its builder methods, its validation, the
    transport parameters it stands for, and the stateless Retry tokens an endpoint
    issues and checks for address validation.  HMAC-SHA-256 is a parameter; the
    random generator and the clock of the secret's fallback are arguments. *)

From S2P Require Import Prelude CoreTypes Coding FrameCodec ParamsCodec Recovery Congestion Bbr Packet.

(** [std::net::SocketAddr]: the address octets and the port. *)
Inductive SocketAddr := V4 (octets : list Z) (port : Z) | V6 (octets : list Z) (port : Z).

#[export] Instance SocketAddr_eq_dec : EqDecision SocketAddr.
Proof. solve_decision. Defined.

Definition octets_of (a : SocketAddr) : list Z := match a with V4 o _ | V6 o _ => o end.
Definition port_of (a : SocketAddr) : Z := match a with V4 _ p | V6 _ p => p end.

Definition addr_ok (a : SocketAddr) : Prop :=
  length (octets_of a) = (match a with V4 _ _ => 4 | V6 _ _ => 16 end)%nat /\ bytes_ok (octets_of a) /\ is_u16 (port_of a).

(** ** The record *)

Record TransportConfig := mkTransportConfig {
  idle_timeout : Z;
  keep_alive_interval : option Z;
  max_concurrent_bidi_streams : Z;
  max_concurrent_uni_streams : Z;
  stream_receive_window : Z;
  receive_window : Z;
  send_window : Z;
  initial_mtu : Z;
  min_mtu : Z;
  max_mtu : Z;
  mtu_discovery : bool;
  congestion_controller : CongestionAlgorithm;
  retry_enabled : bool;
  retry_secret : option (list Z);
  server_secret : option (list Z);
  cfg_active_connection_id_limit : Z;
  cfg_max_datagram_frame_size : Z;
  datagram_receive_buffer_size : Z;
  max_early_data_size : Z
}.

#[export] Instance TransportConfig_eta : Settable TransportConfig := fun c =>
  mkTransportConfig (idle_timeout c) (keep_alive_interval c) (max_concurrent_bidi_streams c) (max_concurrent_uni_streams c)
    (stream_receive_window c) (receive_window c) (send_window c) (initial_mtu c) (min_mtu c) (max_mtu c) (mtu_discovery c)
    (congestion_controller c) (retry_enabled c) (retry_secret c) (server_secret c) (cfg_active_connection_id_limit c)
    (cfg_max_datagram_frame_size c) (datagram_receive_buffer_size c) (max_early_data_size c).

#[export] Instance set_cfg_idle_timeout : Setter idle_timeout := ltac:(solve_setter).
#[export] Instance set_cfg_keep_alive : Setter keep_alive_interval := ltac:(solve_setter).
#[export] Instance set_cfg_bidi : Setter max_concurrent_bidi_streams := ltac:(solve_setter).
#[export] Instance set_cfg_uni : Setter max_concurrent_uni_streams := ltac:(solve_setter).
#[export] Instance set_cfg_stream_window : Setter stream_receive_window := ltac:(solve_setter).
#[export] Instance set_cfg_recv_window : Setter receive_window := ltac:(solve_setter).
#[export] Instance set_cfg_send_window : Setter send_window := ltac:(solve_setter).
#[export] Instance set_cfg_initial_mtu : Setter initial_mtu := ltac:(solve_setter).
#[export] Instance set_cfg_min_mtu : Setter min_mtu := ltac:(solve_setter).
#[export] Instance set_cfg_max_mtu : Setter max_mtu := ltac:(solve_setter).
#[export] Instance set_cfg_discovery : Setter mtu_discovery := ltac:(solve_setter).
#[export] Instance set_cfg_cc : Setter congestion_controller := ltac:(solve_setter).
#[export] Instance set_cfg_retry : Setter retry_enabled := ltac:(solve_setter).
#[export] Instance set_cfg_retry_secret : Setter retry_secret := ltac:(solve_setter).
#[export] Instance set_cfg_server_secret : Setter server_secret := ltac:(solve_setter).
#[export] Instance set_cfg_cid_limit : Setter cfg_active_connection_id_limit := ltac:(solve_setter).
#[export] Instance set_cfg_datagram : Setter cfg_max_datagram_frame_size := ltac:(solve_setter).
#[export] Instance set_cfg_datagram_buffer : Setter datagram_receive_buffer_size := ltac:(solve_setter).
#[export] Instance set_cfg_early : Setter max_early_data_size := ltac:(solve_setter).

(** Durations are nanoseconds. *)
Definition SECONDS : Z := 1000000000.
Definition MIN_INITIAL_MTU : Z := 1200.

Definition default_config : TransportConfig :=
  mkTransportConfig (30 * SECONDS) None 100 100 (1024 * 1024) (8 * 1024 * 1024) (8 * 1024 * 1024)
    (as_u16 MIN_MAX_UDP_PAYLOAD_SIZE) (as_u16 MIN_MAX_UDP_PAYLOAD_SIZE) 1452 true AlgoCubic false None None 7 0 65536 0.

(** ** Builder methods *)

Definition with_idle_timeout (d : Z) (c : TransportConfig) := c <| idle_timeout := d |>.
Definition with_keep_alive_interval (i : option Z) (c : TransportConfig) := c <| keep_alive_interval := i |>.
Definition with_max_concurrent_bidi_streams (n : Z) (c : TransportConfig) := c <| max_concurrent_bidi_streams := n |>.
Definition with_max_concurrent_uni_streams (n : Z) (c : TransportConfig) := c <| max_concurrent_uni_streams := n |>.
Definition with_stream_receive_window (n : Z) (c : TransportConfig) := c <| stream_receive_window := n |>.
Definition with_receive_window (n : Z) (c : TransportConfig) := c <| receive_window := n |>.
Definition with_send_window (n : Z) (c : TransportConfig) := c <| send_window := n |>.
Definition with_initial_mtu (mtu : Z) (c : TransportConfig) := c <| initial_mtu := Z.max mtu MIN_INITIAL_MTU |>.
Definition with_min_mtu (mtu : Z) (c : TransportConfig) := c <| min_mtu := Z.max mtu MIN_INITIAL_MTU |>.
Definition with_max_mtu (mtu : Z) (c : TransportConfig) := c <| max_mtu := mtu |>.
Definition with_mtu_discovery (b : bool) (c : TransportConfig) := c <| mtu_discovery := b |>.
Definition with_congestion_controller (a : CongestionAlgorithm) (c : TransportConfig) := c <| congestion_controller := a |>.
Definition with_retry (b : bool) (c : TransportConfig) := c <| retry_enabled := b |>.
Definition with_retry_secret (s : list Z) (c : TransportConfig) := c <| retry_secret := Some s |>.
Definition with_server_secret (s : list Z) (c : TransportConfig) := c <| server_secret := Some s |>.
Definition with_active_connection_id_limit (n : Z) (c : TransportConfig) := c <| cfg_active_connection_id_limit := Z.max n 2 |>.
Definition with_max_datagram_frame_size (n : Z) (c : TransportConfig) := c <| cfg_max_datagram_frame_size := n |>.
Definition with_datagram_receive_buffer_size (n : Z) (c : TransportConfig) := c <| datagram_receive_buffer_size := n |>.
Definition with_max_early_data_size (n : Z) (c : TransportConfig) :=
  c <| max_early_data_size := if n =? 0 then 0 else u32_MAX |>.

(** ** Validation and transport parameters *)

Definition validate (c : TransportConfig) : result OxiQuicError unit :=
  if min_mtu c <? MIN_INITIAL_MTU then Err EProtocol
  else if initial_mtu c <? min_mtu c then Err EProtocol
  else if max_mtu c <? initial_mtu c then Err EProtocol
  else Ok tt.

Definition to_transport_params (c : TransportConfig) : TransportParams := {|
  max_idle_timeout_ms := Z.min (idle_timeout c / MILLIS) u64_MAX;
  max_udp_payload_size := Z.max (initial_mtu c) MIN_MAX_UDP_PAYLOAD_SIZE;
  initial_max_data := receive_window c;
  initial_max_stream_data_bidi_local := stream_receive_window c;
  initial_max_stream_data_bidi_remote := stream_receive_window c;
  initial_max_stream_data_uni := stream_receive_window c;
  initial_max_streams_bidi := max_concurrent_bidi_streams c;
  initial_max_streams_uni := max_concurrent_uni_streams c;
  ack_delay_exponent := ack_delay_exponent default_params;
  max_ack_delay_ms := max_ack_delay_ms default_params;
  active_connection_id_limit := cfg_active_connection_id_limit c;
  disable_active_migration := disable_active_migration default_params;
  max_datagram_frame_size := cfg_max_datagram_frame_size c
|}.

(** ** Retry tokens *)

(** [fill] is the generator's answer, [nanos] the clock of the fallback. *)
Definition getrandom_secret (fill : option (list Z)) (nanos : Z) : list Z :=
  match fill with
  | Some bytes => bytes
  | None => map (fun i => as_u8 (as_u32 (nanos + as_u32 (Z.of_nat i * 0x9e3779b9)))) (seq 0 32)
  end.

Section tokens.
Variable hmac_sha256 : list Z -> list Z -> list Z.

Definition get_or_generate_retry_secret (c : TransportConfig) (fresh : list Z) : list Z * TransportConfig :=
  match retry_secret c with
  | Some s => (s, c)
  | None => (fresh, c <| retry_secret := Some fresh |>)
  end.

Definition get_or_generate_server_secret (c : TransportConfig) (fresh : list Z) : list Z * TransportConfig :=
  match server_secret c with
  | Some s => (s, c)
  | None => (fresh, c <| server_secret := Some fresh |>)
  end.

(** [port.to_be_bytes()]. *)
Definition be16 (p : Z) : list Z := [as_u8 (Z.shiftr p 8); as_u8 p].

Definition hmac_retry_tag (secret odcid : list Z) (peer_addr : SocketAddr) : list Z :=
  take 16 (hmac_sha256 secret (odcid ++ octets_of peer_addr ++ be16 (port_of peer_addr))).

Definition generate_retry_token (c : TransportConfig) (fresh odcid : list Z) (peer_addr : SocketAddr)
    : list Z * TransportConfig :=
  let '(secret, c) := get_or_generate_retry_secret c fresh in
  (as_u8 (len odcid) :: odcid ++ hmac_retry_tag secret odcid peer_addr, c).

Definition validate_retry_token (c : TransportConfig) (token : list Z) (peer_addr : SocketAddr) : option (list Z) :=
  secret ← retry_secret c;
  if (length token <? 2 + 16)%nat then None
  else
    let odcid_len := Z.to_nat (nth 0 token 0) in
    if (length token <? 1 + odcid_len + 16)%nat then None
    else
      let odcid := slice token 1 (1 + odcid_len) in
      let received_tag := slice token (1 + odcid_len) (1 + odcid_len + 16) in
      let expected_tag := hmac_retry_tag secret odcid peer_addr in
      if ct_diff expected_tag received_tag =? 0 then Some odcid else None.

End tokens.


(** ** Lemmas on tokens *)

(** What HMAC-SHA-256 promises here: 32 bytes, whatever the key and the message. *)
Definition hmac_lawful (h : list Z -> list Z -> list Z) : Prop :=
  forall k m, length (h k m) = 32%nat /\ bytes_ok (h k m).

Section token_lemmas.
Context (h : list Z -> list Z -> list Z) (Hh : hmac_lawful h).

Lemma tag_shape secret odcid a :
  length (hmac_retry_tag h secret odcid a) = 16%nat /\ bytes_ok (hmac_retry_tag h secret odcid a).
Proof.
  unfold hmac_retry_tag. destruct (Hh secret (odcid ++ octets_of a ++ be16 (port_of a))) as [Hl Hb].
  split; [rewrite length_take, Hl; done | by apply bytes_ok_take].
Qed.

Lemma ct_diff_eq xs ys : length xs = length ys -> bytes_ok xs -> bytes_ok ys -> ct_diff xs ys = 0 <-> xs = ys.
Proof. intros Hl Hx Hy. unfold ct_diff. rewrite ct_diff_acc by done. tauto. Qed.

(** The token a server with secret [s] accepts for [a]: the ODCID, framed by its
    length, then the tag; what follows the tag is not looked at. *)
Definition token_for (s odcid : list Z) (a : SocketAddr) (rest : list Z) : list Z :=
  len odcid :: odcid ++ hmac_retry_tag h s odcid a ++ rest.

Lemma validate_token_for c s odcid a rest :
  retry_secret c = Some s -> (1 <= length odcid + length rest)%nat ->
  validate_retry_token h c (token_for s odcid a rest) a = Some odcid.
Proof.
  intros Hs Hl. destruct (tag_shape s odcid a) as [Ht _]. unfold validate_retry_token, token_for.
  rewrite Hs. cbn [mbind option_bind nth length]. rewrite Nat2Z.id, !length_app, Ht.
  destruct (Nat.ltb_spec (S (length odcid + (16 + length rest))) (2 + 16)); [lia |].
  destruct (Nat.ltb_spec (S (length odcid + (16 + length rest))) (1 + length odcid + 16)); [lia |].
  assert (Ho : slice (len odcid :: odcid ++ hmac_retry_tag h s odcid a ++ rest) 1 (1 + length odcid) = odcid).
  { unfold slice. cbn [drop]. rewrite Nat.add_comm, Nat.add_sub. apply take_app_length. }
  assert (Hr : slice (len odcid :: odcid ++ hmac_retry_tag h s odcid a ++ rest) (1 + length odcid) (1 + length odcid + 16) =
               hmac_retry_tag h s odcid a).
  { unfold slice. cbn [drop Nat.add]. rewrite drop_app_length.
    replace (S (length odcid + 16) - S (length odcid))%nat with (length (hmac_retry_tag h s odcid a)) by lia.
    apply take_app_length. }
  rewrite Ho, Hr. destruct (tag_shape s odcid a) as [_ Hb].
  rewrite (proj2 (Z.eqb_eq _ _)); [done | by apply ct_diff_eq].
Qed.

Lemma validate_token_inv c token a odcid :
  bytes_ok token -> validate_retry_token h c token a = Some odcid ->
  exists s rest, retry_secret c = Some s /\ token = token_for s odcid a rest /\ (1 <= length odcid + length rest)%nat.
Proof.
  intros Hb. unfold validate_retry_token. destruct (retry_secret c) as [s |]; [| done]. cbn [mbind option_bind].
  destruct (Nat.ltb_spec (length token) (2 + 16)); [done |].
  destruct token as [| n token]; [simpl in *; lia |]. cbn [nth].
  destruct (Nat.ltb_spec (length (n :: token)) (1 + Z.to_nat n + 16)) as [| Hl]; [done |].
  apply Forall_cons in Hb as [Hn Hb]. unfold is_u8 in Hn. unfold slice. cbv zeta. cbn [drop Nat.add length] in *.
  replace (S (Z.to_nat n) - 1)%nat with (Z.to_nat n) by lia.
  replace (S (Z.to_nat n + 16) - S (Z.to_nat n))%nat with 16%nat by lia. rewrite drop_0.
  set (o := take (Z.to_nat n) token). destruct (Z.eqb_spec (ct_diff (hmac_retry_tag h s o a) (take 16 (drop (Z.to_nat n) token))) 0) as [E |]; [| done].
  destruct (tag_shape s o a) as [Ht Htb].
  apply ct_diff_eq in E; [| rewrite Ht, length_take, length_drop; lia | done | by apply bytes_ok_take, bytes_ok_drop].
  intros [= <-]. exists s, (drop 16 (drop (Z.to_nat n) token)).
  assert (Ho : length o = Z.to_nat n) by (unfold o; rewrite length_take; lia). split_and!; [done | |].
  - unfold token_for. rewrite E, take_drop. unfold o at 2. rewrite take_drop, Ho, Z2Nat.id by lia. done.
  - rewrite Ho, !length_drop. lia.
Qed.

End token_lemmas.

(** ** Lemmas on configurations *)

(** One builder call. *)
Inductive config_call :=
  | CIdle (d : Z) | CKeepAlive (i : option Z) | CBidi (n : Z) | CUni (n : Z)
  | CStreamWindow (n : Z) | CWindow (n : Z) | CSendWindow (n : Z)
  | CInitialMtu (m : Z) | CMinMtu (m : Z) | CMaxMtu (m : Z) | CDiscovery (b : bool)
  | CController (a : CongestionAlgorithm) | CRetry (b : bool) | CRetrySecret (s : list Z) | CServerSecret (s : list Z)
  | CCidLimit (n : Z) | CDatagram (n : Z) | CDatagramBuffer (n : Z) | CEarlyData (n : Z).

Definition build1 (c : TransportConfig) (k : config_call) : TransportConfig :=
  match k with
  | CIdle d => with_idle_timeout d c | CKeepAlive i => with_keep_alive_interval i c
  | CBidi n => with_max_concurrent_bidi_streams n c | CUni n => with_max_concurrent_uni_streams n c
  | CStreamWindow n => with_stream_receive_window n c | CWindow n => with_receive_window n c
  | CSendWindow n => with_send_window n c
  | CInitialMtu m => with_initial_mtu m c | CMinMtu m => with_min_mtu m c | CMaxMtu m => with_max_mtu m c
  | CDiscovery b => with_mtu_discovery b c | CController a => with_congestion_controller a c
  | CRetry b => with_retry b c | CRetrySecret s => with_retry_secret s c | CServerSecret s => with_server_secret s c
  | CCidLimit n => with_active_connection_id_limit n c | CDatagram n => with_max_datagram_frame_size n c
  | CDatagramBuffer n => with_datagram_receive_buffer_size n c | CEarlyData n => with_max_early_data_size n c
  end.

Definition build (ks : list config_call) : TransportConfig := fold_left build1 ks default_config.

(** The arguments a 64-bit (or 16-bit) caller can pass that also fit a variable-length integer. *)
Definition call_ok (k : config_call) : Prop :=
  match k with
  | CIdle d => 0 <= d / MILLIS <= VARINT_MAX
  | CBidi n | CUni n | CStreamWindow n | CWindow n | CCidLimit n | CDatagram n => is_varint n
  | CInitialMtu m | CMinMtu m | CMaxMtu m => is_u16 m
  | _ => True
  end.

#[export] Instance call_ok_dec k : Decision (call_ok k).
Proof. destruct k; simpl; apply _. Defined.

Definition config_ok (c : TransportConfig) : Prop :=
  (MIN_INITIAL_MTU <= initial_mtu c < 2 ^ 16 /\ MIN_INITIAL_MTU <= min_mtu c) /\
  (max_early_data_size c = 0 \/ max_early_data_size c = u32_MAX) /\
  (2 <= cfg_active_connection_id_limit c <= VARINT_MAX) /\
  0 <= idle_timeout c / MILLIS <= VARINT_MAX /\
  Forall is_varint [receive_window c; stream_receive_window c; max_concurrent_bidi_streams c;
                    max_concurrent_uni_streams c; cfg_max_datagram_frame_size c].

Lemma config_ok_default : config_ok default_config.
Proof. split_and!; [done | done | done | by left | done | done | done | done |]. repeat constructor; done. Qed.

Lemma config_ok_build1 c k : call_ok k -> config_ok c -> config_ok (build1 c k).
Proof.
  intros Hk (Hm & He & Hl & Hi & Hv). repeat (apply Forall_cons in Hv as [? Hv]).
  pose proof VARINT_MAX_eq. unfold MIN_INITIAL_MTU in *.
  destruct k; cbn [call_ok] in Hk; unfold is_varint, is_u16 in *; split_and!;
    cbn -[Z.max u32_MAX VARINT_MAX Z.div MILLIS]; unfold MIN_INITIAL_MTU; try tauto; try lia;
    try (repeat constructor; lia).
  case_match; tauto.
Qed.

Lemma config_ok_build ks : Forall call_ok ks -> config_ok (build ks).
Proof.
  unfold build. generalize config_ok_default. generalize default_config.
  induction ks as [| k ks IH]; intros c Hc Hk; [done |]. apply Forall_cons in Hk as [Hk Hks].
  apply IH; [by apply config_ok_build1 | done].
Qed.

Lemma config_params_ok c : config_ok c -> params_ok (to_transport_params c).
Proof.
  intros (Hm & He & Hl & Hi & Hv). repeat (apply Forall_cons in Hv as [? Hv]).
  pose proof VARINT_MAX_eq as HV. unfold MIN_INITIAL_MTU in *.
  unfold params_ok, is_varint, u64_MAX, MIN_MAX_UDP_PAYLOAD_SIZE in *. rewrite HV in *.
  cbn -[Z.div Z.min Z.max MILLIS]. unfold u64_MAX, MIN_MAX_UDP_PAYLOAD_SIZE. split_and!; try lia; done.
Qed.

Lemma config_params_valid c :
  config_ok c -> validate_params (to_transport_params c) = Ok tt.
Proof.
  intros (Hm & He & Hl & Hi & Hv). unfold MIN_INITIAL_MTU in *. unfold validate_params, to_transport_params. cbv zeta.
  cbn [ack_delay_exponent max_ack_delay_ms max_udp_payload_size active_connection_id_limit default_params].
  rewrite (proj2 (Z.ltb_ge (Z.max _ _) _)) by lia. rewrite (proj2 (Z.ltb_ge (cfg_active_connection_id_limit c) _)); [done | by destruct Hl].
Qed.

(** ** Properties *)

(** Retry tokens are exact.  A configuration accepts a token for an address and
    returns the connection ID [odcid] precisely when it holds a secret and the token
    is the ID, prefixed by its length, followed by the first sixteen bytes of the
    HMAC of the ID, the address octets and the port under that secret (bytes after
    the tag are ignored, and the shortest accepted token has eighteen bytes); and a
    token the configuration issues, its secret generated on first use or already
    there, comes back from validation as the ID it was issued for. *)
Theorem retry_token_exact h c a odcid fresh :
  hmac_lawful h ->
  (forall token, bytes_ok token ->
     validate_retry_token h c token a = Some odcid <->
     exists s rest, retry_secret c = Some s /\ (1 <= length odcid + length rest)%nat /\
       token = len odcid :: odcid ++ take 16 (h s (odcid ++ octets_of a ++ be16 (port_of a))) ++ rest) /\
  (1 <= len odcid <= 255 ->
   let '(token, c') := generate_retry_token h c fresh odcid a in
   validate_retry_token h c' token a = Some odcid /\ (retry_secret c = None -> retry_secret c' = Some fresh)).
Proof.
  intros Hh. split.
  - intros token Hb. split.
    + intros Hv. destruct (validate_token_inv h Hh c token a odcid Hb Hv) as (s & rest & Hs & -> & Hl). by exists s, rest.
    + intros (s & rest & Hs & Hl & ->). by apply (validate_token_for h Hh).
  - intros Hl. unfold generate_retry_token, get_or_generate_retry_secret.
    assert (Ht : forall s, as_u8 (len odcid) :: odcid ++ hmac_retry_tag h s odcid a = token_for h s odcid a []).
    { intros s. unfold token_for, as_u8. rewrite Z.mod_small, app_nil_r by lia. done. }
    destruct (retry_secret c) as [s |] eqn:E; rewrite Ht; (split; [apply (validate_token_for h Hh); [done |] | done]); lia.
Qed.

(** A stand-in for the hash: the key's first byte mixed with the sum of the message. *)
Definition toy_hmac (k m : list Z) : list Z :=
  replicate 32 (as_u8 (nth 0 k 0 + fold_left Z.add m 0)).

Lemma toy_hmac_lawful : hmac_lawful toy_hmac.
Proof.
  intros k m. unfold toy_hmac. split; [apply length_replicate |]. apply Forall_replicate.
  unfold as_u8, is_u8. by apply Z.mod_pos_bound.
Qed.

Lemma retry_token_exact_witness :
  let c := with_retry true default_config in
  let '(token, c') := generate_retry_token toy_hmac c (replicate 32 3) [1; 2; 3; 4; 5; 6; 7; 8] (V4 [10; 0; 0; 1] 4433) in
  validate_retry_token toy_hmac c' token (V4 [10; 0; 0; 1] 4433) = Some [1; 2; 3; 4; 5; 6; 7; 8] /\
  retry_secret c' = Some (replicate 32 3) /\
  validate_retry_token toy_hmac c' token (V4 [10; 0; 0; 1] 4434) = None.
Proof.
  destruct (retry_token_exact toy_hmac (with_retry true default_config) (V4 [10; 0; 0; 1] 4433)
              [1; 2; 3; 4; 5; 6; 7; 8] (replicate 32 3) toy_hmac_lawful) as [_ H].
  destruct H as [H1 H2]; [vm_compute; split; congruence |].
  split_and!; [exact H1 | apply H2; reflexivity | vm_compute; reflexivity].
Defined.

(** C38: The tag does not bind the boundary between the connection ID and the address.
    From a token a server issued to an IPv6 client, moving the first twelve address
    octets into the connection ID field gives another token the same server accepts,
    with the longer ID, for the IPv4 address made of the last four octets and the
    same port: an address its bearer was never asked to prove. *)
Theorem retry_token_cross_family h c s o ip6 p :
  hmac_lawful h -> retry_secret c = Some s -> length ip6 = 16%nat -> len o + 12 <= 255 ->
  let tag := drop (1 + length o) (generate_retry_token h c [] o (V6 ip6 p)).1 in
  validate_retry_token h c (len o + 12 :: (o ++ take 12 ip6) ++ tag) (V4 (drop 12 ip6) p) = Some (o ++ take 12 ip6).
Proof.
  intros Hh Hs Hi Ho tag.
  assert (Htag : tag = hmac_retry_tag h s o (V6 ip6 p)).
  { unfold tag, generate_retry_token, get_or_generate_retry_secret. rewrite Hs. cbn [fst drop Nat.add]. apply drop_app_length. }
  assert (Hlen : len o + 12 = len (o ++ take 12 ip6)) by (rewrite length_app, length_take; lia).
  assert (Hmac : hmac_retry_tag h s o (V6 ip6 p) = hmac_retry_tag h s (o ++ take 12 ip6) (V4 (drop 12 ip6) p)).
  { unfold hmac_retry_tag. cbn [octets_of port_of]. rewrite <- (take_drop 12 ip6) at 1. by rewrite <- !app_assoc. }
  rewrite Htag, Hlen, Hmac. rewrite <- (app_nil_r (hmac_retry_tag h s _ (V4 _ _))).
  apply (validate_token_for h Hh); [done |]. rewrite length_app, length_take. lia.
Qed.

Lemma retry_token_cross_family_witness :
  let c := with_retry_secret (replicate 32 9) (with_retry true default_config) in
  let ip6 := [32; 1; 13; 184; 0; 0; 0; 0; 0; 0; 0; 0; 192; 0; 2; 55] in
  let tag := drop 9 (generate_retry_token toy_hmac c [] [1; 2; 3; 4; 5; 6; 7; 8] (V6 ip6 4433)).1 in
  validate_retry_token toy_hmac c (20 :: ([1; 2; 3; 4; 5; 6; 7; 8] ++ take 12 ip6) ++ tag) (V4 [192; 0; 2; 55] 4433) =
    Some ([1; 2; 3; 4; 5; 6; 7; 8] ++ take 12 ip6).
Proof.
  exact (retry_token_cross_family toy_hmac (with_retry_secret (replicate 32 9) (with_retry true default_config))
           (replicate 32 9) [1; 2; 3; 4; 5; 6; 7; 8] [32; 1; 13; 184; 0; 0; 0; 0; 0; 0; 0; 0; 192; 0; 2; 55] 4433
           toy_hmac_lawful eq_refl eq_refl ltac:(vm_compute; congruence)).
Defined.

(** C37: Any chain of builder calls gives a configuration a peer accepts.  Whatever the
    builder methods are called with, in any order and number, as long as windows,
    stream counts and the idle timeout fit a variable-length integer and the MTUs
    sixteen bits, the parameters the configuration stands for pass the peer's
    validation and arrive exactly as they were built; the MTU floors, the
    connection ID limit of two and the two admissible 0-RTT settings hold; and
    [validate] accepts the configuration exactly when the MTUs are ordered: a maximum
    below the initial MTU is rejected there, not raised by the setter as its doc
    comment says. *)
Theorem config_advertises ks :
  Forall call_ok ks ->
  let c := build ks in
  let tp := to_transport_params c in
  validate_params tp = Ok tt /\
  (len (encode_transport_params tp) <= u64_MAX -> decode_transport_params (encode_transport_params tp) = Ok tp) /\
  MIN_INITIAL_MTU <= initial_mtu c /\ 2 <= cfg_active_connection_id_limit c /\
  (max_early_data_size c = 0 \/ max_early_data_size c = u32_MAX) /\
  (validate c = Ok tt <-> min_mtu c <= initial_mtu c <= max_mtu c).
Proof.
  intros Hk c tp. pose proof (config_ok_build ks Hk) as Hc. fold c in Hc.
  split_and!; [by apply config_params_valid | | | | |]; [| by destruct Hc as ([[? _] _] & _) | by destruct Hc as (_ & _ & [? _] & _) | by destruct Hc as (_ & ? & _) |].
  - intros Hl. pose proof (config_params_ok c Hc) as Hp. unfold decode_transport_params.
    apply (decode_params_items tp Hp); [by apply buf_new_wf | |]; by rewrite ?rest_new, encode_params_items.
  - destruct Hc as ([_ Hm] & _). unfold validate.
    destruct (Z.ltb_spec (min_mtu c) MIN_INITIAL_MTU); [lia |].
    destruct (Z.ltb_spec (initial_mtu c) (min_mtu c)); [split; [done | lia] |].
    destruct (Z.ltb_spec (max_mtu c) (initial_mtu c)); split; done || lia.
Qed.

Lemma config_advertises_witness :
  let c := build [CInitialMtu 100; CMaxMtu 9000; CCidLimit 0; CEarlyData 5; CDatagram 1200; CIdle 0] in
  validate c = Ok tt /\ initial_mtu c = 1200 /\
  decode_transport_params (encode_transport_params (to_transport_params c)) = Ok (to_transport_params c) /\
  max_early_data_size c = u32_MAX.
Proof.
  destruct (config_advertises [CInitialMtu 100; CMaxMtu 9000; CCidLimit 0; CEarlyData 5; CDatagram 1200; CIdle 0])
    as (_ & H2 & _ & _ & _ & H6).
  { eapply bool_decide_unpack. vm_compute. exact I. }
  split_and!; [apply H6; vm_compute; split; congruence | reflexivity | apply H2; vm_compute; congruence | reflexivity].
Defined.
