(* ===== verification/Multipath.v ===== *)
(** * Multipath state ([oxiquic-transport/src/connection/multipath.rs])

    The known network paths of a connection and the active one.  Socket addresses
    are an abstract type with decidable equality; [Instant::now()] is an argument.
    Indexing [paths[active_index]] panics out of range, so [active_path] is partial
    and the invariant shows that it never is. *)

From S2P Require Import Prelude CoreTypes.

Inductive PathValidation := PvUnknown | PvPending | PvValidated | PvFailed.

#[export] Instance PathValidation_eq_dec : EqDecision PathValidation.
Proof. solve_decision. Defined.

Section multipath.
Context {Addr : Type} `{!EqDecision Addr}.

(** ** One path *)

Record PathState := mkPath {
  local_addr : option Addr;
  remote_addr : Addr;
  connection_id : option (list Z);
  validation : PathValidation;
  path_smoothed_rtt : option Z;
  path_min_rtt : option Z;
  bandwidth_estimate : option Z;
  path_packets_sent : Z;
  path_packets_received : Z;
  first_seen : Z;
  last_sent : option Z
}.

Definition path_new (remote : Addr) (clock : Z) : PathState :=
  mkPath None remote None PvUnknown None None None 0 0 clock None.

Definition set_validation (v : PathValidation) (p : PathState) : PathState :=
  mkPath (local_addr p) (remote_addr p) (connection_id p) v (path_smoothed_rtt p) (path_min_rtt p)
    (bandwidth_estimate p) (path_packets_sent p) (path_packets_received p) (first_seen p) (last_sent p).

Definition set_connection_id (c : option (list Z)) (p : PathState) : PathState :=
  mkPath (local_addr p) (remote_addr p) c (validation p) (path_smoothed_rtt p) (path_min_rtt p)
    (bandwidth_estimate p) (path_packets_sent p) (path_packets_received p) (first_seen p) (last_sent p).

Definition is_usable (p : PathState) : bool := bool_decide (validation p = PvValidated).

(** Durations are nanoseconds; the EWMA is computed in whole microseconds. *)
Definition update_path_rtt (p : PathState) (sample : Z) : PathState :=
  let updated := match path_smoothed_rtt p with
                 | None => sample
                 | Some prev => u64_add (u64_mul (as_u64 (prev / 1000)) 7) (as_u64 (sample / 1000)) / 8 * 1000
                 end in
  mkPath (local_addr p) (remote_addr p) (connection_id p) (validation p) (Some updated)
    (opt_min (path_min_rtt p) sample)
    (bandwidth_estimate p) (path_packets_sent p) (path_packets_received p) (first_seen p) (last_sent p).

Definition record_sent (p : PathState) (clock : Z) : PathState :=
  mkPath (local_addr p) (remote_addr p) (connection_id p) (validation p) (path_smoothed_rtt p) (path_min_rtt p)
    (bandwidth_estimate p) (u64_add (path_packets_sent p) 1) (path_packets_received p) (first_seen p) (Some clock).

Definition record_received (p : PathState) : PathState :=
  mkPath (local_addr p) (remote_addr p) (connection_id p) (validation p) (path_smoothed_rtt p) (path_min_rtt p)
    (bandwidth_estimate p) (path_packets_sent p) (u64_add (path_packets_received p) 1) (first_seen p) (last_sent p).

(** ** All paths *)

Record MultipathState := mkMultipath { paths : list PathState; active_index : nat }.

Definition MAX_PATHS : nat := 8.

Definition multipath_new (initial_remote : Addr) (clock : Z) : MultipathState :=
  mkMultipath [set_validation PvValidated (path_new initial_remote clock)] 0.

Definition path_count (s : MultipathState) : nat := length (paths s).

Definition active_path (s : MultipathState) : option PathState := paths s !! active_index s.

Definition add_path (s : MultipathState) (remote : Addr) (cid : option (list Z)) (clock : Z)
    : result OxiQuicError (nat * MultipathState) :=
  if existsb (fun p => bool_decide (remote_addr p = remote)) (paths s) then Err EConnection
  else if (MAX_PATHS <=? length (paths s))%nat then Err EConnection
  else
    let state := set_connection_id cid (path_new remote clock) in
    Ok (length (paths s), mkMultipath (paths s ++ [state]) (active_index s)).

Definition remove_path (s : MultipathState) (index : nat) : result OxiQuicError MultipathState :=
  if (length (paths s) <=? index)%nat then Err EConnection
  else if (index =? active_index s)%nat then Err EConnection
  else Ok (mkMultipath (delete index (paths s))
             (if (index <? active_index s)%nat then active_index s - 1 else active_index s)%nat).

Definition set_preferred (s : MultipathState) (index : nat) : result OxiQuicError MultipathState :=
  match paths s !! index with
  | None => Err EConnection
  | Some p => if negb (is_usable p) then Err EConnection else Ok (mkMultipath (paths s) index)
  end.

Definition path_by_addr (s : MultipathState) (addr : Addr) : option (nat * PathState) :=
  list_find (fun p => remote_addr p = addr) (paths s).

(** [if let Some(p) = self.paths.get_mut(index) { p.validation = v }]. *)
Definition mark (v : PathValidation) (s : MultipathState) (index : nat) : MultipathState :=
  mkMultipath (alter (set_validation v) index (paths s)) (active_index s).

Definition mark_validated := mark PvValidated.
Definition mark_pending := mark PvPending.
Definition mark_failed := mark PvFailed.

(** ** Invariant *)

Record multipath_inv (s : MultipathState) : Prop := {
  mi_bound : (length (paths s) <= MAX_PATHS)%nat;
  mi_active : (active_index s < length (paths s))%nat;
  mi_distinct : NoDup (map remote_addr (paths s))
}.

(** A run of path operations, with the address the connection sends to. *)
Inductive path_event :=
| PathAdd (remote : Addr) (cid : option (list Z)) (clock : Z)
| PathRemove (index : nat)
| PathPrefer (index : nat)
| PathMark (v : PathValidation) (index : nat).

(** A failing operation leaves the state as it was. *)
Definition path_step (s : MultipathState) (ev : path_event) : MultipathState :=
  match ev with
  | PathAdd remote cid clock => match add_path s remote cid clock with Ok (_, s') => s' | Err _ => s end
  | PathRemove i => match remove_path s i with Ok s' => s' | Err _ => s end
  | PathPrefer i => match set_preferred s i with Ok s' => s' | Err _ => s end
  | PathMark v i => mark v s i
  end.

Lemma active_remote s : multipath_inv s -> exists p, active_path s = Some p.
Proof. intros [_ Ha _]. by apply lookup_lt_is_Some_2. Qed.

Lemma multipath_inv_add s remote cid clock i s' :
  multipath_inv s -> add_path s remote cid clock = Ok (i, s') ->
  multipath_inv s' /\ i = length (paths s) /\ active_path s' = active_path s.
Proof.
  intros [Hb Ha Hd]. unfold add_path.
  destruct (existsb _ (paths s)) eqn:Ex; [done |].
  destruct (Nat.leb_spec MAX_PATHS (length (paths s))) as [| Hlt]; [done |].
  intros [= <- <-]. split_and!; [| done |].
  - split; simpl; rewrite ?length_app; simpl; [lia | lia |].
    rewrite map_app. apply NoDup_app. split; [done |]. split; [| apply NoDup_singleton].
    intros x Hx Hy%list_elem_of_singleton. subst x. apply list_elem_of_fmap in Hx as (p & Hp & Hin).
    assert (Hex : existsb (fun p => bool_decide (remote_addr p = remote)) (paths s) = true); [| congruence].
    apply existsb_exists. exists p. split; [by apply list_elem_of_In |]. by apply bool_decide_eq_true_2.
  - unfold active_path. simpl. by apply lookup_app_l.
Qed.

Lemma NoDup_delete {A} (l : list A) i : NoDup l -> NoDup (delete i l).
Proof. intros H. eapply sublist_NoDup; [exact H | apply sublist_delete]. Qed.

Lemma multipath_inv_remove s i s' :
  multipath_inv s -> remove_path s i = Ok s' -> multipath_inv s' /\ active_path s' = active_path s.
Proof.
  intros [Hb Ha Hd]. unfold remove_path.
  destruct (Nat.leb_spec (length (paths s)) i) as [| Hi]; [done |].
  destruct (Nat.eqb_spec i (active_index s)) as [| Hne]; [done |].
  intros [= <-]. destruct (lookup_lt_is_Some_2 (paths s) i Hi) as [p Hp].
  pose proof (length_delete (paths s) i ltac:(by exists p)) as Hl. split.
  - split; simpl; [lia | | ].
    + destruct (Nat.ltb_spec i (active_index s)); lia.
    + assert (E : map remote_addr (delete i (paths s)) = delete i (map remote_addr (paths s))).
      { apply list_fmap_delete. }
      rewrite E. by apply NoDup_delete.
  - unfold active_path. simpl. destruct (Nat.ltb_spec i (active_index s)).
    + rewrite list_lookup_delete_ge by lia. f_equal. lia.
    + rewrite list_lookup_delete_lt by lia. done.
Qed.

Lemma multipath_inv_mark v s i : multipath_inv s -> multipath_inv (mark v s i).
Proof.
  intros [Hb Ha Hd]. split; simpl; rewrite ?length_alter; [done | done |].
  assert (E : map remote_addr (alter (set_validation v) i (paths s)) = map remote_addr (paths s)); [| by rewrite E].
  clear. revert i. induction (paths s) as [| p l IH]; intros [| i]; simpl; try done. f_equal. apply IH.
Qed.

End multipath.

Arguments PathState : clear implicits.
Arguments MultipathState : clear implicits.
Arguments path_event : clear implicits.

(** ** Properties *)

(** The path table is sound over every sequence of path operations, failed ones
    included: there are between one and eight paths, with distinct remote addresses,
    and the active index is in range (so [paths[active_index]] cannot panic); and a
    step that changes the address of the active path is a promotion to a path that
    was validated, so removals and registrations never redirect the connection. *)
Theorem multipath_sound {Addr} `{!EqDecision Addr} (initial : Addr) clock evs :
  let s := fold_left path_step evs (multipath_new initial clock) in
  (1 <= path_count s <= MAX_PATHS)%nat /\ NoDup (map remote_addr (paths s)) /\
  (exists p, active_path s = Some p) /\
  forall ev p', active_path (path_step s ev) = Some p' ->
    (remote_addr <$> active_path s) = Some (remote_addr p') \/
    exists i, ev = PathPrefer i /\ paths s !! i = Some p' /\ validation p' = PvValidated.
Proof.
  intros s.
  assert (Hstep : forall (s : MultipathState Addr) ev, multipath_inv s -> multipath_inv (path_step s ev)).
  { clear s. intros s [remote cid clock0 | i | i | v i] Hi; simpl.
    - destruct (add_path s remote cid clock0) as [[j s'] |] eqn:E; [| done]. by eapply multipath_inv_add.
    - destruct (remove_path s i) as [s' |] eqn:E; [| done]. by eapply multipath_inv_remove.
    - unfold set_preferred. destruct (paths s !! i) eqn:E; [| done]. destruct (negb _); [done |].
      destruct Hi as [Hb Ha Hd]. split; simpl; [done | by eapply lookup_lt_Some | done].
    - by apply multipath_inv_mark. }
  assert (Hinv : multipath_inv s).
  { subst s. assert (H0 : multipath_inv (multipath_new initial clock)).
    { split; simpl; [unfold MAX_PATHS; lia | lia | apply NoDup_singleton]. }
    revert H0. generalize (multipath_new initial clock). clear -Hstep.
    induction evs as [| ev evs IH]; intros s0 H0; [done |]. simpl. by apply IH, Hstep. }
  destruct Hinv as [Hb Ha Hd]. unfold path_count. split_and!; [lia | done | done | by apply active_remote |].
  intros ev p' Hp. destruct ev as [remote cid clock' | i | i | v i]; simpl in Hp.
  - left. destruct (add_path s remote cid clock') as [[j s'] |] eqn:E; [| by rewrite Hp].
    destruct (multipath_inv_add s remote cid clock' j s' ltac:(done) E) as (_ & _ & <-). by rewrite Hp.
  - left. destruct (remove_path s i) as [s' |] eqn:E; [| by rewrite Hp].
    destruct (multipath_inv_remove s i s' ltac:(done) E) as (_ & <-). by rewrite Hp.
  - unfold set_preferred in Hp. destruct (paths s !! i) as [q |] eqn:E; [| left; by rewrite Hp].
    destruct (is_usable q) eqn:Eu; simpl in Hp; [| left; by rewrite Hp].
    right. exists i. unfold active_path in Hp. simpl in Hp. apply bool_decide_eq_true_1 in Eu.
    split; [done |]. split; [done | congruence].
  - left. unfold active_path in *. simpl in Hp.
    rewrite list_lookup_alter in Hp. case_decide; [| by rewrite Hp].
    apply fmap_Some in Hp as (q & Hq & ->). subst i. by rewrite Hq.
Qed.
