(* ===== verification/Connection.v ===== *)
(** * The connection: state, construction and application interface
    ([oxiquic-transport/src/connection/mod.rs], [streams.rs], [multipath.rs])

    The record [Connection] with the fields of the source's struct, its
    constructor, the stream, datagram, close and early-data interface, the idle
    and keep-alive timers and the path-MTU search.

    What lives outside the repository is the class [QuicEnv]: the TLS session
    ([rustls::quic]), packet and header keys, the random generator, the hash and
    cipher primitives and socket addresses.  [&mut self] methods return the new
    connection; [Instant::now()] is an argument [clock]. *)

From S2P Require Import Prelude OrdMap CoreTypes Coding FrameCodec ParamsCodec PacketSpace SentPackets.
From S2P Require Import Streams FlowControl Recovery Floats Congestion Bbr CidPool Packet Multipath.

(** ** The environment *)

Inductive Role := Client | Server.
Inductive HandshakeLevel := LvInitial | LvHandshake.
Inductive ConnectionState := Handshaking | Established | Closing | Closed.
Inductive SpaceKind := SkInitial | SkHandshake | SkApplication.

#[export] Instance Role_eq_dec : EqDecision Role.
Proof. solve_decision. Defined.
#[export] Instance HandshakeLevel_eq_dec : EqDecision HandshakeLevel.
Proof. solve_decision. Defined.
#[export] Instance ConnectionState_eq_dec : EqDecision ConnectionState.
Proof. solve_decision. Defined.
#[export] Instance SpaceKind_eq_dec : EqDecision SpaceKind.
Proof. solve_decision. Defined.

(** [rustls::quic::KeyChange]. *)
Inductive KeyChange (HK PK Sec : Type) :=
| KcHandshake (keys : Keys HK PK)
| KcOneRtt (keys : Keys HK PK) (next : Sec).
Arguments KcHandshake {HK PK Sec} keys.
Arguments KcOneRtt {HK PK Sec} keys next.

Class QuicEnv := {
  Tls : Type;
  HeaderKey : Type;
  PacketKey : Type;
  Secrets : Type;
  Rng : Type;
  Addr : Type;
  addr_eq_dec : EqDecision Addr;
  packet_crypto : PacketCrypto HeaderKey PacketKey;
  (** [rustls::quic::Connection] *)
  write_hs : Tls -> list Z * option (KeyChange HeaderKey PacketKey Secrets) * Tls;
  read_hs : Tls -> list Z -> result unit unit * Tls;
  is_handshaking : Tls -> bool;
  tls_zero_rtt_keys : Tls -> option (DirectionalKeys HeaderKey PacketKey);
  quic_transport_parameters : Tls -> option (list Z);
  is_early_data_accepted : Tls -> bool;
  (** The key changes the session has still to report; [write_hs] reports each once. *)
  key_changes_left : Tls -> nat;
  (** [Secrets::next_packet_keys], [Keys::initial] *)
  next_packet_keys : Secrets -> PacketKeySet PacketKey * Secrets;
  initial_keys : list Z -> Role -> Keys HeaderKey PacketKey;
  (** [SecureRandom::fill] on a buffer of the given length *)
  rng_fill : Rng -> nat -> option (list Z) * Rng;
  hmac_sha256 : list Z -> list Z -> list Z;
  aes128gcm_encrypt : list Z -> list Z -> list Z -> list Z -> option (list Z);
  (** [f64::cbrt] *)
  cbrt : f64 -> f64
}.

#[export] Existing Instance addr_eq_dec.
#[export] Existing Instance packet_crypto.

(** What the code relies on of that environment: rustls reports each key change once,
    decryption works in place and the plaintext is a byte string within the buffer,
    the generator fills the whole buffer, the peer's parameters are a byte string. *)
Class LawfulEnv (env : QuicEnv) : Prop := {
  write_hs_progress : forall t, is_some (write_hs t).1.2 = true -> (key_changes_left (write_hs t).2 < key_changes_left t)%nat;
  pk_decrypt_in_place : forall k pn h b, length (pk_decrypt k pn h b).1 = length b;
  pk_decrypt_plaintext : forall k pn h b p,
    (pk_decrypt k pn h b).2 = Some p -> bytes_ok p /\ (length p <= length b)%nat;
  hp_decrypt_in_place : forall k s f pn f' pn', hp_decrypt k s f pn = Some (f', pn') -> length pn' = length pn;
  rng_fill_length : forall r n bytes r', rng_fill r n = (Some bytes, r') -> length bytes = n;
  transport_parameters_bytes : forall t raw,
    quic_transport_parameters t = Some raw -> bytes_ok raw /\ len raw <= VARINT_MAX
}.

Definition QUIC_V1 : Z := 0x00000001.
Definition LOCAL_CID_LEN : nat := 8.
Definition MIN_INITIAL_DATAGRAM : Z := 1200.
Definition MAX_DATAGRAM : Z := 1200.

Record MtuConfig := mkMtuConfig { mc_max_mtu : Z; mc_discovery_enabled : bool }.
Definition default_mtu_config : MtuConfig := mkMtuConfig 1452 true.

Record ConnectionParams (A : Type) := mkConnParams {
  cp_local_cid : list Z;
  cp_peer_cid : list Z;
  cp_initial_dcid : list Z;
  cp_peer_addr : A;
  cp_local_params : TransportParams;
  cp_mtu_config : MtuConfig;
  cp_datagram_recv_buffer_size : Z
}.
Arguments mkConnParams {A}.
Arguments cp_local_cid {A}. Arguments cp_peer_cid {A}. Arguments cp_initial_dcid {A}. Arguments cp_peer_addr {A}.
Arguments cp_local_params {A}. Arguments cp_mtu_config {A}. Arguments cp_datagram_recv_buffer_size {A}.

Section connection.
Context {env : QuicEnv}.

Notation space := (PacketSpace HeaderKey PacketKey).

(** ** State *)

Record Connection := mkConnection {
  role : Role;
  tls : Tls;
  state : ConnectionState;
  local_cid : list Z;
  peer_cid : list Z;
  initial_dcid : list Z;
  initial : space;
  handshake : space;
  application : space;
  initial_crypto : CryptoStream.t;
  handshake_crypto : CryptoStream.t;
  write_level : HandshakeLevel;
  handshake_keys_ready : bool;
  one_rtt_ready : bool;
  handshake_done : bool;
  handshake_complete : bool;
  peer_params : option TransportParams;
  send_streams : BTreeMap SendStream.t;
  recv_streams : BTreeMap RecvStream.t;
  next_bidi_index : Z;
  next_uni_index : Z;
  readable : list Z;
  new_peer_streams : list Z;
  peer_addr : Addr;
  idle_timeout : option Z;
  idle_deadline : option Z;
  keep_alive_interval : option Z;
  next_keep_alive : option Z;
  pending_keep_alive_ping : bool;
  pending_close : option (Z * list Z);
  pending_transport_close : option (TransportErrorCode * list Z);
  peer_closed : option OxiQuicError;
  sent_packets : list SentPackets;
  rtt : Rtt.t;
  loss : LossDetection.t;
  loss_timer : option Z;
  probes_owed : Z;
  peer_max_ack_delay : Z;
  congestion : CongestionController;
  send_flow : SendFlowControl.t;
  recv_flow : RecvFlowControl.t;
  stream_send_flow : BTreeMap StreamSendFlow.t;
  stream_recv_flow : BTreeMap StreamRecvFlow.t;
  local_initial_max_stream_data : Z;
  pending_max_data : option Z;
  pending_max_stream_data : BTreeMap Z;
  pending_data_blocked : option Z;
  pending_stream_data_blocked : BTreeMap Z;
  bytes_sent : Z;
  bytes_recv : Z;
  packets_sent : Z;
  packets_recv : Z;
  packets_lost : Z;
  pending_reset_streams : BTreeMap (Z * Z);
  pending_stop_sending : BTreeMap Z;
  retry_token : option (list Z);
  cached_initial_hs_bytes : list Z;
  retry_done : bool;
  retry_count : Z;
  secure_random : Rng;
  pending_path_response : option (list Z);
  pending_path_challenge : option (list Z);
  pending_path_challenge_send : bool;
  candidate_peer_addr : option Addr;
  path_validated : bool;
  current_mtu : Z;
  probe_mtu : option Z;
  probe_count : Z;
  max_mtu : Z;
  mtu_discovery_enabled : bool;
  pending_mtu_probe : bool;
  next_mtu_probe : option Z;
  key_phase : bool;
  one_rtt_secrets : option Secrets;
  next_1rtt_keys : option (PacketKeySet PacketKey);
  prev_1rtt_keys : option (PacketKey * Z);
  key_update_received : bool;
  key_update_pending : bool;
  key_update_cooldown : option Z;
  key_update_count : Z;
  peer_max_streams_bidi : Z;
  peer_max_streams_uni : Z;
  local_max_streams_bidi : Z;
  local_max_streams_uni : Z;
  sent_max_streams_bidi : Z;
  sent_max_streams_uni : Z;
  closed_peer_bidi : Z;
  closed_peer_uni : Z;
  pending_max_streams_bidi : option Z;
  pending_max_streams_uni : option Z;
  pending_streams_blocked_bidi : option Z;
  pending_streams_blocked_uni : option Z;
  peer_max_datagram_frame_size : Z;
  local_max_datagram_frame_size : Z;
  datagram_recv_queue : list (list Z);
  datagram_send_queue : list (list Z);
  datagram_recv_buffer_limit : Z;
  zero_rtt_keys : option (DirectionalKeys HeaderKey PacketKey);
  early_data_buf : list (Z * list Z * bool);
  zero_rtt_sent : bool;
  zero_rtt_accepted : option bool;
  received_token : option (list Z);
  pending_new_token : option (list Z);
  local_cid_pool : LocalCidPool.t;
  peer_cid_pool : PeerCidPool.t;
  pending_cid_events : list CidEvent;
  cids_issued_this_packet : list Z;
  multipath : MultipathState Addr
}.

(** The record rebuilt field by field, for the update notation. *)
#[export] Instance Connection_eta : Settable Connection := fun c =>
  mkConnection (role c) (tls c) (state c) (local_cid c) (peer_cid c) (initial_dcid c) (initial
    c) (handshake c) (application c) (initial_crypto c) (handshake_crypto c) (write_level c)
    (handshake_keys_ready c) (one_rtt_ready c) (handshake_done c) (handshake_complete c)
    (peer_params c) (send_streams c) (recv_streams c) (next_bidi_index c) (next_uni_index c)
    (readable c) (new_peer_streams c) (peer_addr c) (idle_timeout c) (idle_deadline c)
    (keep_alive_interval c) (next_keep_alive c) (pending_keep_alive_ping c) (pending_close c)
    (pending_transport_close c) (peer_closed c) (sent_packets c) (rtt c) (loss c) (loss_timer c)
    (probes_owed c) (peer_max_ack_delay c) (congestion c) (send_flow c) (recv_flow c)
    (stream_send_flow c) (stream_recv_flow c) (local_initial_max_stream_data c)
    (pending_max_data c) (pending_max_stream_data c) (pending_data_blocked c)
    (pending_stream_data_blocked c) (bytes_sent c) (bytes_recv c) (packets_sent c) (packets_recv
    c) (packets_lost c) (pending_reset_streams c) (pending_stop_sending c) (retry_token c)
    (cached_initial_hs_bytes c) (retry_done c) (retry_count c) (secure_random c)
    (pending_path_response c) (pending_path_challenge c) (pending_path_challenge_send c)
    (candidate_peer_addr c) (path_validated c) (current_mtu c) (probe_mtu c) (probe_count c)
    (max_mtu c) (mtu_discovery_enabled c) (pending_mtu_probe c) (next_mtu_probe c) (key_phase c)
    (one_rtt_secrets c) (next_1rtt_keys c) (prev_1rtt_keys c) (key_update_received c)
    (key_update_pending c) (key_update_cooldown c) (key_update_count c) (peer_max_streams_bidi
    c) (peer_max_streams_uni c) (local_max_streams_bidi c) (local_max_streams_uni c)
    (sent_max_streams_bidi c) (sent_max_streams_uni c) (closed_peer_bidi c) (closed_peer_uni c)
    (pending_max_streams_bidi c) (pending_max_streams_uni c) (pending_streams_blocked_bidi c)
    (pending_streams_blocked_uni c) (peer_max_datagram_frame_size c)
    (local_max_datagram_frame_size c) (datagram_recv_queue c) (datagram_send_queue c)
    (datagram_recv_buffer_limit c) (zero_rtt_keys c) (early_data_buf c) (zero_rtt_sent c)
    (zero_rtt_accepted c) (received_token c) (pending_new_token c) (local_cid_pool c)
    (peer_cid_pool c) (pending_cid_events c) (cids_issued_this_packet c) (multipath c).

#[export] Instance set_role : Setter role := ltac:(solve_setter).
#[export] Instance set_tls : Setter tls := ltac:(solve_setter).
#[export] Instance set_state : Setter state := ltac:(solve_setter).
#[export] Instance set_local_cid : Setter local_cid := ltac:(solve_setter).
#[export] Instance set_peer_cid : Setter peer_cid := ltac:(solve_setter).
#[export] Instance set_initial_dcid : Setter initial_dcid := ltac:(solve_setter).
#[export] Instance set_initial : Setter initial := ltac:(solve_setter).
#[export] Instance set_handshake : Setter handshake := ltac:(solve_setter).
#[export] Instance set_application : Setter application := ltac:(solve_setter).
#[export] Instance set_initial_crypto : Setter initial_crypto := ltac:(solve_setter).
#[export] Instance set_handshake_crypto : Setter handshake_crypto := ltac:(solve_setter).
#[export] Instance set_write_level : Setter write_level := ltac:(solve_setter).
#[export] Instance set_handshake_keys_ready : Setter handshake_keys_ready := ltac:(solve_setter).
#[export] Instance set_one_rtt_ready : Setter one_rtt_ready := ltac:(solve_setter).
#[export] Instance set_handshake_done : Setter handshake_done := ltac:(solve_setter).
#[export] Instance set_handshake_complete : Setter handshake_complete := ltac:(solve_setter).
#[export] Instance set_peer_params : Setter peer_params := ltac:(solve_setter).
#[export] Instance set_send_streams : Setter send_streams := ltac:(solve_setter).
#[export] Instance set_recv_streams : Setter recv_streams := ltac:(solve_setter).
#[export] Instance set_next_bidi_index : Setter next_bidi_index := ltac:(solve_setter).
#[export] Instance set_next_uni_index : Setter next_uni_index := ltac:(solve_setter).
#[export] Instance set_readable : Setter readable := ltac:(solve_setter).
#[export] Instance set_new_peer_streams : Setter new_peer_streams := ltac:(solve_setter).
#[export] Instance set_peer_addr : Setter peer_addr := ltac:(solve_setter).
#[export] Instance set_idle_timeout : Setter idle_timeout := ltac:(solve_setter).
#[export] Instance set_idle_deadline : Setter idle_deadline := ltac:(solve_setter).
#[export] Instance set_keep_alive_interval : Setter keep_alive_interval := ltac:(solve_setter).
#[export] Instance set_next_keep_alive : Setter next_keep_alive := ltac:(solve_setter).
#[export] Instance set_pending_keep_alive_ping : Setter pending_keep_alive_ping := ltac:(solve_setter).
#[export] Instance set_pending_close : Setter pending_close := ltac:(solve_setter).
#[export] Instance set_pending_transport_close : Setter pending_transport_close := ltac:(solve_setter).
#[export] Instance set_peer_closed : Setter peer_closed := ltac:(solve_setter).
#[export] Instance set_sent_packets : Setter sent_packets := ltac:(solve_setter).
#[export] Instance set_rtt : Setter rtt := ltac:(solve_setter).
#[export] Instance set_loss : Setter loss := ltac:(solve_setter).
#[export] Instance set_loss_timer : Setter loss_timer := ltac:(solve_setter).
#[export] Instance set_probes_owed : Setter probes_owed := ltac:(solve_setter).
#[export] Instance set_peer_max_ack_delay : Setter peer_max_ack_delay := ltac:(solve_setter).
#[export] Instance set_congestion : Setter congestion := ltac:(solve_setter).
#[export] Instance set_send_flow : Setter send_flow := ltac:(solve_setter).
#[export] Instance set_recv_flow : Setter recv_flow := ltac:(solve_setter).
#[export] Instance set_stream_send_flow : Setter stream_send_flow := ltac:(solve_setter).
#[export] Instance set_stream_recv_flow : Setter stream_recv_flow := ltac:(solve_setter).
#[export] Instance set_local_initial_max_stream_data : Setter local_initial_max_stream_data := ltac:(solve_setter).
#[export] Instance set_pending_max_data : Setter pending_max_data := ltac:(solve_setter).
#[export] Instance set_pending_max_stream_data : Setter pending_max_stream_data := ltac:(solve_setter).
#[export] Instance set_pending_data_blocked : Setter pending_data_blocked := ltac:(solve_setter).
#[export] Instance set_pending_stream_data_blocked : Setter pending_stream_data_blocked := ltac:(solve_setter).
#[export] Instance set_bytes_sent : Setter bytes_sent := ltac:(solve_setter).
#[export] Instance set_bytes_recv : Setter bytes_recv := ltac:(solve_setter).
#[export] Instance set_packets_sent : Setter packets_sent := ltac:(solve_setter).
#[export] Instance set_packets_recv : Setter packets_recv := ltac:(solve_setter).
#[export] Instance set_packets_lost : Setter packets_lost := ltac:(solve_setter).
#[export] Instance set_pending_reset_streams : Setter pending_reset_streams := ltac:(solve_setter).
#[export] Instance set_pending_stop_sending : Setter pending_stop_sending := ltac:(solve_setter).
#[export] Instance set_retry_token : Setter retry_token := ltac:(solve_setter).
#[export] Instance set_cached_initial_hs_bytes : Setter cached_initial_hs_bytes := ltac:(solve_setter).
#[export] Instance set_retry_done : Setter retry_done := ltac:(solve_setter).
#[export] Instance set_retry_count : Setter retry_count := ltac:(solve_setter).
#[export] Instance set_secure_random : Setter secure_random := ltac:(solve_setter).
#[export] Instance set_pending_path_response : Setter pending_path_response := ltac:(solve_setter).
#[export] Instance set_pending_path_challenge : Setter pending_path_challenge := ltac:(solve_setter).
#[export] Instance set_pending_path_challenge_send : Setter pending_path_challenge_send := ltac:(solve_setter).
#[export] Instance set_candidate_peer_addr : Setter candidate_peer_addr := ltac:(solve_setter).
#[export] Instance set_path_validated : Setter path_validated := ltac:(solve_setter).
#[export] Instance set_current_mtu : Setter current_mtu := ltac:(solve_setter).
#[export] Instance set_probe_mtu : Setter probe_mtu := ltac:(solve_setter).
#[export] Instance set_probe_count : Setter probe_count := ltac:(solve_setter).
#[export] Instance set_max_mtu : Setter max_mtu := ltac:(solve_setter).
#[export] Instance set_mtu_discovery_enabled : Setter mtu_discovery_enabled := ltac:(solve_setter).
#[export] Instance set_pending_mtu_probe : Setter pending_mtu_probe := ltac:(solve_setter).
#[export] Instance set_next_mtu_probe : Setter next_mtu_probe := ltac:(solve_setter).
#[export] Instance set_key_phase : Setter key_phase := ltac:(solve_setter).
#[export] Instance set_one_rtt_secrets : Setter one_rtt_secrets := ltac:(solve_setter).
#[export] Instance set_next_1rtt_keys : Setter next_1rtt_keys := ltac:(solve_setter).
#[export] Instance set_prev_1rtt_keys : Setter prev_1rtt_keys := ltac:(solve_setter).
#[export] Instance set_key_update_received : Setter key_update_received := ltac:(solve_setter).
#[export] Instance set_key_update_pending : Setter key_update_pending := ltac:(solve_setter).
#[export] Instance set_key_update_cooldown : Setter key_update_cooldown := ltac:(solve_setter).
#[export] Instance set_key_update_count : Setter key_update_count := ltac:(solve_setter).
#[export] Instance set_peer_max_streams_bidi : Setter peer_max_streams_bidi := ltac:(solve_setter).
#[export] Instance set_peer_max_streams_uni : Setter peer_max_streams_uni := ltac:(solve_setter).
#[export] Instance set_local_max_streams_bidi : Setter local_max_streams_bidi := ltac:(solve_setter).
#[export] Instance set_local_max_streams_uni : Setter local_max_streams_uni := ltac:(solve_setter).
#[export] Instance set_sent_max_streams_bidi : Setter sent_max_streams_bidi := ltac:(solve_setter).
#[export] Instance set_sent_max_streams_uni : Setter sent_max_streams_uni := ltac:(solve_setter).
#[export] Instance set_closed_peer_bidi : Setter closed_peer_bidi := ltac:(solve_setter).
#[export] Instance set_closed_peer_uni : Setter closed_peer_uni := ltac:(solve_setter).
#[export] Instance set_pending_max_streams_bidi : Setter pending_max_streams_bidi := ltac:(solve_setter).
#[export] Instance set_pending_max_streams_uni : Setter pending_max_streams_uni := ltac:(solve_setter).
#[export] Instance set_pending_streams_blocked_bidi : Setter pending_streams_blocked_bidi := ltac:(solve_setter).
#[export] Instance set_pending_streams_blocked_uni : Setter pending_streams_blocked_uni := ltac:(solve_setter).
#[export] Instance set_peer_max_datagram_frame_size : Setter peer_max_datagram_frame_size := ltac:(solve_setter).
#[export] Instance set_local_max_datagram_frame_size : Setter local_max_datagram_frame_size := ltac:(solve_setter).
#[export] Instance set_datagram_recv_queue : Setter datagram_recv_queue := ltac:(solve_setter).
#[export] Instance set_datagram_send_queue : Setter datagram_send_queue := ltac:(solve_setter).
#[export] Instance set_datagram_recv_buffer_limit : Setter datagram_recv_buffer_limit := ltac:(solve_setter).
#[export] Instance set_zero_rtt_keys : Setter zero_rtt_keys := ltac:(solve_setter).
#[export] Instance set_early_data_buf : Setter early_data_buf := ltac:(solve_setter).
#[export] Instance set_zero_rtt_sent : Setter zero_rtt_sent := ltac:(solve_setter).
#[export] Instance set_zero_rtt_accepted : Setter zero_rtt_accepted := ltac:(solve_setter).
#[export] Instance set_received_token : Setter received_token := ltac:(solve_setter).
#[export] Instance set_pending_new_token : Setter pending_new_token := ltac:(solve_setter).
#[export] Instance set_local_cid_pool : Setter local_cid_pool := ltac:(solve_setter).
#[export] Instance set_peer_cid_pool : Setter peer_cid_pool := ltac:(solve_setter).
#[export] Instance set_pending_cid_events : Setter pending_cid_events := ltac:(solve_setter).
#[export] Instance set_cids_issued_this_packet : Setter cids_issued_this_packet := ltac:(solve_setter).
#[export] Instance set_multipath : Setter multipath := ltac:(solve_setter).

(** ** Construction *)

(** [if secure_random.fill(&mut buf).is_err()] leaves the zeroed buffer. *)
Definition new_inner (role_ : Role) (tls_ : Tls) (params : ConnectionParams Addr) (rng : Rng)
    (algo : CongestionAlgorithm) (clock : Z) : Connection :=
  let lp := cp_local_params params in
  let idle := if max_idle_timeout_ms lp =? 0 then None else Some (max_idle_timeout_ms lp * MILLIS) in
  let '(secret, rng) := rng_fill rng 32 in
  let server_secret_bytes := unwrap_or secret (replicate 32 0) in
  let active_cid_limit := Z.max (active_connection_id_limit lp) 2 in
  {| role := role_; tls := tls_; state := Handshaking;
     local_cid := cp_local_cid params; peer_cid := cp_peer_cid params; initial_dcid := cp_initial_dcid params;
     initial := space_new; handshake := space_new; application := space_new;
     initial_crypto := CryptoStream.new; handshake_crypto := CryptoStream.new;
     write_level := LvInitial; handshake_keys_ready := false; one_rtt_ready := false;
     handshake_done := false; handshake_complete := false; peer_params := None;
     send_streams := om_empty; recv_streams := om_empty; next_bidi_index := 0; next_uni_index := 0;
     readable := []; new_peer_streams := []; peer_addr := cp_peer_addr params;
     idle_timeout := idle; idle_deadline := None; keep_alive_interval := None; next_keep_alive := None;
     pending_keep_alive_ping := false; pending_close := None; pending_transport_close := None; peer_closed := None;
     sent_packets := [sent_new; sent_new; sent_new]; rtt := Rtt.new; loss := LossDetection.new;
     loss_timer := None; probes_owed := 0; peer_max_ack_delay := 0;
     congestion := cc_from_config algo clock; send_flow := SendFlowControl.new 0;
     recv_flow := RecvFlowControl.new (initial_max_data lp);
     stream_send_flow := om_empty; stream_recv_flow := om_empty;
     local_initial_max_stream_data := initial_max_stream_data_bidi_remote lp;
     pending_max_data := None; pending_max_stream_data := om_empty; pending_data_blocked := None;
     pending_stream_data_blocked := om_empty;
     bytes_sent := 0; bytes_recv := 0; packets_sent := 0; packets_recv := 0; packets_lost := 0;
     pending_reset_streams := om_empty; pending_stop_sending := om_empty;
     retry_token := None; cached_initial_hs_bytes := []; retry_done := false; retry_count := 0;
     secure_random := rng; pending_path_response := None; pending_path_challenge := None;
     pending_path_challenge_send := false; candidate_peer_addr := None; path_validated := false;
     current_mtu := MIN_INITIAL_DATAGRAM; probe_mtu := None; probe_count := 0;
     max_mtu := Z.max (mc_max_mtu (cp_mtu_config params)) MIN_INITIAL_DATAGRAM;
     mtu_discovery_enabled := mc_discovery_enabled (cp_mtu_config params);
     pending_mtu_probe := false; next_mtu_probe := None;
     key_phase := false; one_rtt_secrets := None; next_1rtt_keys := None; prev_1rtt_keys := None;
     key_update_received := false; key_update_pending := false; key_update_cooldown := None; key_update_count := 0;
     peer_max_streams_bidi := 0; peer_max_streams_uni := 0;
     local_max_streams_bidi := initial_max_streams_bidi lp; local_max_streams_uni := initial_max_streams_uni lp;
     sent_max_streams_bidi := initial_max_streams_bidi lp; sent_max_streams_uni := initial_max_streams_uni lp;
     closed_peer_bidi := 0; closed_peer_uni := 0;
     pending_max_streams_bidi := None; pending_max_streams_uni := None;
     pending_streams_blocked_bidi := None; pending_streams_blocked_uni := None;
     peer_max_datagram_frame_size := 0; local_max_datagram_frame_size := max_datagram_frame_size lp;
     datagram_recv_queue := []; datagram_send_queue := [];
     datagram_recv_buffer_limit := cp_datagram_recv_buffer_size params;
     zero_rtt_keys := None; early_data_buf := []; zero_rtt_sent := false; zero_rtt_accepted := None;
     received_token := None; pending_new_token := None;
     local_cid_pool := LocalCidPool.new hmac_sha256 (cp_local_cid params) server_secret_bytes active_cid_limit;
     peer_cid_pool := PeerCidPool.new (cp_peer_cid params) active_cid_limit;
     pending_cid_events := []; cids_issued_this_packet := [];
     multipath := multipath_new (cp_peer_addr params) clock |}.

Definition install_initial_keys (c : Connection) : Connection :=
  c <| initial ::= fun s => set_keys s (initial_keys (initial_dcid c) (role c)) |>.

(** A random connection ID, empty when the generator fails. *)
Definition random_cid (rng : Rng) : list Z * Rng :=
  match rng_fill rng LOCAL_CID_LEN with
  | (Some bytes, rng) => (bytes, rng)
  | (None, rng) => ([], rng)
  end.

(** [make_tls] is [ClientConnection::new] / [ServerConnection::new] on the encoded parameters. *)
Definition new_client (make_tls : list Z -> option Tls) (rng : Rng) (addr : Addr) (local_params : TransportParams)
    (mtu_config : MtuConfig) (algo : CongestionAlgorithm) (datagram_recv_buffer_size clock : Z)
    : result OxiQuicError Connection :=
  let '(dcid, rng) := random_cid rng in
  let '(lcid, rng) := random_cid rng in
  match make_tls (encode_transport_params local_params) with
  | None => Err ETls
  | Some client =>
      Ok (install_initial_keys
            (new_inner Client client
               (mkConnParams lcid dcid dcid addr local_params mtu_config datagram_recv_buffer_size) rng algo clock))
  end.

Definition new_server (make_tls : list Z -> option Tls) (rng : Rng) (client_dcid client_scid : list Z) (addr : Addr)
    (local_params : TransportParams) (mtu_config : MtuConfig) (algo : CongestionAlgorithm)
    (datagram_recv_buffer_size clock : Z) : result OxiQuicError Connection :=
  let '(lcid, rng) := random_cid rng in
  match make_tls (encode_transport_params local_params) with
  | None => Err ETls
  | Some server =>
      Ok (install_initial_keys
            (new_inner Server server
               (mkConnParams lcid client_scid client_dcid addr local_params mtu_config datagram_recv_buffer_size)
               rng algo clock))
  end.

(** ** Connection IDs and Retry *)

Definition pop_cid_event (c : Connection) : option CidEvent * Connection :=
  match pending_cid_events c with
  | [] => (None, c)
  | e :: tl => (Some e, c <| pending_cid_events := tl |>)
  end.

Definition maybe_issue_new_cid (c : Connection) : result OxiQuicError unit * Connection :=
  if negb (LocalCidPool.can_issue (local_cid_pool c)) then (Ok tt, c)
  else match rng_fill (secure_random c) 8 with
       | (None, rng) => (Err EProtocol, c <| secure_random := rng |>)
       | (Some raw, rng) =>
           let c := c <| secure_random := rng |> in
           match LocalCidPool.issue_new_cid hmac_sha256 (local_cid_pool c) raw with
           | Err e => (Err e, c)
           | Ok (_, new_cid, pool) =>
               (Ok tt, c <| local_cid_pool := pool |> <| pending_cid_events ::= fun q => q ++ [Register new_cid] |>)
           end
       end.

Definition rekey_initial_for_retry (c : Connection) (new_dcid token : list Z) : Connection :=
  let c := c <| initial_dcid := new_dcid |> <| initial := space_new |> in
  let c := install_initial_keys c in
  let c := c <| initial_crypto := CryptoStream.enqueue_send CryptoStream.new (cached_initial_hs_bytes c) |> in
  c <| retry_token := Some token |> <| retry_count ::= fun n => u64_add n 1 |>.

(** ** Peer parameters *)

Definition apply_peer_params (c : Connection) (params : TransportParams) : Connection :=
  let c := c <| send_flow ::= fun f => SendFlowControl.on_max_data f (initial_max_data params) |> in
  let c := c <| peer_max_ack_delay := max_ack_delay_ms params * MILLIS |> in
  let limit := initial_max_stream_data_bidi_remote params in
  let c := c <| stream_send_flow ::= map (fun e => (e.1, StreamSendFlow.on_max_stream_data e.2 limit)) |> in
  let c := c <| peer_max_streams_bidi := initial_max_streams_bidi params |> in
  let c := c <| peer_max_streams_uni := initial_max_streams_uni params |> in
  c <| peer_max_datagram_frame_size := max_datagram_frame_size params |>.

Definition peer_initial_stream_limit (c : Connection) : Z :=
  unwrap_or (initial_max_stream_data_bidi_remote <$> peer_params c) 0.

(** ** Timers *)

Definition arm_keep_alive (c : Connection) (now : Z) : Connection :=
  match keep_alive_interval c with
  | Some interval => c <| next_keep_alive := Some (now + interval) |>
  | None => c
  end.

Definition arm_idle_timer (c : Connection) (now : Z) : Connection :=
  let c := match idle_timeout c with
           | Some timeout => c <| idle_deadline := Some (now + timeout) |>
           | None => c
           end in
  arm_keep_alive c now.

Definition set_keep_alive (c : Connection) (interval : option Z) : Connection :=
  c <| keep_alive_interval := interval |>.

Definition next_timeout (c : Connection) : option Z :=
  fold_left (fun earliest t => match t with Some t => opt_min earliest t | None => earliest end)
    [idle_deadline c; loss_timer c; next_keep_alive c; next_mtu_probe c] None.

(** ** Path-MTU discovery *)

Definition next_probe_size (c : Connection) : option Z :=
  let lo := current_mtu c in
  let hi := max_mtu c in
  if hi <=? lo then None
  else let mid := as_u16 (lo + (hi - lo) / 2) in
       if mid <=? lo then None else Some mid.

Definition schedule_mtu_probe (c : Connection) : Connection :=
  if negb (mtu_discovery_enabled c) || negb (bool_decide (state c = Established)) || is_some (probe_mtu c)
  then c <| next_mtu_probe := None |>
  else
    let c := match next_probe_size c with
             | Some size => c <| probe_mtu := Some size |> <| probe_count := 0 |> <| pending_mtu_probe := true |>
             | None => c
             end in
    c <| next_mtu_probe := None |>.

Definition on_mtu_probe_acked (c : Connection) (size now : Z) : Connection :=
  let c := if current_mtu c <? size then c <| current_mtu := size |> else c in
  let c := c <| probe_mtu := None |> <| probe_count := 0 |> <| pending_mtu_probe := false |> in
  if is_some (next_probe_size c) then c <| next_mtu_probe := Some (now + 100 * MILLIS) |> else c.

Definition MAX_PROBE_RETRIES : Z := 2.

Definition on_mtu_probe_lost (c : Connection) (size : Z) : Connection :=
  let c := c <| probe_count ::= fun n => Z.min u8_MAX (n + 1) |> in
  if probe_count c <? MAX_PROBE_RETRIES then c <| pending_mtu_probe := true |>
  else c <| probe_mtu := None |> <| probe_count := 0 |> <| pending_mtu_probe := false |>
         <| mtu_discovery_enabled := false |>.

Definition schedule_initial_mtu_probe (c : Connection) (now : Z) : Connection :=
  if mtu_discovery_enabled c && (current_mtu c <? max_mtu c)
  then c <| next_mtu_probe := Some (now + 200 * MILLIS) |>
  else c.

(** ** Close, datagrams, tokens, early data *)

Definition close (c : Connection) (error_code : Z) (reason : list Z) : Connection :=
  if bool_decide (state c = Closed) then c
  else c <| pending_close := Some (error_code, reason) |> <| state := Closing |>.

Definition send_datagram (c : Connection) (data : list Z) : result OxiQuicError unit * Connection :=
  if peer_max_datagram_frame_size c =? 0 then (Err EConnection, c)
  else if peer_max_datagram_frame_size c <? len data then (Err EConnection, c)
  else (Ok tt, c <| datagram_send_queue ::= fun q => q ++ [data] |>).

Definition recv_datagram (c : Connection) : option (list Z) * Connection :=
  match datagram_recv_queue c with
  | [] => (None, c)
  | d :: tl => (Some d, c <| datagram_recv_queue := tl |>)
  end.

Definition max_datagram_size (c : Connection) : option Z :=
  if peer_max_datagram_frame_size c =? 0 then None else Some (peer_max_datagram_frame_size c).

Definition take_received_token (c : Connection) : option (list Z) * Connection :=
  (received_token c, c <| received_token := None |>).

(** [send_streams.entry(id).or_default()] followed by [write]. *)
Definition write_or_create (m : BTreeMap SendStream.t) (id : Z) (data : list Z) (fin : bool) : BTreeMap SendStream.t :=
  om_insert id (SendStream.write (unwrap_or (om_get id m) SendStream.new) data fin) m.

Definition queue_early_data (c : Connection) (stream : Z) (data : list Z) (fin : bool) : Connection :=
  if handshake_complete c
  then c <| send_streams ::= fun m => write_or_create m stream data fin |>
  else c <| early_data_buf ::= fun b => b ++ [(stream, data, fin)] |>.

Definition any_stream_send_data (c : Connection) : bool :=
  existsb SendStream.has_pending (om_values (send_streams c)).

Definition has_pending_stream_data (c : Connection) : bool := any_stream_send_data c.

(** ** Streams (streams.rs) *)

Definition local_initiator (c : Connection) : Initiator :=
  match role c with Client => InitClient | Server => InitServer end.

Definition open_bidi (c : Connection) : result OxiQuicError Z * Connection :=
  if (0 <? peer_max_streams_bidi c) && (peer_max_streams_bidi c <=? next_bidi_index c) then
    (Err EStream, c <| pending_streams_blocked_bidi := Some (peer_max_streams_bidi c) |>)
  else
    let id := StreamId.new (local_initiator c) Bidirectional (next_bidi_index c) in
    let c := c <| next_bidi_index ::= fun n => u64_add n 1 |> in
    let c := c <| send_streams ::= om_insert id SendStream.new |> in
    let c := c <| recv_streams ::= om_insert id RecvStream.new |> in
    let c := c <| stream_send_flow ::= om_insert id (StreamSendFlow.new (peer_initial_stream_limit c)) |> in
    let c := c <| stream_recv_flow ::= om_insert id (StreamRecvFlow.new (local_initial_max_stream_data c)) |> in
    (Ok id, c).

Definition open_uni (c : Connection) : result OxiQuicError Z * Connection :=
  if (0 <? peer_max_streams_uni c) && (peer_max_streams_uni c <=? next_uni_index c) then
    (Err EStream, c <| pending_streams_blocked_uni := Some (peer_max_streams_uni c) |>)
  else
    let id := StreamId.new (local_initiator c) Unidirectional (next_uni_index c) in
    let c := c <| next_uni_index ::= fun n => u64_add n 1 |> in
    let c := c <| send_streams ::= om_insert id SendStream.new |> in
    let c := c <| stream_send_flow ::= om_insert id (StreamSendFlow.new (peer_initial_stream_limit c)) |> in
    (Ok id, c).

Definition poll_new_peer_stream (c : Connection) : option Z * Connection :=
  match new_peer_streams c with
  | [] => (None, c)
  | id :: tl => (Some id, c <| new_peer_streams := tl |>)
  end.

Definition send_stream (c : Connection) (stream : Z) (data : list Z) (fin : bool) : result OxiQuicError unit * Connection :=
  match om_get stream (send_streams c) with
  | None => (Err EStream, c)
  | Some s => (Ok tt, c <| send_streams ::= om_insert stream (SendStream.write s data fin) |>)
  end.

Definition read_stream (c : Connection) (stream : Z) : result OxiQuicError (list Z * bool) * Connection :=
  match om_get stream (recv_streams c) with
  | None => (Err EStream, c)
  | Some s =>
      let '(r, s) := RecvStream.read_checked s in
      let c := c <| recv_streams ::= om_insert stream s |> in
      match r with
      | Err _ => (Err EStream, c)
      | Ok (bytes, fin) =>
          let consumed := len bytes in
          let c := if 0 <? consumed then
                     let c := c <| recv_flow ::= fun f => RecvFlowControl.on_data_consumed f consumed |> in
                     match om_get stream (stream_recv_flow c) with
                     | Some flow => c <| stream_recv_flow ::= om_insert stream (StreamRecvFlow.on_data_consumed flow consumed) |>
                     | None => c
                     end
                   else c in
          (Ok (bytes, fin), c)
      end
  end.

Definition poll_readable (c : Connection) : option Z * Connection :=
  match readable c with
  | [] => (None, c)
  | id :: tl => (Some id, c <| readable := tl |>)
  end.

Definition reset_stream (c : Connection) (stream error_code : Z) : result OxiQuicError unit * Connection :=
  match om_get stream (send_streams c) with
  | None => (Err EStream, c)
  | Some s =>
      let final_size := SendStream.final_size s in
      let c := c <| send_streams ::= om_insert stream (SendStream.reset s error_code) |> in
      (Ok tt, c <| pending_reset_streams ::= om_insert stream (error_code, final_size) |>)
  end.

Definition stop_sending (c : Connection) (stream error_code : Z) : result OxiQuicError unit * Connection :=
  match om_get stream (recv_streams c) with
  | None => (Err EStream, c)
  | Some _ => (Ok tt, c <| pending_stop_sending ::= om_insert stream error_code |>)
  end.

(** ** Paths (multipath.rs) *)

Definition active_path_rtt (c : Connection) : option Z :=
  (fun p => unwrap_or (path_smoothed_rtt p) (Rtt.smoothed_rtt (rtt c))) <$> active_path (multipath c).

Definition conn_add_path (c : Connection) (remote : Addr) (cid : option (list Z)) (clock : Z)
    : result OxiQuicError nat * Connection :=
  match add_path (multipath c) remote cid clock with
  | Err e => (Err e, c)
  | Ok (i, m) => (Ok i, c <| multipath := m |>)
  end.

(** [None] is the panic of indexing a path that is not there. *)
Definition conn_set_preferred_path (c : Connection) (index : nat) : option (result OxiQuicError unit * Connection) :=
  match set_preferred (multipath c) index with
  | Err e => Some (Err e, c)
  | Ok m => p ← active_path m; Some (Ok tt, c <| multipath := m |> <| peer_addr := remote_addr p |>)
  end.

End connection.

Arguments Connection : clear implicits.

(** ** A concrete environment

    The environment the witnesses run in: the toy cipher of [Packet], a TLS session
    that plays a script of handshake flights, a counter for randomness. *)

Record ScriptedTls := mkScriptedTls {
  flights : list (list Z * option (KeyChange unit Z Z));
  awaits : bool;
  peer_tp : option (list Z)
}.

Definition scripted_env (crypto : PacketCrypto unit Z) : QuicEnv := {|
  Tls := ScriptedTls; HeaderKey := unit; PacketKey := Z; Secrets := Z; Rng := Z; Addr := Z;
  addr_eq_dec := Z.eq_dec;
  packet_crypto := crypto;
  write_hs t := match flights t with
                | [] => ([], None, t)
                | (bytes, kc) :: fs => (bytes, kc, mkScriptedTls fs (awaits t) (peer_tp t))
                end;
  read_hs t data := (Ok tt, mkScriptedTls (flights t) false (peer_tp t));
  is_handshaking t := awaits t || negb (length (flights t) =? 0)%nat;
  tls_zero_rtt_keys _ := None;
  quic_transport_parameters t := if awaits t then None else (fun raw => take 4096 (map as_u8 raw)) <$> peer_tp t;
  is_early_data_accepted _ := false;
  key_changes_left t := foldr (fun f n => match f.2 with Some _ => S n | None => n end) 0%nat (flights t);
  next_packet_keys s := (mkKeySet (as_u8 (s + 1)) (as_u8 (s + 1)), s + 1);
  initial_keys _ _ := mkKeys (mkDirectional tt 0x11) (mkDirectional tt 0x11);
  rng_fill r n := (Some (map (fun i => as_u8 (r + Z.of_nat i)) (seq 0 n)), r + 1);
  hmac_sha256 _ m := take 32 (map as_u8 m ++ replicate 32 0);
  aes128gcm_encrypt _ _ p _ := Some (p ++ replicate 16 0);
  cbrt x := x
|}.

Definition demo_env : QuicEnv := scripted_env toy_crypto.

#[export] Instance demo_env_lawful : LawfulEnv demo_env.
Proof.
  split.
  - intros [[| [bytes [kc |]] fs] a tp]; simpl; done || lia.
  - done.
  - intros k pn h b p. apply toy_plaintext.
  - intros k s f pn f' pn' [= <- <-]. apply toy_mask_pn_length.
  - intros r n bytes r' [= <- <-]. by rewrite length_map, length_seq.
  - intros [fs [|] [tp |]] raw; cbn; try done. intros [= <-]. split.
    + apply Forall_take, Forall_map, Forall_true. intros x. apply as_u8_range.
    + rewrite length_take, VARINT_MAX_eq. lia.
Qed.

(** A client that has just been created. *)
Definition demo_client : Connection demo_env :=
  @install_initial_keys demo_env
    (@new_inner demo_env Client (mkScriptedTls [([1; 2; 3], None)] true (Some (encode_transport_params default_params)))
       (mkConnParams [1; 1; 1; 1; 1; 1; 1; 1] [2; 2; 2; 2; 2; 2; 2; 2] [2; 2; 2; 2; 2; 2; 2; 2] 7 default_params
          default_mtu_config 65536)
       0 AlgoNewReno 0).
