(* ===== verification/ConnRecovery.v ===== *)
(** * The connection: acknowledgements, loss and timers
    ([oxiquic-transport/src/connection/recovery.rs] and the timer methods of [mod.rs])

    [process_ack], loss detection with retransmission, the loss-detection timer
    and [handle_timeout].  The theorems compose the sent-packet stores with the
    congestion controller through the [CongestionControl] interface. *)

From S2P Require Import Prelude OrdMap CoreTypes Coding FrameCodec PacketSpace SentPackets Streams.
From S2P Require Import FlowControl Recovery Congestion Bbr CidPool Packet Multipath Connection.

Section recovery.
Context {env : QuicEnv}.

Notation conn := (Connection env).

(** [SpaceIndex as usize]. *)
Definition space_nat (i : SpaceIndex) : nat :=
  match i with SpInitial => 0 | SpHandshake => 1 | SpApplication => 2 end.

Definition space_index (pt : PacketType) : nat :=
  match pt with
  | PT_Initial => space_nat SpInitial
  | PT_Handshake => space_nat SpHandshake
  | _ => space_nat SpApplication
  end.

(** [self.sent_packets[idx]]. *)
Definition sent_at (c : conn) (idx : nat) : SentPackets := nth idx (sent_packets c) sent_new.
Definition put_sent (idx : nat) (s : SentPackets) (c : conn) : conn :=
  c <| sent_packets ::= fun l => <[idx := s]> l |>.

Definition decode_ack_delay (c : conn) (delay : Z) : Z :=
  let exponent := unwrap_or (ack_delay_exponent <$> peer_params c) DEFAULT_ACK_DELAY_EXPONENT in
  sat_mul delay (u64_shl 1 (Z.min exponent 20)) * 1000.

Definition requeue_frame (c : conn) (idx : nat) (frame : SentFrame) : conn :=
  match frame with
  | SFCrypto offset data =>
      if (idx =? space_nat SpHandshake)%nat
      then c <| handshake_crypto ::= fun s => CryptoStream.requeue s offset data |>
      else c <| initial_crypto ::= fun s => CryptoStream.requeue s offset data |>
  | SFStream id offset fin data =>
      match om_get id (send_streams c) with
      | Some s => c <| send_streams ::= om_insert id (SendStream.requeue s offset data fin) |>
      | None => c
      end
  | SFPing => c
  | SFMtuProbe _ => c
  | SFNewConnectionId seq _ cid token =>
      c <| local_cid_pool ::= fun p => LocalCidPool.mk (LocalCidPool.active p) (LocalCidPool.next_seq p)
             (LocalCidPool.pending_new p ++ [mkIssued seq cid token]) (LocalCidPool.secret p) (LocalCidPool.limit p) |>
  | SFRetireConnectionId seq =>
      c <| peer_cid_pool ::= fun p => PeerCidPool.mk (PeerCidPool.active p) (PeerCidPool.retire_threshold p)
             (PeerCidPool.pending_retire p ++ [seq]) (PeerCidPool.limit p) |>
  | SFMaxStreams Bidirectional max =>
      if match pending_max_streams_bidi c with None => true | Some existing => existing <? max end
      then c <| pending_max_streams_bidi := Some max |> else c
  | SFMaxStreams Unidirectional max =>
      if match pending_max_streams_uni c with None => true | Some existing => existing <? max end
      then c <| pending_max_streams_uni := Some max |> else c
  | SFStreamsBlocked Bidirectional limit => c <| pending_streams_blocked_bidi := Some limit |>
  | SFStreamsBlocked Unidirectional limit => c <| pending_streams_blocked_uni := Some limit |>
  | SFNewToken token =>
      if is_none (pending_new_token c) then c <| pending_new_token := Some token |> else c
  end.

(** The accumulator of the loss loop: bytes, newest and oldest send time of the
    lost in-flight packets. *)
Definition lost_summary (lost : list SentPacket) : Z * option Z * option Z :=
  fold_left (fun '(bytes, newest, oldest) p =>
               if sp_in_flight p
               then (u64_add bytes (sp_sent_bytes p), opt_max newest (sp_time_sent p), opt_min oldest (sp_time_sent p))
               else (bytes, newest, oldest))
            lost (0, None, None).

Definition handle_lost_frame (idx : nat) (c : conn) (frame : SentFrame) : conn :=
  match frame with
  | SFMtuProbe size => on_mtu_probe_lost c size
  | _ => requeue_frame c idx frame
  end.

Definition index_space (idx : nat) : SpaceIndex :=
  match idx with 0%nat => SpInitial | 1%nat => SpHandshake | _ => SpApplication end.

Definition detect_and_handle_loss (c : conn) (idx : nat) (now : Z) : conn :=
  let loss_delay := Rtt.loss_delay (rtt c) in
  let '(lost, next_loss_time, store) := detect_lost (sent_at c idx) now loss_delay in
  let c := put_sent idx store c in
  let c := c <| loss ::= fun l => LossDetection.set_loss_time l (index_space idx) next_loss_time |> in
  match lost with
  | [] => c
  | _ =>
      let '(lost_bytes, newest_lost, oldest_lost) := lost_summary lost in
      let c := c <| packets_lost ::= fun n => u64_add n (len lost) |> in
      let c := fold_left (fun c p => fold_left (handle_lost_frame idx) (sp_frames p) c) lost c in
      match newest_lost with
      | None => c
      | Some newest =>
          let c := c <| congestion ::= fun cc => ctl_on_packets_lost cc lost_bytes newest now |> in
          match oldest_lost with
          | None => c
          | Some oldest =>
              let pto_base := Rtt.pto_base (rtt c) (peer_max_ack_delay c) in
              if is_persistent_congestion oldest newest pto_base
              then c <| congestion ::= ctl_on_persistent_congestion |> else c
          end
      end
  end.

Definition earliest_ack_eliciting_across_spaces (c : conn) : option Z :=
  fold_left (fun earliest store =>
               match earliest_ack_eliciting_time store with
               | Some t => opt_min earliest t
               | None => earliest
               end) (sent_packets c) None.

Definition set_loss_detection_timer (c : conn) : conn :=
  match LossDetection.earliest_loss_time (loss c) with
  | Some (loss_time, _) => c <| loss_timer := Some loss_time |>
  | None =>
      match earliest_ack_eliciting_across_spaces c with
      | Some sent_time =>
          let pto_base := Rtt.pto_base (rtt c) (peer_max_ack_delay c) in
          c <| loss_timer := Some (LossDetection.pto_deadline (loss c) sent_time pto_base) |>
      | None => c <| loss_timer := None |>
      end
  end.

(** The RTT sample of [process_ack]: only when the largest is newly acknowledged. *)
Definition sample_rtt_on_ack (c : conn) (idx : nat) (outcome : AckOutcome) (largest delay now : Z) : conn :=
  if bool_decide (largest_newly_acked outcome = Some largest) then
    match list_find (fun p => sp_packet_number p = largest) (newly_acked outcome) with
    | Some (_, sent) =>
        let rtt_sample := Z.max 0 (now - sp_time_sent sent) in
        let ack_delay := decode_ack_delay c delay in
        let max_ack_delay :=
          if (idx =? space_nat SpApplication)%nat && handshake_done c then peer_max_ack_delay c else 0 in
        c <| rtt ::= fun r => Rtt.update r rtt_sample ack_delay max_ack_delay |>
    | None => c
    end
  else c.

Definition acked_for_cc (acked : list SentPacket) : list acked_packet :=
  map (fun p => (sp_sent_bytes p, sp_time_sent p, sp_rate_sample p)) (filter (fun p => Is_true (sp_in_flight p)) acked).

Definition on_acked_frame (now : Z) (c : conn) (frame : SentFrame) : conn :=
  match frame with SFMtuProbe size => on_mtu_probe_acked c size now | _ => c end.

Definition record_largest_acked (c : conn) (pt : PacketType) (largest : Z) : conn :=
  match pt with
  | PT_Initial => c <| initial ::= fun s => on_ack_received s largest |>
  | PT_Handshake => c <| handshake ::= fun s => on_ack_received s largest |>
  | _ => c <| application ::= fun s => on_ack_received s largest |>
  end.

Definition process_ack (c : conn) (now : Z) (pt : PacketType) (largest delay first_range : Z) (ranges : list AckRange)
    : conn :=
  let idx := space_index pt in
  let c := record_largest_acked c pt largest in
  let range_pairs := map (fun r => (ar_gap r, ar_range r)) ranges in
  let '(outcome, store) := on_ack (sent_at c idx) largest first_range range_pairs in
  let c := put_sent idx store c in
  match newly_acked outcome with
  | [] => c
  | _ =>
      let c := sample_rtt_on_ack c idx outcome largest delay now in
      let acked_cc := acked_for_cc (newly_acked outcome) in
      let c := match acked_cc with
               | [] => c
               | _ => c <| congestion ::= fun cc => ctl_on_packets_acked cbrt cc acked_cc now |>
               end in
      let c := if acked_ack_eliciting outcome
               then c <| loss ::= LossDetection.reset_pto_count |> <| probes_owed := 0 |> else c in
      let c := fold_left (fun c p => fold_left (on_acked_frame now) (sp_frames p) c) (newly_acked outcome) c in
      let c := detect_and_handle_loss c idx now in
      set_loss_detection_timer c
  end.

(** [for idx in 0..3]: re-queue the oldest packet's frames of each space. *)
Definition requeue_for_probe (c : conn) : conn :=
  fold_left (fun c idx =>
               match oldest_ack_eliciting_frames (sent_at c idx) with
               | Some frames => fold_left (fun c f => requeue_frame c idx f) frames c
               | None => c
               end) (seq 0 3) c.

(** Back off and owe two probes, four at most. *)
Definition owe_probes (c : conn) : conn :=
  c <| loss ::= LossDetection.increase_pto_count |> <| probes_owed ::= fun n => Z.min (Z.min u32_MAX (n + 2)) 4 |>.

Definition on_pto_expiry (c : conn) : conn :=
  let c := if is_some (earliest_ack_eliciting_across_spaces c) then requeue_for_probe (owe_probes c) else c in
  set_loss_detection_timer c.

Definition on_loss_timeout (c : conn) (now : Z) : conn :=
  match LossDetection.earliest_loss_time (loss c) with
  | Some (loss_time, space) =>
      if loss_time <=? now
      then set_loss_detection_timer (detect_and_handle_loss c (space_nat space) now)
      else on_pto_expiry c
  | None => on_pto_expiry c
  end.

(** ** Timer expiry (mod.rs) *)

Definition keep_alive_timeout (c : conn) (now : Z) : conn :=
  match next_keep_alive c with
  | Some ka =>
      if ka <=? now then
        let c := c <| pending_keep_alive_ping := true |> in
        match keep_alive_interval c with
        | Some interval => c <| next_keep_alive := Some (now + interval) |>
        | None => c
        end
      else c
  | None => c
  end.

Definition loss_timeout (c : conn) (now : Z) : conn :=
  match loss_timer c with
  | Some deadline => if deadline <=? now then on_loss_timeout c now else c
  | None => c
  end.

Definition mtu_timeout (c : conn) (now : Z) : conn :=
  match next_mtu_probe c with
  | Some probe_time =>
      if (probe_time <=? now) && bool_decide (state c = Established) then schedule_mtu_probe c else c
  | None => c
  end.

Definition handle_timeout (c : conn) (now : Z) : conn :=
  let idle := match idle_deadline c with Some deadline => deadline <=? now | None => false end in
  if idle then
    let c := c <| state := Closed |> in
    match peer_closed c with None => c <| peer_closed := Some EIdleTimeout |> | Some _ => c end
  else mtu_timeout (loss_timeout (keep_alive_timeout c now) now) now.

(** ** Lemmas: what each step leaves alone *)

(** The part of the state the congestion accounting is about. *)
Definition cc_view (c : conn) : list SentPackets * CongestionController := (sent_packets c, congestion c).

(** What path-MTU discovery has found and is trying. *)
Definition mtu_view (c : conn) : Z * Z * option Z := (current_mtu c, max_mtu c, probe_mtu c).

Lemma cc_view_requeue c idx f : cc_view (requeue_frame c idx f) = cc_view c.
Proof. destruct f as [| | | | | | [] | [] |]; simpl; repeat case_match; done. Qed.

Lemma cc_view_lost_frame idx c f : cc_view (handle_lost_frame idx c f) = cc_view c.
Proof.
  unfold handle_lost_frame. destruct f; try apply cc_view_requeue.
  unfold on_mtu_probe_lost. by case_match.
Qed.

Lemma cc_view_acked_frame now c f : cc_view (on_acked_frame now c f) = cc_view c.
Proof.
  destruct f; try done. simpl. unfold on_mtu_probe_acked.
  destruct (current_mtu c <? size); simpl; by case_match.
Qed.

Lemma cc_view_timer c : cc_view (set_loss_detection_timer c) = cc_view c.
Proof. unfold set_loss_detection_timer. repeat case_match; done. Qed.

Lemma cc_view_sample_rtt c idx o l d now : cc_view (sample_rtt_on_ack c idx o l d now) = cc_view c.
Proof. unfold sample_rtt_on_ack. repeat case_match; done. Qed.

Lemma cc_view_record c pt l : cc_view (record_largest_acked c pt l) = cc_view c.
Proof. by destruct pt. Qed.

(** A view every step of a fold keeps is kept by the fold. *)
Lemma fold_view {A B V} (view : A -> V) (step : A -> B -> A) l a :
  (forall a b, view (step a b) = view a) -> view (fold_left step l a) = view a.
Proof. intros H. revert a. induction l as [| b l IH]; intros a; [done |]. simpl. by rewrite IH, H. Qed.

Lemma cc_view_frames_fold (step : conn -> SentFrame -> conn) (lost : list SentPacket) c :
  (forall c f, cc_view (step c f) = cc_view c) ->
  cc_view (fold_left (fun c p => fold_left step (sp_frames p) c) lost c) = cc_view c.
Proof. intros H. apply fold_view. intros a p. by apply fold_view. Qed.

(** ** Lemmas: bytes in flight *)

Definition flight (p : SentPacket) : Z := if sp_in_flight p then sp_sent_bytes p else 0.
Definition flight_bytes (ps : list SentPacket) : Z := foldr (fun p n => flight p + n) 0 ps.
Definition store_flight (s : SentPackets) : Z := flight_bytes (om_values (sent s)).
Definition stores_flight (l : list SentPackets) : Z := foldr (fun s n => store_flight s + n) 0 l.

Lemma flight_bytes_app a b : flight_bytes (a ++ b) = flight_bytes a + flight_bytes b.
Proof. induction a as [| p a IH]; simpl; lia. Qed.

Lemma flight_bytes_perm a b : a ≡ₚ b -> flight_bytes a = flight_bytes b.
Proof. induction 1; simpl; lia. Qed.

(** Sizes are those of UDP datagrams. *)
Definition packet_sized (p : SentPacket) : Prop := 0 <= sp_sent_bytes p < 2 ^ 16.

Lemma flight_bytes_nonneg ps : Forall packet_sized ps -> 0 <= flight_bytes ps.
Proof.
  induction 1 as [| p ps [Hp _] _ IH]; simpl; [lia |]. unfold flight. destruct (sp_in_flight p); lia.
Qed.

(** The stores and the controller agree, and the controller satisfies an invariant
    of its own: [ctl_inv], or none. *)
Record flight_with (I : CongestionController -> Prop) (l : list SentPackets) (cc : CongestionController) : Prop := {
  fo_three : length l = 3%nat;
  fo_wf : Forall sent_wf l;
  fo_sized : Forall (fun s => Forall packet_sized (om_values (sent s))) l;
  fo_inv : I cc;
  fo_bytes : ctl_bytes_in_flight cc = stores_flight l;
  fo_small : stores_flight l < 2 ^ 59
}.

#[global] Arguments fo_three {I} l cc _.
#[global] Arguments fo_wf {I} l cc _.
#[global] Arguments fo_sized {I} l cc _.
#[global] Arguments fo_inv {I} l cc _.
#[global] Arguments fo_bytes {I} l cc _.
#[global] Arguments fo_small {I} l cc _.

Definition flight_ok : list SentPackets -> CongestionController -> Prop := flight_with ctl_inv.

(** Invariants of the controller that losing, and that sending packets keeps. *)
Class CtlLoses (I : CongestionController -> Prop) : Prop := {
  cl_lost cc bytes t now : I cc -> 0 <= bytes -> ctl_bytes_in_flight cc + bytes < 2 ^ 60 -> I (ctl_on_packets_lost cc bytes t now);
  cl_persistent cc : I cc -> I (ctl_on_persistent_congestion cc)
}.

Class CtlSends (I : CongestionController -> Prop) : Prop :=
  cl_sent cc bytes now : I cc -> 0 <= bytes -> ctl_bytes_in_flight cc + bytes < 2 ^ 64 -> I (ctl_on_packet_sent cc bytes now).2.

#[export] Instance ctl_inv_loses : CtlLoses ctl_inv.
Proof.
  pose (Hcc := controller_cc cbrt). split.
  - intros cc bytes t now Hi Hb Hs. by destruct (cc_lost_law (CongestionControl := Hcc) cc bytes t now Hi Hb Hs).
  - intros cc Hi. by destruct (cc_persistent_law (CongestionControl := Hcc) cc Hi).
Qed.

#[export] Instance ctl_inv_sends : CtlSends ctl_inv.
Proof.
  pose (Hcc := controller_cc cbrt). intros cc bytes now Hi Hb Hs.
  by destruct (cc_sent_law (CongestionControl := Hcc) cc bytes now Hi Hb Hs).
Qed.

#[export] Instance ctl_any_sends : CtlSends (fun _ => True).
Proof. done. Qed.

(** Bytes in flight only fall. *)
Lemma ctl_bound_loses bound : 0 <= bound -> CtlLoses (fun cc => ctl_bytes_in_flight cc <= bound).
Proof.
  intros Hb. split.
  - intros cc bytes t now Hi H0 _. rewrite ctl_lost_bytes. unfold sat_sub. lia.
  - intros cc Hi. by rewrite ctl_persistent_bytes.
Qed.

Lemma stores_flight_nonneg l :
  Forall (fun s => Forall packet_sized (om_values (sent s))) l -> 0 <= stores_flight l.
Proof.
  induction 1 as [| s l Hs _ IH]; simpl; [lia |]. pose proof (flight_bytes_nonneg _ Hs). unfold store_flight. lia.
Qed.

Lemma stores_flight_insert l (idx : nat) s s' :
  l !! idx = Some s -> stores_flight (<[idx := s']> l) = stores_flight l - store_flight s + store_flight s'.
Proof.
  revert idx. induction l as [| a l IH]; intros [| idx]; try done; simpl.
  - intros [= ->]. lia.
  - intros H. rewrite (IH idx H). lia.
Qed.

Section flight.
Context (I : CongestionController -> Prop) `{!CtlLoses I}.

(** Moving packets out of one store: what the controller has to release. *)
Lemma flight_ok_move l cc (idx : nat) s s' out :
  flight_with I l cc -> l !! idx = Some s -> sent_wf s' ->
  out ++ om_values (sent s') ≡ₚ om_values (sent s) ->
  Forall packet_sized out /\ 0 <= flight_bytes out <= ctl_bytes_in_flight cc /\
  (forall cc', I cc' -> ctl_bytes_in_flight cc' = ctl_bytes_in_flight cc - flight_bytes out ->
     flight_with I (<[idx := s']> l) cc').
Proof.
  intros [F1 F2 F3 F4 F5 F6] Hs Hw Hp.
  assert (Hsz : Forall packet_sized (out ++ om_values (sent s'))).
  { rewrite Hp. by apply (proj1 (Forall_lookup _ _) F3 idx). }
  apply Forall_app in Hsz as [Ho Hs'].
  assert (Hsum : flight_bytes out + store_flight s' = store_flight s).
  { unfold store_flight. rewrite <- flight_bytes_app. by apply flight_bytes_perm. }
  pose proof (flight_bytes_nonneg _ Ho). pose proof (flight_bytes_nonneg _ Hs') as Hs0. fold (store_flight s') in Hs0.
  pose proof (stores_flight_insert l idx s s' Hs) as Hi.
  assert (F3' : Forall (fun s => Forall packet_sized (om_values (sent s))) (<[idx := s']> l)) by by apply Forall_insert.
  pose proof (stores_flight_nonneg _ F3').
  split_and!; [done | done | lia |].
  intros cc' Hinv Hb. split; [by rewrite length_insert | by apply Forall_insert | done | done | lia | lia].
Qed.

Lemma acked_for_cc_bytes l : acked_bytes (acked_for_cc l) = flight_bytes l.
Proof.
  induction l as [| p l IH]; [done |]. unfold acked_for_cc in *. rewrite filter_cons. simpl. unfold flight.
  destruct (sp_in_flight p); simpl; rewrite IH; lia.
Qed.

Lemma acked_for_cc_nonneg l : Forall packet_sized l -> Forall (fun a : acked_packet => 0 <= a.1.1) (acked_for_cc l).
Proof.
  intros H. apply Forall_map, Forall_forall. intros p [_ Hp]%list_elem_of_filter.
  rewrite Forall_forall in H. by destruct (H p Hp).
Qed.

Lemma lost_summary_acc lost b n o :
  Forall packet_sized lost -> 0 <= b -> b + flight_bytes lost < 2 ^ 64 -> (n = None <-> o = None) ->
  let '(b', n', o') := fold_left (fun '(bytes, newest, oldest) p =>
               if sp_in_flight p
               then (u64_add bytes (sp_sent_bytes p), opt_max newest (sp_time_sent p), opt_min oldest (sp_time_sent p))
               else (bytes, newest, oldest)) lost (b, n, o) in
  b' = b + flight_bytes lost /\ (n' = None -> n = None /\ flight_bytes lost = 0) /\ (n' = None <-> o' = None).
Proof.
  revert b n o. induction lost as [| p lost IH]; intros b n o Hs Hb Hm Hno; simpl.
  - split; [lia |]. done.
  - apply Forall_cons in Hs as [[Hp Hp'] Hs]. simpl in Hm. unfold flight in *.
    pose proof (flight_bytes_nonneg lost Hs). destruct (sp_in_flight p).
    + rewrite u64_add_small by (unfold is_u64; lia).
      specialize (IH (b + sp_sent_bytes p) (opt_max n (sp_time_sent p)) (opt_min o (sp_time_sent p)) Hs
                    ltac:(lia) ltac:(lia) ltac:(done)).
      destruct (fold_left _ lost _) as [[b' n'] o']. destruct IH as (-> & H1 & H2).
      split; [lia |]. split; [| done]. intros Hn. by destruct (H1 Hn) as [? _].
    + specialize (IH b n o Hs Hb ltac:(lia) Hno). destruct (fold_left _ lost _) as [[b' n'] o'].
      destruct IH as (-> & H1 & H2). split; [lia |]. split; [| done]. intros Hn. destruct (H1 Hn). split; [done | lia].
Qed.

Lemma lost_summary_bytes lost :
  Forall packet_sized lost -> flight_bytes lost < 2 ^ 64 ->
  let '(b, n, o) := lost_summary lost in b = flight_bytes lost /\ (n = None -> flight_bytes lost = 0).
Proof.
  intros Hs Hm. pose proof (lost_summary_acc lost 0 None None Hs ltac:(lia) ltac:(lia) ltac:(done)) as H.
  unfold lost_summary. destruct (fold_left _ lost _) as [[b n] o]. destruct H as (-> & H & _).
  split; [lia |]. intros Hn. by destruct (H Hn).
Qed.

(** Detecting losses in one space keeps the accounting exact. *)
Lemma flight_ok_detect c idx now :
  flight_with I (sent_packets c) (congestion c) -> (idx < 3)%nat ->
  let c' := detect_and_handle_loss c idx now in flight_with I (sent_packets c') (congestion c').
Proof.
  intros HF Hidx c'. destruct (lookup_lt_is_Some_2 (sent_packets c) idx) as [s Hs]; [by rewrite (fo_three _ _ HF) |].
  assert (Hat : sent_at c idx = s) by (by apply nth_lookup_Some).
  pose proof (proj1 (Forall_lookup _ _) (fo_wf _ _ HF) idx s Hs) as Hwf.
  subst c'. unfold detect_and_handle_loss. rewrite Hat.
  assert (Hmv : let '(lost, _, s') := detect_lost s now (Rtt.loss_delay (rtt c)) in
                sent_wf s' /\ lost ++ om_values (sent s') ≡ₚ om_values (sent s)).
  { destruct (largest_acked s) as [la |] eqn:El.
    - pose proof (detect_lost_moved s now (Rtt.loss_delay (rtt c)) la Hwf El) as H.
      destruct (detect_lost s now _) as [[lost next] s']. destruct H as ((_ & HP & _) & Hw & _). by split.
    - unfold detect_lost. by rewrite El. }
  destruct (detect_lost s now (Rtt.loss_delay (rtt c))) as [[lost next] s']. destruct Hmv as [Hw' HP].
  destruct (flight_ok_move _ _ idx s s' lost HF Hs Hw' HP) as (Hsz & Hb & Hput).
  destruct lost as [| p lost']; [apply Hput; [apply (fo_inv _ _ HF) | simpl; lia] |].
  set (lost := p :: lost') in *. pose proof (fo_small _ _ HF) as Hsm. pose proof (fo_bytes _ _ HF) as Hby.
  pose proof (lost_summary_bytes lost Hsz ltac:(lia)) as Hsum.
  destruct (lost_summary lost) as [[lb newest] oldest]. destruct Hsum as [-> Hnone].
  match goal with |- context [fold_left ?g lost ?c0] =>
    pose proof (cc_view_frames_fold (handle_lost_frame idx) lost c0 (cc_view_lost_frame idx)) as Hv;
    set (c1 := fold_left g lost c0) in * end.
  injection Hv as Hv1 Hv2. simpl in Hv1, Hv2.
  destruct newest as [newest |]; [| rewrite Hv1, Hv2; apply Hput; [apply (fo_inv _ _ HF) | rewrite Hnone by done; lia]].
  pose proof (cl_lost (congestion c) (flight_bytes lost) newest now (fo_inv _ _ HF) ltac:(lia) ltac:(lia)) as Hi1.
  pose proof (ctl_lost_bytes (congestion c) (flight_bytes lost) newest now) as Hb1.
  rewrite sat_sub_le in Hb1 by lia.
  destruct oldest as [oldest |]; [| simpl; rewrite Hv1, Hv2; by apply Hput].
  destruct (is_persistent_congestion _ _ _); simpl; rewrite Hv1, Hv2; apply Hput; try done.
  - by apply cl_persistent.
  - rewrite <- Hb1. apply ctl_persistent_bytes.
Qed.

Lemma cc_view_flight c c' :
  cc_view c' = cc_view c -> flight_with I (sent_packets c) (congestion c) -> flight_with I (sent_packets c') (congestion c').
Proof. by intros [= -> ->]. Qed.

Lemma space_index_lt pt : (space_index pt < 3)%nat.
Proof. destruct pt; simpl; lia. Qed.

Lemma space_nat_lt i : (space_nat i < 3)%nat.
Proof. destruct i; simpl; lia. Qed.

(** The packets an ACK newly acknowledges, and those the controller is told about. *)
Definition ack_outcome (c : conn) (pt : PacketType) (largest first_range : Z) (ranges : list AckRange) : AckOutcome :=
  (on_ack (sent_at c (space_index pt)) largest first_range (gap_pairs ranges)).1.

Lemma ack_outcome_sized c pt largest first_range ranges :
  flight_with I (sent_packets c) (congestion c) ->
  Forall packet_sized (newly_acked (ack_outcome c pt largest first_range ranges)).
Proof.
  intros HF. set (idx := space_index pt). pose proof (space_index_lt pt) as Hidx. fold idx in Hidx.
  destruct (lookup_lt_is_Some_2 (sent_packets c) idx) as [s Hs]; [by rewrite (fo_three _ _ HF) |].
  assert (Hat : sent_at c idx = s) by (by apply nth_lookup_Some).
  pose proof (proj1 (Forall_lookup _ _) (fo_wf _ _ HF) idx s Hs) as Hwf. unfold ack_outcome. fold idx. rewrite Hat.
  pose proof (on_ack_moved s largest first_range (gap_pairs ranges) Hwf) as Hmv.
  destruct (on_ack s largest first_range (gap_pairs ranges)) as [o s']. destruct Hmv as ((_ & HP & _) & Hw' & _).
  by destruct (flight_ok_move _ _ idx s s' (newly_acked o) HF Hs Hw' HP).
Qed.

Lemma flight_ok_ack c now pt largest delay first_range ranges :
  flight_with I (sent_packets c) (congestion c) ->
  I (ctl_on_packets_acked cbrt (congestion c) (acked_for_cc (newly_acked (ack_outcome c pt largest first_range ranges))) now) ->
  let c' := process_ack c now pt largest delay first_range ranges in flight_with I (sent_packets c') (congestion c').
Proof.
  intros HF Hg c'. set (idx := space_index pt). pose proof (space_index_lt pt) as Hidx. fold idx in Hidx.
  destruct (lookup_lt_is_Some_2 (sent_packets c) idx) as [s Hs]; [by rewrite (fo_three _ _ HF) |].
  assert (Hat : sent_at c idx = s) by (by apply nth_lookup_Some).
  pose proof (proj1 (Forall_lookup _ _) (fo_wf _ _ HF) idx s Hs) as Hwf.
  subst c'. unfold process_ack. fold idx. pose proof (cc_view_record c pt largest) as [= Hr1 Hr2].
  set (c0 := record_largest_acked c pt largest) in *.
  assert (Hat0 : sent_at c0 idx = s) by (unfold sent_at; by rewrite Hr1).
  unfold ack_outcome in Hg. fold idx in Hg. rewrite Hat in Hg. fold (gap_pairs ranges). rewrite Hat0.
  pose proof (on_ack_moved s largest first_range (gap_pairs ranges) Hwf) as Hmv.
  destruct (on_ack s largest first_range (gap_pairs ranges)) as [o s'].
  destruct Hmv as ((_ & HP & _) & Hw' & _). simpl in HP, Hg.
  destruct (flight_ok_move _ _ idx s s' (newly_acked o) HF Hs Hw' HP) as (Hsz & Hb & Hput).
  destruct (newly_acked o) as [| p acked'] eqn:Ea.
  { simpl. rewrite Hr1, Hr2. apply Hput; [apply (fo_inv _ _ HF) | simpl; lia]. }
  rewrite <- Ea in *. clear Ea.
  eapply cc_view_flight; [apply cc_view_timer |]. apply flight_ok_detect; [| done].
  eapply cc_view_flight; [apply cc_view_frames_fold, cc_view_acked_frame |].
  set (c1 := sample_rtt_on_ack _ _ _ _ _ _).
  assert (Hv1 : cc_view c1 = (<[idx := s']> (sent_packets c), congestion c)).
  { subst c1. rewrite cc_view_sample_rtt. unfold cc_view, put_sent. simpl. by rewrite Hr1, Hr2. }
  injection Hv1 as Hs1 Hc1.
  pose proof (ctl_acked_bytes cbrt (congestion c) (acked_for_cc (newly_acked o)) now ltac:(lia) (acked_for_cc_nonneg _ Hsz)) as Hbb.
  rewrite acked_for_cc_bytes, sat_sub_le in Hbb by lia.
  destruct (acked_for_cc (newly_acked o)) as [| a l] eqn:Ecc.
  - assert (Hz : flight_bytes (newly_acked o) = 0) by (by rewrite <- acked_for_cc_bytes, Ecc).
    destruct (acked_ack_eliciting o); simpl; rewrite Hs1, Hc1; apply Hput; try apply (fo_inv _ _ HF); lia.
  - rewrite <- Ecc in *. destruct (acked_ack_eliciting o); simpl; rewrite Hs1, Hc1; by apply Hput.
Qed.

Lemma cc_view_probe c : cc_view (requeue_for_probe c) = cc_view c.
Proof.
  unfold requeue_for_probe. apply fold_view. intros a i. case_match; [| done].
  apply fold_view. intros b f. apply cc_view_requeue.
Qed.

Lemma cc_view_pto c : cc_view (on_pto_expiry c) = cc_view c.
Proof.
  unfold on_pto_expiry. rewrite cc_view_timer. destruct (is_some _); [| done]. by rewrite cc_view_probe.
Qed.

Lemma flight_ok_loss_timeout c now :
  flight_with I (sent_packets c) (congestion c) ->
  let c' := on_loss_timeout c now in flight_with I (sent_packets c') (congestion c').
Proof.
  intros HF c'. subst c'. unfold on_loss_timeout.
  destruct (LossDetection.earliest_loss_time (loss c)) as [[t i] |]; [destruct (t <=? now) |].
  - eapply cc_view_flight; [apply cc_view_timer |]. apply flight_ok_detect; [done | apply space_nat_lt].
  - eapply cc_view_flight; [apply cc_view_pto | done].
  - eapply cc_view_flight; [apply cc_view_pto | done].
Qed.

Lemma cc_view_keep_alive c now : cc_view (keep_alive_timeout c now) = cc_view c.
Proof. unfold keep_alive_timeout. simpl. repeat case_match; done. Qed.

Lemma cc_view_mtu c now : cc_view (mtu_timeout c now) = cc_view c.
Proof. unfold mtu_timeout, schedule_mtu_probe. repeat case_match; done. Qed.

Lemma flight_ok_timeout c now :
  flight_with I (sent_packets c) (congestion c) ->
  let c' := handle_timeout c now in flight_with I (sent_packets c') (congestion c').
Proof.
  intros HF c'. subst c'. unfold handle_timeout. destruct (match idle_deadline c with Some d => d <=? now | None => false end).
  { by case_match. }
  eapply cc_view_flight; [apply cc_view_mtu |]. unfold loss_timeout.
  pose proof (cc_view_flight _ _ (cc_view_keep_alive c now) HF) as HF1.
  case_match; [case_match |]; [by apply flight_ok_loss_timeout | done | done].
Qed.

End flight.

Lemma probe_keeps c :
  loss (requeue_for_probe c) = loss c /\ sent_packets (requeue_for_probe c) = sent_packets c /\
  probes_owed (requeue_for_probe c) = probes_owed c.
Proof.
  assert (H : forall {V} (view : conn -> V), (forall c idx f, view (requeue_frame c idx f) = view c) ->
    view (requeue_for_probe c) = view c).
  { intros V view Hv. unfold requeue_for_probe. apply fold_view. intros a i. case_match; [| done].
    apply fold_view. intros b f. apply Hv. }
  split_and!; apply H; intros a i f; destruct f as [| | | | | | [] | [] |]; simpl; repeat case_match; done.
Qed.

(** ** Lemmas: what acknowledgements, loss and timers leave alone *)

Definition life_view (c : conn) : ConnectionState * option Z * option Z * option Z :=
  (state c, next_keep_alive c, keep_alive_interval c, idle_deadline c).

Definition path_view (c : conn) : Addr * option Addr * option (list Z) * bool :=
  (peer_addr c, candidate_peer_addr c, pending_path_challenge c, path_validated c).

Definition key_view (c : conn) :=
  (keys (application c), next_1rtt_keys c, one_rtt_secrets c, prev_1rtt_keys c, key_phase c).

Definition close_view (c : conn) :=
  (role c, tls c, handshake_complete c, one_rtt_ready c, pending_close c, pending_transport_close c).

(** What send-side flow control reads, and the data that waits for 0-RTT. *)
Definition flow_view (c : conn) := (send_streams c, stream_send_flow c, send_flow c, (peer_params c, early_data_buf c)).

(** What the application's stream calls read besides the sending halves. *)
Definition app_view (c : conn) :=
  (recv_streams c, next_bidi_index c, next_uni_index c, peer_max_streams_bidi c, peer_max_streams_uni c, handshake_complete c).

Definition route_view (c : conn) := (path_view c, tls c, app_view c).

Definition core_view (c : conn) := (life_view c, route_view c, key_view c, close_view c).

Lemma core_view_requeue c idx f : core_view (requeue_frame c idx f) = core_view c.
Proof. destruct f as [| | | | | | [] | [] |]; simpl; repeat case_match; done. Qed.

Lemma core_view_lost_frame idx c f : core_view (handle_lost_frame idx c f) = core_view c.
Proof.
  unfold handle_lost_frame. destruct f; try apply core_view_requeue.
  unfold on_mtu_probe_lost. by case_match.
Qed.

Lemma core_view_timer c : core_view (set_loss_detection_timer c) = core_view c.
Proof. unfold set_loss_detection_timer. repeat case_match; done. Qed.

Lemma core_view_detect c idx now : core_view (detect_and_handle_loss c idx now) = core_view c.
Proof.
  unfold detect_and_handle_loss. destruct (detect_lost _ _ _) as [[lost next] s'].
  destruct lost as [| p lost]; [done |]. destruct (lost_summary _) as [[b n] o].
  match goal with |- context [fold_left ?g ?l ?c0] =>
    assert (Hv : core_view (fold_left g l c0) = core_view c)
      by (rewrite fold_view; [done |]; intros; apply fold_view; intros; apply core_view_lost_frame);
    set (c1 := fold_left g l c0) in * end.
  rewrite <- Hv. repeat case_match; done.
Qed.

Lemma core_view_pto c : core_view (on_pto_expiry c) = core_view c.
Proof.
  unfold on_pto_expiry. rewrite core_view_timer. destruct (is_some _); [| done].
  unfold requeue_for_probe. rewrite fold_view; [done |]. intros a i. case_match; [| done].
  apply fold_view. intros b f. apply core_view_requeue.
Qed.

Lemma core_view_loss_timeout c now : core_view (loss_timeout c now) = core_view c.
Proof.
  unfold loss_timeout, on_loss_timeout. repeat case_match; try done; rewrite ?core_view_timer, ?core_view_pto; try done.
  apply core_view_detect.
Qed.

Lemma core_view_mtu c now : core_view (mtu_timeout c now) = core_view c.
Proof. unfold mtu_timeout, schedule_mtu_probe. repeat case_match; done. Qed.

Lemma core_view_acked_frame now c f : core_view (on_acked_frame now c f) = core_view c.
Proof.
  destruct f; try done. simpl. unfold on_mtu_probe_acked.
  destruct (current_mtu c <? size); simpl; by case_match.
Qed.

Lemma core_view_sample_rtt c idx o l d now : core_view (sample_rtt_on_ack c idx o l d now) = core_view c.
Proof. unfold sample_rtt_on_ack. repeat case_match; done. Qed.

Lemma core_view_record c pt l : core_view (record_largest_acked c pt l) = core_view c.
Proof. by destruct pt. Qed.

Lemma core_view_ack c now pt largest delay first_range ranges :
  core_view (process_ack c now pt largest delay first_range ranges) = core_view c.
Proof.
  unfold process_ack. rewrite <- (core_view_record c pt largest). generalize (record_largest_acked c pt largest). intros c0.
  destruct (on_ack _ _ _ _) as [o s']. destruct (newly_acked o) as [| p ps]; [done |].
  rewrite core_view_timer, core_view_detect. rewrite fold_view by (intros; apply fold_view; intros; apply core_view_acked_frame).
  pose proof (core_view_sample_rtt (put_sent (space_index pt) s' c0) (space_index pt) o largest delay now) as H.
  change (core_view (put_sent (space_index pt) s' c0)) with (core_view c0) in H.
  destruct (acked_ack_eliciting o); destruct (acked_for_cc _); exact H.
Qed.

(** ** Lemmas: retransmission queues only grow *)

Definition resend_of (c : conn) (id : Z) : option (list SendStream.ResendSegment) :=
  SendStream.resend <$> om_get id (send_streams c).

(** [c'] has queued at least what [c] had. *)
Definition queued_more (c c' : conn) : Prop :=
  (forall id q, resend_of c id = Some q -> exists q', resend_of c' id = Some (q ++ q')) /\
  (exists q, CryptoStream.resend (initial_crypto c') = CryptoStream.resend (initial_crypto c) ++ q) /\
  (exists q, CryptoStream.resend (handshake_crypto c') = CryptoStream.resend (handshake_crypto c) ++ q).

Lemma queued_more_refl_on c c' :
  send_streams c' = send_streams c -> initial_crypto c' = initial_crypto c -> handshake_crypto c' = handshake_crypto c ->
  queued_more c c'.
Proof.
  intros H1 H2 H3. unfold queued_more, resend_of. rewrite H1, H2, H3. split_and!.
  - intros id q Hq. exists []. by rewrite app_nil_r.
  - exists []. by rewrite app_nil_r.
  - exists []. by rewrite app_nil_r.
Qed.

Lemma queued_more_trans c1 c2 c3 : queued_more c1 c2 -> queued_more c2 c3 -> queued_more c1 c3.
Proof.
  intros (A1 & [qa A2] & [qb A3]) (B1 & [qc B2] & [qd B3]). split_and!.
  - intros id q Hq. destruct (A1 id q Hq) as [q1 H1]. destruct (B1 id _ H1) as [q2 H2].
    exists (q1 ++ q2). by rewrite app_assoc.
  - exists (qa ++ qc). by rewrite B2, A2, app_assoc.
  - exists (qb ++ qd). by rewrite B3, A3, app_assoc.
Qed.

(** Re-queueing a frame queues it and forgets nothing. *)
Lemma requeue_frame_queues c idx f :
  queued_more c (requeue_frame c idx f) /\
  match f with
  | SFStream id o fin d =>
      is_some (om_get id (send_streams c)) = true ->
      exists q, resend_of (requeue_frame c idx f) id = Some (q ++ [SendStream.mkResend o d fin])
  | SFCrypto o d =>
      exists q, CryptoStream.resend
        (if (idx =? 1)%nat then handshake_crypto (requeue_frame c idx f) else initial_crypto (requeue_frame c idx f))
        = q ++ [CryptoStream.mkResend o d]
  | _ => True
  end.
Proof.
  destruct f as [o d | id o fin d | | | | | [] m | [] m | ]; simpl;
    try (repeat case_match; (split; [by apply queued_more_refl_on | done])).
  - destruct (idx =? 1)%nat; simpl.
    + split; [| by eexists]. split_and!; [intros id q Hq; exists []; by rewrite app_nil_r | by exists []; rewrite app_nil_r |].
      by exists [CryptoStream.mkResend o d].
    + split; [| by eexists]. split_and!; [intros id q Hq; exists []; by rewrite app_nil_r | | by exists []; rewrite app_nil_r].
      by exists [CryptoStream.mkResend o d].
  - destruct (om_get id (send_streams c)) as [s |] eqn:E; [| split; [by apply queued_more_refl_on | done]].
    split.
    + split_and!; [| by exists []; rewrite app_nil_r | by exists []; rewrite app_nil_r].
      intros id' q. unfold resend_of. simpl. rewrite om_get_insert. destruct (Z.eqb_spec id' id) as [-> | ].
      * rewrite E. intros [= <-]. by exists [SendStream.mkResend o d fin].
      * intros Hq. exists []. by rewrite app_nil_r.
    + intros _. unfold resend_of. simpl. rewrite om_get_insert, Z.eqb_refl. by exists (SendStream.resend s).
Qed.

Lemma handle_lost_frame_more idx c f : queued_more c (handle_lost_frame idx c f).
Proof.
  unfold handle_lost_frame. destruct f; try apply requeue_frame_queues.
  unfold on_mtu_probe_lost. case_match; by apply queued_more_refl_on.
Qed.

Lemma fold_more {A B} (R : A -> A -> Prop) (step : A -> B -> A) l a :
  (forall a, R a a) -> (forall a b c, R a b -> R b c -> R a c) -> (forall a b, R a (step a b)) ->
  R a (fold_left step l a).
Proof. intros Hr Ht Hs. revert a. induction l as [| b l IH]; intros a; [apply Hr |]. simpl. eapply Ht; [apply Hs | apply IH]. Qed.

Lemma queued_more_frames idx fs c : queued_more c (fold_left (handle_lost_frame idx) fs c).
Proof.
  apply fold_more; [intros a; by apply queued_more_refl_on | apply queued_more_trans | apply handle_lost_frame_more].
Qed.

Lemma queued_more_packets idx lost c :
  queued_more c (fold_left (fun c p => fold_left (handle_lost_frame idx) (sp_frames p) c) lost c).
Proof.
  apply fold_more; [intros a; by apply queued_more_refl_on | apply queued_more_trans |].
  intros a p. apply queued_more_frames.
Qed.

(** Whatever holds of a connection right after [f] is re-queued and is kept by
    growing queues holds after the whole loss is handled. *)
Lemma lost_packets_reach idx lost c p f (P : conn -> Prop) :
  p ∈ lost -> f ∈ sp_frames p ->
  (forall c0, queued_more c c0 -> P (handle_lost_frame idx c0 f)) ->
  (forall c1 c2, queued_more c1 c2 -> P c1 -> P c2) ->
  P (fold_left (fun c p => fold_left (handle_lost_frame idx) (sp_frames p) c) lost c).
Proof.
  intros Hp Hf Hat Hkeep.
  apply list_elem_of_split in Hp as (l1 & l2 & ->). rewrite fold_left_app. cbn [fold_left].
  apply list_elem_of_split in Hf as (f1 & f2 & Hff). rewrite Hff, fold_left_app. cbn [fold_left].
  eapply Hkeep; [apply queued_more_packets |]. eapply Hkeep; [apply queued_more_frames |].
  apply Hat. eapply queued_more_trans; [apply queued_more_packets | apply queued_more_frames].
Qed.

(** The queues after the congestion update are those of the frame loop. *)
Lemma detect_queues c idx now lost next store :
  detect_lost (sent_at c idx) now (Rtt.loss_delay (rtt c)) = (lost, next, store) -> lost <> [] ->
  exists c0, queued_more c c0 /\ queued_more c0 c /\
    let c1 := fold_left (fun c p => fold_left (handle_lost_frame idx) (sp_frames p) c) lost c0 in
    queued_more c1 (detect_and_handle_loss c idx now).
Proof.
  intros Hd Hne. unfold detect_and_handle_loss. rewrite Hd. destruct lost as [| p lost]; [done |].
  destruct (lost_summary (p :: lost)) as [[b n] o].
  eexists. split; [| split; [| cbv zeta; destruct n as [n |]; [| by apply queued_more_refl_on]]];
    [by apply queued_more_refl_on | by apply queued_more_refl_on |].
  destruct o as [o |]; [destruct (is_persistent_congestion _ _ _) |]; by apply queued_more_refl_on.
Qed.

Lemma earliest_across_none c :
  earliest_ack_eliciting_across_spaces c = None <->
  forall s p, s ∈ sent_packets c -> p ∈ om_values (sent s) -> sp_ack_eliciting p = false.
Proof.
  unfold earliest_ack_eliciting_across_spaces.
  assert (Hone : forall s, earliest_ack_eliciting_time s = None <->
            forall p, p ∈ om_values (sent s) -> sp_ack_eliciting p = false).
  { intros s. unfold earliest_ack_eliciting_time.
    pose proof (fold_opt_min_spec sp_time_sent (filter (fun p => Is_true (sp_ack_eliciting p)) (om_values (sent s)))) as H.
    destruct (fold_left _ _ None) as [t |].
    - split; [done |]. intros Hall. destruct H as [(p & [Hp Hin]%list_elem_of_filter & _) _].
      by rewrite (Hall p Hin) in Hp.
    - split; [| done]. intros _ p Hin. destruct (sp_ack_eliciting p) eqn:E; [| done]. exfalso.
      apply (not_elem_of_nil p). rewrite <- H. apply list_elem_of_filter. by rewrite E. }
  assert (Hsome : forall l t, fold_left (fun earliest store =>
             match earliest_ack_eliciting_time store with Some t => opt_min earliest t | None => earliest end) l (Some t) <> None).
  { induction l as [| s l IH]; intros t; simpl; [done |]. case_match; apply IH. }
  induction (sent_packets c) as [| s l IH]; simpl.
  - split; [intros _ s p Hs; by apply elem_of_nil in Hs | done].
  - destruct (earliest_ack_eliciting_time s) as [t |] eqn:E.
    + split; [intros Hn; by apply Hsome in Hn |]. intros Hall. exfalso.
      assert (earliest_ack_eliciting_time s = None) by (apply Hone; intros p Hp; eapply Hall; [apply list_elem_of_here | done]).
      congruence.
    + rewrite IH. split.
      * intros Hl s' p [-> | Hs']%elem_of_cons Hp; [by apply (proj1 (Hone s) E) | by apply (Hl s')].
      * intros Hl s' p Hs' Hp. apply (Hl s'); [by apply list_elem_of_further | done].
Qed.

(** ** Lemmas: the loss-detection timer *)

(** No time-threshold loss is pending and no acknowledgement is awaited. *)
Definition nothing_awaited (c : conn) : Prop :=
  (forall i, LossDetection.loss_time (loss c) i = None) /\
  (forall s p, s ∈ sent_packets c -> p ∈ om_values (sent s) -> sp_ack_eliciting p = false).

(** The timer is off exactly then. *)
Definition timer_right (c : conn) : Prop := loss_timer c = None <-> nothing_awaited c.

Lemma timer_right_set c : timer_right (set_loss_detection_timer c).
Proof.
  pose proof (earliest_loss_time_spec (loss c)) as Hspec. unfold timer_right, nothing_awaited, set_loss_detection_timer.
  destruct (LossDetection.earliest_loss_time (loss c)) as [[t i] |].
  - split; [done |]. intros [Hn _]. destruct Hspec as [Hi _]. by rewrite Hn in Hi.
  - destruct (earliest_ack_eliciting_across_spaces c) as [t |] eqn:E.
    + split; [done |]. intros [_ Hall]. apply (earliest_across_none c) in Hall. congruence.
    + split; [| done]. intros _. split; [done |]. by apply (earliest_across_none c).
Qed.

Lemma timer_right_same c c' :
  loss c' = loss c -> loss_timer c' = loss_timer c -> sent_packets c' = sent_packets c -> timer_right c -> timer_right c'.
Proof. unfold timer_right, nothing_awaited. by intros -> -> ->. Qed.

Lemma fmap_insert_same {A B} (f : A -> B) l (i : nat) x d : f x = f (nth i l d) -> f <$> <[i := x]> l = f <$> l.
Proof.
  revert i. induction l as [| y l IH]; intros [| i] H; simpl in *; [done | done | by rewrite H | by rewrite IH].
Qed.

Lemma timer_right_ack c now pt largest delay first_range ranges :
  timer_right c -> timer_right (process_ack c now pt largest delay first_range ranges).
Proof.
  intros Hc. unfold process_ack. set (c0 := record_largest_acked c pt largest).
  assert (Hc0 : timer_right c0) by (eapply timer_right_same; [| | | exact Hc]; by destruct pt).
  generalize dependent c0. clear Hc c. intros c Hc. fold (gap_pairs ranges).
  pose proof (on_ack_none (sent_at c (space_index pt)) largest first_range (gap_pairs ranges)) as Hnone.
  destruct (on_ack _ _ _ _) as [o s']. cbn [fst snd] in Hnone.
  destruct (newly_acked o) as [| p acked]; [| apply timer_right_set]. specialize (Hnone eq_refl).
  unfold timer_right, nothing_awaited in *. cbn. rewrite Hc. apply and_iff_compat_l.
  assert (Hv : sent <$> <[space_index pt := s']> (sent_packets c) = sent <$> sent_packets c) by (by eapply fmap_insert_same).
  assert (Hiff : forall l : list SentPackets, (forall s p, s ∈ l -> p ∈ om_values (sent s) -> sp_ack_eliciting p = false) <->
                           (forall m p, m ∈ sent <$> l -> p ∈ om_values m -> sp_ack_eliciting p = false)).
  { intros l. split; [intros H m p (s & -> & Hs)%list_elem_of_fmap; by apply H |].
    intros H s p Hs. apply H. by apply list_elem_of_fmap_2. }
  by rewrite !Hiff, Hv.
Qed.

(** An expiry while an acknowledgement is awaited. *)
Lemma loss_timeout_acts c now s p :
  s ∈ sent_packets c -> p ∈ om_values (sent s) -> sp_ack_eliciting p = true ->
  (exists t i, LossDetection.loss_time (loss c) i = Some t /\ t <= now /\
     on_loss_timeout c now = set_loss_detection_timer (detect_and_handle_loss c (space_nat i) now)) \/
  (probes_owed (on_loss_timeout c now) = Z.min 4 (probes_owed c + 2) /\ is_some (loss_timer (on_loss_timeout c now)) = true).
Proof.
  intros Hs Hp He. unfold on_loss_timeout. pose proof (earliest_loss_time_spec (loss c)) as Hspec.
  assert (Hpto : probes_owed (on_pto_expiry c) = Z.min 4 (probes_owed c + 2) /\ is_some (loss_timer (on_pto_expiry c)) = true).
  { unfold on_pto_expiry. destruct (earliest_ack_eliciting_across_spaces c) as [t |] eqn:E.
    2: { exfalso. pose proof (proj1 (earliest_across_none c) E s p Hs Hp). congruence. }
    change (is_some (Some t)) with true. cbv iota.
    destruct (probe_keeps (owe_probes c)) as (Hl & Hsp & Hpr). revert Hl Hsp Hpr.
    generalize (requeue_for_probe (owe_probes c)). intros c1 Hl Hsp Hpr.
    change (sent_packets (owe_probes c)) with (sent_packets c) in Hsp.
    assert (Hea : earliest_ack_eliciting_across_spaces c1 = Some t).
    { unfold earliest_ack_eliciting_across_spaces in *. by rewrite Hsp. }
    unfold set_loss_detection_timer. rewrite Hea.
    destruct (LossDetection.earliest_loss_time (loss c1)) as [[t' i'] |]; simpl; rewrite Hpr; (split; [| done]);
      simpl; unfold u32_MAX; lia. }
  destruct (LossDetection.earliest_loss_time (loss c)) as [[t i] |]; [| by right].
  destruct (Z.leb_spec t now); [| by right]. left. exists t, i. by destruct Hspec as [Hi _].
Qed.

End recovery.

(** ** Properties *)


(** C10: No lost data is forgotten: every STREAM frame of a packet that loss
    detection declares lost is in the retransmission queue of its stream
    afterwards (if the stream still exists), and every CRYPTO frame is in the queue
    of the CRYPTO stream of its space. *)
Theorem lost_data_requeued {env : QuicEnv} (c : Connection env) idx now p f :
  p ∈ (detect_lost (sent_at c idx) now (Rtt.loss_delay (rtt c))).1.1 -> f ∈ sp_frames p ->
  let c' := detect_and_handle_loss c idx now in
  match f with
  | SFStream id o fin d =>
      is_some (om_get id (send_streams c)) = true ->
      exists s, om_get id (send_streams c') = Some s /\ SendStream.mkResend o d fin ∈ SendStream.resend s
  | SFCrypto o d =>
      CryptoStream.mkResend o d ∈
        CryptoStream.resend (if (idx =? 1)%nat then handshake_crypto c' else initial_crypto c')
  | _ => True
  end.
Proof.
  intros Hp Hf c'. destruct (detect_lost (sent_at c idx) now (Rtt.loss_delay (rtt c))) as [[lost next] store] eqn:Ed.
  simpl in Hp. assert (Hne : lost <> []) by (intros ->; by apply elem_of_nil in Hp).
  destruct (detect_queues c idx now lost next store Ed Hne) as (c0 & H0 & _ & H1). fold c' in H1. simpl in H1.
  destruct f as [o d | id o fin d | | | | | | |]; try done.
  - assert (HP : exists q, exists q', CryptoStream.resend (if (idx =? 1)%nat then handshake_crypto c' else initial_crypto c')
                  = (q ++ [CryptoStream.mkResend o d]) ++ q').
    { set (P := fun c2 : Connection env => exists q, exists q', CryptoStream.resend
              (if (idx =? 1)%nat then handshake_crypto c2 else initial_crypto c2) = (q ++ [CryptoStream.mkResend o d]) ++ q').
      assert (Hk : forall c1 c2, queued_more c1 c2 -> P c1 -> P c2).
      { intros c1 c2 (_ & [qa Ha] & [qb Hb]) (q & q' & Hq). exists q.
        destruct (idx =? 1)%nat; [exists (q' ++ qb); rewrite Hb | exists (q' ++ qa); rewrite Ha];
          by rewrite Hq, app_assoc. }
      eapply Hk; [exact H1 |]. apply (lost_packets_reach idx lost c0 p (SFCrypto o d) P Hp Hf); [| exact Hk].
      intros c2 _. destruct (requeue_frame_queues c2 idx (SFCrypto o d)) as [_ [q Hq]]. exists q, [].
      rewrite app_nil_r. exact Hq. }
    destruct HP as (q & q' & ->). apply elem_of_app. left. apply elem_of_app. right. apply list_elem_of_here.
  - intros Hs. set (P := fun c2 : Connection env => exists q, exists q', resend_of c2 id = Some ((q ++ [SendStream.mkResend o d fin]) ++ q')).
    assert (Hk : forall c1 c2, queued_more c1 c2 -> P c1 -> P c2).
    { intros c1 c2 (Ha & _) (q & q' & Hq). destruct (Ha id _ Hq) as [q2 H2]. exists q, (q' ++ q2).
      by rewrite app_assoc. }
    assert (HP : P c').
    { eapply Hk; [exact H1 |]. apply (lost_packets_reach idx lost c0 p (SFStream id o fin d) P Hp Hf); [| exact Hk].
      intros c2 H2. destruct (requeue_frame_queues c2 idx (SFStream id o fin d)) as [_ Hq].
      destruct (queued_more_trans _ _ _ H0 H2) as (Ha & _).
      destruct (om_get id (send_streams c)) as [s |] eqn:E; [| done].
      destruct (Ha id (SendStream.resend s)) as [q2 Hq2]; [unfold resend_of; by rewrite E |].
      destruct Hq as [q Hq].
      { unfold resend_of in Hq2. by destruct (om_get id (send_streams c2)). }
      exists q, []. rewrite app_nil_r. exact Hq. }
    destruct HP as (q & q' & Hq). unfold resend_of in Hq.
    destruct (om_get id (send_streams c')) as [s |]; [| done]. injection Hq as Hq. exists s. split; [done |].
    rewrite Hq. apply elem_of_app. left. apply elem_of_app. right. apply list_elem_of_here.
Qed.

(** Disabling keep-alive at run time does not cancel the timer that is running:
    once it is due, every further [handle_timeout] (before the idle deadline) queues
    a PING and leaves the timer in the past, so [next_timeout] keeps asking for an
    immediate wake-up. *)
Theorem keep_alive_not_cancelled {env : QuicEnv} (c : Connection env) t now :
  next_keep_alive c = Some t -> t <= now ->
  match idle_deadline c with Some d => now < d | None => True end ->
  let c' := handle_timeout (set_keep_alive c None) now in
  next_keep_alive c' = Some t /\ state c' = state c /\
  exists t', next_timeout c' = Some t' /\ t' <= t.
Proof.
  intros Hka Ht Hidle c'. assert (Hlife : life_view c' = (state c, Some t, None, idle_deadline c)).
  { subst c'. unfold handle_timeout.
    assert (Hi : match idle_deadline (set_keep_alive c None) with Some d => d <=? now | None => false end = false).
    { simpl. destruct (idle_deadline c); [by apply Z.leb_gt | done]. }
    rewrite Hi. set (c1 := keep_alive_timeout (set_keep_alive c None) now).
    assert (Hcore : core_view (mtu_timeout (loss_timeout c1 now) now) = core_view c1)
      by (by rewrite core_view_mtu, core_view_loss_timeout).
    change (life_view ?x) with (core_view x).1.1.1. rewrite Hcore. subst c1. unfold keep_alive_timeout. simpl. rewrite Hka.
    rewrite (proj2 (Z.leb_le _ _)) by done. unfold life_view. simpl. by rewrite Hka. }
  injection Hlife as Hs Hn _ _. split_and!; [done | done |].
  unfold next_timeout. cbn [fold_left]. rewrite Hn.
  destruct (idle_deadline c') as [a |], (loss_timer c') as [b |], (next_mtu_probe c') as [d |];
    cbn [opt_min from_option]; eexists; (split; [unfold opt_min; reflexivity | lia]).
Qed.

(** ** Witnesses *)

(** An established client with a stream and four 1-RTT packets outstanding, the
    first of which carries stream data; a later packet has been acknowledged. *)
Definition demo_flight_packet (pn : Z) (frames : list SentFrame) : SentPacket :=
  mkSentPacket pn (pn * 1000) true true 1200 frames None.

Definition demo_flight : SentPackets :=
  let s := fold_left on_packet_sent
             [demo_flight_packet 0 [SFStream 0 0 true [1; 2]]; demo_flight_packet 1 [];
              demo_flight_packet 2 []; demo_flight_packet 3 []] sent_new in
  mkSent (sent s) (Some 4).

Definition demo_sender : Connection demo_env :=
  demo_client <| state := Established |> <| send_streams := om_insert 0 SendStream.new om_empty |>
    <| sent_packets := [sent_new; sent_new; demo_flight] |>
    <| congestion := (ctl_on_packet_sent (congestion demo_client) 4800 0).2 |>
    <| next_keep_alive := Some 10 |>.

Lemma demo_flight_ok : flight_ok (sent_packets demo_sender) (congestion demo_sender).
Proof.
  split.
  - done.
  - repeat apply Forall_cons_2; try apply sent_wf_new; [| apply Forall_nil; exact I].
    assert (H : sent_wf (fold_left on_packet_sent
             [demo_flight_packet 0 [SFStream 0 0 true [1; 2]]; demo_flight_packet 1 [];
              demo_flight_packet 2 []; demo_flight_packet 3 []] sent_new)).
    { cbn [fold_left]. repeat (apply sent_wf_sent; [| simpl; lia]). apply sent_wf_new. }
    exact H.
  - repeat (apply Forall_cons; split); try apply Forall_nil; try exact I; (vm_compute; split; congruence).
  - vm_compute. split_and!; congruence.
  - reflexivity.
  - reflexivity.
Qed.


Lemma lost_data_requeued_witness :
  exists s, om_get 0 (send_streams (detect_and_handle_loss demo_sender 2 5000)) = Some s /\
            SendStream.mkResend 0 [1; 2] true ∈ SendStream.resend s.
Proof.
  apply (lost_data_requeued demo_sender 2 5000 (demo_flight_packet 0 [SFStream 0 0 true [1; 2]]) (SFStream 0 0 true [1; 2]));
    [vm_compute; apply list_elem_of_here | vm_compute; apply list_elem_of_here | reflexivity].
Defined.

Lemma keep_alive_not_cancelled_witness :
  let c' := handle_timeout (set_keep_alive demo_sender None) 12 in
  next_keep_alive c' = Some 10 /\ state c' = Established /\
  exists t', next_timeout c' = Some t' /\ t' <= 10.
Proof. apply (keep_alive_not_cancelled demo_sender 10 12); vm_compute; try exact I; congruence. Defined.
