(* ===== verification/ConnHandshake.v ===== *)
(** * The connection: handshake, key updates and path validation
    ([pump_write_hs] and [refresh_handshake_complete] of
    [oxiquic-transport/src/connection/mod.rs], [connection/keys_path.rs])

    The handshake pump moves the bytes and keys rustls produces into the packet
    spaces; a key update steps the 1-RTT keys along a ratchet; a path challenge
    guards migration. *)

From S2P Require Import Prelude OrdMap CoreTypes Coding FrameCodec ParamsCodec PacketSpace SentPackets.
From S2P Require Import Streams FlowControl Recovery Congestion Bbr CidPool Packet Multipath Connection ConnRecovery.

Section handshake.
Context {env : QuicEnv}.

Notation conn := (Connection env).

(** ** Handshake (mod.rs) *)

Definition try_install_zero_rtt_keys (c : conn) : conn :=
  if is_none (zero_rtt_keys c) then c <| zero_rtt_keys := tls_zero_rtt_keys (tls c) |> else c.

(** [for _ in 1..limit { if maybe_issue_new_cid().is_err() { break } }]. *)
Fixpoint issue_initial_cids (n : nat) (c : conn) : conn :=
  match n with
  | O => c
  | S n => match maybe_issue_new_cid c with
           | (Err _, c) => c
           | (Ok _, c) => issue_initial_cids n c
           end
  end.

(** The address-validation token the server hands out. *)
Definition new_token_bytes (cid : list Z) : list Z :=
  map (fun i => Z.lxor (Z.lxor (unwrap_or (cid !! i) 0) (unwrap_or (cid !! (i + 4)%nat) 0))
                  (as_u8 (as_u8 (Z.of_nat i) * 0x9e)))
      (seq 0 16).

Definition become_established (c : conn) (clock : Z) : conn :=
  if bool_decide (state c = Handshaking) then
    let c := schedule_initial_mtu_probe (c <| state := Established |>) clock in
    issue_initial_cids (Z.to_nat (LocalCidPool.limit (local_cid_pool c) - 1)) c
  else c.

Definition capture_peer_params (c : conn) : conn :=
  if is_none (peer_params c) then
    match quic_transport_parameters (tls c) with
    | Some raw =>
        match decode_transport_params raw with
        | Ok p => (apply_peer_params c p) <| peer_params := Some p |>
        | Err _ => c
        end
    | None => c
    end
  else c.

(** The client learns whether its early data was accepted; rejected data is queued
    again on 1-RTT streams. *)
Definition settle_early_data (c : conn) : conn :=
  if bool_decide (role c = Client) && is_none (zero_rtt_accepted c) then
    if zero_rtt_sent c || negb (SendStream.is_nil (early_data_buf c)) || is_some (zero_rtt_keys c) then
      let accepted := is_early_data_accepted (tls c) in
      let c := c <| zero_rtt_accepted := Some accepted |> in
      let requeued := if negb accepted && negb (SendStream.is_nil (early_data_buf c)) then early_data_buf c else [] in
      c <| early_data_buf := [] |>
        <| send_streams ::= fun m => fold_left (fun m '(sid, data, fin) => write_or_create m sid data fin) requeued m |>
    else c
  else c.

Definition schedule_new_token (c : conn) : conn :=
  if bool_decide (role c = Server) && is_none (pending_new_token c)
  then c <| pending_new_token := Some (new_token_bytes (local_cid c)) |> else c.

(** [clock] is [Instant::now()]. *)
Definition refresh_handshake_complete (c : conn) (clock : Z) : conn :=
  if negb (handshake_complete c) && negb (is_handshaking (tls c)) then
    let c := c <| handshake_complete := true |> in
    let c := become_established c clock in
    let c := capture_peer_params c in
    let c := settle_early_data c in
    schedule_new_token c
  else c.

(** Handshake bytes go to the CRYPTO stream of the current level. *)
Definition queue_handshake_bytes (c : conn) (buf : list Z) : conn :=
  match buf with
  | [] => c
  | _ =>
      match write_level c with
      | LvInitial =>
          let c := if bool_decide (role c = Client) then c <| cached_initial_hs_bytes ::= fun b => b ++ buf |> else c in
          let c := c <| initial_crypto ::= fun s => CryptoStream.enqueue_send s buf |> in
          if bool_decide (role c = Client) && is_none (zero_rtt_keys c) then try_install_zero_rtt_keys c else c
      | LvHandshake => c <| handshake_crypto ::= fun s => CryptoStream.enqueue_send s buf |>
      end
  end.

Definition install_key_change (c : conn) (kc : KeyChange HeaderKey PacketKey Secrets) : conn :=
  match kc with
  | KcHandshake ks =>
      c <| handshake ::= fun s => set_keys s ks |> <| handshake_keys_ready := true |> <| write_level := LvHandshake |>
  | KcOneRtt ks next =>
      let '(next_keys, secrets) := next_packet_keys next in
      let c := c <| one_rtt_secrets := Some secrets |> <| next_1rtt_keys := Some next_keys |> in
      let c := c <| application ::= fun s => set_keys s ks |> <| one_rtt_ready := true |> in
      if bool_decide (role c = Server) && is_none (zero_rtt_keys c) then try_install_zero_rtt_keys c else c
  end.

(** One turn of the [loop]: the new state, and whether to go on. *)
Definition pump_step (c : conn) : conn * bool :=
  let '(buf, key_change, t) := write_hs (tls c) in
  let c := queue_handshake_bytes (c <| tls := t |>) buf in
  match key_change with
  | Some kc => (install_key_change c kc, true)
  | None => (c, false)
  end.

(** The [loop]; a turn goes on only when rustls reported a key change, so one turn
    per key change left and a last one are enough. *)
Fixpoint pump_loop (fuel : nat) (c : conn) : conn :=
  match fuel with
  | O => c
  | S fuel => let '(c, more) := pump_step c in if more then pump_loop fuel c else c
  end.

Definition pump_write_hs (c : conn) (clock : Z) : conn :=
  refresh_handshake_complete (pump_loop (S (key_changes_left (tls c))) c) clock.

(** ** Key updates (keys_path.rs) *)

(** The ratchet step both update paths share: promote the next keys, keep the old
    read key until [retire_after], derive the keys after next. *)
Definition rotate_keys (c : conn) (retire_after : Z) : conn :=
  match one_rtt_secrets c with
  | None => c
  | Some secrets =>
      let '(new_next_keys, secrets) := next_packet_keys secrets in
      let c := c <| one_rtt_secrets := Some secrets |> in
      match next_1rtt_keys c with
      | None => c
      | Some next_epoch =>
          let '(old_remote, app) := rotate_to_next_epoch (application c) next_epoch in
          let c := c <| application := app |> in
          let c := match old_remote with
                   | Some k => c <| prev_1rtt_keys := Some (k, retire_after) |>
                   | None => c
                   end in
          c <| next_1rtt_keys := Some new_next_keys |>
      end
  end.

Definition perform_key_update (c : conn) (now : Z) : conn :=
  let pto_base := Rtt.pto_base (rtt c) (peer_max_ack_delay c) in
  let c := rotate_keys c (now + pto_base * 3) in
  c <| key_phase ::= negb |> <| key_update_received := true |>
    <| key_update_count ::= fun n => u64_add n 1 |> <| key_update_cooldown := Some (now + pto_base * 3) |>.

Definition initiate_key_update (c : conn) (now : Z) : bool * conn :=
  if match key_update_cooldown c with Some cooldown => now <? cooldown | None => false end then (false, c)
  else if negb (one_rtt_ready c) || is_none (next_1rtt_keys c) then (false, c)
  else (true, c <| key_update_pending := true |>).

Definition initiate_key_update_now (c : conn) (now : Z) : conn :=
  let pto_base := Rtt.pto_base (rtt c) (peer_max_ack_delay c) in
  let c := rotate_keys (c <| key_update_pending := false |>) (now + pto_base * 3) in
  c <| key_phase ::= negb |> <| key_update_count ::= fun n => u64_add n 1 |>
    <| key_update_cooldown := Some (now + pto_base * 3) |>.

(** ** Path validation (keys_path.rs) *)

Definition initiate_path_challenge (c : conn) : result OxiQuicError unit * conn :=
  if negb (one_rtt_ready c) then (Err EConnection, c)
  else match rng_fill (secure_random c) 8 with
       | (None, rng) => (Err EConnection, c <| secure_random := rng |>)
       | (Some nonce, rng) =>
           (Ok tt, c <| secure_random := rng |> <| pending_path_challenge := Some nonce |>
                     <| pending_path_challenge_send := true |> <| path_validated := false |>)
       end.

Definition set_candidate_addr (c : conn) (addr : Addr) : conn :=
  c <| candidate_peer_addr := Some addr |> <| pending_path_challenge := None |>
    <| pending_path_challenge_send := false |> <| path_validated := false |>.

(** ** Lemmas: the pump *)

Lemma tls_queue_bytes c buf : tls (queue_handshake_bytes c buf) = tls c.
Proof.
  unfold queue_handshake_bytes, try_install_zero_rtt_keys. destruct buf; [done |].
  destruct (write_level c); [| done]. destruct (bool_decide (role c = Client)); simpl; repeat case_match; done.
Qed.

Lemma tls_install_keys c kc : tls (install_key_change c kc) = tls c.
Proof.
  unfold install_key_change, try_install_zero_rtt_keys. destruct kc as [ks | ks next]; [done |].
  destruct (next_packet_keys next) as [nk sec]. simpl. repeat case_match; done.
Qed.

Lemma pump_step_progress `{!LawfulEnv env} c :
  (pump_step c).2 = true -> (key_changes_left (tls (pump_step c).1) < key_changes_left (tls c))%nat.
Proof.
  unfold pump_step. pose proof (write_hs_progress (tls c)) as H.
  destruct (write_hs (tls c)) as [[buf [kc |]] t]; [| done]. intros _.
  simpl. rewrite tls_install_keys, tls_queue_bytes. by apply H.
Qed.

Lemma pump_loop_fuel `{!LawfulEnv env} f f' c :
  (key_changes_left (tls c) < f)%nat -> (key_changes_left (tls c) < f')%nat -> pump_loop f c = pump_loop f' c.
Proof.
  revert f' c. induction f as [| f IH]; intros f' c Hf Hf'; [lia |]. destruct f' as [| f']; [lia |]. simpl.
  pose proof (pump_step_progress c) as Hp. destruct (pump_step c) as [c1 [|]]; [| done].
  specialize (Hp eq_refl). simpl in Hp. apply IH; lia.
Qed.

(** What the handshake reports to the rest: state, completion. *)
Definition hs_view (c : conn) : ConnectionState * bool := (state c, handshake_complete c).

Lemma hs_view_step c : hs_view (pump_step c).1 = hs_view c.
Proof.
  unfold pump_step. destruct (write_hs (tls c)) as [[buf kc] t].
  assert (Hq : hs_view (queue_handshake_bytes (c <| tls := t |>) buf) = hs_view c).
  { unfold queue_handshake_bytes, try_install_zero_rtt_keys. destruct buf; [done |].
    destruct (write_level (c <| tls := t |>)); [| done].
    destruct (bool_decide (role (c <| tls := t |>) = Client)); simpl; repeat case_match; done. }
  destruct kc as [kc |]; [| done]. simpl. rewrite <- Hq. generalize (queue_handshake_bytes (c <| tls := t |>) buf). intros c1.
  unfold install_key_change, try_install_zero_rtt_keys. destruct kc as [ks | ks next]; [done |].
  destruct (next_packet_keys next) as [nk sec]. simpl. repeat case_match; done.
Qed.

Lemma hs_view_loop f c : hs_view (pump_loop f c) = hs_view c.
Proof.
  revert c. induction f as [| f IH]; intros c; [done |]. simpl. pose proof (hs_view_step c) as H.
  destruct (pump_step c) as [c1 []]; [by rewrite IH | done].
Qed.

(** Everything [refresh_handshake_complete] may not touch. *)
Definition refresh_view (c : conn) : Tls * ConnectionState * bool := (tls c, state c, handshake_complete c).

Lemma refresh_view_issue n c : refresh_view (issue_initial_cids n c) = refresh_view c.
Proof.
  revert c. induction n as [| n IH]; intros c; [done |]. simpl.
  assert (H : refresh_view (maybe_issue_new_cid c).2 = refresh_view c).
  { unfold maybe_issue_new_cid. repeat case_match; done. }
  destruct (maybe_issue_new_cid c) as [[] c1]; [by rewrite IH | done].
Qed.

Lemma refresh_view_params c : refresh_view (capture_peer_params c) = refresh_view c.
Proof. unfold capture_peer_params. repeat case_match; done. Qed.
Lemma refresh_view_early c : refresh_view (settle_early_data c) = refresh_view c.
Proof. unfold settle_early_data. repeat case_match; done. Qed.
Lemma refresh_view_token c : refresh_view (schedule_new_token c) = refresh_view c.
Proof. unfold schedule_new_token. by case_match. Qed.

Lemma refresh_view_established c clock :
  refresh_view (become_established c clock) =
  (tls c, if bool_decide (state c = Handshaking) then Established else state c, handshake_complete c).
Proof.
  unfold become_established. case_bool_decide; [| done]. rewrite refresh_view_issue.
  unfold schedule_initial_mtu_probe. by case_match.
Qed.

Lemma refresh_view_refresh c clock :
  refresh_view (refresh_handshake_complete c clock) =
  let finished := negb (handshake_complete c) && negb (is_handshaking (tls c)) in
  (tls c, if finished && bool_decide (state c = Handshaking) then Established else state c,
   finished || handshake_complete c).
Proof.
  unfold refresh_handshake_complete. destruct (negb _ && _); [| done].
  rewrite refresh_view_token, refresh_view_early, refresh_view_params, refresh_view_established. done.
Qed.

(** ** Lemmas: the key ratchet *)

(** Generation [n] of the secrets, and of the packet keys. *)
Definition secret_at (s0 : Secrets) (n : nat) : Secrets := Nat.iter n (fun s => (next_packet_keys s).2) s0.
Definition keys_at (k0 : PacketKeySet PacketKey) (s0 : Secrets) (n : nat) : PacketKeySet PacketKey :=
  match n with O => k0 | S m => (next_packet_keys (secret_at s0 m)).1 end.

(** The connection is in key epoch [n] of a ratchet that started with keys [k0],
    header keys [hl], [hr] and secret [s0]. *)
Record at_epoch (k0 : PacketKeySet PacketKey) (s0 : Secrets) (hl hr : HeaderKey) (n : nat) (c : conn) : Prop := {
  ae_keys : keys (application c) = Some (mkKeys (mkDirectional hl (ks_local (keys_at k0 s0 n)))
                                                (mkDirectional hr (ks_remote (keys_at k0 s0 n))));
  ae_next : next_1rtt_keys c = Some (keys_at k0 s0 (S n));
  ae_secret : one_rtt_secrets c = Some (secret_at s0 (S n));
  ae_phase : key_phase c = Nat.odd n
}.

Lemma rotate_epoch k0 s0 hl hr n c retire :
  at_epoch k0 s0 hl hr n c ->
  let c' := rotate_keys c retire in
  keys (application c') = Some (mkKeys (mkDirectional hl (ks_local (keys_at k0 s0 (S n))))
                                       (mkDirectional hr (ks_remote (keys_at k0 s0 (S n))))) /\
  next_1rtt_keys c' = Some (keys_at k0 s0 (S (S n))) /\
  one_rtt_secrets c' = Some (secret_at s0 (S (S n))) /\
  prev_1rtt_keys c' = Some (ks_remote (keys_at k0 s0 n), retire) /\
  key_phase c' = key_phase c.
Proof.
  intros [Hk Hn Hs _]. unfold rotate_keys. rewrite Hs.
  assert (E1 : (next_packet_keys (secret_at s0 (S n))).1 = keys_at k0 s0 (S (S n))) by done.
  assert (E2 : (next_packet_keys (secret_at s0 (S n))).2 = secret_at s0 (S (S n))) by done.
  destruct (next_packet_keys (secret_at s0 (S n))) as [nk sec]. cbn [fst snd] in E1, E2. subst nk sec.
  unfold rotate_to_next_epoch. simpl. rewrite Hn. simpl. rewrite Hk. done.
Qed.

(** One update, by either side: the next epoch, the retired read key, the cooldown. *)
Lemma key_update_step (c : conn) k0 s0 hl hr n now :
  at_epoch k0 s0 hl hr n c ->
  let deadline := now + Rtt.pto_base (rtt c) (peer_max_ack_delay c) * 3 in
  forall c', c' = perform_key_update c now \/ c' = initiate_key_update_now c now ->
    at_epoch k0 s0 hl hr (S n) c' /\ prev_1rtt_keys c' = Some (ks_remote (keys_at k0 s0 n), deadline) /\
    key_update_cooldown c' = Some deadline.
Proof.
  intros He deadline c' Hc.
  assert (Hcase : exists c1, at_epoch k0 s0 hl hr n c1 /\ key_update_cooldown c' = Some deadline /\
            keys (application c') = keys (application (rotate_keys c1 deadline)) /\
            next_1rtt_keys c' = next_1rtt_keys (rotate_keys c1 deadline) /\
            one_rtt_secrets c' = one_rtt_secrets (rotate_keys c1 deadline) /\
            prev_1rtt_keys c' = prev_1rtt_keys (rotate_keys c1 deadline) /\
            key_phase c' = negb (key_phase (rotate_keys c1 deadline))).
  { destruct Hc as [-> | ->]; [by exists c |]. exists (c <| key_update_pending := false |>).
    split; [by destruct He |]. done. }
  destruct Hcase as (c1 & He1 & Hcool & Hk & Hn & Hs & Hp & Hph).
  destruct (rotate_epoch k0 s0 hl hr n c1 deadline He1) as (R1 & R2 & R3 & R4 & R5).
  split_and!; [| by rewrite Hp | done].
  split; [by rewrite Hk | by rewrite Hn | by rewrite Hs |].
  by rewrite Hph, R5, (ae_phase _ _ _ _ _ _ He1), Nat.odd_succ, Nat.negb_odd.
Qed.

(** The pump, which is where the handshake completes. *)
Definition pns (c : conn) : Z * Z * Z :=
  (next_packet_number (initial c), next_packet_number (handshake c), next_packet_number (application c)).

(** What loss recovery decides with, and whether a Retry was accepted. *)
Definition recov_view (c : conn) := (loss c, loss_timer c, retry_done c).

Definition num_view (c : conn) := (pns c, recov_view c).

Definition pump_view (c : conn) := (path_view c, cc_view c, (num_view c, mtu_view c), (recv_streams c, next_bidi_index c, next_uni_index c)).

(** What the handshake flights leave alone; completing the handshake may raise the limits. *)
Definition step_view (c : conn) := (path_view c, cc_view c, (num_view c, mtu_view c), app_view c).

Lemma step_view_step c : step_view (pump_step c).1 = step_view c.
Proof.
  unfold pump_step. destruct (write_hs (tls c)) as [[buf kc] t].
  assert (Hq : step_view (queue_handshake_bytes (c <| tls := t |>) buf) = step_view c).
  { unfold queue_handshake_bytes, try_install_zero_rtt_keys. destruct buf; [done |].
    destruct (write_level (c <| tls := t |>)); [| done].
    destruct (bool_decide (role (c <| tls := t |>) = Client)); simpl; repeat case_match; done. }
  destruct kc as [kc |]; [| done]. cbn [fst]. rewrite <- Hq. generalize (queue_handshake_bytes (c <| tls := t |>) buf). intros c1.
  unfold install_key_change, try_install_zero_rtt_keys. destruct kc as [ks | ks next]; [done |].
  destruct (next_packet_keys next) as [nk sec]. simpl. repeat case_match; done.
Qed.

Lemma step_view_loop n c : step_view (pump_loop n c) = step_view c.
Proof.
  revert c. induction n as [| n IH]; intros c; [done |]. simpl. pose proof (step_view_step c) as H.
  destruct (pump_step c) as [c1 []]; [by rewrite IH | done].
Qed.

Lemma pump_view_refresh c clock : pump_view (refresh_handshake_complete c clock) = pump_view c.
Proof.
  assert (Hi : forall n c, pump_view (issue_initial_cids n c) = pump_view c).
  { induction n as [| n IH]; intros c1; [done |]. simpl.
    assert (H : pump_view (maybe_issue_new_cid c1).2 = pump_view c1) by (unfold maybe_issue_new_cid; repeat case_match; done).
    destruct (maybe_issue_new_cid c1) as [[] c2]; [by rewrite IH | done]. }
  unfold refresh_handshake_complete. destruct (negb _ && _); [| done].
  assert (Ht : forall c, pump_view (schedule_new_token c) = pump_view c) by (intros; unfold schedule_new_token; by case_match).
  assert (He : forall c, pump_view (settle_early_data c) = pump_view c) by (intros; unfold settle_early_data; repeat case_match; done).
  assert (Hc : forall c, pump_view (capture_peer_params c) = pump_view c) by (intros; unfold capture_peer_params; repeat case_match; done).
  rewrite Ht, He, Hc. unfold become_established. case_bool_decide; [| done]. rewrite Hi.
  unfold schedule_initial_mtu_probe. by case_match.
Qed.

Lemma pump_view_pump c clock : pump_view (pump_write_hs c clock) = pump_view c.
Proof.
  unfold pump_write_hs. rewrite pump_view_refresh. pose proof (step_view_loop (S (key_changes_left (tls c))) c) as H.
  exact (f_equal (fun v => (v.1, v.2.1.1.1)) H).
Qed.

Lemma app_view_pump c clock : handshake_complete c = true -> app_view (pump_write_hs c clock) = app_view c.
Proof.
  intros Hc. unfold pump_write_hs. generalize (S (key_changes_left (tls c))). intros n.
  pose proof (hs_view_loop n c) as [= _ Hh]. pose proof (step_view_loop n c) as H.
  unfold refresh_handshake_complete. rewrite Hh, Hc. exact (f_equal snd H).
Qed.

Lemma path_view_pump c clock : path_view (pump_write_hs c clock) = path_view c.
Proof. exact (f_equal (fun v => v.1.1.1) (pump_view_pump c clock)). Qed.

End handshake.

(** ** Properties *)

(** C11: Key updates follow the ratchet: installing the 1-RTT keys starts epoch 0;
    both a peer-initiated and a local update take a connection from epoch [n] to
    epoch [n + 1] (packet keys of that generation in both directions, header keys
    unchanged, the generation after next derived in advance, the key phase flipped),
    keep the old read key until three PTOs later, and until then a further local
    update is refused. *)
Theorem key_update_epochs {env : QuicEnv} (c : Connection env) ks s0 k0 hl hr n now :
  (key_phase c = false -> k0 = mkKeySet (dk_packet (local ks)) (dk_packet (remote ks)) ->
   at_epoch k0 s0 (dk_header (local ks)) (dk_header (remote ks)) 0 (install_key_change c (KcOneRtt ks s0))) /\
  (at_epoch k0 s0 hl hr n c ->
   let deadline := now + Rtt.pto_base (rtt c) (peer_max_ack_delay c) * 3 in
   forall c', c' = perform_key_update c now \/ c' = initiate_key_update_now c now ->
     at_epoch k0 s0 hl hr (S n) c' /\
     prev_1rtt_keys c' = Some (ks_remote (keys_at k0 s0 n), deadline) /\
     (forall t, t < deadline -> initiate_key_update c' t = (false, c'))).
Proof.
  split.
  - intros Hp ->. unfold install_key_change, try_install_zero_rtt_keys.
    destruct (next_packet_keys s0) as [nk sec] eqn:E.
    destruct ks as [[hl' kl] [hr' kr]].
    split; repeat case_match; simpl; rewrite ?E; done.
  - intros He deadline c' Hc. destruct (key_update_step c k0 s0 hl hr n now He c' Hc) as (H1 & H2 & H3).
    split_and!; [done | done |]. intros t Ht. unfold initiate_key_update. rewrite H3. by rewrite (proj2 (Z.ltb_lt _ _)).
Qed.

(** The handshake pump is complete: the loop over rustls's output ends after at
    most one turn per outstanding key change, so any larger number of turns gives
    the same result; afterwards the handshake is reported complete exactly when
    rustls has finished, and that moves a connection from Handshaking to
    Established and no other. *)
Theorem handshake_pump {env : QuicEnv} `{!LawfulEnv env} (c : Connection env) clock fuel :
  (key_changes_left (tls c) < fuel)%nat ->
  let c' := pump_write_hs c clock in
  c' = refresh_handshake_complete (pump_loop fuel c) clock /\
  handshake_complete c' = handshake_complete c || negb (is_handshaking (tls c')) /\
  state c' = (if bool_decide (state c = Handshaking) && negb (handshake_complete c) && negb (is_handshaking (tls c'))
              then Established else state c).
Proof.
  intros Hf c'. assert (E : c' = refresh_handshake_complete (pump_loop fuel c) clock).
  { subst c'. unfold pump_write_hs. f_equal. apply pump_loop_fuel; lia. }
  split; [done |]. pose proof (hs_view_loop fuel c) as Hv.
  pose proof (refresh_view_refresh (pump_loop fuel c) clock) as Hr. rewrite <- E in Hr.
  revert Hv Hr. generalize (pump_loop fuel c). intros c1 Hv Hr. injection Hv as Hs Hc. injection Hr as Ht Hs' Hc'.
  rewrite Hc', Hs', Ht, Hs, Hc. destruct (handshake_complete c), (is_handshaking (tls c1)); simpl;
    rewrite ?andb_true_r, ?andb_false_r; done.
Qed.

(** ** Witnesses *)

(** A client whose TLS session has two flights left, the second with 1-RTT keys. *)
Definition demo_keys : Keys unit Z := mkKeys (mkDirectional tt 0x21) (mkDirectional tt 0x21).

Definition demo_tls : @Tls demo_env :=
  mkScriptedTls [([1; 2], Some (KcHandshake demo_keys)); ([3], Some (KcOneRtt demo_keys 5))] false
    (Some (encode_transport_params default_params)).

Definition demo_pumping : Connection demo_env := demo_client <| tls := demo_tls |>.

Definition demo_key_change : KeyChange (@HeaderKey demo_env) (@PacketKey demo_env) (@Secrets demo_env) :=
  KcOneRtt demo_keys 5.

Lemma handshake_pump_witness :
  let c' := pump_write_hs demo_pumping 0 in
  c' = refresh_handshake_complete (pump_loop 7 demo_pumping) 0 /\
  handshake_complete c' = handshake_complete demo_pumping || negb (is_handshaking (tls c')) /\
  state c' = (if bool_decide (state demo_pumping = Handshaking) && negb (handshake_complete demo_pumping)
                 && negb (is_handshaking (tls c')) then Established else state demo_pumping).
Proof. apply (handshake_pump demo_pumping 0 7). simpl. lia. Defined.

Definition demo_installed : Connection demo_env := install_key_change demo_client demo_key_change.

Lemma key_update_epochs_witness :
  at_epoch (env := demo_env) (mkKeySet 0x21 0x21) 5 tt tt 0 demo_installed /\
  at_epoch (env := demo_env) (mkKeySet 0x21 0x21) 5 tt tt 1 (perform_key_update demo_installed 9).
Proof.
  assert (H0 : at_epoch (env := demo_env) (mkKeySet 0x21 0x21) 5 tt tt 0 demo_installed).
  { apply (key_update_epochs (env := demo_env) demo_client demo_keys 5 (mkKeySet 0x21 0x21) tt tt 0 0); reflexivity. }
  split; [exact H0 |].
  apply (key_update_epochs (env := demo_env) demo_installed demo_keys 5 (mkKeySet 0x21 0x21) tt tt 0 9);
    [exact H0 | left; reflexivity].
Defined.
