(* ===== verification/ConnRecv.v ===== *)
(** * The connection: receive path
    ([oxiquic-transport/src/connection/recv.rs])

    Datagram ingestion, packet decryption and key-phase handling, Retry, Version
    Negotiation, stateless reset, and the dispatch of every frame.  An operation
    that fails keeps the changes it made before the error, so each returns its
    result together with the new state; packet parsers work in place, so the
    packet-level operations also return the datagram they leave. *)

From S2P Require Import Prelude OrdMap CoreTypes Coding FrameCodec ParamsCodec PacketSpace SentPackets.
From S2P Require Import Streams FlowControl Recovery Congestion Bbr CidPool Packet Multipath Connection.
From S2P Require Import ConnRecovery ConnHandshake.

(** The [?] operator on a state-carrying result. *)
Notation "'let?' x , c := m 'in' k" :=
  (match m with (Ok x, c) => k | (Err e, c) => (Err e, c) end)
  (at level 200, x name, c name, m at level 100, k at level 200).

Section receive.
Context {env : QuicEnv}.

Notation conn := (Connection env).
Notation outcome := (result OxiQuicError unit * conn)%type.

(** ** Stream frames *)

Definition recv_crypto (c : conn) (pt : PacketType) (offset : Z) (data : list Z) : outcome :=
  let '(delivered, c) :=
    match pt with
    | PT_Initial => let '(d, s) := CryptoStream.recv (initial_crypto c) offset data in (d, c <| initial_crypto := s |>)
    | PT_Handshake =>
        let '(d, s) := CryptoStream.recv (handshake_crypto c) offset data in (d, c <| handshake_crypto := s |>)
    | _ => (None, c)
    end in
  match delivered with
  | Some bytes =>
      let '(r, t) := read_hs (tls c) bytes in
      let c := c <| tls := t |> in
      match r with Ok _ => (Ok tt, c) | Err _ => (Err ETls, c) end
  | None => (Ok tt, c)
  end.

Definition peer_initiated (c : conn) (id : Z) : bool :=
  match role c with
  | Client => bool_decide (StreamId.initiator id = InitServer)
  | Server => bool_decide (StreamId.initiator id = InitClient)
  end.

(** [entry(id).or_insert(v)]. *)
Definition or_insert {V} (id : Z) (v : V) (m : BTreeMap V) : BTreeMap V :=
  if om_contains id m then m else om_insert id v m.

(** Auto-create the stream's state. *)
Definition touch_stream (c : conn) (id : Z) : conn :=
  let is_new := negb (om_contains id (recv_streams c)) in
  let c := if is_new && peer_initiated c id then c <| new_peer_streams ::= fun q => q ++ [id] |> else c in
  let c := if bool_decide (StreamId.direction id = Bidirectional) then
             c <| send_streams ::= or_insert id SendStream.new |>
               <| stream_send_flow ::= or_insert id (StreamSendFlow.new (peer_initial_stream_limit c)) |>
           else c in
  c <| stream_recv_flow ::= or_insert id (StreamRecvFlow.new (local_initial_max_stream_data c)) |>
    <| recv_streams ::= or_insert id RecvStream.new |>.

Definition recv_stream (c : conn) (id offset : Z) (fin : bool) (data : list Z) : outcome :=
  let c := touch_stream c id in
  let s := unwrap_or (om_get id (recv_streams c)) RecvStream.new in
  if RecvStream.is_reset s then (Ok tt, c)
  else match RecvStream.recv s offset data fin with
       | Ok (newly, s) =>
           let c := c <| recv_streams ::= om_insert id s |> in
           (Ok tt, if newly then c <| readable ::= fun q => q ++ [id] |> else c)
       | Err FinalSize => (Err (ETransportError FinalSizeError None), c)
       | Err (Reset _) => (Ok tt, c)
       end.

Definition recv_reset_stream (c : conn) (stream_id error_code : Z) : outcome :=
  let s := unwrap_or (om_get stream_id (recv_streams c)) RecvStream.new in
  (Ok tt, c <| recv_streams ::= om_insert stream_id (RecvStream.apply_reset s error_code) |>
            <| readable ::= fun q => q ++ [stream_id] |>).

Definition recv_stop_sending (c : conn) (stream_id error_code : Z) : conn :=
  match om_get stream_id (send_streams c) with
  | None => c
  | Some s =>
      let effective_code := unwrap_or (SendStream.reset_code s) error_code in
      let final_size := SendStream.final_size s in
      let c := if negb (SendStream.is_reset s)
               then c <| send_streams ::= om_insert stream_id (SendStream.reset s effective_code) |> else c in
      c <| pending_reset_streams ::= om_insert stream_id (effective_code, final_size) |>
  end.

Definition maybe_raise_max_streams (c : conn) (dir : Direction) : conn :=
  match dir with
  | Bidirectional =>
      let new_max := u64_add (local_max_streams_bidi c) (closed_peer_bidi c) in
      if sent_max_streams_bidi c <? new_max then c <| pending_max_streams_bidi := Some new_max |> else c
  | Unidirectional =>
      let new_max := u64_add (local_max_streams_uni c) (closed_peer_uni c) in
      if sent_max_streams_uni c <? new_max then c <| pending_max_streams_uni := Some new_max |> else c
  end.

(** ** Frame dispatch *)

Definition violation (ft : option FrameType) : OxiQuicError := ETransportError ProtocolViolation ft.

Definition recv_retire_connection_id (c : conn) (pt : PacketType) (seq : Z) : outcome :=
  if negb (bool_decide (pt = PT_Short)) then (Err (violation (Some FT_RetireConnectionId)), c)
  else if bool_decide (seq ∈ cids_issued_this_packet c) then (Err (violation (Some FT_RetireConnectionId)), c)
  else
    let '(retired, pool) := LocalCidPool.handle_peer_retirement (local_cid_pool c) seq in
    let c := c <| local_cid_pool := pool |> in
    match retired with
    | Some cid =>
        let c := c <| pending_cid_events ::= fun q => q ++ [Unregister cid] |> in
        (Ok tt, (maybe_issue_new_cid c).2)
    | None => (Ok tt, c)
    end.

Definition recv_new_token (c : conn) (pt : PacketType) (token : list Z) : outcome :=
  if bool_decide (role c = Server) then (Err (violation (Some FT_NewToken)), c)
  else if negb (bool_decide (pt = PT_Short)) then (Err (violation (Some FT_NewToken)), c)
  else (Ok tt, c <| received_token := Some token |>).

Definition recv_datagram_frame (c : conn) (data : list Z) : outcome :=
  if local_max_datagram_frame_size c =? 0 then (Err (violation None), c)
  else if local_max_datagram_frame_size c <? len data then (Err (violation None), c)
  else
    let total := fold_left (fun n d => n + len d) (datagram_recv_queue c) 0 + len data in
    let c := if datagram_recv_buffer_limit c <? total then c <| datagram_recv_queue ::= tail |> else c in
    (Ok tt, c <| datagram_recv_queue ::= fun q => q ++ [data] |>).

Definition recv_path_response (c : conn) (data : list Z) : conn :=
  if bool_decide (pending_path_challenge c = Some data) then
    let c := c <| path_validated := true |> <| pending_path_challenge := None |> in
    match candidate_peer_addr c with
    | Some addr => c <| candidate_peer_addr := None |> <| peer_addr := addr |>
    | None => c
    end
  else c.

Definition handle_frame (c : conn) (now : Z) (pt : PacketType) (frame : Frame) : outcome :=
  match frame with
  | Padding _ | Ping => (Ok tt, c)
  | Ack largest delay first_range ranges => (Ok tt, process_ack c now pt largest delay first_range ranges)
  | ResetStream stream_id error_code _ => recv_reset_stream c stream_id error_code
  | StopSending stream_id error_code => (Ok tt, recv_stop_sending c stream_id error_code)
  | Crypto offset data => recv_crypto c pt offset data
  | Stream id offset fin data => recv_stream c id offset fin data
  | MaxData max => (Ok tt, c <| send_flow ::= fun f => SendFlowControl.on_max_data f max |>)
  | MaxStreamData id max =>
      let flow := unwrap_or (om_get id (stream_send_flow c)) (StreamSendFlow.new (peer_initial_stream_limit c)) in
      (Ok tt, c <| stream_send_flow ::= om_insert id (StreamSendFlow.on_max_stream_data flow max) |>)
  | DataBlocked _ | StreamDataBlocked _ _ => (Ok tt, c)
  | PathChallenge data => (Ok tt, c <| pending_path_response := Some data |>)
  | PathResponse data => (Ok tt, recv_path_response c data)
  | HandshakeDone => (Ok tt, if bool_decide (role c = Client) then c <| handshake_done := true |> else c)
  | NewConnectionId seq retire_prior_to cid token =>
      if negb (bool_decide (pt = PT_Short)) then (Err (violation (Some FT_NewConnectionId)), c)
      else match PeerCidPool.receive_new_cid (peer_cid_pool c) seq retire_prior_to cid token with
           | Err e => (Err e, c)
           | Ok pool =>
               (Ok tt, c <| peer_cid_pool := pool |> <| cids_issued_this_packet ::= cons seq |>)
           end
  | RetireConnectionId seq => recv_retire_connection_id c pt seq
  | ConnectionClose error_code _ application _ =>
      let reason := if application then EApplicationClose error_code
                    else ETransportError (error_code_from_u64 error_code) None in
      (Ok tt, c <| peer_closed := Some reason |> <| state := Closed |>)
  | MaxStreams Bidirectional max =>
      (Ok tt, if peer_max_streams_bidi c <? max then c <| peer_max_streams_bidi := max |> else c)
  | MaxStreams Unidirectional max =>
      (Ok tt, if peer_max_streams_uni c <? max then c <| peer_max_streams_uni := max |> else c)
  | StreamsBlocked dir _ => (Ok tt, maybe_raise_max_streams c dir)
  | NewToken token => recv_new_token c pt token
  | Datagram data => recv_datagram_frame c data
  | Unsupported _ => (Ok tt, c)
  end.

(** The [while !buf.is_empty()] loop; every frame takes at least one byte. *)
Fixpoint frames_loop (fuel : nat) (c : conn) (now : Z) (pt : PacketType) (b : Buf) (ack_eliciting : bool)
    : result OxiQuicError bool * conn :=
  if buf_is_empty b then (Ok ack_eliciting, c)
  else match fuel with
       | O => (Err EFrameEncoding, c)
       | S fuel =>
           match decode_frame b with
           | Err code => (Err (ETransportError code None), c)
           | Ok (frame, b) =>
               let ack_eliciting := if is_ack_eliciting frame then true else ack_eliciting in
               let? _ , c := handle_frame c now pt frame in
               frames_loop fuel c now pt b ack_eliciting
           end
       end.

Definition process_frames (c : conn) (now : Z) (pt : PacketType) (payload : list Z) : result OxiQuicError bool * conn :=
  frames_loop (length payload) (c <| cids_issued_this_packet := [] |>) now pt (buf_new payload) false.

(** ** Packets *)

(** The datagram a parser leaves, the offset of the next packet ([None] stops), the state. *)
Notation packet_outcome := (list Z * (result OxiQuicError (option nat) * conn))%type.

Definition check_stateless_reset (c : conn) (datagram : list Z) (offset packet_len : nat)
    : result OxiQuicError (option nat) :=
  if (21 <=? packet_len)%nat then
    let stop := (offset + packet_len)%nat in
    if (stop <=? length datagram)%nat then
      if PeerCidPool.matches_stateless_reset (peer_cid_pool c) (slice datagram (stop - 16) stop)
      then Err EStatelessReset else Ok None
    else Ok None
  else Ok None.

Definition recv_retry_packet (c : conn) (datagram : list Z) (offset : nat) : result OxiQuicError (option nat) * conn :=
  if negb (bool_decide (role c = Client)) || negb (bool_decide (state c = Handshaking)) || retry_done c then (Ok None, c)
  else if is_some (largest_received (initial c)) then (Ok None, c)
  else
    let packet := drop offset datagram in
    if negb (verify_retry_integrity_tag aes128gcm_encrypt (initial_dcid c) packet) then (Ok None, c)
    else match parse_retry_packet packet with
         | None => (Ok None, c)
         | Some (scid, _, token) =>
             let c := c <| peer_cid := scid |> <| retry_done := true |> in
             (Ok None, rekey_initial_for_retry c scid token)
         end.

Definition recv_zero_rtt_packet (c : conn) (now : Z) (datagram : list Z) (offset : nat) : packet_outcome :=
  if negb (bool_decide (role c = Server)) then (datagram, (Ok None, c))
  else match zero_rtt_keys c with
       | None => (datagram, (Ok None, c))
       | Some ks =>
           match parse_long_packet datagram offset QUIC_V1 (largest_received (application c))
                   (dk_packet ks) (dk_header ks) with
           | (datagram, Err _) => (datagram, (Ok None, c))
           | (datagram, Ok parsed) =>
               (datagram,
                let? ack_eliciting , c := process_frames c now PT_ZeroRtt (pp_payload parsed) in
                (Ok (Some (pp_consumed parsed)),
                 c <| application ::= fun s => on_packet_received s (pp_packet_number parsed) ack_eliciting |>))
           end
       end.

(** Process a decrypted Initial or Handshake packet. *)
Definition accept_long_packet (c : conn) (now : Z) (parsed : ParsedPacket) : result OxiQuicError (option nat) * conn :=
  let next := pp_consumed parsed in
  let dcid := pp_dcid parsed in
  if negb (bool_decide (dcid = [])) && negb (bool_decide (dcid = local_cid c)) && negb (bool_decide (dcid = initial_dcid c))
  then (Ok (Some next), c)
  else
    let c := if bool_decide (role c = Client) && bool_decide (pp_packet_type parsed = PT_Initial)
                && negb (bool_decide (pp_scid parsed = []))
             then c <| peer_cid := pp_scid parsed |> else c in
    let? ack_eliciting , c := process_frames c now (pp_packet_type parsed) (pp_payload parsed) in
    match pp_packet_type parsed with
    | PT_Initial =>
        (Ok (Some next), c <| initial ::= fun s => on_packet_received s (pp_packet_number parsed) ack_eliciting |>)
    | PT_Handshake =>
        (Ok (Some next), c <| handshake ::= fun s => on_packet_received s (pp_packet_number parsed) ack_eliciting |>)
    | _ => (Ok (Some next), c)
    end.

Definition recv_long_packet (c : conn) (now : Z) (datagram : list Z) (offset : nat) : packet_outcome :=
  match peek_dcid (drop offset datagram) LOCAL_CID_LEN with
  | Err _ => (datagram, (Ok None, c))
  | Ok (PT_VersionNegotiation, _) =>
      if bool_decide (role c = Client) && bool_decide (state c = Handshaking) && is_none (largest_received (initial c))
      then (datagram, (Err (EVersionNegotiation (unwrap_or (decode_version_negotiation (drop offset datagram)) [])), c))
      else (datagram, (Ok None, c))
  | Ok (PT_Retry, _) => (datagram, recv_retry_packet c datagram offset)
  | Ok (PT_ZeroRtt, _) => recv_zero_rtt_packet c now datagram offset
  | Ok (PT_Short, _) => (datagram, (Ok None, c))
  | Ok (ty, _) =>
      let space := match ty with PT_Initial => initial c | _ => handshake c end in
      match remote_keys space with
      | None => (datagram, (Ok None, c))
      | Some ks =>
          match parse_long_packet datagram offset QUIC_V1 (largest_received space) (dk_packet ks) (dk_header ks) with
          | (datagram, Err _) => (datagram, (Ok None, c))
          | (datagram, Ok parsed) => (datagram, accept_long_packet c now parsed)
          end
      end
  end.

(** Process a decrypted 1-RTT packet. *)
Definition accept_short_packet (c : conn) (now : Z) (parsed : ParsedPacket) : result OxiQuicError (option nat) * conn :=
  let? ack_eliciting , c := process_frames c now PT_Short (pp_payload parsed) in
  (Ok (Some (pp_consumed parsed)),
   c <| application ::= fun s => on_packet_received s (pp_packet_number parsed) ack_eliciting |>).

(** The key phase matches: the current key, then the previous one. *)
Definition recv_current_phase (c : conn) (now : Z) (datagram : list Z) (offset : nat) (ks : DirectionalKeys HeaderKey PacketKey)
    : packet_outcome :=
  let packet_len := length (drop offset datagram) in
  let largest := largest_received (application c) in
  match decrypt_short_packet_body datagram offset LOCAL_CID_LEN largest (dk_packet ks) with
  | (datagram, Ok parsed) => (datagram, accept_short_packet c now parsed)
  | (datagram, Err _) =>
      match prev_1rtt_keys c with
      | Some (prev_pk, retire_after) =>
          if now <=? retire_after then
            match decrypt_short_packet_body datagram offset LOCAL_CID_LEN largest prev_pk with
            | (datagram, Ok parsed) => (datagram, accept_short_packet c now parsed)
            | (datagram, Err _) => (datagram, (check_stateless_reset c datagram offset packet_len, c))
            end
          else (datagram, (check_stateless_reset c datagram offset packet_len, c))
      | None => (datagram, (check_stateless_reset c datagram offset packet_len, c))
      end
  end.

(** The key phase differs: the next key; success is a peer-initiated key update. *)
Definition recv_next_phase (c : conn) (now : Z) (datagram : list Z) (offset : nat) : packet_outcome :=
  let packet_len := length (drop offset datagram) in
  match next_1rtt_keys c with
  | None => (datagram, (check_stateless_reset c datagram offset packet_len, c))
  | Some next_keys =>
      match decrypt_short_packet_body datagram offset LOCAL_CID_LEN (largest_received (application c)) (ks_remote next_keys) with
      | (datagram, Err _) => (datagram, (check_stateless_reset c datagram offset packet_len, c))
      | (datagram, Ok parsed) => (datagram, accept_short_packet (perform_key_update c now) now parsed)
      end
  end.

Definition recv_short_packet (c : conn) (now : Z) (datagram : list Z) (offset : nat) : packet_outcome :=
  let packet_len := length (drop offset datagram) in
  match remote_keys (application c) with
  | None => (datagram, (check_stateless_reset c datagram offset packet_len, c))
  | Some ks =>
      match strip_short_header_protection datagram offset LOCAL_CID_LEN (dk_header ks) with
      | (datagram, Err _) => (datagram, (check_stateless_reset c datagram offset packet_len, c))
      | (datagram, Ok (incoming_key_phase, _)) =>
          if Bool.eqb incoming_key_phase (key_phase c)
          then recv_current_phase c now datagram offset ks
          else recv_next_phase c now datagram offset
      end
  end.

(** One turn of [handle_datagram]'s loop after a packet was consumed. *)
Definition drive_handshake (c : conn) (clock : Z) : conn :=
  let c := pump_write_hs c clock in
  if negb (handshake_complete c) && is_none (zero_rtt_keys c) then try_install_zero_rtt_keys c else c.

(** The [while offset < datagram.len()] loop; [None] is the model running out of fuel. *)
Fixpoint datagram_loop (fuel : nat) (c : conn) (now clock : Z) (datagram : list Z) (offset : nat)
    : option (list Z * outcome) :=
  match fuel with
  | O => None
  | S fuel =>
      if (length datagram <=? offset)%nat then Some (datagram, (Ok tt, c))
      else
        let first := nth offset datagram 0 in
        if first =? 0 then Some (datagram, (Ok tt, c))
        else
          let '(datagram, (consumed, c)) :=
            if negb (Z.land first 0x80 =? 0) then recv_long_packet c now datagram offset
            else recv_short_packet c now datagram offset in
          match consumed with
          | Err e => Some (datagram, (Err e, c))
          | Ok None => Some (datagram, (Ok tt, c))
          | Ok (Some stop) => datagram_loop fuel (drive_handshake c clock) now clock datagram stop
          end
  end.

Definition handle_datagram (c : conn) (now clock : Z) (datagram : list Z) : option (list Z * outcome) :=
  let c := arm_idle_timer c now in
  let c := c <| packets_recv ::= fun n => u64_add n 1 |> <| bytes_recv ::= fun n => u64_add n (len datagram) |> in
  datagram_loop (S (length datagram)) c now clock datagram 0.

(** ** Lemmas: what a frame can change *)

Definition closes (f : Frame) : bool := match f with ConnectionClose _ _ _ _ => true | _ => false end.

(** All the state a frame handler other than CONNECTION_CLOSE, PATH_RESPONSE and
    CRYPTO leaves alone. *)
Definition frame_view (c : conn) := (life_view c, path_view c, key_view c, role c, handshake_complete c).

Lemma frame_view_core c c' : core_view c' = core_view c -> frame_view c' = frame_view c.
Proof.
  unfold core_view, route_view, frame_view. generalize (life_view c') (life_view c) (path_view c') (path_view c) (key_view c') (key_view c).
  intros l l' p p' k k' H. injection H. intros. subst. congruence.
Qed.

Lemma frame_view_issue c : frame_view (maybe_issue_new_cid c).2 = frame_view c.
Proof. unfold maybe_issue_new_cid. repeat case_match; done. Qed.

Lemma frame_view_stream c id o fin d : frame_view (recv_stream c id o fin d).2 = frame_view c.
Proof.
  assert (Ht : frame_view (touch_stream c id) = frame_view c).
  { unfold touch_stream. destruct (negb _ && _); destruct (bool_decide _); done. }
  unfold recv_stream. rewrite <- Ht. generalize (touch_stream c id). intros c1.
  destruct (RecvStream.is_reset _); [done |]. destruct (RecvStream.recv _ _ _ _) as [[[] s] | []]; done.
Qed.

Lemma frame_view_crypto c pt o d : frame_view (recv_crypto c pt o d).2 = frame_view c.
Proof.
  unfold recv_crypto. destruct pt; try done;
    destruct (CryptoStream.recv _ _ _) as [[bytes |] s]; try done; simpl;
    destruct (read_hs _ _) as [[] t]; done.
Qed.

Lemma frame_view_retire c pt seq : frame_view (recv_retire_connection_id c pt seq).2 = frame_view c.
Proof.
  unfold recv_retire_connection_id. case_match; [done |]. case_match; [done |].
  destruct (LocalCidPool.handle_peer_retirement _ _) as [[cid |] pool]; [| done]. cbn [snd]. by rewrite frame_view_issue.
Qed.

Lemma frame_view_handle c now pt f :
  closes f = false -> (forall d, f <> PathResponse d) -> frame_view (handle_frame c now pt f).2 = frame_view c.
Proof.
  intros Hc Hp. destruct f; try done; unfold handle_frame.
  - apply frame_view_core, core_view_ack.
  - unfold recv_stop_sending. case_match; [| done]. by case_match.
  - apply frame_view_crypto.
  - apply frame_view_stream.
  - by destruct (Hp data).
  - by case_match.
  - case_match; [done |]. by case_match.
  - apply frame_view_retire.
  - destruct dir; by case_match.
  - destruct dir; simpl; by case_match.
  - unfold recv_new_token. case_match; [done |]. by case_match.
  - unfold recv_datagram_frame. case_match; [done |]. case_match; [done |]. simpl. by case_match.
Qed.

(** ** Lemmas: a payload is its frames *)

(** The frames of a packet, one after the other, until the first error. *)
Fixpoint run_frames (c : conn) (now : Z) (pt : PacketType) (fs : list Frame) (ack_eliciting : bool)
    : result OxiQuicError bool * conn :=
  match fs with
  | [] => (Ok ack_eliciting, c)
  | f :: fs =>
      let? _ , c := handle_frame c now pt f in
      run_frames c now pt fs (if is_ack_eliciting f then true else ack_eliciting)
  end.

Lemma frames_loop_bytes fs fuel c now pt b ae :
  Forall frame_ok fs -> no_adjacent_padding fs = true -> buf_wf b ->
  rest b = concat (map frame_bytes fs) -> (length fs <= fuel)%nat ->
  frames_loop fuel c now pt b ae = run_frames c now pt fs ae.
Proof.
  revert fuel c b ae. induction fs as [| f fs IH]; intros fuel c b ae Hok Hpad Hb Hr Hf.
  - simpl in Hr. destruct fuel; simpl; unfold buf_is_empty; by rewrite <- length_rest, Hr by done.
  - destruct fuel as [| fuel]; [simpl in Hf; lia |]. pose proof (Forall_inv Hok) as Hf1.
    pose proof (frame_bytes_pos f Hf1) as Hpos. simpl in Hr.
    assert (Hne : buf_is_empty b = false).
    { unfold buf_is_empty. rewrite <- length_rest, Hr, length_app by done. apply Z.eqb_neq. lia. }
    cbn [frames_loop run_frames]. rewrite Hne.
    rewrite (decode_frame_bytes f b (concat (map frame_bytes fs))) by (done || by apply frame_follow_next).
    destruct (handle_frame c now pt f) as [[u | e] c1]; [| done].
    apply IH; [by apply Forall_inv_tail in Hok | by apply no_adjacent_padding_tail in Hpad | | | simpl in Hf; lia].
    + apply (buf_wf_advance_app b _ (concat (map frame_bytes fs))); done.
    + by apply rest_advance_app.
Qed.

Lemma concat_bytes_count fs : Forall frame_ok fs -> (length fs <= length (concat (map frame_bytes fs)))%nat.
Proof.
  induction 1 as [| f fs Hf _ IH]; simpl; [lia |]. rewrite length_app. pose proof (frame_bytes_pos f Hf). lia.
Qed.

Lemma process_frames_run c now pt fs :
  Forall frame_ok fs -> no_adjacent_padding fs = true -> len (payload_bytes fs) <= u64_MAX ->
  process_frames c now pt (payload_bytes fs) = run_frames (c <| cids_issued_this_packet := [] |>) now pt fs false.
Proof.
  intros Hok Hpad Hl. unfold payload_bytes in *. rewrite payload_bytes_acc in *. simpl in *.
  apply frames_loop_bytes; try done; [split; simpl; lia | by apply concat_bytes_count].
Qed.

(** Receiving a sealed packet whose plaintext (padded for header protection) is the
    encoding of [fs]. *)
Lemma short_packet_run (c : conn) k0 s0 hl hr n m now ke hke dg p payload fs dg' sz :
  at_epoch k0 s0 hl hr n c -> m = n \/ m = S n ->
  aead_pair ke (ks_remote (keys_at k0 s0 m)) -> hp_pair hke hr ->
  length (bs_dcid p) = LOCAL_CID_LEN -> bs_key_phase p = Nat.odd m ->
  pn_in_window (bs_packet_number p) (bs_largest_acked p) (largest_received (application c)) ->
  Forall frame_ok fs -> no_adjacent_padding fs = true ->
  padded (Z.to_nat (packet_number_len (bs_packet_number p) (bs_largest_acked p))) payload = payload_bytes fs ->
  len (payload_bytes fs) <= u64_MAX ->
  build_short_packet dg p payload ke hke = (dg', Ok sz) ->
  let c1 := if decide (m = n) then c else perform_key_update c now in
  (recv_short_packet c now dg' (length dg)).2 =
    match run_frames (c1 <| cids_issued_this_packet := [] |>) now PT_Short fs false with
    | (Err e, c2) => (Err e, c2)
    | (Ok ack_eliciting, c2) =>
        (Ok (Some (length dg')),
         c2 <| application ::= fun s => on_packet_received s (bs_packet_number p) ack_eliciting |>)
    end.
Proof.
  intros He Hm HA HH Hd Hp Hpn Hok Hpad Hfs Hhi Hb c1.
  destruct (short_packet_opens _ _ _ _ _ _ _ _ _ _ HA HH Hpn Hb) as (_ & dg'' & first & Hstrip & Hbody).
  rewrite Hd in Hstrip, Hbody. rewrite Hfs in Hbody.
  assert (Hacc : forall c0, (accept_short_packet c0 now (mkParsed PT_Short [] (bs_dcid p) (bs_packet_number p)
            (payload_bytes fs) (length dg') (bs_key_phase p))) =
          match run_frames (c0 <| cids_issued_this_packet := [] |>) now PT_Short fs false with
          | (Err e, c2) => (Err e, c2)
          | (Ok ae, c2) => (Ok (Some (length dg')), c2 <| application ::= fun s => on_packet_received s (bs_packet_number p) ae |>)
          end).
  { intros c0. unfold accept_short_packet. cbn [pp_payload pp_consumed pp_packet_number].
    rewrite process_frames_run by done. destruct (run_frames _ _ _ _ _) as [[] ?]; done. }
  unfold recv_short_packet, remote_keys. rewrite (ae_keys _ _ _ _ _ _ He). cbn [fmap option_fmap option_map remote dk_header].
  rewrite Hstrip, Hp, (ae_phase _ _ _ _ _ _ He). subst c1. destruct Hm as [-> | ->].
  - rewrite Bool.eqb_reflx, decide_True by done. unfold recv_current_phase. cbn [dk_packet].
    destruct (decrypt_short_packet_body _ _ _ _ _) as [d r]. cbn [snd] in Hbody. subst r. apply Hacc.
  - rewrite Nat.odd_succ, <- Nat.negb_odd, decide_False by lia.
    assert (Hne : Bool.eqb (negb (Nat.odd n)) (Nat.odd n) = false) by (by destruct (Nat.odd n)).
    rewrite Hne. unfold recv_next_phase. rewrite (ae_next _ _ _ _ _ _ He).
    destruct (decrypt_short_packet_body _ _ _ _ _) as [d r]. cbn [snd] in Hbody. subst r. apply Hacc.
Qed.

(** ** Lemmas: the datagram loop makes progress *)

Section progress.
Context `{!LawfulEnv env}.

Lemma accept_long_consumed c now parsed stop c' :
  accept_long_packet c now parsed = (Ok (Some stop), c') -> stop = pp_consumed parsed.
Proof.
  unfold accept_long_packet. destruct (negb _ && _ && _); [by intros [= <- _] |].
  destruct (process_frames _ _ _ _) as [[ae | e] c1]; [| done].
  destruct (pp_packet_type parsed); by intros [= <- _].
Qed.

Lemma accept_short_consumed c now parsed stop c' :
  accept_short_packet c now parsed = (Ok (Some stop), c') -> stop = pp_consumed parsed.
Proof.
  unfold accept_short_packet. destruct (process_frames _ _ _ _) as [[ae | e] c1]; [| done]. by intros [= <- _].
Qed.

Lemma reset_check_stops c dg off n stop : check_stateless_reset c dg off n <> Ok (Some stop).
Proof. unfold check_stateless_reset. repeat case_match; done. Qed.

Lemma recv_long_progress c now dg off dg' stop c' :
  recv_long_packet c now dg off = (dg', (Ok (Some stop), c')) -> length dg' = length dg /\ (off < stop)%nat.
Proof.
  unfold recv_long_packet. destruct (peek_dcid _ _) as [[ty dcid] | e]; [| done].
  assert (Hparse : forall largest ks, match parse_long_packet dg off QUIC_V1 largest (dk_packet ks) (dk_header ks) with
      | (d, Ok parsed) => length d = length dg /\ (off < pp_consumed parsed)%nat | _ => True end).
  { intros largest ks. destruct (parse_long_packet _ _ _ _ _ _) as [d [parsed | e]] eqn:E; [| done].
    by apply (parse_long_progress pk_decrypt_in_place hp_decrypt_in_place) in E. }
  assert (Hretry : (recv_retry_packet c dg off).1 = Ok None) by (unfold recv_retry_packet; repeat case_match; done).
  assert (Hlong : forall space, match remote_keys space with
      | None => (dg, (Ok None, c))
      | Some ks => match parse_long_packet dg off QUIC_V1 (largest_received space) (dk_packet ks) (dk_header ks) with
                   | (d, Err _) => (d, (Ok None, c)) | (d, Ok parsed) => (d, accept_long_packet c now parsed) end
      end = (dg', (Ok (Some stop), c')) -> length dg' = length dg /\ (off < stop)%nat).
  { intros space. destruct (remote_keys space) as [ks |]; [| done].
    specialize (Hparse (largest_received space) ks). destruct (parse_long_packet _ _ _ _ _ _) as [d [parsed | e]]; [| done].
    intros [= <- E]. by apply accept_long_consumed in E as ->. }
  destruct ty; [apply (Hlong (initial c)) | | apply (Hlong (handshake c)) | | by case_match | done].
  - unfold recv_zero_rtt_packet. case_match; [done |]. destruct (zero_rtt_keys c) as [ks |]; [| done].
    specialize (Hparse (largest_received (application c)) ks).
    destruct (parse_long_packet _ _ _ _ _ _) as [d [parsed | e]]; [| done].
    destruct (process_frames _ _ _ _) as [[ae | e] c1]; [| done]. by intros [= <- <- _].
  - destruct (recv_retry_packet c dg off) as [r c1]. simpl in Hretry. subst r. done.
Qed.

Lemma recv_short_progress c now dg off dg' stop c' :
  (off < length dg)%nat ->
  recv_short_packet c now dg off = (dg', (Ok (Some stop), c')) -> length dg' = length dg /\ (off < stop)%nat.
Proof.
  intros Hoff. unfold recv_short_packet.
  destruct (remote_keys (application c)) as [ks |]; [| intros [= _ H _]; by apply reset_check_stops in H].
  destruct (strip_short_header_protection _ _ _ _) as [d1 [[kp f] | e]] eqn:Es;
    [| intros [= _ H _]; by apply reset_check_stops in H].
  apply (strip_length hp_decrypt_in_place) in Es as [Hl1 _].
  assert (Hd : forall d n largest pk d' r, decrypt_short_packet_body d off n largest pk = (d', r) ->
     length d' = length d /\ match r with Ok parsed => pp_consumed parsed = length d | Err _ => True end)
    by (intros *; apply (decrypt_short_progress pk_decrypt_in_place)).
  destruct (Bool.eqb kp (key_phase c)); [unfold recv_current_phase | unfold recv_next_phase].
  - destruct (decrypt_short_packet_body d1 _ _ _ _) as [d2 [parsed | e]] eqn:E2; apply Hd in E2 as [Hl2 Hc2].
    + intros [= <- E]. apply accept_short_consumed in E as ->. lia.
    + destruct (prev_1rtt_keys c) as [[pk t] |]; [| intros [= _ H _]; by apply reset_check_stops in H].
      destruct (now <=? t); [| intros [= _ H _]; by apply reset_check_stops in H].
      destruct (decrypt_short_packet_body d2 _ _ _ _) as [d3 [parsed | e3]] eqn:E3; apply Hd in E3 as [Hl3 Hc3];
        [| intros [= _ H _]; by apply reset_check_stops in H].
      intros [= <- E]. apply accept_short_consumed in E as ->. lia.
  - destruct (next_1rtt_keys c) as [nk |]; [| intros [= _ H _]; by apply reset_check_stops in H].
    destruct (decrypt_short_packet_body d1 _ _ _ _) as [d2 [parsed | e]] eqn:E2; apply Hd in E2 as [Hl2 Hc2];
      [| intros [= _ H _]; by apply reset_check_stops in H].
    intros [= <- E]. apply accept_short_consumed in E as ->. lia.
Qed.

Lemma datagram_loop_total fuel c now clock dg off :
  (length dg - off < fuel)%nat -> exists r, datagram_loop fuel c now clock dg off = Some r.
Proof.
  revert c dg off. induction fuel as [| fuel IH]; intros c dg off Hf; [lia |]. cbn [datagram_loop].
  destruct (Nat.leb_spec (length dg) off); [by eexists |]. destruct (nth off dg 0 =? 0); [by eexists |].
  assert (Hp : forall dg' stop c', (if negb (Z.land (nth off dg 0) 0x80 =? 0) then recv_long_packet c now dg off
                                  else recv_short_packet c now dg off) = (dg', (Ok (Some stop), c')) ->
                 length dg' = length dg /\ (off < stop)%nat).
  { intros dg' stop c'. destruct (negb _); [apply recv_long_progress | by apply recv_short_progress]. }
  destruct (if negb _ then _ else _) as [dg' [[[stop |] | e] c']]; [| by eexists ..].
  destruct (Hp _ _ _ eq_refl) as [Hl Hs]. apply IH. lia.
Qed.

End progress.

(** ** Lemmas: life cycle and path through a whole datagram *)

#[export] Instance preimage_preorder {A B} (g : A -> B) (S : relation B) : PreOrder S -> PreOrder (fun a b => S (g a) (g b)).
Proof. intros HS. split; [intros x; apply HS | intros x y z; apply HS]. Qed.

Definition outer_view (c : conn) := (state c, path_view c).

Lemma outer_view_frame c c' : frame_view c' = frame_view c -> outer_view c' = outer_view c.
Proof. intros [= E1 _ _ _ E2 E3 E4 E5 _ _ _ _ _ _ _]. unfold outer_view, path_view. congruence. Qed.

(** What packet handling outside the frames and the handshake pump leaves alone. *)
Definition book_view (c : conn) := (outer_view c, flow_view c, cc_view c, (recv_streams c, stream_recv_flow c, mtu_view c)).

(** The same with the packet numbers and loss recovery, which only a Retry touches. *)
Definition fine_view (c : conn) := (book_view c, num_view c).

Lemma fine_view_rotate c t : fine_view (rotate_keys c t) = fine_view c.
Proof.
  unfold rotate_keys. destruct (one_rtt_secrets c) as [sec |]; [| done]. destruct (next_packet_keys sec) as [nk sec'].
  simpl. case_match; [| done]. unfold rotate_to_next_epoch. destruct (keys (application c)) as [k |]; done.
Qed.

Lemma fine_view_update c now : fine_view (perform_key_update c now) = fine_view c.
Proof.
  unfold perform_key_update. pose proof (fine_view_rotate c (now + Rtt.pto_base (rtt c) (peer_max_ack_delay c) * 3)) as H.
  exact H.
Qed.

Lemma book_view_update c now : book_view (perform_key_update c now) = book_view c.
Proof. exact (f_equal fst (fine_view_update c now)). Qed.

Lemma state_pump c clock :
  state (pump_write_hs c clock) = state c \/ (state c = Handshaking /\ state (pump_write_hs c clock) = Established).
Proof.
  unfold pump_write_hs. set (c1 := pump_loop _ c).
  assert (Hv : hs_view c1 = hs_view c) by apply hs_view_loop. injection Hv as Hs _.
  pose proof (refresh_view_refresh c1 clock) as Hr. injection Hr as _ Hst _. rewrite Hst, Hs.
  destruct (negb (handshake_complete c1) && negb _); (destruct (decide (state c = Handshaking)); [rewrite bool_decide_true by done | rewrite bool_decide_false by done]); auto.
Qed.

(** A preorder on connections that ignores bookkeeping and that every frame and the
    pump respect holds between the states before and after a datagram.  What is
    known of the datagram ([okd]), the payloads ([okb]) and the frames ([good]) is
    left to the instance. *)
Section datagram_relation.
Context (R : conn -> conn -> Prop) `{!PreOrder R}.
Context (okd : list Z -> Prop) (okb : Buf -> Prop) (good : Frame -> Prop).
Context (Hfine : forall c c', fine_view c' = fine_view c -> R c c').
Context (Hretry : forall c dg off, R c (recv_retry_packet c dg off).2).
Context (Hframe : forall c now pt f, good f -> R c (handle_frame c now pt f).2).
Context (Hpump : forall c clock, R c (pump_write_hs c clock)).
Context (Hdecode : forall b f b', okb b -> decode_frame b = Ok (f, b') -> good f /\ okb b').
Context (Hlong : forall dg off v largest (pk : PacketKey) (hk : HeaderKey) dg' parsed, okd dg ->
           parse_long_packet dg off v largest pk hk = (dg', Ok parsed) -> okd dg' /\ okb (buf_new (pp_payload parsed))).
Context (Hstrip : forall dg off n (hk : HeaderKey) dg' r, okd dg ->
           strip_short_header_protection dg off n hk = (dg', Ok r) -> okd dg').
Context (Hshort : forall dg off n largest (pk : PacketKey) dg' r, okd dg ->
           decrypt_short_packet_body dg off n largest pk = (dg', r) ->
           okd dg' /\ match r with Ok parsed => okb (buf_new (pp_payload parsed)) | Err _ => True end).

Lemma frames_loop_rel fuel c now pt b ae : okb b -> R c (frames_loop fuel c now pt b ae).2.
Proof.
  revert c b ae. induction fuel as [| fuel IH]; intros c b ae Hb; simpl; destruct (buf_is_empty b); try done.
  destruct (decode_frame b) as [[f b'] | e] eqn:E; [| done]. destruct (Hdecode b f b' Hb E) as [Hf Hb'].
  pose proof (Hframe c now pt f Hf) as H. destruct (handle_frame c now pt f) as [[u | e] c1]; [| done].
  etransitivity; [exact H | by apply IH].
Qed.

Lemma process_frames_rel c now pt payload : okb (buf_new payload) -> R c (process_frames c now pt payload).2.
Proof. intros H. unfold process_frames. etransitivity; [| by apply frames_loop_rel]. by apply Hfine. Qed.

Lemma accept_short_rel c now parsed : okb (buf_new (pp_payload parsed)) -> R c (accept_short_packet c now parsed).2.
Proof.
  intros Hb. unfold accept_short_packet. pose proof (process_frames_rel c now PT_Short _ Hb) as H.
  destruct (process_frames _ _ _ _) as [[ae | e] c1]; [| done]. etransitivity; [exact H | by apply Hfine].
Qed.

Lemma accept_long_rel c now parsed : okb (buf_new (pp_payload parsed)) -> R c (accept_long_packet c now parsed).2.
Proof.
  intros Hb. unfold accept_long_packet. destruct (negb _ && _ && _); [done |].
  match goal with |- context [process_frames ?x] => set (c1 := x) end.
  assert (H1 : R c c1) by (apply Hfine; subst c1; by destruct (bool_decide _ && _ && _)).
  pose proof (process_frames_rel c1 now (pp_packet_type parsed) _ Hb) as H.
  destruct (process_frames _ _ _ _) as [[ae | e] c2]; [| by etransitivity].
  destruct (pp_packet_type parsed); (etransitivity; [exact H1 |]; etransitivity; [exact H | by apply Hfine]).
Qed.

Lemma recv_long_rel c now dg off dg' r c' :
  okd dg -> recv_long_packet c now dg off = (dg', (r, c')) -> R c c' /\ (forall stop, r = Ok (Some stop) -> okd dg').
Proof.
  intros Hd. unfold recv_long_packet. destruct (peek_dcid _ _) as [[ty dcid] | e]; [| by intros [= <- <- <-]].
  assert (Hspace : forall space, match remote_keys space with
      | None => (dg, (Ok None, c))
      | Some ks => match parse_long_packet dg off QUIC_V1 (largest_received space) (dk_packet ks) (dk_header ks) with
                   | (d, Err _) => (d, (Ok None, c)) | (d, Ok parsed) => (d, accept_long_packet c now parsed) end
      end = (dg', (r, c')) -> R c c' /\ (forall stop, r = Ok (Some stop) -> okd dg')).
  { intros space. destruct (remote_keys space) as [ks |]; [| by intros [= <- <- <-]].
    destruct (parse_long_packet _ _ _ _ _ _) as [d [parsed | e]] eqn:E; [| by intros [= <- <- <-]].
    apply Hlong in E as [Hd' Hb]; [| done]. pose proof (accept_long_rel c now parsed Hb) as H.
    intros [= <- E]. rewrite E in H. by split. }
  destruct ty; [apply Hspace | | apply Hspace | | by case_match; intros [= <- <- <-] | by intros [= <- <- <-]].
  - unfold recv_zero_rtt_packet. case_match; [by intros [= <- <- <-] |].
    destruct (zero_rtt_keys c) as [ks |]; [| by intros [= <- <- <-]].
    destruct (parse_long_packet _ _ _ _ _ _) as [d [parsed | e]] eqn:E; [| by intros [= <- <- <-]].
    apply Hlong in E as [Hd' Hb]; [| done]. pose proof (process_frames_rel c now PT_ZeroRtt _ Hb) as Hp.
    destruct (process_frames _ _ _ _) as [[ae | e] c1]; intros [= <- <- <-]; [| by split].
    split; [| done]. etransitivity; [exact Hp | by apply Hfine].
  - intros [= <- E]. split; [| done]. pose proof (Hretry c dg off) as H. by rewrite E in H.
Qed.

Lemma recv_short_rel c now dg off dg' r c' :
  okd dg -> recv_short_packet c now dg off = (dg', (r, c')) -> R c c' /\ (forall stop, r = Ok (Some stop) -> okd dg').
Proof.
  intros Hd. unfold recv_short_packet.
  assert (Hstop : forall d n, (d, (check_stateless_reset c d off n, c)) = (dg', (r, c')) ->
                    R c c' /\ (forall stop, r = Ok (Some stop) -> okd dg')).
  { intros d n [= <- <- <-]. split; [done |]. intros stop H. by apply reset_check_stops in H. }
  assert (Hacc : forall c0 d parsed, R c c0 -> okd d -> okb (buf_new (pp_payload parsed)) ->
                   (d, accept_short_packet c0 now parsed) = (dg', (r, c')) -> R c c' /\ (forall stop, r = Ok (Some stop) -> okd dg')).
  { intros c0 d parsed H0 H1 H2. pose proof (accept_short_rel c0 now parsed H2) as H3. intros [= <- E].
    rewrite E in H3. split; [by etransitivity | done]. }
  destruct (remote_keys _) as [ks |]; [| apply Hstop].
  destruct (strip_short_header_protection _ _ _ _) as [d1 [[kp f] | e]] eqn:Es; [| apply Hstop].
  apply Hstrip in Es; [| done].
  destruct (Bool.eqb kp (key_phase c)); [unfold recv_current_phase | unfold recv_next_phase].
  - destruct (decrypt_short_packet_body d1 _ _ _ _) as [d2 [parsed | e]] eqn:E2; apply Hshort in E2 as [Hd2 Hb2]; try done;
      [by apply Hacc |].
    destruct (prev_1rtt_keys c) as [[pk t] |]; [| apply Hstop]. destruct (now <=? t); [| apply Hstop].
    destruct (decrypt_short_packet_body d2 _ _ _ _) as [d3 [parsed | e3]] eqn:E3; apply Hshort in E3 as [Hd3 Hb3]; try done;
      [by apply Hacc | apply Hstop].
  - destruct (next_1rtt_keys c) as [nk |]; [| apply Hstop].
    destruct (decrypt_short_packet_body d1 _ _ _ _) as [d2 [parsed | e]] eqn:E2; apply Hshort in E2 as [Hd2 Hb2]; try done;
      [| apply Hstop].
    apply Hacc; try done. apply Hfine, fine_view_update.
Qed.

Lemma drive_rel c clock : R c (drive_handshake c clock).
Proof.
  unfold drive_handshake, try_install_zero_rtt_keys. etransitivity; [apply (Hpump c clock) |].
  destruct (negb _ && _); [| done]. case_match; [| done]. by apply Hfine.
Qed.

Lemma datagram_rel fuel c now clock dg off r :
  okd dg -> datagram_loop fuel c now clock dg off = Some r -> R c r.2.2.
Proof.
  revert c dg off. induction fuel as [| fuel IH]; intros c dg off Hd; [done |]. cbn [datagram_loop].
  destruct (length dg <=? off)%nat; [by intros [= <-] |]. destruct (nth off dg 0 =? 0); [by intros [= <-] |].
  destruct (if negb _ then _ else _) as [dg' [r' c']] eqn:E.
  assert (Hp : R c c' /\ (forall stop, r' = Ok (Some stop) -> okd dg')).
  { destruct (negb _); [by eapply recv_long_rel | by eapply recv_short_rel]. }
  destruct Hp as [Hp Hd']. destruct r' as [[stop |] | e]; [| by intros [= <-] ..].
  intros H%IH; [| by eapply Hd']. etransitivity; [exact Hp |]. etransitivity; [apply drive_rel | exact H].
Qed.

Lemma handle_datagram_fine c now clock dg r : okd dg -> handle_datagram c now clock dg = Some r -> R c r.2.2.
Proof.
  unfold handle_datagram. intros Hd H%datagram_rel; [| done]. etransitivity; [| exact H]. apply Hfine.
  unfold arm_idle_timer, arm_keep_alive. repeat case_match; done.
Qed.

End datagram_relation.

Lemma book_view_retry c dg off : book_view (recv_retry_packet c dg off).2 = book_view c.
Proof. unfold recv_retry_packet. repeat case_match; done. Qed.

(** For relations that do not see packet numbers either. *)
Lemma handle_datagram_rel (R : conn -> conn -> Prop) `{!PreOrder R}
    (okd : list Z -> Prop) (okb : Buf -> Prop) (good : Frame -> Prop) c now clock dg r :
  (forall c c', book_view c' = book_view c -> R c c') ->
  (forall c now pt f, good f -> R c (handle_frame c now pt f).2) ->
  (forall c clock, R c (pump_write_hs c clock)) ->
  (forall b f b', okb b -> decode_frame b = Ok (f, b') -> good f /\ okb b') ->
  (forall dg off v largest (pk : PacketKey) (hk : HeaderKey) dg' parsed, okd dg ->
     parse_long_packet dg off v largest pk hk = (dg', Ok parsed) -> okd dg' /\ okb (buf_new (pp_payload parsed))) ->
  (forall dg off n (hk : HeaderKey) dg' r, okd dg ->
     strip_short_header_protection dg off n hk = (dg', Ok r) -> okd dg') ->
  (forall dg off n largest (pk : PacketKey) dg' r, okd dg ->
     decrypt_short_packet_body dg off n largest pk = (dg', r) ->
     okd dg' /\ match r with Ok parsed => okb (buf_new (pp_payload parsed)) | Err _ => True end) ->
  okd dg -> handle_datagram c now clock dg = Some r -> R c r.2.2.
Proof.
  intros Hb Hf Hp Hd Hl Hs Hsh. apply (handle_datagram_fine R okd okb good); try done.
  - intros a b E. apply Hb. exact (f_equal fst E).
  - intros a d off. apply Hb, book_view_retry.
Qed.

End receive.

(** ** Properties *)

(** C8: A datagram is always processed to its end: for every state and every
    datagram, whatever its bytes, the packet loop stops within one turn per byte
    with a result (every packet it accepts moves the offset forward, and decryption
    in place keeps the datagram's length), so the loop of the code terminates and
    the fuel of the model never runs out. *)
Theorem handle_datagram_total {env : QuicEnv} `{!LawfulEnv env} (c : Connection env) now clock datagram :
  exists datagram' r c', handle_datagram c now clock datagram = Some (datagram', (r, c')).
Proof.
  unfold handle_datagram. edestruct (datagram_loop_total (env := env)) as [[d [r c']] H]; [| eexists d, r, c'; exact H]. lia.
Qed.

Lemma handle_datagram_total_witness :
  exists datagram' r c', handle_datagram (env := demo_env) demo_client 0 0 [0xc3; 0; 1] = Some (datagram', (r, c')).
Proof. apply (handle_datagram_total (env := demo_env) demo_client 0 0 [0xc3; 0; 1]). Defined.

(** A protected 1-RTT packet delivers its frames: when the receiver is in key
    epoch [n] and the sender sealed the packet with the matching key of epoch [n] or
    [n + 1] and that epoch's key phase, anywhere in a datagram, then receiving it
    has exactly the effect of handling the sender's frames one after the other (up
    to the first error), after one key update in the second case, and of recording
    the packet number for acknowledgement. *)
Theorem short_packet_delivered {env : QuicEnv} (c : Connection env) k0 s0 hl hr n m now ke hke dg p fs dg' sz :
  at_epoch k0 s0 hl hr n c -> m = n \/ m = S n ->
  aead_pair ke (ks_remote (keys_at k0 s0 m)) -> hp_pair hke hr ->
  length (bs_dcid p) = LOCAL_CID_LEN -> bs_key_phase p = Nat.odd m ->
  pn_in_window (bs_packet_number p) (bs_largest_acked p) (largest_received (application c)) ->
  Forall frame_ok fs -> no_adjacent_padding fs = true ->
  4 - packet_number_len (bs_packet_number p) (bs_largest_acked p) <= len (payload_bytes fs) <= u64_MAX ->
  build_short_packet dg p (payload_bytes fs) ke hke = (dg', Ok sz) ->
  let c1 := if decide (m = n) then c else perform_key_update c now in
  (recv_short_packet c now dg' (length dg)).2 =
    match run_frames (c1 <| cids_issued_this_packet := [] |>) now PT_Short fs false with
    | (Err e, c2) => (Err e, c2)
    | (Ok ack_eliciting, c2) =>
        (Ok (Some (length dg')),
         c2 <| application ::= fun s => on_packet_received s (bs_packet_number p) ack_eliciting |>)
    end.
Proof.
  intros He Hm HA HH Hd Hp Hpn Hok Hpad [Hlo Hhi] Hb.
  apply (short_packet_run _ k0 s0 hl hr n m now ke hke dg p (payload_bytes fs) fs dg' sz); try done.
  apply padded_long. lia.
Qed.

Definition demo_receiver : Connection demo_env := demo_installed.
Definition demo_1rtt_frames : list Frame := [MaxData 100; PathChallenge [1; 2; 3; 4; 5; 6; 7; 8]; Ping].
Definition demo_1rtt : BuildShort := mkBuildShort [1; 1; 1; 1; 1; 1; 1; 1] 0 None true.

(** The first packet of the epoch after the installed one. *)
Definition demo_1rtt_datagram : list Z :=
  (build_short_packet (PC := toy_crypto) [] demo_1rtt (payload_bytes demo_1rtt_frames) 6 tt).1.

Lemma short_packet_delivered_witness :
  (recv_short_packet demo_receiver 50 demo_1rtt_datagram 0).2 =
    match run_frames ((perform_key_update demo_receiver 50) <| cids_issued_this_packet := [] |>) 50 PT_Short
            demo_1rtt_frames false with
    | (Err e, c2) => (Err e, c2)
    | (Ok ack_eliciting, c2) =>
        (Ok (Some (length demo_1rtt_datagram)), c2 <| application ::= fun s => on_packet_received s 0 ack_eliciting |>)
    end.
Proof.
  apply (short_packet_delivered (env := demo_env) demo_receiver (mkKeySet 0x21 0x21) 5 tt tt 0 1 50 6 tt [] demo_1rtt
           demo_1rtt_frames demo_1rtt_datagram (len demo_1rtt_datagram)).
  - split; reflexivity.
  - right. reflexivity.
  - apply toy_aead_pair.
  - apply toy_hp_pair.
  - reflexivity.
  - reflexivity.
  - unfold pn_in_window. vm_compute. repeat split; congruence.
  - repeat (apply Forall_cons; split); try apply Forall_nil; vm_compute; repeat split; congruence.
  - reflexivity.
  - vm_compute. split; congruence.
  - vm_compute. reflexivity.
Defined.

(** ** What a datagram carries

    The frames behind a datagram's packet protection: the payloads the packets open to
    under the keys the connection holds when it reaches them, decoded to their end. *)

Fixpoint frames_in (fuel : nat) (b : Buf) : list Frame :=
  if buf_is_empty b then []
  else match fuel with
       | O => []
       | S fuel => match decode_frame b with Ok (f, b) => f :: frames_in fuel b | Err _ => [] end
       end.

Definition payload_frames (payload : list Z) : list Frame := frames_in (length payload) (buf_new payload).

Section carried.
Context {env : QuicEnv}.
Notation conn := (Connection env).

Definition long_payload (dg : list Z) (off : nat) (largest : option Z) (ks : option (DirectionalKeys HeaderKey PacketKey)) : option (list Z) :=
  ks ← ks;
  match parse_long_packet dg off QUIC_V1 largest (dk_packet ks) (dk_header ks) with
  | (_, Ok parsed) => Some (pp_payload parsed)
  | (_, Err _) => None
  end.

(** With the key of the packet's phase; the previous key is the second try in the current phase. *)
Definition short_payload (c : conn) (now : Z) (dg : list Z) (off : nat) : option (list Z) :=
  ks ← remote_keys (application c);
  let decrypt dg pk := decrypt_short_packet_body dg off LOCAL_CID_LEN (largest_received (application c)) pk in
  match strip_short_header_protection dg off LOCAL_CID_LEN (dk_header ks) with
  | (_, Err _) => None
  | (dg, Ok (phase, _)) =>
      if Bool.eqb phase (key_phase c) then
        match decrypt dg (dk_packet ks) with
        | (_, Ok parsed) => Some (pp_payload parsed)
        | (dg, Err _) =>
            '(pk, retire_after) ← prev_1rtt_keys c;
            if now <=? retire_after
            then match decrypt dg pk with (_, Ok parsed) => Some (pp_payload parsed) | (_, Err _) => None end
            else None
        end
      else
        nk ← next_1rtt_keys c;
        match decrypt dg (ks_remote nk) with (_, Ok parsed) => Some (pp_payload parsed) | (_, Err _) => None end
  end.

Definition packet_payload (c : conn) (now : Z) (dg : list Z) (off : nat) : option (list Z) :=
  if negb (Z.land (nth off dg 0) 0x80 =? 0) then
    match peek_dcid (drop off dg) LOCAL_CID_LEN with
    | Ok (PT_Initial, _) => long_payload dg off (largest_received (initial c)) (remote_keys (initial c))
    | Ok (PT_Handshake, _) => long_payload dg off (largest_received (handshake c)) (remote_keys (handshake c))
    | Ok (PT_ZeroRtt, _) =>
        if bool_decide (role c = Server) then long_payload dg off (largest_received (application c)) (zero_rtt_keys c) else None
    | _ => None
    end
  else short_payload c now dg off.

Definition packet_frames (c : conn) (now : Z) (dg : list Z) (off : nat) : list Frame :=
  match packet_payload c now dg off with Some payload => payload_frames payload | None => [] end.

(** Packet by packet, in the states [datagram_loop] goes through. *)
Fixpoint carried_loop (fuel : nat) (c : conn) (now clock : Z) (dg : list Z) (off : nat) : list Frame :=
  match fuel with
  | O => []
  | S fuel =>
      if (length dg <=? off)%nat || (nth off dg 0 =? 0) then []
      else
        packet_frames c now dg off ++
        (let '(dg', (consumed, c')) :=
           if negb (Z.land (nth off dg 0) 0x80 =? 0) then recv_long_packet c now dg off else recv_short_packet c now dg off in
         match consumed with
         | Ok (Some stop) => carried_loop fuel (drive_handshake c' clock) now clock dg' stop
         | _ => []
         end)
  end.

Definition datagram_frames (c : conn) (now clock : Z) (dg : list Z) : list Frame :=
  let c := arm_idle_timer c now in
  let c := c <| packets_recv ::= fun n => u64_add n 1 |> <| bytes_recv ::= fun n => u64_add n (len dg) |> in
  carried_loop (S (length dg)) c now clock dg 0.

(** The change of the path fields while the frames [l] are handled. *)
Definition path_step (l : list Frame) (c c' : conn) : Prop :=
  path_view c' = path_view c \/
  exists nonce, PathResponse nonce ∈ l /\ pending_path_challenge c = Some nonce /\
    path_view c' = (unwrap_or (candidate_peer_addr c) (peer_addr c), None, None, true).

Lemma path_step_trans l1 l2 c1 c2 c3 : path_step l1 c1 c2 -> path_step l2 c2 c3 -> path_step (l1 ++ l2) c1 c3.
Proof.
  intros [H1 | (n & Hn & Hp & H1)] [H2 | (n' & Hn' & Hp' & H2)].
  - left. by rewrite H2.
  - right. exists n'. injection H1 as E1 E2 E3 E4. rewrite E1, E2 in H2. rewrite <- E3. split_and!; [apply elem_of_app; by right | done | done].
  - right. exists n. rewrite H2. split_and!; [apply elem_of_app; by left | done | done].
  - exfalso. injection H1 as E1 E2 E3 E4. congruence.
Qed.

Lemma path_step_keep l c c1 c' : path_view c1 = path_view c -> path_step l c1 c' -> path_step l c c'.
Proof. intros H1 H2. apply (path_step_trans [] l c c1 c'); [by left | done]. Qed.

Lemma path_step_kept l c c1 c' : path_step l c c1 -> path_view c' = path_view c1 -> path_step l c c'.
Proof. intros H1 H2. rewrite <- (app_nil_r l). apply (path_step_trans l [] c c1 c'); [done | by left]. Qed.

Lemma path_step_frame c now pt f : path_step [f] c (handle_frame c now pt f).2.
Proof.
  assert (Hp : (exists d, f = PathResponse d) \/ forall d, f <> PathResponse d) by (destruct f; eauto).
  destruct Hp as [[d ->] | Hp].
  - unfold handle_frame, recv_path_response. cbn [snd]. case_bool_decide as Hn; [| by left]. right.
    exists d. split_and!; [apply list_elem_of_here | done |]. unfold path_view. simpl. case_match eqn:Ec; simpl; by rewrite ?Ec.
  - left. destruct (closes f) eqn:Ecl; [by destruct f |].
    assert (H : frame_view (handle_frame c now pt f).2 = frame_view c) by (by apply frame_view_handle).
    apply outer_view_frame in H. by apply (f_equal snd) in H.
Qed.

Lemma path_step_frames fuel c now pt b ae : path_step (frames_in fuel b) c (frames_loop fuel c now pt b ae).2.
Proof.
  revert c b ae. induction fuel as [| fuel IH]; intros c b ae; cbn [frames_loop frames_in]; destruct (buf_is_empty b); try by left.
  destruct (decode_frame b) as [[f b'] | e]; [| by left].
  pose proof (path_step_frame c now pt f) as H. destruct (handle_frame c now pt f) as [[u | e] c1]; cbn [snd] in H.
  - change (f :: frames_in fuel b') with ([f] ++ frames_in fuel b'). eapply path_step_trans; [exact H | apply IH].
  - change (f :: frames_in fuel b') with ([f] ++ frames_in fuel b'). eapply path_step_trans; [exact H | by left].
Qed.

Lemma path_step_process c now pt payload : path_step (payload_frames payload) c (process_frames c now pt payload).2.
Proof. apply (path_step_keep _ c (c <| cids_issued_this_packet := [] |>)); [done | apply path_step_frames]. Qed.

Lemma path_step_short c now parsed : path_step (payload_frames (pp_payload parsed)) c (accept_short_packet c now parsed).2.
Proof.
  unfold accept_short_packet. pose proof (path_step_process c now PT_Short (pp_payload parsed)) as H.
  destruct (process_frames _ _ _ _) as [[ae | e] c1]; [| done]. by apply (path_step_kept _ c c1).
Qed.

Lemma path_step_long c now parsed : path_step (payload_frames (pp_payload parsed)) c (accept_long_packet c now parsed).2.
Proof.
  unfold accept_long_packet. destruct (negb _ && _ && _); [by left |].
  match goal with |- context [process_frames ?x] => set (c1 := x) end.
  assert (H1 : path_view c1 = path_view c) by (subst c1; by destruct (bool_decide _ && _ && _)).
  apply (path_step_keep _ c c1); [done |].
  pose proof (path_step_process c1 now (pp_packet_type parsed) (pp_payload parsed)) as H.
  destruct (process_frames _ _ _ _) as [[ae | e] c2]; [| done]. destruct (pp_packet_type parsed); by apply (path_step_kept _ c1 c2).
Qed.

Lemma path_step_recv_long c now dg off :
  Z.land (nth off dg 0) 0x80 <> 0 -> path_step (packet_frames c now dg off) c (recv_long_packet c now dg off).2.2.
Proof.
  intros Hb. unfold packet_frames, packet_payload. rewrite (proj2 (Z.eqb_neq _ _) Hb). cbn [negb]. unfold recv_long_packet.
  destruct (peek_dcid _ _) as [[ty dcid] | e]; [| by left].
  assert (Hspace : forall space,
    path_step (match long_payload dg off (largest_received space) (remote_keys space) with Some payload => payload_frames payload | None => [] end) c
      (match remote_keys space with
       | None => (dg, (Ok None, c))
       | Some ks => match parse_long_packet dg off QUIC_V1 (largest_received space) (dk_packet ks) (dk_header ks) with
                    | (d, Err _) => (d, (Ok None, c)) | (d, Ok parsed) => (d, accept_long_packet c now parsed) end
       end).2.2).
  { intros space. unfold long_payload. destruct (remote_keys space) as [ks |]; [| by left]. cbn [mbind option_bind].
    destruct (parse_long_packet _ _ _ _ _ _) as [d [parsed | e]]; [apply path_step_long | by left]. }
  destruct ty; [apply Hspace | | apply Hspace | | by left; case_match | by left].
  - unfold recv_zero_rtt_packet. case_bool_decide; cbn [negb]; [| by left]. unfold long_payload.
    destruct (zero_rtt_keys c) as [ks |]; [| by left]. cbn [mbind option_bind].
    destruct (parse_long_packet _ _ _ _ _ _) as [d [parsed | e]]; [| by left].
    pose proof (path_step_process c now PT_ZeroRtt (pp_payload parsed)) as Hz.
    destruct (process_frames _ _ _ _) as [[ae | e] c1]; [by apply (path_step_kept _ c c1) | done].
  - left. unfold recv_retry_packet. cbn [snd]. repeat case_match; done.
Qed.

Lemma path_step_recv_short c now dg off :
  Z.land (nth off dg 0) 0x80 = 0 -> path_step (packet_frames c now dg off) c (recv_short_packet c now dg off).2.2.
Proof.
  intros Hb. unfold packet_frames, packet_payload. rewrite (proj2 (Z.eqb_eq _ _) Hb). cbn [negb]. unfold recv_short_packet, short_payload.
  destruct (remote_keys (application c)) as [ks |]; [| by left]. cbn [mbind option_bind].
  destruct (strip_short_header_protection _ _ _ _) as [d1 [[kp f] | e]]; [| by left].
  destruct (Bool.eqb kp (key_phase c)); [unfold recv_current_phase | unfold recv_next_phase].
  - destruct (decrypt_short_packet_body d1 _ _ _ _) as [d2 [parsed | e]]; [apply path_step_short |].
    destruct (prev_1rtt_keys c) as [[pk t] |]; [| by left]. cbn [mbind option_bind]. destruct (now <=? t); [| by left].
    destruct (decrypt_short_packet_body d2 _ _ _ _) as [d3 [parsed | e3]]; [apply path_step_short | by left].
  - destruct (next_1rtt_keys c) as [nk |]; [| by left]. cbn [mbind option_bind].
    destruct (decrypt_short_packet_body d1 _ _ _ _) as [d2 [parsed | e]]; [| by left].
    apply (path_step_keep _ c (perform_key_update c now)); [| apply path_step_short].
    pose proof (book_view_update c now) as H. exact (f_equal (fun v => v.1.1.1.2) H).
Qed.

Lemma path_view_drive c clock : path_view (drive_handshake c clock) = path_view c.
Proof.
  unfold drive_handshake, try_install_zero_rtt_keys. rewrite <- (path_view_pump c clock).
  destruct (negb _ && _); [| done]. by case_match.
Qed.

Lemma path_step_loop fuel c now clock dg off r :
  datagram_loop fuel c now clock dg off = Some r -> path_step (carried_loop fuel c now clock dg off) c r.2.2.
Proof.
  revert c dg off. induction fuel as [| fuel IH]; intros c dg off; [done |]. cbn [datagram_loop carried_loop].
  destruct (length dg <=? off)%nat; cbn [orb]; [intros [= <-]; by left |].
  destruct (nth off dg 0 =? 0); cbn [orb]; [intros [= <-]; by left |].
  assert (Hp : path_step (packet_frames c now dg off) c
    (if negb (Z.land (nth off dg 0) 0x80 =? 0) then recv_long_packet c now dg off else recv_short_packet c now dg off).2.2).
  { destruct (Z.eqb_spec (Z.land (nth off dg 0) 0x80) 0); [by apply path_step_recv_short | by apply path_step_recv_long]. }
  destruct (if negb _ then _ else _) as [dg' [[[stop |] | e] c']]; cbn [snd] in Hp.
  - intros H%IH. eapply path_step_trans; [exact Hp |]. eapply path_step_keep; [apply path_view_drive | exact H].
  - intros [= <-]. by rewrite app_nil_r.
  - intros [= <-]. by rewrite app_nil_r.
Qed.

End carried.

(** C18: A connection migrates only after path validation: receiving a datagram
    leaves the peer address, the candidate, the outstanding challenge and the
    validation flag as they were, or else a challenge was outstanding and one of the
    frames the datagram carried behind its packet protection is a PATH_RESPONSE with
    exactly the challenge's data; then the challenge is cleared, the path is marked
    validated and the peer address becomes the candidate's (if there is one).  A
    PATH_RESPONSE with any other data changes nothing at all. *)
Theorem migration_requires_response {env : QuicEnv} (c : Connection env) now clock dg dg' r c' :
  handle_datagram c now clock dg = Some (dg', (r, c')) ->
  (path_view c' = path_view c \/
   exists nonce, pending_path_challenge c = Some nonce /\ PathResponse nonce ∈ datagram_frames c now clock dg /\
     pending_path_challenge c' = None /\ path_validated c' = true /\
     peer_addr c' = unwrap_or (candidate_peer_addr c) (peer_addr c) /\ candidate_peer_addr c' = None) /\
  (forall d pt, pending_path_challenge c <> Some d -> handle_frame c now pt (PathResponse d) = (Ok tt, c)).
Proof.
  intros H. split; [| intros d pt Hd; unfold handle_frame, recv_path_response; by rewrite bool_decide_false].
  assert (Hs : path_step (datagram_frames c now clock dg) c c').
  { unfold handle_datagram in H. apply path_step_loop in H. eapply path_step_keep; [| exact H].
    unfold arm_idle_timer, arm_keep_alive. repeat case_match; done. }
  destruct Hs as [Hs | (n & Hn & Hp & Hs)]; [by left | right]. injection Hs as E1 E2 E3 E4. exists n. by rewrite E1.
Qed.

(** A validated migration: the response to an outstanding challenge arrives. *)
Definition demo_migrating : Connection demo_env :=
  demo_installed <| pending_path_challenge := Some [1; 2; 3; 4; 5; 6; 7; 8] |> <| candidate_peer_addr := Some (9 : @Addr demo_env) |>.

Definition demo_response_datagram : list Z :=
  (build_short_packet (PC := toy_crypto) [] (mkBuildShort [1; 1; 1; 1; 1; 1; 1; 1] 0 None false)
     (payload_bytes [PathResponse [1; 2; 3; 4; 5; 6; 7; 8]]) 0x21 tt).1.

Definition demo_migrated : list Z * (result OxiQuicError unit * Connection demo_env) :=
  unwrap_or (handle_datagram demo_migrating 0 0 demo_response_datagram) ([], (Ok tt, demo_migrating)).

Lemma migration_requires_response_witness :
  peer_addr demo_migrated.2.2 = (9 : @Addr demo_env) /\
  datagram_frames demo_migrating 0 0 demo_response_datagram = [PathResponse [1; 2; 3; 4; 5; 6; 7; 8]] /\
  ((path_view demo_migrated.2.2 = path_view demo_migrating \/
   exists nonce, pending_path_challenge demo_migrating = Some nonce /\
     PathResponse nonce ∈ datagram_frames demo_migrating 0 0 demo_response_datagram /\
     pending_path_challenge demo_migrated.2.2 = None /\ path_validated demo_migrated.2.2 = true /\
     peer_addr demo_migrated.2.2 = unwrap_or (candidate_peer_addr demo_migrating) (peer_addr demo_migrating) /\
     candidate_peer_addr demo_migrated.2.2 = None) /\
  (forall d pt, pending_path_challenge demo_migrating <> Some d ->
     handle_frame demo_migrating 0 pt (PathResponse d) = (Ok tt, demo_migrating))).
Proof.
  split; [vm_compute; reflexivity |]. split; [vm_compute; reflexivity |].
  apply (migration_requires_response demo_migrating 0 0 demo_response_datagram demo_migrated.1 demo_migrated.2.1 demo_migrated.2.2).
  assert (H : is_some (handle_datagram demo_migrating 0 0 demo_response_datagram) = true) by (vm_compute; reflexivity).
  unfold demo_migrated. destruct (handle_datagram demo_migrating 0 0 demo_response_datagram) as [[d [r c]] |]; [reflexivity | discriminate H].
Defined.
