(* ===== verification/ConnSend.v ===== *)
(** * The connection: transmit path
    ([oxiquic-transport/src/connection/send.rs])

    [poll_transmit] and everything it calls: what there is to send, filling a
    payload with frames under a byte budget, flow control, protecting and recording
    the packet, 0-RTT packets, CONNECTION_CLOSE.  Operations append to the output
    buffer and return it with the new state. *)

From S2P Require Import Prelude OrdMap CoreTypes Coding FrameCodec ParamsCodec PacketSpace SentPackets.
From S2P Require Import Streams FlowControl Recovery Congestion Bbr CidPool Packet Multipath Connection.
From S2P Require Import ConnRecovery ConnHandshake.

Section transmit.
Context {env : QuicEnv}.

Notation conn := (Connection env).

(** ** Is there anything to send? *)

Definition handshake_done_to_send (c : conn) : bool :=
  bool_decide (role c = Server) && handshake_complete c && negb (handshake_done c).

(** The 1-RTT output that is not stream data, and bypasses the congestion window. *)
Definition control_output (c : conn) : bool :=
  ack_pending (application c) || handshake_done_to_send c || (0 <? probes_owed c) || pending_keep_alive_ping c
  || pending_mtu_probe c || is_some (pending_max_data c) || negb (SendStream.is_nil (pending_max_stream_data c))
  || is_some (pending_data_blocked c) || negb (SendStream.is_nil (pending_stream_data_blocked c))
  || negb (SendStream.is_nil (pending_reset_streams c)) || negb (SendStream.is_nil (pending_stop_sending c))
  || key_update_pending c || is_some (pending_path_response c) || pending_path_challenge_send c
  || LocalCidPool.has_pending_new (local_cid_pool c) || PeerCidPool.has_pending_retire (peer_cid_pool c)
  || is_some (pending_max_streams_bidi c) || is_some (pending_max_streams_uni c)
  || is_some (pending_streams_blocked_bidi c) || is_some (pending_streams_blocked_uni c)
  || is_some (pending_new_token c) || negb (SendStream.is_nil (datagram_send_queue c)).

Definition space_has_output (c : conn) (kind : SpaceKind) : bool :=
  match kind with
  | SkInitial => CryptoStream.has_send_data (initial_crypto c) || ack_pending (initial c)
  | SkHandshake => CryptoStream.has_send_data (handshake_crypto c) || ack_pending (handshake c)
  | SkApplication => control_output c || any_stream_send_data c
  end.

Definition app_space_may_send (c : conn) : bool :=
  if negb (space_has_output c SkApplication) then false
  else if control_output c then true
  else ctl_can_send (congestion c) MAX_DATAGRAM_SIZE.

(** ** Filling a payload *)

(** The state [fill_payload] threads: the connection, the payload so far, the
    retransmittable frames placed, and whether the packet is ack-eliciting. *)
Record Fill := mkFill { f_conn : conn; f_payload : list Z; f_frames : list SentFrame; f_eliciting : bool }.

(** [budget.saturating_sub(payload.len())]. *)
Definition avail (budget : Z) (payload : list Z) : Z := sat_sub budget (len payload).

(** Place a frame, with the record to retransmit it by. *)
Definition place (st : Fill) (frame : Frame) (sent : list SentFrame) : Fill :=
  mkFill (f_conn st) (encode frame (f_payload st)) (f_frames st ++ sent)
         (if is_ack_eliciting frame then true else f_eliciting st).

Definition with_conn (st : Fill) (g : conn -> conn) : Fill :=
  mkFill (g (f_conn st)) (f_payload st) (f_frames st) (f_eliciting st).

Definition fill_ack (kind : SpaceKind) (st : Fill) : Fill :=
  let c := f_conn st in
  let '(ack, c) :=
    match kind with
    | SkInitial => let '(a, s) := build_ack (initial c) 0 in (a, c <| initial := s |>)
    | SkHandshake => let '(a, s) := build_ack (handshake c) 0 in (a, c <| handshake := s |>)
    | SkApplication => let '(a, s) := build_ack (application c) 0 in (a, c <| application := s |>)
    end in
  let st := with_conn st (fun _ => c) in
  match ack with Some frame => place st frame [] | None => st end.

Definition fill_crypto (kind : SpaceKind) (budget : Z) (st : Fill) : Fill :=
  let c := f_conn st in
  let room := sat_sub (avail budget (f_payload st)) 16 in
  let '(taken, c) :=
    match kind with
    | SkInitial => let '(r, s) := CryptoStream.take_send (initial_crypto c) room in (r, c <| initial_crypto := s |>)
    | SkHandshake => let '(r, s) := CryptoStream.take_send (handshake_crypto c) room in (r, c <| handshake_crypto := s |>)
    | SkApplication => (None, c)
    end in
  let st := with_conn st (fun _ => c) in
  match taken with
  | Some (offset, data) => place st (Crypto offset data) [SFCrypto offset data]
  | None => st
  end.

Definition SHORT_HDR_OVERHEAD : Z := 1 + Z.of_nat LOCAL_CID_LEN + 4 + 16.

(** [payload.resize(n, 0)] when the payload is shorter. *)
Definition pad_to (n : Z) (payload : list Z) : list Z := payload ++ replicate (Z.to_nat (n - len payload)) 0.

(** The probe packet: a PING and padding up to the probed size. *)
Definition fill_mtu_probe (probe_size : Z) (st : Fill) : Fill :=
  let st := place st Ping [SFMtuProbe probe_size] in
  let st := with_conn st (fun c => c <| pending_mtu_probe := false |>) in
  mkFill (f_conn st) (pad_to (sat_sub probe_size SHORT_HDR_OVERHEAD) (f_payload st)) (f_frames st) (f_eliciting st).

Definition fill_path_response (budget : Z) (st : Fill) : Fill :=
  match pending_path_response (f_conn st) with
  | Some data =>
      if 9 <=? avail budget (f_payload st)
      then with_conn (place st (PathResponse data) []) (fun c => c <| pending_path_response := None |>)
      else st
  | None => st
  end.

Definition fill_path_challenge (budget : Z) (st : Fill) : Fill :=
  if pending_path_challenge_send (f_conn st) then
    match pending_path_challenge (f_conn st) with
    | Some data =>
        if 9 <=? avail budget (f_payload st)
        then with_conn (place st (PathChallenge data) []) (fun c => c <| pending_path_challenge_send := false |>)
        else st
    | None => st
    end
  else st.

Definition fill_handshake_done (st : Fill) : Fill :=
  if handshake_done_to_send (f_conn st)
  then with_conn (place st HandshakeDone []) (fun c => c <| handshake_done := true |>)
  else st.

(** A frame per entry of a queue kept as a map, while there is room; entries that
    do not fit stay queued. *)
Definition fill_map {V} (entries : list (Z * V)) (min_room : Z) (budget : Z)
    (frame : Z -> V -> Frame) (drop_entry : Z -> conn -> conn) (st : Fill) : Fill :=
  fold_left (fun st '(id, v) =>
               if min_room <? avail budget (f_payload st)
               then with_conn (place st (frame id v) []) (drop_entry id) else st) entries st.

Definition fill_max_data (budget : Z) (st : Fill) : Fill :=
  match pending_max_data (f_conn st) with
  | Some max =>
      if 16 <? avail budget (f_payload st)
      then with_conn (place st (MaxData max) []) (fun c => c <| pending_max_data := None |>) else st
  | None => st
  end.

Definition fill_max_stream_data (budget : Z) (st : Fill) : Fill :=
  fill_map (pending_max_stream_data (f_conn st)) 16 budget MaxStreamData
    (fun id c => c <| pending_max_stream_data ::= om_remove id |>) st.

(** Taken from its slot whether or not there is room for it. *)
Definition fill_data_blocked (budget : Z) (st : Fill) : Fill :=
  match pending_data_blocked (f_conn st) with
  | Some limit =>
      let room := 16 <? avail budget (f_payload st) in
      let st := with_conn st (fun c => c <| pending_data_blocked := None |>) in
      if room then place st (DataBlocked limit) [] else st
  | None => st
  end.

Definition fill_stream_data_blocked (budget : Z) (st : Fill) : Fill :=
  fill_map (pending_stream_data_blocked (f_conn st)) 16 budget StreamDataBlocked
    (fun id c => c <| pending_stream_data_blocked ::= om_remove id |>) st.

Definition fill_flow_control_frames (budget : Z) (st : Fill) : Fill :=
  let st := fill_max_data budget st in
  let st := fill_max_stream_data budget st in
  let st := fill_data_blocked budget st in
  fill_stream_data_blocked budget st.

(** The same, leaving the loop when there is no room. *)
Fixpoint fill_map_break {V} (entries : list (Z * V)) (min_room : Z) (budget : Z)
    (frame : Z -> V -> Frame) (drop_entry : Z -> conn -> conn) (st : Fill) : Fill :=
  match entries with
  | [] => st
  | (id, v) :: entries =>
      if negb (min_room <? avail budget (f_payload st)) then st
      else fill_map_break entries min_room budget frame drop_entry (with_conn (place st (frame id v) []) (drop_entry id))
  end.

Definition fill_reset_stream_frames (budget : Z) (st : Fill) : Fill :=
  fill_map_break (pending_reset_streams (f_conn st)) 24 budget (fun id v => ResetStream id v.1 v.2)
    (fun id c => c <| pending_reset_streams ::= om_remove id |>) st.

Definition fill_stop_sending_frames (budget : Z) (st : Fill) : Fill :=
  fill_map_break (pending_stop_sending (f_conn st)) 16 budget StopSending
    (fun id c => c <| pending_stop_sending ::= om_remove id |>) st.

(** [while let Some(issued) = pop_pending_new()]: each turn takes one entry. *)
Fixpoint fill_new_cids (fuel : nat) (budget : Z) (st : Fill) : Fill :=
  match fuel with
  | O => st
  | S fuel =>
      let '(issued, pool) := LocalCidPool.pop_pending_new (local_cid_pool (f_conn st)) in
      match issued with
      | None => st
      | Some i =>
          let frame_size := 1 + 8 + 8 + 1 + len (ic_cid i) + 16 in
          if avail budget (f_payload st) <? frame_size
          then with_conn st (fun c => c <| local_cid_pool := LocalCidPool.push_front_new pool i |>)
          else
            let st := with_conn st (fun c => c <| local_cid_pool := pool |>) in
            fill_new_cids fuel budget
              (place st (NewConnectionId (ic_seq i) 0 (ic_cid i) (ic_token i))
                 [SFNewConnectionId (ic_seq i) 0 (ic_cid i) (ic_token i)])
      end
  end.

Fixpoint fill_retire_cids (fuel : nat) (budget : Z) (st : Fill) : Fill :=
  match fuel with
  | O => st
  | S fuel =>
      let '(seq, pool) := PeerCidPool.pop_pending_retire (peer_cid_pool (f_conn st)) in
      match seq with
      | None => st
      | Some seq =>
          if avail budget (f_payload st) <? 9
          then with_conn st (fun c => c <| peer_cid_pool := PeerCidPool.push_front_retire pool seq |>)
          else
            let st := with_conn st (fun c => c <| peer_cid_pool := pool |>) in
            fill_retire_cids fuel budget (place st (RetireConnectionId seq) [SFRetireConnectionId seq])
      end
  end.

Definition fill_max_streams (dir : Direction) (budget : Z) (st : Fill) : Fill :=
  let pending := match dir with
                 | Bidirectional => pending_max_streams_bidi (f_conn st)
                 | Unidirectional => pending_max_streams_uni (f_conn st)
                 end in
  match pending with
  | Some max =>
      if 16 <=? avail budget (f_payload st)
      then with_conn (place st (MaxStreams dir max) [SFMaxStreams dir max])
             (fun c => match dir with
                       | Bidirectional => c <| pending_max_streams_bidi := None |> <| sent_max_streams_bidi := max |>
                       | Unidirectional => c <| pending_max_streams_uni := None |> <| sent_max_streams_uni := max |>
                       end)
      else st
  | None => st
  end.

Definition fill_streams_blocked (dir : Direction) (budget : Z) (st : Fill) : Fill :=
  let pending := match dir with
                 | Bidirectional => pending_streams_blocked_bidi (f_conn st)
                 | Unidirectional => pending_streams_blocked_uni (f_conn st)
                 end in
  match pending with
  | Some limit =>
      if 16 <=? avail budget (f_payload st)
      then with_conn (place st (StreamsBlocked dir limit) [SFStreamsBlocked dir limit])
             (fun c => match dir with
                       | Bidirectional => c <| pending_streams_blocked_bidi := None |>
                       | Unidirectional => c <| pending_streams_blocked_uni := None |>
                       end)
      else st
  | None => st
  end.

Definition fill_new_token (budget : Z) (st : Fill) : Fill :=
  if bool_decide (role (f_conn st) = Server) then
    match pending_new_token (f_conn st) with
    | Some token =>
        let need := 1 + varint_size (len token) + len token in
        if need <=? avail budget (f_payload st)
        then with_conn (place st (NewToken token) [SFNewToken token]) (fun c => c <| pending_new_token := None |>)
        else st
    | None => st
    end
  else st.

(** [while let Some(front) = datagram_send_queue.front()]. *)
Fixpoint fill_datagrams (queue : list (list Z)) (budget : Z) (st : Fill) : Fill :=
  match queue with
  | [] => st
  | front :: queue =>
      let need := 1 + varint_size (len front) + len front in
      if avail budget (f_payload st) <? need then st
      else fill_datagrams queue budget
             (place (with_conn st (fun c => c <| datagram_send_queue := queue |>)) (Datagram front) [])
  end.

(** ** Stream data under flow control *)

(** The body of the loop over stream IDs, for a stream that passed the guards. *)
Definition stream_credit (c : conn) (id : Z) (avail_buf : Z) (is_resend : bool) : Z :=
  if is_resend then avail_buf
  else
    let conn_credit := SendFlowControl.available (send_flow c) in
    let credit := unwrap_or (StreamSendFlow.available <$> om_get id (stream_send_flow c)) 0 in
    Z.min avail_buf (Z.min conn_credit credit).

(** Charge flow control with the new highest offset. *)
Definition charge_flow (c : conn) (id new_high : Z) : conn :=
  match om_get id (stream_send_flow c) with
  | Some f =>
      let '(fresh, f) := StreamSendFlow.record_high_offset f new_high in
      c <| stream_send_flow ::= om_insert id f |> <| send_flow ::= fun g => SendFlowControl.on_data_sent g fresh |>
  | None => c <| send_flow ::= fun g => SendFlowControl.on_data_sent g 0 |>
  end.

Definition fill_one_stream (budget : Z) (st : Fill) (id : Z) : Fill :=
  match om_get id (send_streams (f_conn st)) with
  | None => st
  | Some s =>
      if SendStream.is_reset s then st
      else if negb (SendStream.has_pending s) then st
      else
        let avail_buf := sat_sub (avail budget (f_payload st)) 24 in
        let st := with_conn st (fun c =>
          if om_contains id (stream_send_flow c) then c
          else c <| stream_send_flow ::= om_insert id (StreamSendFlow.new (peer_initial_stream_limit c)) |>) in
        let take := stream_credit (f_conn st) id avail_buf (SendStream.has_resend s) in
        if take =? 0 then st
        else
          let '(taken, s) := SendStream.take s take in
          let st := with_conn st (fun c => c <| send_streams ::= om_insert id s |>) in
          match taken with
          | None => st
          | Some (offset, data, fin) =>
              let st := place st (Stream id offset fin data) [SFStream id offset fin data] in
              with_conn st (fun c => charge_flow c id (u64_add offset (len data)))
          end
  end.

(** [for id in ids], leaving the loop when no room is left. *)
Fixpoint fill_streams_loop (ids : list Z) (budget : Z) (st : Fill) : Fill :=
  match ids with
  | [] => st
  | id :: ids =>
      if sat_sub (avail budget (f_payload st)) 24 =? 0 then st
      else fill_streams_loop ids budget (fill_one_stream budget st id)
  end.

Definition note_blocked_streams (c : conn) : conn :=
  let c := if any_stream_send_data c then
             let '(limit, f) := SendFlowControl.take_blocked (send_flow c) in
             let c := c <| send_flow := f |> in
             match limit with Some l => c <| pending_data_blocked := Some l |> | None => c end
           else c in
  fold_left (fun c id =>
    let pending := unwrap_or (SendStream.has_pending <$> om_get id (send_streams c)) false in
    if negb pending then c
    else match om_get id (stream_send_flow c) with
         | Some flow =>
             let '(limit, flow) := StreamSendFlow.take_blocked flow in
             let c := c <| stream_send_flow ::= om_insert id flow |> in
             match limit with
             | Some l => c <| pending_stream_data_blocked ::= om_insert id l |>
             | None => c
             end
         | None => c
         end) (om_keys (send_streams c)) c.

Definition fill_stream_frames (budget : Z) (st : Fill) : Fill :=
  with_conn (fill_streams_loop (om_keys (send_streams (f_conn st))) budget st) note_blocked_streams.

(** The 1-RTT frames that come before stream data, in the order of the source. *)
Definition fill_control (budget : Z) (st : Fill) : Fill :=
  let st := fill_path_response budget st in
  let st := fill_path_challenge budget st in
  let st := fill_handshake_done st in
  let st := fill_flow_control_frames budget st in
  let st := fill_reset_stream_frames budget st in
  let st := fill_stop_sending_frames budget st in
  let st := fill_new_cids (length (LocalCidPool.pending_new (local_cid_pool (f_conn st)))) budget st in
  let st := fill_retire_cids (length (PeerCidPool.pending_retire (peer_cid_pool (f_conn st)))) budget st in
  let st := fill_max_streams Bidirectional budget st in
  let st := fill_max_streams Unidirectional budget st in
  let st := fill_streams_blocked Bidirectional budget st in
  let st := fill_streams_blocked Unidirectional budget st in
  let st := fill_new_token budget st in
  fill_datagrams (datagram_send_queue (f_conn st)) budget st.

Definition fill_application (budget : Z) (st : Fill) : Fill := fill_stream_frames budget (fill_control budget st).

(** The PINGs at the end: PTO probes, keep-alive, key-update probe. *)
Definition fill_pings (kind : SpaceKind) (st : Fill) : Fill :=
  let app := bool_decide (kind = SkApplication) in
  let st := if 0 <? probes_owed (f_conn st) then
              with_conn (if negb (f_eliciting st) then place st Ping [SFPing] else st)
                (fun c => c <| probes_owed ::= fun n => n - 1 |>)
            else st in
  let st := if app && pending_keep_alive_ping (f_conn st) then
              with_conn (place st Ping [SFPing]) (fun c => c <| pending_keep_alive_ping := false |>)
            else st in
  if app && key_update_pending (f_conn st) && negb (f_eliciting st) then place st Ping [SFPing] else st.

Definition fill_payload (c : conn) (kind : SpaceKind) (budget : Z) : Fill :=
  let st := fill_crypto kind budget (fill_ack kind (mkFill c [] [] false)) in
  let app := bool_decide (kind = SkApplication) in
  match probe_mtu (f_conn st), app && pending_mtu_probe (f_conn st) with
  | Some probe_size, true => fill_mtu_probe probe_size st
  | _, probing =>
      let st := if probing then with_conn st (fun c => c <| pending_mtu_probe := false |>) else st in
      fill_pings kind (if app then fill_application budget st else st)
  end.

(** ** Packets *)

Definition packet_budget (c : conn) (kind : SpaceKind) : Z :=
  match kind with
  | SkApplication => if pending_mtu_probe c then unwrap_or (probe_mtu c) (current_mtu c) else current_mtu c
  | _ => MAX_DATAGRAM
  end.

Definition kind_nat (kind : SpaceKind) : nat :=
  match kind with SkInitial => space_nat SpInitial | SkHandshake => space_nat SpHandshake | SkApplication => space_nat SpApplication end.

(** Take a packet number and protect the payload with the keys of the space: the
    packet number, the output, and the state; [None] when there are no keys. *)
Definition seal_short (c : conn) (payload out : list Z) : option (Z * (list Z * bool)) * conn :=
  let '(pn, space) := next_pn (application c) in
  let c := c <| application := space |> in
  match local_keys space with
  | None => (None, c)
  | Some k =>
      let '(out, r) := build_short_packet out
        (mkBuildShort (peer_cid c) pn (ps_largest_acked space) (key_phase c)) payload (dk_packet k) (dk_header k) in
      (Some (pn, (out, is_some (result_ok r))), c)
  end.

Definition seal_long (c : conn) (long_type : LongType) (token payload out : list Z)
    : option (Z * (list Z * bool)) * conn :=
  let '(pn, space) := next_pn (match long_type with LT_Initial => initial c | _ => handshake c end) in
  let c := match long_type with LT_Initial => c <| initial := space |> | _ => c <| handshake := space |> end in
  match local_keys space with
  | None => (None, c)
  | Some k =>
      let '(out, r) := build_long_packet out
        (mkBuildLong long_type QUIC_V1 (peer_cid c) (local_cid c) token pn (ps_largest_acked space))
        payload (dk_packet k) (dk_header k) in
      (Some (pn, (out, is_some (result_ok r))), c)
  end.

Definition is_mtu_probe (frames : list SentFrame) : bool :=
  existsb (fun f => match f with SFMtuProbe _ => true | _ => false end) frames.

(** Account for a packet that was built, and record it for loss detection. *)
Definition record_sent (c : conn) (now : Z) (kind : SpaceKind) (pn sent_bytes : Z) (frames : list SentFrame)
    (ack_eliciting : bool) : conn :=
  let in_flight := if is_mtu_probe frames then false else ack_eliciting in
  let c := c <| packets_sent ::= fun n => u64_add n 1 |> <| bytes_sent ::= fun n => u64_add n sent_bytes |> in
  let '(rate_sample, c) :=
    if in_flight
    then let '(s, cc) := ctl_on_packet_sent (congestion c) sent_bytes now in (s, c <| congestion := cc |>)
    else (None, c) in
  if ack_eliciting || negb (SendStream.is_nil frames)
  then put_sent (kind_nat kind)
         (on_packet_sent (sent_at c (kind_nat kind))
            (mkSentPacket pn now ack_eliciting in_flight sent_bytes frames rate_sample)) c
  else c.

(** A pending local key update takes effect before the first packet of the new epoch. *)
Definition before_short (c : conn) (now : Z) : conn :=
  let c := if key_update_pending c then initiate_key_update_now c now else c in
  c <| key_update_received := false |>.

Definition write_space_packet (c : conn) (now : Z) (kind : SpaceKind) (out : list Z) (short : bool)
    : bool * (list Z * conn) :=
  let remaining := sat_sub (packet_budget c kind) (len out) in
  if remaining <? 64 then (false, (out, c))
  else
    let packet_start := len out in
    let st := fill_payload c kind remaining in
    let c := f_conn st in
    let payload := f_payload st in
    if bool_decide (payload = []) then (false, (out, c))
    else
      let c := if short then before_short c now else c in
      let '(sealed, c) :=
        if short then seal_short c payload out
        else match kind with
             | SkInitial => seal_long c LT_Initial (unwrap_or (retry_token c) []) payload out
             | SkHandshake => seal_long c LT_Handshake [] payload out
             | SkApplication => (None, c)
             end in
      match sealed with
      | None => (false, (out, c))
      | Some (pn, (out, false)) => (false, (out, c))
      | Some (pn, (out, true)) =>
          (true, (out, record_sent c now kind pn (len out - packet_start) (f_frames st) (f_eliciting st)))
      end.

(** 0-RTT: every buffered entry as a STREAM frame at offset 0. *)
Definition write_zero_rtt_packet (c : conn) (out : list Z) : bool * (list Z * conn) :=
  if negb (bool_decide (role c = Client)) || one_rtt_ready c || SendStream.is_nil (early_data_buf c) || zero_rtt_sent c
  then (false, (out, c))
  else match zero_rtt_keys c with
       | None => (false, (out, c))
       | Some ks =>
           let payload := fold_left (fun p '(stream_id, data, fin) => encode (Stream stream_id 0 fin data) p)
                            (early_data_buf c) [] in
           if bool_decide (payload = []) then (false, (out, c))
           else
             let '(pn, space) := next_pn (application c) in
             let c := c <| application := space |> in
             let packet_start := len out in
             let '(out, r) := build_long_packet out
               (mkBuildLong LT_ZeroRtt QUIC_V1 (peer_cid c) (local_cid c) [] pn (ps_largest_acked space))
               payload (dk_packet ks) (dk_header ks) in
             match r with
             | Err _ => (false, (out, c))
             | Ok _ =>
                 (true, (out, c <| packets_sent ::= fun n => u64_add n 1 |>
                                <| bytes_sent ::= fun n => u64_add n (len out - packet_start) |>
                                <| zero_rtt_sent := true |>))
             end
       end.

(** The CONNECTION_CLOSE frame that is queued, taken from its slot. *)
Definition take_close_frame (c : conn) : option Frame * conn :=
  match pending_transport_close c with
  | Some (code, reason) =>
      (Some (ConnectionClose (error_code_to_u64 code) (Some 0) false reason), c <| pending_transport_close := None |>)
  | None =>
      match pending_close c with
      | Some (code, reason) => (Some (ConnectionClose code None true reason), c <| pending_close := None |>)
      | None => (None, c)
      end
  end.

(** In the most protected space that has keys. *)
Definition emit_close (c : conn) (out : list Z) : option Addr * (list Z * conn) :=
  let short := one_rtt_ready c in
  let '(frame, c) := take_close_frame c in
  match frame with
  | None => (None, (out, c))
  | Some frame =>
      let payload := encode frame [] in
      let '(sealed, c) :=
        if short then seal_short c payload out
        else if handshake_keys_ready c then seal_long c LT_Handshake [] payload out
        else seal_long c LT_Initial [] payload out in
      match sealed with
      | None => (None, (out, c))
      | Some (_, (out, built)) => ((if built then Some (peer_addr c) else None), (out, c))
      end
  end.

Definition advance_recv_flow (c : conn) : conn :=
  let '(max, f) := RecvFlowControl.maybe_update (recv_flow c) in
  let c := c <| recv_flow := f |> in
  let c := match max with Some m => c <| pending_max_data := Some m |> | None => c end in
  fold_left (fun c id =>
    match om_get id (stream_recv_flow c) with
    | Some flow =>
        let '(max, flow) := StreamRecvFlow.maybe_update flow in
        let c := c <| stream_recv_flow ::= om_insert id flow |> in
        match max with Some m => c <| pending_max_stream_data ::= om_insert id m |> | None => c end
    | None => c
    end) (om_keys (stream_recv_flow c)) c.

(** The packets of one datagram: Initial, Handshake, 0-RTT, and 1-RTT only when no
    Initial was written.  Whether an Initial and whether anything was written. *)
Definition write_packets (c : conn) (now : Z) (out : list Z) : (bool * bool) * (list Z * conn) :=
  let '(wrote_initial, (out, c)) :=
    if has_keys (initial c) && space_has_output c SkInitial
    then write_space_packet c now SkInitial out false else (false, (out, c)) in
  let '(wrote_hs, (out, c)) :=
    if handshake_keys_ready c && space_has_output c SkHandshake
    then write_space_packet c now SkHandshake out false else (false, (out, c)) in
  let '(wrote_early, (out, c)) :=
    if wrote_initial && negb (one_rtt_ready c) then write_zero_rtt_packet c out else (false, (out, c)) in
  let '(wrote_app, (out, c)) :=
    if negb wrote_initial && one_rtt_ready c && app_space_may_send c
    then write_space_packet c now SkApplication out true else (false, (out, c)) in
  ((wrote_initial, wrote_initial || wrote_hs || wrote_early || wrote_app), (out, c)).

(** What is sent when no close is: the destination and the output. *)
Definition transmit_packets (c : conn) (now : Z) (out : list Z) : option Addr * (list Z * conn) :=
  let c := advance_recv_flow c in
  let start := length out in
  let '((wrote_initial, wrote_any), (out, c)) := write_packets c now out in
  if negb wrote_any then (None, (take start out, c))
  else
    let out := if bool_decide (role c = Client) && wrote_initial && (len out - Z.of_nat start <? MIN_INITIAL_DATAGRAM)
               then pad_to (Z.of_nat start + MIN_INITIAL_DATAGRAM) out else out in
    let c := set_loss_detection_timer (arm_idle_timer c now) in
    (Some (peer_addr c), (out, c)).

Definition poll_transmit (c : conn) (now clock : Z) (out : list Z) : option Addr * (list Z * conn) :=
  let c := pump_write_hs c clock in
  if bool_decide (state c = Closed) then (None, (out, c))
  else if is_some (pending_transport_close c) || is_some (pending_close c) then
    match emit_close c out with
    | (Some addr, (out, c)) => (Some addr, (out, c <| state := Closed |>))
    | (None, (out, c)) => transmit_packets c now out
    end
  else transmit_packets c now out.

(** ** Lemmas: what filling a payload leaves alone *)

Definition fill_view (c : conn) := (cc_view c, num_view c, (core_view c, mtu_view c)).

Definition wide_view (c : conn) := (fill_view c, flow_view c).

Notation fview st := (fill_view (f_conn st)).
Notation wview st := (wide_view (f_conn st)).

Lemma wview_place st f sent : wview (place st f sent) = wview st.
Proof. done. Qed.

Lemma pn_build_ack (s : PacketSpace HeaderKey PacketKey) d :
  next_packet_number (build_ack s d).2 = next_packet_number s /\ keys (build_ack s d).2 = keys s.
Proof. unfold build_ack. repeat case_match; done. Qed.

Lemma wview_ack kind st : wview (fill_ack kind st) = wview st.
Proof.
  unfold fill_ack. destruct kind;
    match goal with |- context [build_ack ?sp ?d] =>
      pose proof (pn_build_ack sp d) as [H1 H2]; destruct (build_ack sp d) as [[a |] s'] end; simpl in H1, H2;
    unfold wide_view, fill_view, num_view, pns, core_view, key_view; simpl; by rewrite ?H1, ?H2.
Qed.

Lemma wview_crypto kind b st : wview (fill_crypto kind b st) = wview st.
Proof.
  unfold fill_crypto. destruct kind; try done; destruct (CryptoStream.take_send _ _) as [[[o d] |] s']; done.
Qed.

Lemma wview_map {V} (es : list (Z * V)) r b fr de st :
  (forall id c, wide_view (de id c) = wide_view c) ->
  wview (fill_map es r b fr de st) = wview st /\ wview (fill_map_break es r b fr de st) = wview st.
Proof.
  intros Hd. split.
  - unfold fill_map. apply (fold_view (fun st => wview st)). intros a [id v]. case_match; [| done]. apply Hd.
  - revert st. induction es as [| [id v] es IH]; intros st; [done |]. simpl. case_match; [done |]. rewrite IH. apply Hd.
Qed.

Lemma wview_flow_control b st : wview (fill_flow_control_frames b st) = wview st.
Proof.
  unfold fill_flow_control_frames.
  assert (H1 : forall st, wview (fill_max_data b st) = wview st) by (intros; unfold fill_max_data; repeat case_match; done).
  assert (H2 : forall st, wview (fill_max_stream_data b st) = wview st) by (intros; by apply wview_map).
  assert (H3 : forall st, wview (fill_data_blocked b st) = wview st) by (intros; unfold fill_data_blocked; repeat case_match; done).
  assert (H4 : forall st, wview (fill_stream_data_blocked b st) = wview st) by (intros; by apply wview_map).
  by rewrite H4, H3, H2, H1.
Qed.

Lemma wview_new_cids n b st : wview (fill_new_cids n b st) = wview st.
Proof.
  revert st. induction n as [| n IH]; intros st; [done |]. simpl.
  destruct (LocalCidPool.pop_pending_new _) as [[i |] pool]; [| done]. case_match; [done |]. by rewrite IH.
Qed.

Lemma wview_retire_cids n b st : wview (fill_retire_cids n b st) = wview st.
Proof.
  revert st. induction n as [| n IH]; intros st; [done |]. simpl.
  destruct (PeerCidPool.pop_pending_retire _) as [[q |] pool]; [| done]. case_match; [done |]. by rewrite IH.
Qed.

Lemma wview_datagrams q b st : wview (fill_datagrams q b st) = wview st.
Proof. revert st. induction q as [| d q IH]; intros st; [done |]. simpl. case_match; [done |]. by rewrite IH. Qed.

Lemma fview_one_stream b st id : fview (fill_one_stream b st id) = fview st.
Proof.
  unfold fill_one_stream. destruct (om_get id _) as [s |]; [| done]. case_match; [done |]. case_match; [done |].
  set (st1 := with_conn st _). assert (H1 : fview st1 = fview st) by (subst st1; simpl; by case_match).
  rewrite <- H1. generalize st1. intros st2. case_match; [done |].
  destruct (SendStream.take _ _) as [[[[o d] f] |] s']; [| done].
  simpl. unfold charge_flow. repeat case_match; done.
Qed.

Lemma fview_streams_loop ids b st : fview (fill_streams_loop ids b st) = fview st.
Proof. revert st. induction ids as [| id ids IH]; intros st; [done |]. simpl. case_match; [done |]. by rewrite IH, fview_one_stream. Qed.

Lemma fill_view_blocked c : fill_view (note_blocked_streams c) = fill_view c.
Proof.
  unfold note_blocked_streams. rewrite fold_view.
  - case_match; [| done]. destruct (SendFlowControl.take_blocked _) as [[l |] f]; done.
  - intros a id. case_match; [done |]. destruct (om_get id (stream_send_flow a)) as [flow |]; [| done].
    destruct (StreamSendFlow.take_blocked flow) as [[l |] f]; done.
Qed.

Lemma wview_control b st : wview (fill_control b st) = wview st.
Proof.
  assert (H1 : forall st, wview (fill_path_response b st) = wview st) by (intros; unfold fill_path_response; repeat case_match; done).
  assert (H2 : forall st, wview (fill_path_challenge b st) = wview st) by (intros; unfold fill_path_challenge; repeat case_match; done).
  assert (H3 : forall st, wview (fill_handshake_done st) = wview st) by (intros; unfold fill_handshake_done; by case_match).
  assert (H4 : forall st, wview (fill_reset_stream_frames b st) = wview st) by (intros; by apply wview_map).
  assert (H5 : forall st, wview (fill_stop_sending_frames b st) = wview st) by (intros; by apply wview_map).
  assert (H6 : forall d st, wview (fill_max_streams d b st) = wview st) by (intros []; intros; unfold fill_max_streams; repeat case_match; done).
  assert (H7 : forall d st, wview (fill_streams_blocked d b st) = wview st) by (intros []; intros; unfold fill_streams_blocked; repeat case_match; done).
  assert (H8 : forall st, wview (fill_new_token b st) = wview st) by (intros; unfold fill_new_token; repeat case_match; done).
  unfold fill_control.
  rewrite wview_datagrams, H8, !H7, !H6, wview_retire_cids, wview_new_cids, H5, H4, wview_flow_control, H3, H2, H1. done.
Qed.

Lemma wview_fview st st' : wview st' = wview st -> fview st' = fview st.
Proof. exact (fun H => f_equal fst H). Qed.

Lemma fview_application b st : fview (fill_application b st) = fview st.
Proof.
  transitivity (fview (fill_control b st)); [| apply wview_fview, wview_control].
  unfold fill_application, fill_stream_frames. generalize (fill_control b st). intros st1.
  unfold with_conn. cbn [f_conn]. by rewrite fill_view_blocked, fview_streams_loop.
Qed.

Lemma wview_pings kind st : wview (fill_pings kind st) = wview st.
Proof.
  unfold fill_pings. destruct (0 <? _); destruct (negb (f_eliciting st)); simpl; repeat case_match; done.
Qed.

Lemma fill_view_payload c kind b : fview (fill_payload c kind b) = fill_view c.
Proof.
  unfold fill_payload. set (st := fill_crypto _ _ _).
  assert (H : fview st = fview (mkFill c [] [] false)) by (apply wview_fview; subst st; by rewrite wview_crypto, wview_ack).
  change (fill_view c) with (fview (mkFill c [] [] false)). rewrite <- H. generalize st. clear. intros st.
  destruct (probe_mtu (f_conn st)) as [sz |]; destruct (bool_decide (kind = SkApplication) && pending_mtu_probe (f_conn st));
    try done; rewrite (wview_fview _ _ (wview_pings _ _)); case_match; rewrite ?fview_application; done.
Qed.

(** ** Lemmas: packet numbers and bytes in flight *)

Definition next_of (c : conn) (kind : SpaceKind) : Z :=
  match kind with
  | SkInitial => next_packet_number (initial c)
  | SkHandshake => next_packet_number (handshake c)
  | SkApplication => next_packet_number (application c)
  end.

(** The stores agree with the controller, and every number in use is below the next one. *)
Record sending_with (I : CongestionController -> Prop) (c : conn) : Prop := {
  so_flight : flight_with I (sent_packets c) (congestion c);
  so_fresh : forall kind pn p, om_get pn (sent (sent_at c (kind_nat kind))) = Some p -> pn < next_of c kind;
  so_range : forall kind, 0 <= next_of c kind
}.

#[global] Arguments so_flight {I} c _.
#[global] Arguments so_fresh {I} c _.
#[global] Arguments so_range {I} c _.

Definition sending_ok : conn -> Prop := sending_with ctl_inv.

(** At most [k] packets were sent between two states, under new packet numbers. *)
Definition sends_with (I : CongestionController -> Prop) (k : Z) (c c' : conn) : Prop :=
  sending_with I c -> (forall kind, next_of c kind + k < 2 ^ 62) -> stores_flight (sent_packets c) + k * 2 ^ 16 < 2 ^ 59 ->
  sending_with I c' /\ (forall kind, next_of c kind <= next_of c' kind <= next_of c kind + k) /\
  stores_flight (sent_packets c') <= stores_flight (sent_packets c) + k * 2 ^ 16 /\
  (forall kind pn p, om_get pn (sent (sent_at c' (kind_nat kind))) = Some p ->
     om_get pn (sent (sent_at c (kind_nat kind))) = Some p \/ next_of c kind <= pn).

(** Whatever the invariant of the controller. *)
Definition sends (k : Z) (c c' : conn) : Prop := forall I, CtlSends I -> sends_with I k c c'.

Lemma next_of_pns c c' : pns c' = pns c -> forall kind, next_of c' kind = next_of c kind.
Proof. intros [= E1 E2 E3] []; done. Qed.

Lemma sends_with_same I c c' : cc_view c' = cc_view c -> pns c' = pns c -> sends_with I 0 c c'.
Proof.
  intros Hc Hp Hok _ _. pose proof (next_of_pns _ _ Hp) as Hn. injection Hc as H1 H2. destruct Hok as [Hf Hfr Hr].
  assert (Hat : forall i, sent_at c' i = sent_at c i) by (intros; unfold sent_at; by rewrite H1).
  split_and!.
  - split; [by rewrite H1, H2 | intros kind pn p; rewrite Hat, Hn; apply Hfr | intros; by rewrite Hn].
  - intros kind. rewrite Hn. lia.
  - rewrite H1. lia.
  - intros kind pn p. rewrite Hat. by left.
Qed.

Lemma sends_same c c' : cc_view c' = cc_view c -> pns c' = pns c -> sends 0 c c'.
Proof. intros Hc Hp I _. by apply sends_with_same. Qed.

Lemma sends_with_trans I k1 k2 c c1 c2 :
  0 <= k1 -> 0 <= k2 -> sends_with I k1 c c1 -> sends_with I k2 c1 c2 -> sends_with I (k1 + k2) c c2.
Proof.
  intros H1 H2 S1 S2 Hok Hn Hf. destruct S1 as (Hok1 & Hn1 & Hf1 & Hg1); [done | | lia |].
  { intros kind. specialize (Hn kind). lia. }
  destruct S2 as (Hok2 & Hn2 & Hf2 & Hg2); [done | | lia |].
  { intros kind. specialize (Hn kind). specialize (Hn1 kind). lia. }
  split_and!; [done | | lia |].
  - intros kind. specialize (Hn1 kind). specialize (Hn2 kind). lia.
  - intros kind pn p Hp. specialize (Hn1 kind). destruct (Hg2 kind pn p Hp) as [H | H]; [by apply Hg1 | right; lia].
Qed.

Lemma sends_trans k1 k2 c c1 c2 : 0 <= k1 -> 0 <= k2 -> sends k1 c c1 -> sends k2 c1 c2 -> sends (k1 + k2) c c2.
Proof. intros H1 H2 S1 S2 I HI. by apply (sends_with_trans I k1 k2 c c1 c2); [| | apply S1 | apply S2]. Qed.

Lemma sends_weaken k k' c c' : k <= k' -> sends k c c' -> 0 <= k -> sends k' c c'.
Proof.
  intros Hk S H0 I HI Hok Hn Hf. destruct (S I HI) as (Hok1 & Hn1 & Hf1 & Hg1); [done | | lia |].
  { intros kind. specialize (Hn kind). lia. }
  split_and!; [done | | lia | done]. intros kind. specialize (Hn1 kind). lia.
Qed.

(** Taking a packet number and nothing else. *)
Lemma sends_number c c' kind :
  cc_view c' = cc_view c -> next_of c' kind = u64_add (next_of c kind) 1 ->
  (forall k, k <> kind -> next_of c' k = next_of c k) -> sends 1 c c'.
Proof.
  intros Hc Hk Ho I _ Hok Hn _. injection Hc as H1 H2. destruct Hok as [Hf Hfr Hr].
  assert (Hat : forall i, sent_at c' i = sent_at c i) by (intros; unfold sent_at; by rewrite H1).
  assert (Hnx : forall k, next_of c k <= next_of c' k <= next_of c k + 1).
  { intros k. destruct (decide (k = kind)) as [-> | Hne]; [| rewrite (Ho k Hne); lia].
    specialize (Hn kind). specialize (Hr kind). rewrite Hk, u64_add_small; [lia |]. unfold is_u64. lia. }
  split_and!; [| done | rewrite H1; lia | intros k pn p; rewrite Hat; by left].
  split; [by rewrite H1, H2 | |].
  - intros k pn p. rewrite Hat. intros H%Hfr. specialize (Hnx k). lia.
  - intros k. specialize (Hnx k). specialize (Hr k). lia.
Qed.

Lemma flight_ok_sent I l cc (idx : nat) s p cc' :
  flight_with I l cc -> l !! idx = Some s -> om_get (sp_packet_number p) (sent s) = None ->
  0 <= sp_packet_number p < 2 ^ 62 -> packet_sized p -> stores_flight l + flight p < 2 ^ 59 ->
  I cc' -> ctl_bytes_in_flight cc' = ctl_bytes_in_flight cc + flight p ->
  flight_with I (<[idx := on_packet_sent s p]> l) cc' /\
  stores_flight (<[idx := on_packet_sent s p]> l) = stores_flight l + flight p.
Proof.
  intros [F1 F2 F3 F4 F5 F6] Hs Hn Hpn Hsz Hsm Hinv Hb.
  pose proof (om_values_insert _ p _ Hn) as Hperm.
  assert (Hst : stores_flight (<[idx := on_packet_sent s p]> l) = stores_flight l + flight p).
  { rewrite (stores_flight_insert l idx s) by done. unfold store_flight at 2. simpl.
    rewrite (flight_bytes_perm _ _ Hperm). simpl. unfold store_flight. lia. }
  split; [| done]. split; [by rewrite length_insert | | | done | lia | lia].
  - apply Forall_insert; [done |]. apply sent_wf_sent; [| done]. by apply (proj1 (Forall_lookup _ _) F2 idx).
  - apply Forall_insert; [done |]. simpl. rewrite Hperm. constructor; [done |]. by apply (proj1 (Forall_lookup _ _) F3 idx).
Qed.

Lemma kind_nat_lt kind : (kind_nat kind < 3)%nat.
Proof. destruct kind; simpl; lia. Qed.

Lemma kind_nat_inj k k' : kind_nat k = kind_nat k' -> k = k'.
Proof. by destruct k, k'. Qed.

Lemma sent_at_insert (l : list SentPackets) (i j : nat) s' :
  (i < length l)%nat -> nth j (<[i := s']> l) sent_new = if decide (j = i) then s' else nth j l sent_new.
Proof.
  intros Hi. case_decide as Hji; [subst j |].
  - apply nth_lookup_Some. by apply list_lookup_insert_eq.
  - rewrite !nth_lookup. by rewrite list_lookup_insert_ne.
Qed.

(** A store with one more packet, at the number taken between two states. *)
Lemma record_ok I c c1 kind s p c' :
  sending_with I c1 -> (forall k, next_of c k <= next_of c1 k <= next_of c k + 1) ->
  (forall k pn q, om_get pn (sent (sent_at c1 (kind_nat k))) = Some q ->
     om_get pn (sent (sent_at c (kind_nat k))) = Some q \/ next_of c k <= pn) ->
  sent_at c1 (kind_nat kind) = s -> sp_packet_number p = next_of c kind -> next_of c kind < next_of c1 kind ->
  sent_packets c' = <[kind_nat kind := on_packet_sent s p]> (sent_packets c1) ->
  (forall k, next_of c' k = next_of c1 k) -> flight_with I (sent_packets c') (congestion c') ->
  sending_with I c' /\ (forall k, next_of c k <= next_of c' k <= next_of c k + 1) /\
  (forall k pn q, om_get pn (sent (sent_at c' (kind_nat k))) = Some q ->
     om_get pn (sent (sent_at c (kind_nat k))) = Some q \/ next_of c k <= pn).
Proof.
  intros Hok1 Hx1 Hg1 Hat Hpn Hlt Hsp Hnx Hfl.
  assert (Hl : (kind_nat kind < length (sent_packets c1))%nat).
  { rewrite (fo_three _ _ (so_flight _ Hok1)). apply kind_nat_lt. }
  assert (Hget : forall k pn q, om_get pn (sent (sent_at c' (kind_nat k))) = Some q ->
            om_get pn (sent (sent_at c1 (kind_nat k))) = Some q \/ (k = kind /\ pn = next_of c kind)).
  { intros k pn q. unfold sent_at at 1. rewrite Hsp, sent_at_insert by done. case_decide as Hk.
    - apply kind_nat_inj in Hk as ->. simpl. rewrite om_get_insert, Hpn. destruct (Z.eqb_spec pn (next_of c kind)); [by right |].
      rewrite <- Hat. by left.
    - by left. }
  split_and!.
  - split; [done | | intros k; rewrite Hnx; apply (so_range _ Hok1)].
    intros k pn q [H | [-> ->]]%Hget; rewrite Hnx; [by eapply (so_fresh _ Hok1) | done].
  - intros k. rewrite Hnx. apply Hx1.
  - intros k pn q [H | [-> ->]]%Hget; [by apply Hg1 | right; lia].
Qed.

(** Recording the packet whose number was just taken. *)
Lemma sends_record c c1 now kind bytes frames ae :
  sends 1 c c1 -> cc_view c1 = cc_view c -> next_of c1 kind = u64_add (next_of c kind) 1 -> 0 <= bytes < 2 ^ 16 ->
  sends 1 c (record_sent c1 now kind (next_of c kind) bytes frames ae).
Proof.
  intros S1 Hcc Hn1 Hb I HI Hok Hn Hf. destruct (S1 I HI Hok Hn Hf) as (Hok1 & Hx1 & Hf1 & Hg1).
  injection Hcc as H1 H2. pose proof (so_flight _ Hok1) as Hfl. pose proof (so_fresh _ Hok) as Hfr.
  pose proof (so_range _ Hok kind) as Hr. specialize (Hn kind) as Hnk.
  destruct (lookup_lt_is_Some_2 (sent_packets c1) (kind_nat kind)) as [s Hs].
  { rewrite (fo_three _ _ Hfl). apply kind_nat_lt. }
  assert (Hat : sent_at c1 (kind_nat kind) = s) by (by apply nth_lookup_Some).
  assert (Hnone : om_get (next_of c kind) (sent s) = None).
  { destruct (om_get (next_of c kind) (sent s)) as [q |] eqn:E; [| done]. exfalso.
    assert (Hc : sent_at c (kind_nat kind) = s) by (unfold sent_at in *; by rewrite <- H1).
    specialize (Hfr kind (next_of c kind) q). rewrite Hc in Hfr. specialize (Hfr E). lia. }
  unfold record_sent.
  set (in_flight := if is_mtu_probe frames then false else ae).
  set (c2 := c1 <| packets_sent ::= fun n => u64_add n 1 |> <| bytes_sent ::= fun n => u64_add n bytes |>).
  assert (Hacc : exists rs cc', (if in_flight then let '(r, cc) := ctl_on_packet_sent (congestion c2) bytes now in (r, c2 <| congestion := cc |>)
             else (None, c2)) = (rs, c2 <| congestion := cc' |>) /\ I cc' /\
             ctl_bytes_in_flight cc' = ctl_bytes_in_flight (congestion c1) + (if in_flight then bytes else 0)).
  { pose proof (fo_bytes _ _ Hfl) as Hbf. pose proof (fo_small _ _ Hfl) as Hsm.
    pose proof (stores_flight_nonneg _ (fo_sized _ _ Hfl)) as Hnn. destruct in_flight.
    - pose proof (cl_sent (congestion c1) bytes now (fo_inv _ _ Hfl) ltac:(lia) ltac:(lia)) as Hi.
      pose proof (ctl_sent_bytes (congestion c1) bytes now ltac:(lia) ltac:(lia) ltac:(lia)) as Hbytes.
      change (congestion c2) with (congestion c1). destruct (ctl_on_packet_sent (congestion c1) bytes now) as [r cc].
      by exists r, cc.
    - exists None, (congestion c1). split_and!; [by destruct c1 | apply (fo_inv _ _ Hfl) | lia]. }
  destruct Hacc as (rs & cc' & -> & Hinv & Hbytes). cbv iota beta zeta.
  assert (Hat2 : sent_at (c2 <| congestion := cc' |>) (kind_nat kind) = s) by exact Hat.
  set (p := mkSentPacket (next_of c kind) now ae in_flight bytes frames rs).
  assert (Hflight : flight p = if in_flight then bytes else 0) by done.
  assert (Hle : 0 <= flight p <= bytes) by (rewrite Hflight; destruct in_flight; lia).
  destruct (flight_ok_sent I (sent_packets c1) (congestion c1) (kind_nat kind) s p cc' Hfl Hs Hnone) as [Hfl' Hst'];
    [simpl; lia | exact Hb | rewrite H1; lia | done | by rewrite Hbytes |].
  destruct (ae || negb (SendStream.is_nil frames)) eqn:Erec; [rewrite Hat2 |].
  - destruct (record_ok I c c1 kind s p (put_sent (kind_nat kind) (on_packet_sent s p) (c2 <| congestion := cc' |>)))
      as (R1 & R2 & R3); try done.
    { rewrite Hn1, u64_add_small; [lia |]. unfold is_u64. lia. }
    split_and!; [exact R1 | exact R2 | | exact R3].
    change (sent_packets (put_sent _ _ _)) with (<[kind_nat kind := on_packet_sent s p]> (sent_packets c1)).
    rewrite Hst', H1. lia.
  - assert (Ein : in_flight = false) by (subst in_flight; destruct ae; [done |]; by destruct (is_mtu_probe frames)).
    rewrite Ein in Hbytes. split_and!; [| exact Hx1 | exact Hf1 | exact Hg1].
    destruct Hok1 as [_ Hfr1 Hr1]. split; [| exact Hfr1 | exact Hr1].
    destruct Hfl as [F1 F2 F3 F4 F5 F6]. split; try done. simpl. lia.
Qed.

(** ** Lemmas: sealing and writing packets *)

Definition seal_spec (kind : SpaceKind) (c : conn) (out : list Z) (r : option (Z * (list Z * bool))) (c' : conn) : Prop :=
  (cc_view c' = cc_view c /\ recov_view c' = recov_view c) /\ core_view c' = core_view c /\ next_of c' kind = u64_add (next_of c kind) 1 /\
  (forall k, k <> kind -> next_of c' k = next_of c k) /\
  match r with Some (pn, (out', _)) => pn = next_of c kind /\ (length out <= length out')%nat | None => True end.

Lemma seal_short_spec c payload out : seal_spec SkApplication c out (seal_short c payload out).1 (seal_short c payload out).2.
Proof.
  unfold seal_short, next_pn, local_keys. cbn [keys].
  destruct (keys (application c)) as [k |] eqn:Ek; cbn [fmap option_fmap option_map].
  - match goal with |- context [build_short_packet ?d ?p ?y ?k ?h] =>
      pose proof (build_short_grows d p y k h) as Hg; destruct (build_short_packet d p y k h) as [out' r] end.
    repeat split; try done; [by unfold core_view, key_view; simpl; rewrite Ek | by intros []].
  - repeat split; try done; [by unfold core_view, key_view; simpl; rewrite Ek | by intros []].
Qed.

Definition long_kind (t : LongType) : SpaceKind := match t with LT_Initial => SkInitial | _ => SkHandshake end.

Lemma seal_long_spec c t token payload out :
  seal_spec (long_kind t) c out (seal_long c t token payload out).1 (seal_long c t token payload out).2.
Proof.
  unfold seal_long, next_pn, local_keys. destruct t;
    (match goal with |- context [keys ?s] => destruct (keys s) as [k |] eqn:Ek end;
     cbn [fmap option_fmap option_map];
     [match goal with |- context [build_long_packet ?d ?p ?y ?k ?h] =>
        pose proof (build_long_grows d p y k h) as Hg; destruct (build_long_packet d p y k h) as [out' r] end |];
     repeat split; try done; by intros []).
Qed.

Lemma before_short_views c now :
  (cc_view (before_short c now) = cc_view c /\ recov_view (before_short c now) = recov_view c) /\ pns (before_short c now) = pns c /\
  life_view (before_short c now) = life_view c /\ route_view (before_short c now) = route_view c.
Proof.
  unfold before_short, initiate_key_update_now, rotate_keys. destruct (key_update_pending c); [| done]. simpl.
  destruct (one_rtt_secrets c) as [sec |]; [| done]. destruct (next_packet_keys sec) as [nk sec']. simpl.
  destruct (next_1rtt_keys c) as [ne |]; [| done]. unfold rotate_to_next_epoch.
  destruct (keys (application c)) as [k |]; done.
Qed.

Lemma record_sent_recov c now kind pn bytes frames ae : recov_view (record_sent c now kind pn bytes frames ae) = recov_view c.
Proof.
  unfold record_sent. destruct (if is_mtu_probe frames then false else ae);
    [destruct (ctl_on_packet_sent _ _ _) as [r cc] |]; destruct (ae || _); done.
Qed.

Lemma record_sent_core c now kind pn bytes frames ae : core_view (record_sent c now kind pn bytes frames ae) = core_view c.
Proof.
  unfold record_sent. destruct (if is_mtu_probe frames then false else ae);
    [destruct (ctl_on_packet_sent _ _ _) as [r cc] |]; destruct (ae || _); done.
Qed.

Lemma fill_view_split c c' : fill_view c' = fill_view c -> cc_view c' = cc_view c /\ pns c' = pns c /\ core_view c' = core_view c.
Proof.
  unfold fill_view, num_view. generalize (cc_view c') (cc_view c) (pns c') (pns c) (recov_view c') (recov_view c) (core_view c') (core_view c) (mtu_view c') (mtu_view c).
  intros a b d e f g h i j k H. by simplify_eq.
Qed.

Lemma fill_view_recov c c' : fill_view c' = fill_view c -> recov_view c' = recov_view c.
Proof. exact (fun H => f_equal (fun v => v.1.2.2) H). Qed.

(** Writing does not touch loss recovery, and records nothing when it reports that
    nothing was written. *)
Record unsent (b : bool) (c c' : conn) : Prop := {
  un_recov : recov_view c' = recov_view c;
  un_sent : b = false -> sent_packets c' = sent_packets c
}.

Lemma unsent_trans b1 b2 c c1 c2 : unsent b1 c c1 -> unsent b2 c1 c2 -> unsent (b1 || b2) c c2.
Proof. intros [A1 B1] [A2 B2]. split; [congruence |]. intros [-> ->]%orb_false_iff. by rewrite B2, B1. Qed.

Lemma unsent_cc b c c' : recov_view c' = recov_view c -> cc_view c' = cc_view c -> unsent b c c'.
Proof. intros H [= E _]. by split. Qed.

Lemma core_view_split c c' : core_view c' = core_view c -> life_view c' = life_view c /\ route_view c' = route_view c.
Proof.
  unfold core_view. generalize (life_view c') (life_view c) (route_view c') (route_view c).
  intros a b d e H. apply (f_equal (fun x => x.1.1)) in H. simpl in H. by simplify_eq.
Qed.

Lemma write_space_packet_spec c now kind out b out' c' :
  write_space_packet c now kind out (bool_decide (kind = SkApplication)) = (b, (out', c')) ->
  (length out <= length out')%nat /\ (life_view c' = life_view c /\ unsent b c c') /\ route_view c' = route_view c /\
  ((b = true -> len out' < 2 ^ 16) -> sends 1 c c').
Proof.
  unfold write_space_packet. set (rem := sat_sub _ _). destruct (rem <? 64).
  { intros [= _ <- <-]. split_and!; try done. intros _. by apply (sends_weaken 0); [| apply sends_same |]. }
  pose proof (fill_view_payload c kind rem) as Hv. revert Hv. generalize (fill_payload c kind rem). intros st Hv.
  pose proof (fill_view_recov _ _ Hv) as Hrv. apply fill_view_split in Hv as (Hcc & Hpn & Hcore). apply core_view_split in Hcore as [Hlife Hpath].
  destruct (bool_decide (f_payload st = [])).
  { intros [= _ <- <-]. split_and!; try done; [by apply unsent_cc |]. intros _. by apply (sends_weaken 0); [| apply sends_same |]. }
  set (c1 := if bool_decide (kind = SkApplication) then before_short (f_conn st) now else f_conn st).
  assert (H1 : (cc_view c1 = cc_view c /\ recov_view c1 = recov_view c) /\ pns c1 = pns c /\ life_view c1 = life_view c /\ route_view c1 = route_view c).
  { subst c1. case_bool_decide; [| done]. destruct (before_short_views (f_conn st) now) as ([E1 E0] & E2 & E3 & E4).
    split_and!; congruence. }
  clearbody c1. destruct H1 as ([Hcc1 Hrv1] & Hpn1 & Hlife1 & Hpath1).
  match goal with |- (let '(sealed, c) := ?x in _) = _ -> _ => assert (Hs : seal_spec kind c1 out x.1 x.2) end.
  { destruct kind; [apply (seal_long_spec c1 LT_Initial) | apply (seal_long_spec c1 LT_Handshake) | apply seal_short_spec]. }
  match goal with |- (let '(sealed, c) := ?x in _) = _ -> _ => destruct x as [sealed c2] end.
  destruct Hs as ([S1 S0] & S2 & S3 & S4 & S5). cbn [fst snd] in S0, S1, S2, S3, S4, S5.
  assert (Hun : forall b, unsent b c c2) by (intros; apply unsent_cc; congruence). apply core_view_split in S2 as [S2 S2'].
  pose proof (next_of_pns _ _ Hpn1) as Hnx.
  assert (Hnum : sends 1 c c2).
  { apply (sends_number c c2 kind); [congruence | by rewrite S3, Hnx |]. intros k Hk. by rewrite (S4 k Hk), Hnx. }
  destruct sealed as [[pn [o []]] |].
  - destruct S5 as [-> Hlen]. intros [= <- <- <-].
    pose proof (record_sent_core c2 now kind (next_of c1 kind) (len o - len out) (f_frames st) (f_eliciting st)) as Hr.
    pose proof (record_sent_recov c2 now kind (next_of c1 kind) (len o - len out) (f_frames st) (f_eliciting st)) as Hrr.
    apply core_view_split in Hr as [Hr Hr']. split_and!; [done | congruence | split; [congruence | done] | congruence |]. intros Hsmall%(fun f => f eq_refl).
    rewrite Hnx. apply (sends_record c c2); [done | congruence | by rewrite S3, Hnx | lia].
  - destruct S5 as [_ Hlen]. intros [= <- <- <-]. split_and!; [done | congruence | done | congruence | done].
  - intros [= <- <- <-]. split_and!; [done | congruence | done | congruence | done].
Qed.

(** Between two states at most [k] packets were sent ([b]: any was recorded); the
    output grew; the life-cycle and path fields are untouched. *)
Definition wrote (k : Z) (b : bool) (c : conn) (out out' : list Z) (c' : conn) : Prop :=
  (length out <= length out')%nat /\ (life_view c' = life_view c /\ unsent b c c') /\ route_view c' = route_view c /\
  ((b = true -> len out' < 2 ^ 16) -> sends k c c').

Lemma wrote_none b c out : wrote 0 b c out out c.
Proof. split_and!; try done. intros _. by apply sends_same. Qed.

Lemma wrote_trans k1 k2 b1 b2 c c1 c2 o o1 o2 :
  0 <= k1 -> 0 <= k2 -> wrote k1 b1 c o o1 c1 -> wrote k2 b2 c1 o1 o2 c2 -> wrote (k1 + k2) (b1 || b2) c o o2 c2.
Proof.
  intros H1 H2 (L1 & [A1 U1] & B1 & S1) (L2 & [A2 U2] & B2 & S2).
  split_and!; [lia | congruence | by eapply unsent_trans | congruence |].
  intros Hs. apply (sends_trans k1 k2 c c1 c2); [done | done | apply S1 | apply S2]; intros ->.
  - specialize (Hs eq_refl). lia.
  - rewrite orb_true_r in Hs. by apply Hs.
Qed.

Lemma wrote_more k k' b c o o' c' : 0 <= k <= k' -> wrote k b c o o' c' -> wrote k' b c o o' c'.
Proof. intros Hk (L & [A U] & B & S). split_and!; try done. intros Hs. apply (sends_weaken k); [lia | by apply S | lia]. Qed.

Lemma wrote_seal kind b c out r c' out' :
  seal_spec kind c out r c' -> match r with Some (_, (o, _)) => out' = o | None => out' = out end ->
  wrote 1 b c out out' c'.
Proof.
  intros ([S1 S0] & S2 & S3 & S4 & S5) Ho. apply core_view_split in S2 as [S2 S2']. split_and!; [| done | by apply unsent_cc | done |].
  - destruct r as [[pn [o x]] |]; subst out'; [by destruct S5 | done].
  - intros _. by apply (sends_number c c' kind).
Qed.

Lemma wrote_zero_rtt c out b out' c' : write_zero_rtt_packet c out = (b, (out', c')) -> wrote 1 b c out out' c'.
Proof.
  assert (Hn : forall b, wrote 1 b c out out c) by (intros b0; apply (wrote_more 0); [lia | apply wrote_none]).
  unfold write_zero_rtt_packet. destruct (negb _ || _ || _ || _); [by intros [= _ <- <-] |].
  destruct (zero_rtt_keys c) as [ks |]; [| by intros [= _ <- <-]]. case_bool_decide; [by intros [= _ <- <-] |].
  unfold next_pn.
  match goal with |- context [build_long_packet ?d ?p ?y ?k ?h] =>
    pose proof (build_long_grows d p y k h) as Hg; destruct (build_long_packet d p y k h) as [o [n | e]] end;
    intros [= _ <- <-]; (split_and!; [exact Hg | done | by apply unsent_cc | done |]); intros _;
    (apply (sends_number c _ SkApplication); [done | done | by intros []]).
Qed.

Lemma wrote_close c out r out' c' : emit_close c out = (r, (out', c')) -> wrote 1 false c out out' c'.
Proof.
  unfold emit_close. assert (Ht : (cc_view (take_close_frame c).2 = cc_view c /\ recov_view (take_close_frame c).2 = recov_view c) /\ pns (take_close_frame c).2 = pns c /\
    life_view (take_close_frame c).2 = life_view c /\ route_view (take_close_frame c).2 = route_view c).
  { unfold take_close_frame. repeat case_match; done. }
  destruct (take_close_frame c) as [frame c1]. cbn [snd] in Ht. destruct Ht as ([T1 T0] & T2 & T3 & T4).
  assert (H1 : wrote 0 false c out out c1) by (split_and!; [done | done | by apply unsent_cc | done |]; intros _; by apply sends_same).
  destruct frame as [f |]; [| intros [= _ <- <-]; by apply (wrote_more 0)].
  match goal with |- (let '(sealed, c) := ?x in _) = _ -> _ => assert (Hs : exists kind, seal_spec kind c1 out x.1 x.2) end.
  { destruct (one_rtt_ready c); [by exists SkApplication; apply seal_short_spec |].
    destruct (handshake_keys_ready c1); [by eexists; apply (seal_long_spec c1 LT_Handshake) | by eexists; apply (seal_long_spec c1 LT_Initial)]. }
  match goal with |- (let '(sealed, c) := ?x in _) = _ -> _ => destruct x as [sealed c2] end.
  destruct Hs as [kind Hs]. cbn [fst snd] in Hs.
  assert (H2 : match sealed with Some (_, (o, _)) => out' = o | None => out' = out end -> wrote 1 false c out out' c2).
  { intros Ho. apply (wrote_trans 0 1 false false c c1 c2 out out out'); [lia | lia | done |]. by eapply wrote_seal. }
  destruct sealed as [[pn [o x]] |]; intros [= _ E <-]; apply H2; by subst.
Qed.

Lemma fill_view_advance c : fill_view (advance_recv_flow c) = fill_view c.
Proof.
  unfold advance_recv_flow. destruct (RecvFlowControl.maybe_update _) as [m f]. rewrite fold_view.
  - by destruct m.
  - intros a id. destruct (om_get id (stream_recv_flow a)) as [flow |]; [| done].
    destruct (StreamRecvFlow.maybe_update flow) as [[x |] g]; done.
Qed.

Lemma wrote_packets c now out r out' c' : write_packets c now out = (r, (out', c')) -> wrote 4 r.2 c out out' c'.
Proof.
  assert (Hsp : forall c kind out (g : bool) b out' c',
    (if g then write_space_packet c now kind out (bool_decide (kind = SkApplication)) else (false, (out, c))) = (b, (out', c')) ->
    wrote 1 b c out out' c').
  { intros c0 kind o [] b o' c1; [apply write_space_packet_spec | intros [= _ <- <-]; apply (wrote_more 0); [lia | apply wrote_none]]. }
  assert (Hz : forall c out (g : bool) b out' c',
    (if g then write_zero_rtt_packet c out else (false, (out, c))) = (b, (out', c')) -> wrote 1 b c out out' c').
  { intros c0 o [] b o' c1; [apply wrote_zero_rtt | intros [= _ <- <-]; apply (wrote_more 0); [lia | apply wrote_none]]. }
  unfold write_packets.
  match goal with |- (let '(w, p) := ?x in _) = _ -> _ => destruct x as [b1 [o1 c1]] eqn:E1 end.
  apply (Hsp c SkInitial) in E1.
  match goal with |- (let '(w, p) := ?x in _) = _ -> _ => destruct x as [b2 [o2 c2]] eqn:E2 end.
  apply (Hsp c1 SkHandshake) in E2.
  match goal with |- (let '(w, p) := ?x in _) = _ -> _ => destruct x as [b3 [o3 c3]] eqn:E3 end.
  apply Hz in E3.
  match goal with |- (let '(w, p) := ?x in _) = _ -> _ => destruct x as [b4 [o4 c4]] eqn:E4 end.
  apply (Hsp c3 SkApplication) in E4.
  intros [= <- <- <-]. cbn [snd]. rewrite <- !orb_assoc. change 4 with (1 + (1 + (1 + 1))).
  do 3 (eapply wrote_trans; [lia | lia | eassumption |]). done.
Qed.

(** After the transmit step; the output may have been cut back to what it was. *)
Lemma transmit_packets_spec c now out addr out' c' :
  transmit_packets c now out = (addr, (out', c')) ->
  state c' = state c /\ route_view c' = route_view c /\
  ((is_some addr = true -> len out' < 2 ^ 16) -> sends 4 c c').
Proof.
  unfold transmit_packets. destruct (fill_view_split _ _ (fill_view_advance c)) as (A1 & A2 & A3).
  apply core_view_split in A3 as [A3 A4]. assert (HA : sends 0 c (advance_recv_flow c)) by by apply sends_same.
  destruct (write_packets (advance_recv_flow c) now out) as [[wi wa] [o c1]] eqn:E. apply wrote_packets in E as (L & [B1 _] & B2 & S).
  assert (Hst : state c1 = state c) by (rewrite A3 in B1; by apply (f_equal (fun x => x.1.1.1)) in B1).
  assert (HS : sends 4 (advance_recv_flow c) c1 -> sends 4 c c1).
  { intros HS. apply (sends_trans 0 4 c (advance_recv_flow c) c1); [lia | lia | done | done]. }
  destruct wa; cbn [negb].
  2: { intros [= <- <- <-]. split_and!; [done | congruence |]. intros _. by apply HS, S. }
  set (c2 := set_loss_detection_timer (arm_idle_timer c1 now)). set (o2 := if _ && _ && _ then _ else o).
  assert (Hpad : (length o <= length o2)%nat).
  { subst o2. case_match; [| done]. unfold pad_to. rewrite length_app. lia. }
  assert (H2 : cc_view c2 = cc_view c1 /\ pns c2 = pns c1 /\ state c2 = state c1 /\ route_view c2 = route_view c1).
  { subst c2. unfold set_loss_detection_timer, arm_idle_timer, arm_keep_alive. repeat case_match; done. }
  clearbody c2 o2. destruct H2 as (H2 & H3 & H4 & H5). intros [= <- <- <-]. split_and!; [congruence | congruence |].
  intros Hs%(fun f => f eq_refl). apply (sends_trans 4 0 c c1 c2); [lia | lia | apply HS, S; intros _; lia |]. by apply sends_same.
Qed.

(** ** Lemmas: the pump does not send *)

Lemma sends_pump c clock : sends 0 c (pump_write_hs c clock).
Proof.
  pose proof (pump_view_pump c clock) as H.
  apply sends_same; [exact (f_equal (fun v => v.1.1.2) H) | exact (f_equal (fun v => v.1.2.1.1) H)].
Qed.

Lemma poll_transmit_sends c now clock out addr out' c' :
  poll_transmit c now clock out = (addr, (out', c')) -> (is_some addr = true -> len out' < 2 ^ 16) -> sends 5 c c'.
Proof.
  unfold poll_transmit. pose proof (sends_pump c clock) as Hp. revert Hp. generalize (pump_write_hs c clock). intros c1 Hp E Hs.
  apply (sends_trans 0 5 c c1 c'); [lia | lia | done |]. clear Hp. revert E. case_bool_decide.
  { intros [= _ _ <-]. apply (sends_weaken 0); [lia | by apply sends_same | lia]. }
  destruct (is_some _ || is_some _).
  - destruct (emit_close c1 out) as [[a |] [o c2]] eqn:Ec; apply wrote_close in Ec as (_ & _ & _ & S).
    + intros [= _ _ <-]. apply (sends_weaken (1 + 0)); [lia | | lia].
      eapply sends_trans; [lia | lia | by apply S | by apply sends_same].
    + intros E%transmit_packets_spec. destruct E as (_ & _ & S2). apply (sends_trans 1 4 c1 c2 c'); [lia | lia | by apply S | by apply S2].
  - intros E%transmit_packets_spec. destruct E as (_ & _ & S2). apply (sends_weaken 4); [lia | by apply S2 | lia].
Qed.

End transmit.

(** ** Properties *)

(** Sending keeps the books and the controller's invariant: whatever [poll_transmit]
    puts into a datagram (an Initial, a Handshake, a 0-RTT and a 1-RTT packet, or a
    close), a connection whose stores and controller agree and whose recorded numbers
    lie below the next ones is one afterwards; next numbers do not go back, and every
    packet recorded by the call carries a number that was not in use before. *)
Theorem transmit_accounting {env : QuicEnv} (c : Connection env) now clock out addr out' c' :
  poll_transmit c now clock out = (addr, (out', c')) -> (is_some addr = true -> len out' < 2 ^ 16) ->
  sending_ok c -> (forall kind, next_of c kind + 5 < 2 ^ 62) -> stores_flight (sent_packets c) + 5 * 2 ^ 16 < 2 ^ 59 ->
  sending_ok c' /\
  (forall kind, next_of c kind <= next_of c' kind) /\
  (forall kind pn p, om_get pn (sent (sent_at c' (kind_nat kind))) = Some p ->
     om_get pn (sent (sent_at c (kind_nat kind))) = Some p \/ next_of c kind <= pn).
Proof.
  intros E Hs Hok Hn Hf. destruct (poll_transmit_sends _ _ _ _ _ _ _ E Hs ctl_inv _ Hok Hn Hf) as (Hok' & Hx & _ & Hg).
  split_and!; [done | intros k; apply Hx | done].
Qed.

(** 0-RTT data is not part of the stream it is written to.  The 0-RTT packet carries
    every early entry as a STREAM frame at offset zero, also the second entry of the
    same stream; it is neither charged to flow control nor recorded for loss
    detection; and when the server accepts it, the sending half of the stream still
    stands at offset zero, so the bytes the application writes next go out over those
    already sent. *)
Theorem early_data_overlaps {env : QuicEnv} (c : Connection env) out out' c' :
  write_zero_rtt_packet c out = (true, (out', c')) ->
  (exists ks pn, zero_rtt_keys c = Some ks /\
     (build_long_packet out (mkBuildLong LT_ZeroRtt QUIC_V1 (peer_cid c) (local_cid c) [] pn (ps_largest_acked (application c)))
        (payload_bytes (map (fun '(id, data, fin) => Stream id 0 fin data) (early_data_buf c))) (dk_packet ks) (dk_header ks)).1 = out') /\
  flow_view c' = flow_view c /\ sent_packets c' = sent_packets c /\
  (forall id more, om_get id (send_streams c) = Some SendStream.new -> is_early_data_accepted (tls c) = true -> more <> [] ->
     exists s, om_get id (send_streams (send_stream (settle_early_data c') id more false).2) = Some s /\
       forall n, len more <= n -> (SendStream.take s n).1 = Some (0, more, false)).
Proof.
  unfold write_zero_rtt_packet. destruct (negb _ || _ || _ || _); [done |]. destruct (zero_rtt_keys c) as [ks |] eqn:Ek; [| done].
  case_bool_decide; [done |]. unfold next_pn.
  match goal with |- context [build_long_packet ?d ?p ?y ?k ?h] =>
    assert (Ey : y = payload_bytes (map (fun '(id, data, fin) => Stream id 0 fin data) (early_data_buf c)));
    [| rewrite <- Ey; destruct (build_long_packet d p y k h) as [o [n | e]] eqn:Eb] end; [| | done].
  { clear. unfold payload_bytes. generalize (@nil Z). induction (early_data_buf c) as [| [[id d] f] l IH]; intros acc; [done |]. apply IH. }
  intros [= <- <-]. split_and!; [exists ks, (next_packet_number (application c)); by split; [| exact (f_equal fst Eb)] | done | done |].
  intros id more Hid Hacc Hm. exists (SendStream.write SendStream.new more false).
  assert (Hs : forall x, tls x = tls c -> send_streams x = send_streams c -> send_streams (settle_early_data x) = send_streams c).
  { intros x E1 E2. unfold settle_early_data. rewrite E1, Hacc. repeat case_match; simpl; done. }
  unfold send_stream. rewrite Hs by done. rewrite Hid. cbn [snd]. split; [simpl; rewrite Hs by done; by rewrite om_get_insert, Z.eqb_refl |].
  intros n' Hn. destruct more as [| x more]; [done |]. unfold SendStream.take.
  cbn [SendStream.write SendStream.new SendStream.reset_code SendStream.resend SendStream.buf SendStream.base SendStream.fin app].
  rewrite Z.min_r by done. destruct (Z.eqb_spec (len (x :: more)) 0) as [H0 | _]; [simpl in H0; lia |]. cbn [fst andb].
  by rewrite firstn_all2 by lia.
Qed.
