(* ===== verification/ConnFlow.v ===== *)
(** * The connection: send-side flow control as an invariant

    One invariant ties together the limits the peer advertised, the credit the
    connection has charged, the send streams with their retransmission queues and
    the stream frames of the packets in flight.  Every operation of the connection
    preserves it, so no run sends stream data beyond the peer's limits
    ([connection/send.rs], [recv.rs], [recovery.rs], [streams.rs]). *)

From S2P Require Import Prelude OrdMap CoreTypes Coding FrameCodec ParamsCodec PacketSpace SentPackets.
From S2P Require Import Streams FlowControl Recovery Congestion Bbr CidPool Packet Multipath Connection.
From S2P Require Import ConnRecovery ConnHandshake ConnRecv ConnSend.

Section flow.
Context {env : QuicEnv}.

Notation conn := (Connection env).

(** ** The invariant *)

(** The highest stream offset charged so far. *)
Definition high (c : conn) (id : Z) : Z :=
  match om_get id (stream_send_flow c) with Some f => StreamSendFlow.data_sent f | None => 0 end.

Definition segment_below (h : Z) (g : SendStream.ResendSegment) : Prop :=
  0 <= SendStream.rs_offset g /\ SendStream.rs_offset g + len (SendStream.rs_data g) <= h.

Definition stream_below (h : Z) (s : SendStream.t) : Prop :=
  0 <= SendStream.base s <= h /\ Forall (segment_below h) (SendStream.resend s).

Definition frame_below (h : Z -> Z) (f : SentFrame) : Prop :=
  match f with SFStream id o _ d => 0 <= o /\ o + len d <= h id | _ => True end.

Definition flow_entry_ok (f : StreamSendFlow.t) : Prop :=
  0 <= StreamSendFlow.data_sent f <= StreamSendFlow.max_stream_data f /\ StreamSendFlow.max_stream_data f <= u64_MAX.

Definition conn_flow_ok (f : SendFlowControl.t) : Prop :=
  0 <= SendFlowControl.data_sent f <= SendFlowControl.max_data f /\ SendFlowControl.max_data f <= u64_MAX.

(** The connection's charge is the sum of the streams' charges. *)
Definition charged (m : BTreeMap StreamSendFlow.t) : Z := foldr (fun f n => StreamSendFlow.data_sent f + n) 0 (om_values m).

Definition balanced (c : conn) : Prop :=
  om_wf (stream_send_flow c) /\ SendFlowControl.data_sent (send_flow c) = charged (stream_send_flow c).

Record flow_ok (c : conn) : Prop := {
  fl_conn : conn_flow_ok (send_flow c);
  fl_stream : forall id f, om_get id (stream_send_flow c) = Some f -> flow_entry_ok f;
  fl_send : forall id s, om_get id (send_streams c) = Some s -> stream_below (high c id) s;
  fl_sent : forall store p f, store ∈ sent_packets c -> p ∈ om_values (sent store) -> f ∈ sp_frames p ->
              frame_below (high c) f;
  fl_limit : 0 <= peer_initial_stream_limit c <= u64_MAX;
  fl_sum : balanced c
}.

(** ** Lemmas: how a step may change it *)

Lemma stream_below_mono h h' s : h <= h' -> stream_below h s -> stream_below h' s.
Proof.
  intros Hh [Hb Hr]. split; [lia |]. eapply Forall_impl; [exact Hr |]. intros g [H1 H2]. split; lia.
Qed.

Lemma frame_below_mono (h h' : Z -> Z) f : (forall id, h id <= h' id) -> frame_below h f -> frame_below h' f.
Proof. intros Hh. destruct f; try done. simpl. specialize (Hh id). lia. Qed.

Lemma charged_insert id f m :
  om_wf m ->
  charged (om_insert id f m) =
  charged m - match om_get id m with Some g => StreamSendFlow.data_sent g | None => 0 end + StreamSendFlow.data_sent f.
Proof.
  induction m as [| [k v] m IH]; [unfold charged; simpl; lia |]. rewrite om_wf_cons. intros [Hw Hk].
  cbn [om_insert om_get]. destruct (Z.ltb_spec id k).
  - rewrite (proj2 (Z.eqb_neq id k)) by lia. assert (Hn : om_get id m = None).
    { destruct (om_get id m) eqn:E; [| done]. assert (Hin : id ∈ om_keys m) by (apply om_keys_get; by rewrite E).
      rewrite Forall_forall in Hk. specialize (Hk id Hin). lia. }
    rewrite Hn. unfold charged. simpl. lia.
  - destruct (Z.eqb_spec id k); [unfold charged; simpl; lia |]. specialize (IH Hw). unfold charged in *. simpl in *. lia.
Qed.

Lemma balanced_insert c c' id f :
  balanced c -> stream_send_flow c' = om_insert id f (stream_send_flow c) ->
  SendFlowControl.data_sent (send_flow c') = SendFlowControl.data_sent (send_flow c) + (StreamSendFlow.data_sent f - high c id) ->
  balanced c'.
Proof.
  intros [Hw Hs] E Hd. split; rewrite E; [by apply om_wf_insert |]. rewrite charged_insert, Hd, Hs by done. unfold high. lia.
Qed.

Lemma flow_ok_step c c' :
  flow_ok c -> (forall id, high c id <= high c' id) ->
  conn_flow_ok (send_flow c') -> (forall id f, om_get id (stream_send_flow c') = Some f -> flow_entry_ok f) ->
  0 <= peer_initial_stream_limit c' <= u64_MAX -> balanced c' ->
  (forall id s, om_get id (send_streams c') = Some s -> om_get id (send_streams c) = Some s \/ stream_below (high c' id) s) ->
  (forall store p f, store ∈ sent_packets c' -> p ∈ om_values (sent store) -> f ∈ sp_frames p ->
     (exists store', store' ∈ sent_packets c /\ p ∈ om_values (sent store')) \/ frame_below (high c') f) ->
  flow_ok c'.
Proof.
  intros [F1 F2 F3 F4 F5 F6] Hh Hc Hs Hl Hb Hst Hsp. split; try done.
  - intros id s Hg. destruct (Hst id s Hg) as [H | H]; [| done]. eapply stream_below_mono; [apply Hh |]. by apply F3.
  - intros store p f H1 H2 H3. destruct (Hsp store p f H1 H2 H3) as [(store' & G1 & G2) | H]; [| done].
    eapply frame_below_mono; [exact Hh |]. by apply (F4 store' p f).
Qed.

(** Nothing of it changed. *)
Lemma flow_ok_core c c' :
  (send_streams c', stream_send_flow c', send_flow c', peer_params c') = (send_streams c, stream_send_flow c, send_flow c, peer_params c) ->
  sent_packets c' = sent_packets c -> flow_ok c -> flow_ok c'.
Proof.
  intros [= E1 E2 E3 E4] E5 [F1 F2 F3 F4 F5 F6].
  assert (Hh : forall id, high c' id = high c id) by (intros; unfold high; by rewrite E2).
  split; rewrite ?E3, ?E5; try done.
  - intros id f. rewrite E2. apply F2.
  - intros id s. rewrite E1, Hh. apply F3.
  - intros store p f H1 H2 H3. apply (frame_below_mono (high c)); [intros; rewrite Hh; lia |]. by eapply F4.
  - unfold peer_initial_stream_limit in *. by rewrite E4.
  - unfold balanced. by rewrite E2, E3.
Qed.

Lemma flow_ok_same c c' : flow_view c' = flow_view c -> sent_packets c' = sent_packets c -> flow_ok c -> flow_ok c'.
Proof. intros [= E1 E2 E3 E4 _]. apply flow_ok_core. congruence. Qed.

(** Only the packets in flight got fewer. *)
Lemma flow_ok_fewer c c' :
  flow_view c' = flow_view c ->
  (forall store p, store ∈ sent_packets c' -> p ∈ om_values (sent store) ->
     exists store', store' ∈ sent_packets c /\ p ∈ om_values (sent store')) -> flow_ok c -> flow_ok c'.
Proof.
  intros [= E1 E2 E3 E4 _] Hp Hok. pose proof Hok as [F1 F2 F3 F4 F5 F6].
  assert (Hh : forall id, high c' id = high c id) by (intros; unfold high; by rewrite E2).
  apply (flow_ok_step c c'); try done; rewrite ?E1, ?E2, ?E3; try done.
  - intros id. by rewrite Hh.
  - unfold peer_initial_stream_limit in *. by rewrite E4.
  - unfold balanced. by rewrite E2, E3.
  - intros id s Hg. by left.
  - intros store p f H1 H2 _. left. by apply (Hp store).
Qed.

(** One send stream was replaced. *)
Lemma flow_ok_stream c id s :
  flow_ok c -> stream_below (high c id) s -> flow_ok (c <| send_streams ::= om_insert id s |>).
Proof.
  intros Hok Hs. pose proof Hok as [F1 F2 F3 F4 F5 F6]. apply (flow_ok_step c); try done.
  - intros id' s' Hg. simpl in Hg. rewrite om_get_insert in Hg. destruct (Z.eqb_spec id' id) as [-> |]; [| by left].
    right. by injection Hg as <-.
  - intros store p f H1 H2 _. left. by exists store.
Qed.

(** One flow-control entry was replaced, its charge unchanged. *)
Lemma flow_ok_entry c id f :
  flow_ok c -> flow_entry_ok f -> high c id = StreamSendFlow.data_sent f ->
  flow_ok (c <| stream_send_flow ::= om_insert id f |>).
Proof.
  intros Hok He Hh. pose proof Hok as [F1 F2 F3 F4 F5 F6]. apply (flow_ok_step c); try done.
  - intros id'. unfold high at 2. simpl. rewrite om_get_insert. destruct (Z.eqb_spec id' id) as [-> |]; [lia |]. unfold high. lia.
  - intros id' f'. simpl. rewrite om_get_insert. destruct (Z.eqb_spec id' id) as [-> |]; [by intros [= <-] | apply F2].
  - eapply balanced_insert; [exact F6 | done | simpl; lia].
  - intros id' s' Hg. by left.
  - intros store p g H1 H2 _. left. by exists store.
Qed.

Lemma stream_below_new h : 0 <= h -> stream_below h SendStream.new.
Proof. intros Hh. split; [simpl; lia |]. apply Forall_nil. exact I. Qed.

Lemma high_nonneg c id : flow_ok c -> 0 <= high c id.
Proof.
  intros Hok. unfold high. destruct (om_get id (stream_send_flow c)) as [f |] eqn:E; [| lia].
  destruct (fl_stream c Hok id f E) as [H _]. lia.
Qed.

Lemma entry_new_ok l : 0 <= l <= u64_MAX -> flow_entry_ok (StreamSendFlow.new l).
Proof. intros H. split; simpl; lia. Qed.

Lemma entry_raise f max :
  flow_entry_ok f -> 0 <= max <= u64_MAX ->
  flow_entry_ok (StreamSendFlow.on_max_stream_data f max) /\
  StreamSendFlow.data_sent (StreamSendFlow.on_max_stream_data f max) = StreamSendFlow.data_sent f.
Proof.
  intros [H1 H2] Hm. unfold StreamSendFlow.on_max_stream_data. destruct (Z.ltb_spec (StreamSendFlow.max_stream_data f) max);
    [| by split]. split; [| done]. split; simpl; lia.
Qed.

Lemma conn_raise f max : conn_flow_ok f -> 0 <= max <= u64_MAX -> conn_flow_ok (SendFlowControl.on_max_data f max).
Proof.
  intros [H1 H2] Hm. unfold SendFlowControl.on_max_data. destruct (Z.ltb_spec (SendFlowControl.max_data f) max); [| by split].
  split; simpl; lia.
Qed.

(** ** Lemmas: taking stream data under credit *)

Lemma take_bounds s max h lim o d f s' :
  SendStream.take s max = (Some (o, d, f), s') -> 0 < max -> stream_below h s -> h <= lim <= u64_MAX ->
  (SendStream.has_resend s = false -> h + max <= lim) ->
  let h' := Z.max h (o + len d) in
  0 <= o /\ h' <= lim /\ stream_below h' s' /\ h' - h <= (if SendStream.has_resend s then 0 else max).
Proof.
  intros Ht Hmax [Hb Hr] Hlim Hfresh. unfold SendStream.take in Ht. unfold u64_MAX in Hlim.
  destruct (SendStream.reset_code s); [done |]. unfold SendStream.has_resend in *.
  destruct (SendStream.resend s) as [| front rest] eqn:Er; cbn [SendStream.is_nil negb] in *.
  - specialize (Hfresh eq_refl). destruct (SendStream.buf s) as [| x l] eqn:Eb.
    + destruct (SendStream.fin s && negb (SendStream.fin_sent s)); [| done]. injection Ht as <- <- <- <-.
      cbn [length Z.of_nat]. rewrite Z.max_l by lia. split_and!; [lia | lia | | lia]. split; [simpl; lia | by apply Forall_nil].
    + set (n := Z.min max (len (x :: l))) in *. assert (Hn : 0 < n) by (subst n; simpl; lia).
      rewrite (proj2 (Z.eqb_neq n 0)) in Ht by lia. injection Ht as <- <- <- <-.
      assert (Hlen : len (take (Z.to_nat n) (x :: l)) = n) by (rewrite length_take; lia).
      rewrite Hlen. split_and!; [lia | lia | | lia]. split; [cbn [SendStream.base]; rewrite u64_add_small; unfold is_u64; lia |].
      by apply Forall_nil.
  - rewrite (proj2 (Z.eqb_neq max 0)) in Ht by lia. apply Forall_cons in Hr as [[Ho He] Hr].
    destruct (Z.leb_spec (len (SendStream.rs_data front)) max); injection Ht as <- <- <- <-.
    + rewrite Z.max_l by lia. split_and!; [done | lia | | lia]. by split.
    + assert (Hlen : len (take (Z.to_nat max) (SendStream.rs_data front)) = max) by (rewrite length_take; lia).
      rewrite Hlen, Z.max_l by lia. split_and!; [done | lia | | lia]. split; [done |]. apply Forall_cons. split; [| done].
      split; cbn [SendStream.rs_offset SendStream.rs_data]; rewrite u64_add_small by (unfold is_u64; lia); [lia |].
      rewrite length_drop. lia.
Qed.

(** A stream moved on together with its flow-control entry and the connection's. *)
Lemma flow_ok_taken c c' id s' f' :
  flow_ok c -> send_streams c' = om_insert id s' (send_streams c) ->
  stream_send_flow c' = om_insert id f' (stream_send_flow c) ->
  sent_packets c' = sent_packets c -> peer_params c' = peer_params c -> conn_flow_ok (send_flow c') ->
  SendFlowControl.data_sent (send_flow c') =
    SendFlowControl.data_sent (send_flow c) + (StreamSendFlow.data_sent f' - high c id) ->
  flow_entry_ok f' -> high c id <= StreamSendFlow.data_sent f' -> stream_below (StreamSendFlow.data_sent f') s' ->
  flow_ok c' /\ (forall id', high c id' <= high c' id') /\ high c' id = StreamSendFlow.data_sent f'.
Proof.
  intros Hok E1 E2 E3 E4 Hc Hd He Hh Hs.
  assert (Hid : high c' id = StreamSendFlow.data_sent f').
  { unfold high. by rewrite E2, om_get_insert, Z.eqb_refl. }
  assert (Hmono : forall id', high c id' <= high c' id').
  { intros id'. destruct (Z.eqb_spec id' id) as [-> | Hne]; [by rewrite Hid |]. unfold high. rewrite E2, om_get_insert.
    by rewrite (proj2 (Z.eqb_neq id' id)). }
  split_and!; [| done | done]. apply (flow_ok_step c); try done.
  - intros id' f. rewrite E2, om_get_insert. destruct (Z.eqb_spec id' id); [by intros [= <-] | apply (fl_stream c Hok)].
  - unfold peer_initial_stream_limit. rewrite E4. apply (fl_limit c Hok).
  - by eapply balanced_insert; [apply (fl_sum c Hok) | |].
  - intros id' t. rewrite E1, om_get_insert. destruct (Z.eqb_spec id' id) as [-> |]; [| by left].
    intros [= <-]. right. by rewrite Hid.
  - intros store p f H1 H2 _. left. exists store. by rewrite <- E3.
Qed.

Definition fill_ok (st : Fill) : Prop := flow_ok (f_conn st) /\ Forall (frame_below (high (f_conn st))) (f_frames st).

(** The flow-control entry of a stream is created on first use. *)
Lemma ensure_entry c id :
  flow_ok c ->
  let c1 := if om_contains id (stream_send_flow c) then c
            else c <| stream_send_flow ::= om_insert id (StreamSendFlow.new (peer_initial_stream_limit c)) |> in
  flow_ok c1 /\ (forall id', high c1 id' = high c id') /\ send_streams c1 = send_streams c /\
  exists f, om_get id (stream_send_flow c1) = Some f /\ flow_entry_ok f /\ StreamSendFlow.data_sent f = high c id.
Proof.
  intros Hok. unfold om_contains. destruct (om_get id (stream_send_flow c)) as [f |] eqn:E; cbn [is_some]; cbv zeta.
  - split_and!; try done. exists f. split_and!; [done | by apply (fl_stream c Hok id) |]. unfold high. by rewrite E.
  - assert (Hz : high c id = 0) by (unfold high; by rewrite E).
    split_and!; [| | done |].
    + apply flow_ok_entry; [done | apply entry_new_ok, (fl_limit c Hok) | rewrite Hz; done].
    + intros id'. unfold high at 1. simpl. rewrite om_get_insert. destruct (Z.eqb_spec id' id) as [-> |]; [by rewrite Hz | done].
    + eexists. simpl. rewrite om_get_insert, Z.eqb_refl. split_and!; [done | apply entry_new_ok, (fl_limit c Hok) | by rewrite Hz].
Qed.

(** Charging a stream for data up to [nh]. *)
Lemma record_high f nh :
  flow_entry_ok f -> nh <= StreamSendFlow.max_stream_data f ->
  let h' := Z.max (StreamSendFlow.data_sent f) nh in
  let '(fresh, f') := StreamSendFlow.record_high_offset f nh in
  fresh = h' - StreamSendFlow.data_sent f /\ StreamSendFlow.data_sent f' = h' /\ flow_entry_ok f'.
Proof.
  intros [H1 H2] Hn. unfold StreamSendFlow.record_high_offset. destruct (Z.ltb_spec (StreamSendFlow.data_sent f) nh); simpl.
  - split_and!; try lia. split; simpl; lia.
  - split_and!; try lia. by split.
Qed.

Lemma fill_ok_one b st id : fill_ok st -> fill_ok (fill_one_stream b st id).
Proof.
  intros [Hok Hfr]. unfold fill_one_stream. destruct (om_get id (send_streams (f_conn st))) as [s |] eqn:Es; [| done].
  case_match; [done |]. case_match; [done |]. set (ab := sat_sub (avail b (f_payload st)) 24).
  destruct (ensure_entry (f_conn st) id Hok) as (Hok1 & Hh1 & Hss & f & Hf & Hfo & Hds).
  set (st1 := with_conn st _). change (if _ : bool then f_conn st else _) with (f_conn st1) in Hok1, Hh1, Hss, Hf.
  assert (Hfr1 : Forall (frame_below (high (f_conn st1))) (f_frames st1)).
  { eapply Forall_impl; [exact Hfr |]. intros g. apply frame_below_mono. intros id'. rewrite Hh1. lia. }
  pose proof (fl_send _ Hok id s Es) as Hsb. rewrite <- Hds in Hsb.
  set (take := stream_credit (f_conn st1) id ab (SendStream.has_resend s)).
  destruct (Z.eqb_spec take 0) as [| Ht]; [done |].
  pose proof (fl_conn _ Hok1) as [Hc1 Hc2]. destruct Hfo as [Hf1 Hf2].
  assert (Hcredit : 0 < take /\ (SendStream.has_resend s = false ->
            StreamSendFlow.data_sent f + take <= StreamSendFlow.max_stream_data f /\
            SendFlowControl.data_sent (send_flow (f_conn st1)) + take <= SendFlowControl.max_data (send_flow (f_conn st1)))).
  { subst take. unfold stream_credit in *. rewrite Hf in *. cbn [fmap option_fmap option_map unwrap_or] in *.
    unfold SendFlowControl.available, StreamSendFlow.available, sat_sub in *. subst ab. unfold sat_sub in *.
    destruct (SendStream.has_resend s); split; intros; try done; lia. }
  destruct Hcredit as [Hpos Hcr]. clearbody take st1.
  destruct (SendStream.take s take) as [[[[o d] fin] |] s'] eqn:Etk.
  2: { assert (s' = s) as ->. { unfold SendStream.take in Etk. repeat case_match; by simplify_eq. }
       split; [| exact Hfr1]. apply flow_ok_stream; [done |]. rewrite Hh1, <- Hds. exact Hsb. }
  destruct (take_bounds s take (StreamSendFlow.data_sent f) (StreamSendFlow.max_stream_data f) o d fin s' Etk Hpos Hsb
              ltac:(lia) ltac:(intros Hr; by apply Hcr)) as (Ho & Hlim & Hs' & Hdelta).
  assert (Hnh : u64_add o (len d) = o + len d) by (apply u64_add_small; unfold is_u64, u64_MAX in *; lia).
  pose proof (record_high f (o + len d) (conj Hf1 Hf2) ltac:(lia)) as Hrec.
  unfold with_conn, place, charge_flow. cbn [f_conn f_frames f_payload f_eliciting]. rewrite Hnh.
  change (stream_send_flow ((f_conn st1) <| send_streams ::= om_insert id s' |>)) with (stream_send_flow (f_conn st1)).
  rewrite Hf. destruct (StreamSendFlow.record_high_offset f (o + len d)) as [fresh f']. destruct Hrec as (Hfresh & Hds' & Hfo').
  match goal with |- fill_ok (mkFill ?x _ _ _) => set (c3 := x) end.
  destruct (flow_ok_taken (f_conn st1) c3 id s' f') as (Hok3 & Hmono & Hid); try done.
  - change (send_flow c3) with (SendFlowControl.on_data_sent (send_flow (f_conn st1)) fresh).
    unfold conn_flow_ok, SendFlowControl.on_data_sent. cbn [SendFlowControl.data_sent SendFlowControl.max_data].
    rewrite u64_add_small; [| unfold is_u64, u64_MAX in *; destruct (SendStream.has_resend s); [| specialize (Hcr eq_refl)]; lia].
    split; [| done]. destruct (SendStream.has_resend s); [| specialize (Hcr eq_refl)]; lia.
  - change (send_flow c3) with (SendFlowControl.on_data_sent (send_flow (f_conn st1)) fresh).
    unfold SendFlowControl.on_data_sent. cbn [SendFlowControl.data_sent].
    rewrite u64_add_small; [rewrite Hds', Hh1, <- Hds; lia |].
    unfold is_u64, u64_MAX in *; destruct (SendStream.has_resend s); [| specialize (Hcr eq_refl)]; lia.
  - rewrite Hds'. rewrite Hh1, <- Hds. lia.
  - by rewrite Hds'.
  - split; [done |]. cbn [f_frames f_conn]. apply Forall_app. split.
    + eapply Forall_impl; [exact Hfr1 |]. intros g. by apply frame_below_mono.
    + apply Forall_cons. split; [| by apply Forall_nil]. simpl. rewrite Hid, Hds'. lia.
Qed.

Lemma fill_ok_loop ids b st : fill_ok st -> fill_ok (fill_streams_loop ids b st).
Proof.
  revert st. induction ids as [| id ids IH]; intros st Hst; [done |]. cbn [fill_streams_loop]. case_match; [done |].
  by apply IH, fill_ok_one.
Qed.

(** Marking a limit as reported does not change the accounts. *)
Lemma blocked_entry f :
  flow_entry_ok f -> flow_entry_ok (StreamSendFlow.take_blocked f).2 /\
  StreamSendFlow.data_sent (StreamSendFlow.take_blocked f).2 = StreamSendFlow.data_sent f.
Proof. intros Hf. unfold StreamSendFlow.take_blocked. by case_match. Qed.

Lemma flow_ok_conn c g :
  flow_ok c -> conn_flow_ok g -> SendFlowControl.data_sent g = SendFlowControl.data_sent (send_flow c) ->
  flow_ok (c <| send_flow := g |>).
Proof.
  intros Hok Hg Hd. apply (flow_ok_step c); try done.
  - apply (fl_stream c Hok).
  - apply (fl_limit c Hok).
  - destruct (fl_sum c Hok) as [Hw Hs]. split; [done |]. etransitivity; [exact Hd | exact Hs].
  - intros id t Hg'. by left.
  - intros store p f H1 H2 _. left. by exists store.
Qed.

(** [note_blocked_streams] keeps every charge. *)
Lemma blocked_ok c : flow_ok c -> flow_ok (note_blocked_streams c) /\ (forall id, high (note_blocked_streams c) id = high c id).
Proof.
  intros Hok. unfold note_blocked_streams. set (c1 := if any_stream_send_data c then _ else c).
  assert (H1 : flow_ok c1 /\ forall id, high c1 id = high c id).
  { subst c1. case_match; [| done]. pose proof (fl_conn c Hok) as Hc.
    assert (Hg : conn_flow_ok (SendFlowControl.take_blocked (send_flow c)).2 /\
                 SendFlowControl.data_sent (SendFlowControl.take_blocked (send_flow c)).2 = SendFlowControl.data_sent (send_flow c))
      by (unfold SendFlowControl.take_blocked; by case_match).
    destruct (SendFlowControl.take_blocked (send_flow c)) as [[l |] g]; (split; [| done]); cbn [snd] in Hg; destruct Hg as [Hg Hd];
      [apply (flow_ok_same (c <| send_flow := g |>)); try done |]; by apply flow_ok_conn. }
  clearbody c1. revert H1. generalize (om_keys (send_streams c1)). intros ids. revert c1.
  induction ids as [| id ids IH]; intros c1 [Hok1 Hh1]; [done |]. cbn [fold_left]. apply IH.
  case_match; [done |]. destruct (om_get id (stream_send_flow c1)) as [f |] eqn:Ef; [| done].
  destruct (blocked_entry f (fl_stream _ Hok1 _ _ Ef)) as [Hf' Hd']. destruct (StreamSendFlow.take_blocked f) as [l f']. cbn [snd] in Hf', Hd'.
  assert (H2 : flow_ok (c1 <| stream_send_flow ::= om_insert id f' |>) /\
               forall id', high (c1 <| stream_send_flow ::= om_insert id f' |>) id' = high c id').
  { assert (Hid : high c1 id = StreamSendFlow.data_sent f') by (unfold high; by rewrite Ef).
    split; [apply flow_ok_entry; [done | done | lia] |].
    intros id'. rewrite <- Hh1. unfold high at 1. simpl. rewrite om_get_insert. destruct (Z.eqb_spec id' id) as [-> |]; [done | done]. }
  destruct l as [l |]; [| exact H2]. destruct H2 as [H2 H3]. split; [| exact H3].
  by apply (flow_ok_same (c1 <| stream_send_flow ::= om_insert id f' |>)).
Qed.

(** Before stream data, a payload holds neither STREAM frames nor an MTU probe. *)
Definition is_plain (f : SentFrame) : bool := match f with SFStream _ _ _ _ | SFMtuProbe _ => false | _ => true end.
Definition no_streams (st : @Fill env) : Prop := Forall (fun f => is_plain f = true) (f_frames st).

Lemma no_streams_place st f l : no_streams st -> Forall (fun f => is_plain f = true) l -> no_streams (place st f l).
Proof. intros H1 H2. by apply Forall_app. Qed.

Lemma no_streams_map {V} (es : list (Z * V)) r b fr de st :
  no_streams st -> no_streams (fill_map es r b fr de st) /\ no_streams (fill_map_break es r b fr de st).
Proof.
  revert st. induction es as [| [id v] es IH]; intros st H; [done |]. unfold fill_map in *. cbn [fold_left fill_map_break].
  destruct (r <? avail b (f_payload st)); cbn [negb]; [| split; [by apply IH | done]].
  apply IH. apply Forall_app. split; [done | by apply Forall_nil].
Qed.

Lemma no_streams_new_cids n b st : no_streams st -> no_streams (fill_new_cids n b st).
Proof.
  revert st. induction n as [| n IH]; intros st H; [done |]. cbn [fill_new_cids].
  destruct (LocalCidPool.pop_pending_new _) as [[i |] pool]; [| done]. case_match; [done |].
  apply IH, no_streams_place; [done | by repeat constructor].
Qed.

Lemma no_streams_retire_cids n b st : no_streams st -> no_streams (fill_retire_cids n b st).
Proof.
  revert st. induction n as [| n IH]; intros st H; [done |]. cbn [fill_retire_cids].
  destruct (PeerCidPool.pop_pending_retire _) as [[q |] pool]; [| done]. case_match; [done |].
  apply IH, no_streams_place; [done | by repeat constructor].
Qed.

Lemma no_streams_datagrams q b st : no_streams st -> no_streams (fill_datagrams q b st).
Proof.
  revert st. induction q as [| d q IH]; intros st H; [done |]. cbn [fill_datagrams]. case_match; [done |].
  apply IH, no_streams_place; [done | by apply Forall_nil].
Qed.

Ltac placed := repeat case_match; try done; (apply no_streams_place; [done | by repeat constructor]).

Lemma no_streams_flow_control b st : no_streams st -> no_streams (fill_flow_control_frames b st).
Proof.
  intros H. unfold fill_flow_control_frames. apply no_streams_map.
  assert (H1 : no_streams (fill_max_stream_data b (fill_max_data b st))).
  { apply no_streams_map. unfold fill_max_data. placed. }
  revert H1. generalize (fill_max_stream_data b (fill_max_data b st)). intros st1 H1. unfold fill_data_blocked. placed.
Qed.

Lemma no_streams_control b st : no_streams st -> no_streams (fill_control b st).
Proof.
  intros H. unfold fill_control. apply no_streams_datagrams.
  assert (T : forall st, no_streams st -> no_streams (fill_new_token b st)) by (intros ? ?; unfold fill_new_token; placed).
  assert (B : forall d st, no_streams st -> no_streams (fill_streams_blocked d b st)) by (intros [] ? ?; unfold fill_streams_blocked; placed).
  assert (M : forall d st, no_streams st -> no_streams (fill_max_streams d b st)) by (intros [] ? ?; unfold fill_max_streams; placed).
  apply T, B, B, M, M, no_streams_retire_cids, no_streams_new_cids, no_streams_map, no_streams_map, no_streams_flow_control.
  assert (P1 : forall st, no_streams st -> no_streams (fill_path_response b st)) by (intros ? ?; unfold fill_path_response; placed).
  assert (P2 : forall st, no_streams st -> no_streams (fill_path_challenge b st)) by (intros ? ?; unfold fill_path_challenge; placed).
  assert (P3 : forall st, no_streams st -> no_streams (fill_handshake_done st)) by (intros ? ?; unfold fill_handshake_done; placed).
  by apply P3, P2, P1.
Qed.

(** ** Lemmas: a whole payload *)

Lemma wide_flow c c' : wide_view c' = wide_view c -> flow_ok c -> flow_ok c'.
Proof.
  intros H. apply flow_ok_same; [exact (f_equal snd H) |].
  exact (f_equal (fun v => v.1.1.1.1) H).
Qed.

Lemma wide_high c c' id : wide_view c' = wide_view c -> high c' id = high c id.
Proof. intros H. apply (f_equal (fun v => v.2.1.1.2)) in H. cbn in H. unfold high. by rewrite H. Qed.

Lemma no_streams_fill_ok c st : wide_view (f_conn st) = wide_view c -> flow_ok c -> no_streams st -> fill_ok st.
Proof.
  intros Hv Hok Hns. split; [by eapply wide_flow |]. eapply Forall_impl; [exact Hns |]. by intros [].
Qed.

Lemma plain_below h l : Forall (fun f => is_plain f = true) l -> Forall (frame_below h) l.
Proof. intros Hl. eapply Forall_impl; [exact Hl |]. by intros []. Qed.

Lemma fill_ok_app st st' l :
  wide_view (f_conn st') = wide_view (f_conn st) -> f_frames st' = f_frames st ++ l ->
  Forall (frame_below (high (f_conn st'))) l -> fill_ok st -> fill_ok st'.
Proof.
  intros Hv Hf Hl [Hok Hfr]. split; [by eapply wide_flow |]. rewrite Hf. apply Forall_app. split; [| done].
  eapply Forall_impl; [exact Hfr |]. intros g. apply frame_below_mono. intros id. rewrite (wide_high _ _ _ Hv). lia.
Qed.

Lemma fill_pings_frames kind st :
  exists l, f_frames (fill_pings kind st) = f_frames st ++ l /\ Forall (fun f => is_plain f = true) l.
Proof.
  assert (H1 : forall f l, is_plain f = true -> Forall (fun f => is_plain f = true) l -> Forall (fun f => is_plain f = true) (l ++ [f])).
  { intros f l Hf Hl. apply Forall_app. split; [done |]. by repeat constructor. }
  unfold fill_pings. set (st1 := if 0 <? probes_owed (f_conn st) then _ else st).
  assert (Hs1 : exists l, f_frames st1 = f_frames st ++ l /\ Forall (fun f => is_plain f = true) l).
  { subst st1. case_match; [case_match |]; [exists [SFPing]; split; [done | by repeat constructor] | |]; exists []; by rewrite app_nil_r. }
  clearbody st1. destruct Hs1 as (l1 & E1 & F1).
  set (st2 := if _ && pending_keep_alive_ping (f_conn st1) then _ else st1).
  assert (Hs2 : exists l, f_frames st2 = f_frames st ++ l /\ Forall (fun f => is_plain f = true) l).
  { subst st2. case_match; [| by exists l1]. exists (l1 ++ [SFPing]). split; [| by apply H1].
    change (f_frames (with_conn ?a ?g)) with (f_frames a). cbn [place f_frames]. by rewrite E1, app_assoc. }
  clearbody st2. destruct Hs2 as (l2 & E2 & F2). case_match; [| by exists l2].
  exists (l2 ++ [SFPing]). split; [| by apply H1]. cbn [place f_frames]. by rewrite E2, app_assoc.
Qed.

Lemma crypto_plain c kind b : no_streams (fill_crypto kind b (fill_ack kind (mkFill c [] [] false))).
Proof.
  unfold fill_crypto. assert (Ha : no_streams (fill_ack kind (mkFill c [] [] false))).
  { unfold fill_ack, no_streams. destruct kind; destruct (build_ack _ _) as [[a |] s']; apply Forall_nil; exact I. }
  revert Ha. generalize (fill_ack kind (mkFill c [] [] false)). intros st0 Ha.
  destruct kind; try exact Ha; destruct (CryptoStream.take_send _ _) as [[[o d] |] s']; try exact Ha;
    (apply no_streams_place; [exact Ha | by repeat constructor]).
Qed.

Lemma fill_ok_payload c kind b : flow_ok c -> fill_ok (fill_payload c kind b).
Proof.
  intros Hok. unfold fill_payload. set (st := fill_crypto _ _ _).
  assert (Hv : wide_view (f_conn st) = wide_view c) by (subst st; by rewrite wview_crypto, wview_ack).
  assert (Hns : no_streams st) by apply crypto_plain.
  clearbody st. pose proof (no_streams_fill_ok c st Hv Hok Hns) as Hst.
  set (app := bool_decide (kind = SkApplication)). set (probing := app && pending_mtu_probe (f_conn st)).
  assert (Hmain : fill_ok (fill_pings kind
     (let st1 := if probing then with_conn st (fun c => c <| pending_mtu_probe := false |>) else st in
      if app then fill_application b st1 else st1))).
  { set (st1 := if probing then _ else st). assert (Hv1 : wide_view (f_conn st1) = wide_view c) by (subst st1; by case_match).
    assert (Hns1 : no_streams st1) by (subst st1; by case_match). clearbody st1. cbv zeta.
    assert (H1 : fill_ok (if app then fill_application b st1 else st1)).
    { case_match; [| by eapply no_streams_fill_ok]. unfold fill_application, fill_stream_frames.
      assert (H2 : fill_ok (fill_control b st1)).
      { apply (no_streams_fill_ok c); [by rewrite wview_control | done | by apply no_streams_control]. }
      revert H2. generalize (fill_control b st1). intros st2 H2.
      pose proof (fill_ok_loop (om_keys (send_streams (f_conn st2))) b st2 H2) as [H3 H4].
      destruct (blocked_ok _ H3) as [H5 H6]. split; [exact H5 |]. unfold with_conn. cbn [f_conn f_frames].
      eapply Forall_impl; [exact H4 |]. intros g. apply frame_below_mono. intros id. rewrite H6. lia. }
    revert H1. generalize (if app then fill_application b st1 else st1). intros st2 H2.
    destruct (fill_pings_frames kind st2) as (l & El & Fl). eapply fill_ok_app; [apply wview_pings | exact El | by apply plain_below | exact H2]. }
  cbv zeta in Hmain. destruct (probe_mtu (f_conn st)) as [sz |]; [| exact Hmain]. destruct probing; [| exact Hmain].
  apply (fill_ok_app st _ [SFMtuProbe sz]); [done | done | by repeat constructor | done].
Qed.

(** ** Lemmas: packets and datagrams *)

(** What flow control does not see, and what path-MTU discovery does not see either. *)
Definition calm (c c' : conn) : Prop := flow_view c' = flow_view c /\ sent_packets c' = sent_packets c.
Definition quiet (c c' : conn) : Prop := calm c c' /\ mtu_view c' = mtu_view c.

Lemma calm_ok c c' : calm c c' -> flow_ok c -> flow_ok c'.
Proof. intros [H1 H2]. by apply flow_ok_same. Qed.

Lemma quiet_ok c c' : quiet c c' -> flow_ok c -> flow_ok c'.
Proof. intros [H _]. by apply calm_ok. Qed.

Lemma quiet_high c c' id : quiet c c' -> high c' id = high c id.
Proof. intros [[[= _ E _ _ _] _] _]. unfold high. by rewrite E. Qed.

#[local] Instance quiet_preorder : PreOrder quiet.
Proof. split; [by split |]. intros a b d [[H1 H2] H3] [[H4 H5] H6]. split; [split |]; congruence. Qed.

#[local] Instance calm_preorder : PreOrder calm.
Proof. split; [by split |]. intros a b d [H1 H2] [H3 H4]. split; congruence. Qed.

Lemma quiet_seal_short c payload out : quiet c (seal_short c payload out).2.
Proof.
  unfold seal_short. destruct (next_pn _) as [pn sp]. destruct (local_keys sp); [| done].
  destruct (build_short_packet _ _ _ _ _) as [o r]. done.
Qed.

Lemma quiet_seal_long c t token payload out : quiet c (seal_long c t token payload out).2.
Proof.
  unfold seal_long. destruct t; destruct (next_pn _) as [pn sp]; (destruct (local_keys sp); [| done]);
    destruct (build_long_packet _ _ _ _ _) as [o r]; done.
Qed.

Lemma quiet_rotate c t : quiet c (rotate_keys c t).
Proof.
  unfold rotate_keys. destruct (one_rtt_secrets c) as [sec |]; [| done]. destruct (next_packet_keys sec) as [nk sec'].
  simpl. case_match; [| done]. destruct (rotate_to_next_epoch _ _) as [[k |] app]; done.
Qed.

Lemma quiet_before_short c now : quiet c (before_short c now).
Proof.
  unfold before_short, initiate_key_update_now. destruct (key_update_pending c); [| done].
  set (c0 := c <| key_update_pending := false |>). set (t := now + _).
  pose proof (quiet_rotate c0 t) as H. exact H.
Qed.

(** Recording a packet whose stream frames are all charged. *)
Lemma record_flow c now kind pn bytes frames ae :
  flow_ok c -> Forall (frame_below (high c)) frames -> flow_ok (record_sent c now kind pn bytes frames ae).
Proof.
  intros Hok Hfr. unfold record_sent.
  set (c1 := c <| packets_sent ::= _ |> <| bytes_sent ::= _ |>).
  match goal with |- flow_ok (let '(rs, c) := ?x in _) => assert (Hq : quiet c x.2) end.
  { destruct (if is_mtu_probe frames then false else ae); [| done]. destruct (ctl_on_packet_sent _ _ _) as [r cc]. done. }
  match goal with |- flow_ok (let '(rs, c) := ?x in _) => destruct x as [rs c2] end. cbn [snd] in Hq.
  pose proof (quiet_ok _ _ Hq Hok) as Hok2. destruct (ae || _); [| done].
  set (p := mkSentPacket _ _ _ _ _ _ _). apply (flow_ok_step c2); try done.
  - apply (fl_conn _ Hok2).
  - apply (fl_stream _ Hok2).
  - apply (fl_limit _ Hok2).
  - apply (fl_sum _ Hok2).
  - intros id s Hg. by left.
  - intros store q f Hst Hq' Hf. unfold put_sent in Hst. simpl in Hst.
    assert (Hcase : store ∈ sent_packets c2 \/ (kind_nat kind < length (sent_packets c2))%nat /\
                    store = on_packet_sent (sent_at c2 (kind_nat kind)) p).
    { apply list_elem_of_lookup_1 in Hst as [i Hi]. apply list_lookup_insert_Some in Hi as [(-> & <- & Hl) | [_ Hi]]; [by right |].
      left. by eapply list_elem_of_lookup_2. }
    destruct Hcase as [Hold | [Hl ->]]; [left; by exists store |].
    apply om_values_insert_elem in Hq' as [-> | Hq'].
    + right. rewrite Forall_forall in Hfr. specialize (Hfr f Hf). eapply frame_below_mono; [| exact Hfr].
      intros id. change (high (put_sent _ _ c2) id) with (high c2 id). rewrite (quiet_high _ _ _ Hq). done.
    + left. exists (sent_at c2 (kind_nat kind)). split; [| done].
      apply list_elem_of_lookup_2 with (kind_nat kind). unfold sent_at. apply lookup_lt_is_Some in Hl as [s Hs].
      rewrite Hs. f_equal. symmetry. by apply nth_lookup_Some.
Qed.

Lemma write_space_flow c now kind out short b out' c' :
  flow_ok c -> write_space_packet c now kind out short = (b, (out', c')) -> flow_ok c'.
Proof.
  intros Hok. unfold write_space_packet. set (rem := sat_sub _ _). destruct (rem <? 64); [by intros [= _ _ <-] |].
  pose proof (fill_ok_payload c kind rem Hok) as Hf. revert Hf. generalize (fill_payload c kind rem). intros st [Hst Hfr].
  destruct (bool_decide (f_payload st = [])); [by intros [= _ _ <-] |].
  set (c1 := if short then before_short (f_conn st) now else f_conn st).
  assert (Q1 : quiet (f_conn st) c1) by (subst c1; case_match; [apply quiet_before_short | done]). clearbody c1.
  match goal with |- (let '(sealed, c) := ?x in _) = _ -> _ => assert (Q2 : quiet c1 x.2) end.
  { destruct short; [apply quiet_seal_short |]. destruct kind; [apply quiet_seal_long | apply quiet_seal_long | done]. }
  match goal with |- (let '(sealed, c) := ?x in _) = _ -> _ => destruct x as [sealed c2] end. cbn [snd] in Q2.
  assert (Q : quiet (f_conn st) c2) by (by etransitivity). pose proof (quiet_ok _ _ Q Hst) as Hok2.
  destruct sealed as [[pn [o []]] |]; intros [= _ _ <-]; try done. apply record_flow; [done |].
  eapply Forall_impl; [exact Hfr |]. intros g. apply frame_below_mono. intros id. by rewrite (quiet_high _ _ _ Q).
Qed.

Lemma zero_rtt_quiet c out : quiet c (write_zero_rtt_packet c out).2.2.
Proof.
  unfold write_zero_rtt_packet. destruct (negb _ || _ || _ || _); [done |]. destruct (zero_rtt_keys c) as [ks |]; [| done].
  case_bool_decide; [done |]. destruct (next_pn _) as [pn sp]. destruct (build_long_packet _ _ _ _ _) as [o [n | e]]; done.
Qed.

Lemma close_quiet c out : quiet c (emit_close c out).2.2.
Proof.
  unfold emit_close. assert (Ht : quiet c (take_close_frame c).2) by (unfold take_close_frame; repeat case_match; done).
  destruct (take_close_frame c) as [frame c1]. cbn [snd] in Ht. destruct frame as [f |]; [| done].
  match goal with |- context [let '(sealed, c) := ?x in _] => assert (Hs : quiet c1 x.2) end.
  { case_match; [apply quiet_seal_short |]. case_match; apply quiet_seal_long. }
  match goal with |- context [let '(sealed, c) := ?x in _] => destruct x as [sealed c2] end. cbn [snd] in Hs.
  destruct sealed as [[pn [o x]] |]; by etransitivity.
Qed.

Lemma advance_quiet c : quiet c (advance_recv_flow c).
Proof.
  assert (H : (flow_view (advance_recv_flow c), sent_packets (advance_recv_flow c), mtu_view (advance_recv_flow c)) =
              (flow_view c, sent_packets c, mtu_view c)).
  { unfold advance_recv_flow. destruct (RecvFlowControl.maybe_update _) as [m f].
    rewrite (fold_view (fun c => (flow_view c, sent_packets c, mtu_view c))); [by destruct m |].
    intros a id. destruct (om_get id (stream_recv_flow a)) as [flow |]; [| done].
    destruct (StreamRecvFlow.maybe_update flow) as [[x |] g]; done. }
  split; [split |]; [exact (f_equal (fun v => v.1.1) H) | exact (f_equal (fun v => v.1.2) H) | exact (f_equal snd H)].
Qed.

Lemma packets_flow c now out : flow_ok c -> flow_ok (write_packets c now out).2.2.
Proof.
  intros Hok. unfold write_packets.
  assert (Hw : forall c kind o sh (g : bool), flow_ok c -> flow_ok (if g then write_space_packet c now kind o sh else (false, (o, c))).2.2).
  { intros c0 kind o sh [] H0; [| done]. destruct (write_space_packet c0 now kind o sh) as [b [o' c1]] eqn:E. by eapply write_space_flow. }
  repeat match goal with |- context [let '(w, p) := (if ?g then write_space_packet ?c0 now ?k ?o ?sh else ?e) in _] =>
      let H := fresh in assert (H := Hw c0 k o sh g ltac:(assumption));
      destruct (if g then write_space_packet c0 now k o sh else e) as [? [? ?]]; cbn [snd] in H
    | |- context [let '(w, p) := (if ?g then write_zero_rtt_packet ?c0 ?o else ?e) in _] =>
      let H := fresh in assert (H : quiet c0 (if g then write_zero_rtt_packet c0 o else e).2.2)
        by (destruct g; [apply zero_rtt_quiet | done]);
      destruct (if g then write_zero_rtt_packet c0 o else e) as [? [? ?]]; cbn [snd] in H;
      apply quiet_ok in H; [| assumption] end.
  assumption.
Qed.

Lemma transmit_flow c now out : flow_ok c -> flow_ok (transmit_packets c now out).2.2.
Proof.
  intros Hok. unfold transmit_packets. pose proof (quiet_ok _ _ (advance_quiet c) Hok) as H1.
  pose proof (packets_flow (advance_recv_flow c) now out H1) as H2.
  destruct (write_packets (advance_recv_flow c) now out) as [[wi wa] [o c1]]. cbn [snd] in H2.
  destruct (negb wa); [done |]. cbn [snd]. eapply quiet_ok; [| exact H2].
  unfold set_loss_detection_timer, arm_idle_timer, arm_keep_alive. repeat case_match; done.
Qed.

(** ** Lemmas: the handshake *)

Lemma pump_step_quiet c : quiet c (pump_step c).1.
Proof.
  unfold pump_step. destruct (write_hs (tls c)) as [[buf kc] t].
  assert (Hq : quiet c (queue_handshake_bytes (c <| tls := t |>) buf)).
  { unfold queue_handshake_bytes, try_install_zero_rtt_keys. destruct buf; [done |].
    destruct (write_level (c <| tls := t |>)); [| done].
    destruct (bool_decide (role (c <| tls := t |>) = Client)); simpl; repeat case_match; done. }
  destruct kc as [kc |]; [| done]. cbn [fst]. etransitivity; [exact Hq |].
  generalize (queue_handshake_bytes (c <| tls := t |>) buf). intros c1.
  unfold install_key_change, try_install_zero_rtt_keys. destruct kc as [ks | ks next]; [done |].
  destruct (next_packet_keys next) as [nk sec]. simpl. repeat case_match; done.
Qed.

Lemma pump_loop_quiet n c : quiet c (pump_loop n c).
Proof.
  revert c. induction n as [| n IH]; intros c; [done |]. cbn [pump_loop]. pose proof (pump_step_quiet c) as H.
  destruct (pump_step c) as [c1 []]; [etransitivity; [exact H | apply IH] | exact H].
Qed.

Lemma issue_quiet c : quiet c (maybe_issue_new_cid c).2.
Proof. unfold maybe_issue_new_cid. repeat case_match; done. Qed.

Lemma established_quiet c clock : quiet c (become_established c clock).
Proof.
  assert (Hi : forall n c, quiet c (issue_initial_cids n c)).
  { induction n as [| n IH]; intros c1; [done |]. cbn [issue_initial_cids]. pose proof (issue_quiet c1) as H.
    destruct (maybe_issue_new_cid c1) as [[] c2]; [etransitivity; [exact H | apply IH] | exact H]. }
  unfold become_established. case_bool_decide; [| done]. etransitivity; [| apply Hi].
  unfold schedule_initial_mtu_probe. by case_match.
Qed.

(** The peer's parameters only raise limits. *)
Lemma apply_params_flow c p :
  flow_ok c -> params_ok p -> flow_ok ((apply_peer_params c p) <| peer_params := Some p |>).
Proof.
  intros Hok (_ & _ & Hmd & _ & Hsd & _).
  assert (Hvm : forall v, is_varint v -> 0 <= v <= u64_MAX) by (unfold is_varint, u64_MAX; intros v; rewrite VARINT_MAX_eq; lia).
  apply Hvm in Hmd, Hsd. set (c' := (apply_peer_params c p) <| peer_params := Some p |>).
  assert (Hget : forall m id, om_get id (map (fun e => (e.1, StreamSendFlow.on_max_stream_data e.2 (initial_max_stream_data_bidi_remote p))) m)
            = (fun f => StreamSendFlow.on_max_stream_data f (initial_max_stream_data_bidi_remote p)) <$> om_get id m).
  { induction m as [| [k f] m IH]; intros id; [done |]. simpl. by case_match. }
  assert (Hflow : stream_send_flow c' = map (fun e => (e.1, StreamSendFlow.on_max_stream_data e.2 (initial_max_stream_data_bidi_remote p)))
                                          (stream_send_flow c)) by done.
  apply (flow_ok_step c c'); try done.
  - intros id. unfold high. rewrite Hflow, Hget. destruct (om_get id (stream_send_flow c)) as [f |] eqn:E; simpl; [| done].
    destruct (entry_raise f _ (fl_stream c Hok id f E) Hsd) as [_ ->]. done.
  - apply conn_raise; [apply (fl_conn c Hok) | done].
  - intros id f. rewrite Hflow, Hget. destruct (om_get id (stream_send_flow c)) as [g |] eqn:E; simpl; [| done].
    intros [= <-]. by apply entry_raise; [apply (fl_stream c Hok id) |].
  - destruct (fl_sum c Hok) as [Hw Hs]. split.
    + unfold om_wf in *. rewrite Hflow. unfold om_keys in *. by rewrite map_map.
    + transitivity (SendFlowControl.data_sent (send_flow c)); [simpl; unfold SendFlowControl.on_max_data; by case_match |].
      rewrite Hs, Hflow. unfold charged, om_values. generalize (stream_send_flow c). intros m.
      induction m as [| [k f] m IH]; [done |]. simpl in *. rewrite <- IH. f_equal.
      unfold StreamSendFlow.on_max_stream_data. by case_match.
  - intros id s Hg. by left.
  - intros store q f H1 H2 _. left. by exists store.
Qed.

Lemma capture_flow `{!LawfulEnv env} c : flow_ok c -> flow_ok (capture_peer_params c).
Proof.
  intros Hok. unfold capture_peer_params. case_match; [| done].
  destruct (quic_transport_parameters (tls c)) as [raw |] eqn:E; [| done].
  destruct (transport_parameters_bytes _ _ E) as [Hb Hl].
  destruct (decode_transport_params raw) as [p | e] eqn:Ed; [| done].
  apply apply_params_flow; [done | by eapply decode_params_range].
Qed.

(** Application writes only extend a stream's buffer. *)
Lemma stream_below_write h s data fin : stream_below h s -> stream_below h (SendStream.write s data fin).
Proof. done. Qed.

Lemma write_or_create_flow c id data fin :
  flow_ok c -> flow_ok (c <| send_streams ::= fun m => write_or_create m id data fin |>).
Proof.
  intros Hok. unfold write_or_create.
  assert (Hs : stream_below (high c id) (SendStream.write (unwrap_or (om_get id (send_streams c)) SendStream.new) data fin)).
  { apply stream_below_write. destruct (om_get id (send_streams c)) as [s |] eqn:E; [by apply (fl_send c Hok) |].
    apply stream_below_new. by apply high_nonneg. }
  exact (flow_ok_stream c id _ Hok Hs).
Qed.

Lemma early_flow c : flow_ok c -> flow_ok (settle_early_data c).
Proof.
  intros Hok. unfold settle_early_data. case_match; [| done]. case_match; [| done].
  match goal with |- context [fold_left ?g ?l] => set (l0 := l); set (g0 := g) end. clearbody l0.
  match goal with |- flow_ok (?c0 <| send_streams ::= _ |>) => assert (H1 : flow_ok c0); [by eapply flow_ok_core; [| | exact Hok] |]; set (c1 := c0) in * end.
  clearbody c1. clear -H1. revert c1 H1. induction l0 as [| [[id data] fin] l IH]; intros c1 H1.
  - eapply quiet_ok; [| exact H1]. by split.
  - specialize (IH _ (write_or_create_flow c1 id data fin H1)). exact IH.
Qed.

Lemma pump_flow `{!LawfulEnv env} c clock : flow_ok c -> flow_ok (pump_write_hs c clock).
Proof.
  intros Hok. unfold pump_write_hs. apply (quiet_ok _ _ (pump_loop_quiet (S (key_changes_left (tls c))) c)) in Hok.
  revert Hok. generalize (pump_loop (S (key_changes_left (tls c))) c). intros c1 Hok.
  unfold refresh_handshake_complete. destruct (negb _ && _); [| done].
  set (c2 := become_established _ clock).
  assert (H2 : flow_ok c2).
  { eapply quiet_ok; [apply established_quiet |]. by eapply quiet_ok; [| exact Hok]. }
  apply capture_flow, early_flow in H2. eapply quiet_ok; [| exact H2]. unfold schedule_new_token. by case_match.
Qed.

Lemma poll_transmit_flow `{!LawfulEnv env} c now clock out : flow_ok c -> flow_ok (poll_transmit c now clock out).2.2.
Proof.
  intros Hok. unfold poll_transmit. pose proof (pump_flow c clock Hok) as H1. revert H1. generalize (pump_write_hs c clock). intros c1 H1.
  case_bool_decide; [done |]. destruct (is_some _ || is_some _); [| by apply transmit_flow].
  pose proof (close_quiet c1 out) as Hq. destruct (emit_close c1 out) as [[a |] [o c2]]; cbn [snd] in Hq;
    pose proof (quiet_ok _ _ Hq H1) as H2; [by eapply quiet_ok; [| exact H2] | by apply transmit_flow].
Qed.

(** ** Lemmas: acknowledgements, loss and timers *)

(** Storing fewer packets. *)
Lemma put_fewer_flow c idx s :
  (forall p, p ∈ om_values (sent s) -> p ∈ om_values (sent (sent_at c idx))) -> flow_ok c -> flow_ok (put_sent idx s c).
Proof.
  intros Hs. apply flow_ok_fewer; [done |]. intros store p Hst Hp. unfold put_sent in Hst. simpl in Hst.
  apply list_elem_of_lookup_1 in Hst as [i Hi]. apply list_lookup_insert_Some in Hi as [(-> & <- & Hl) | [_ Hi]].
  - exists (sent_at c i). split; [| by apply Hs]. apply list_elem_of_lookup_2 with i. unfold sent_at.
    apply lookup_lt_is_Some in Hl as [x Hx]. rewrite Hx. f_equal. symmetry. by apply nth_lookup_Some.
  - exists store. split; [by eapply list_elem_of_lookup_2 | done].
Qed.

(** The packets of a space, out of range included. *)
Lemma sent_at_below c idx p f :
  flow_ok c -> p ∈ om_values (sent (sent_at c idx)) -> f ∈ sp_frames p -> frame_below (high c) f.
Proof.
  intros Hok Hp. unfold sent_at in Hp. destruct (sent_packets c !! idx) as [s |] eqn:E.
  - rewrite (nth_lookup_Some _ _ _ _ E) in Hp. apply (fl_sent c Hok s); [by eapply list_elem_of_lookup_2 | done].
  - rewrite nth_overflow in Hp by (by apply lookup_ge_None). by apply elem_of_nil in Hp.
Qed.

Lemma requeue_flow idx c f :
  flow_ok c -> frame_below (high c) f ->
  flow_ok (handle_lost_frame idx c f) /\ stream_send_flow (handle_lost_frame idx c f) = stream_send_flow c.
Proof.
  intros Hok Hf. destruct f; unfold handle_lost_frame, requeue_frame, on_mtu_probe_lost;
    try (repeat case_match; (split; [eapply calm_ok; [| exact Hok] |]); done).
  destruct (om_get id (send_streams c)) as [s |] eqn:E; [| done]. split; [| done]. apply flow_ok_stream; [done |].
  destruct (fl_send c Hok id s E) as [H1 H2]. split; [done |]. apply Forall_app. split; [done |]. by apply Forall_singleton.
Qed.

Lemma high_same c c' : stream_send_flow c' = stream_send_flow c -> high c' = high c.
Proof. intros E. unfold high. by rewrite E. Qed.

Lemma requeue_frames_flow idx fs c :
  flow_ok c -> Forall (frame_below (high c)) fs ->
  flow_ok (fold_left (handle_lost_frame idx) fs c) /\
  stream_send_flow (fold_left (handle_lost_frame idx) fs c) = stream_send_flow c.
Proof.
  revert c. induction fs as [| f fs IH]; intros c Hok Hfs; [done |]. apply Forall_cons in Hfs as [Hf Hfs].
  destruct (requeue_flow idx c f Hok Hf) as [H1 E1]. cbn [fold_left]. rewrite <- (high_same _ _ E1) in Hfs.
  destruct (IH _ H1 Hfs) as [H2 E2]. split; [done | by rewrite E2].
Qed.

Lemma requeue_packets_flow idx ps c :
  flow_ok c -> (forall p f, p ∈ ps -> f ∈ sp_frames p -> frame_below (high c) f) ->
  flow_ok (fold_left (fun c p => fold_left (handle_lost_frame idx) (sp_frames p) c) ps c).
Proof.
  revert c. induction ps as [| p ps IH]; intros c Hok Hps; [done |]. cbn [fold_left].
  destruct (requeue_frames_flow idx (sp_frames p) c Hok) as [H1 E1].
  { apply Forall_forall. intros f Hf. by apply (Hps p); [left |]. }
  apply IH; [done |]. intros q f Hq Hf. rewrite (high_same _ _ E1). by apply (Hps q); [right |].
Qed.

Lemma loss_flow c idx now : flow_ok c -> flow_ok (detect_and_handle_loss c idx now).
Proof.
  intros Hok. unfold detect_and_handle_loss. pose proof (detect_lost_subset (sent_at c idx) now (Rtt.loss_delay (rtt c))) as Hsub.
  destruct (detect_lost _ _ _) as [[lost next] store].
  set (c1 := (put_sent idx store c) <| loss ::= _ |>).
  assert (H1 : flow_ok c1).
  { eapply quiet_ok; [| apply (put_fewer_flow c idx store); [| exact Hok]]; [done |].
    intros p Hp. apply Hsub, elem_of_app. by right. }
  assert (Hfr : forall p f, p ∈ lost -> f ∈ sp_frames p -> frame_below (high c1) f).
  { intros p f Hp. change (high c1) with (high c). apply (sent_at_below c idx); [done |]. apply Hsub, elem_of_app. by left. }
  clearbody c1. destruct lost as [| p0 ps]; [done |]. revert Hfr. generalize (p0 :: ps). intros l Hfr.
  destruct (lost_summary l) as [[bytes newest] oldest].
  set (c2 := c1 <| packets_lost ::= _ |>). assert (H2 : flow_ok c2) by (by eapply quiet_ok; [| exact H1]).
  assert (H3 : flow_ok (fold_left (fun c p => fold_left (handle_lost_frame idx) (sp_frames p) c) l c2)) by (by apply requeue_packets_flow).
  revert H3. generalize (fold_left (fun c p => fold_left (handle_lost_frame idx) (sp_frames p) c) l c2). intros c3 H3.
  eapply quiet_ok; [| exact H3]. repeat case_match; done.
Qed.

Lemma timer_quiet c : quiet c (set_loss_detection_timer c).
Proof. unfold set_loss_detection_timer. repeat case_match; done. Qed.

Lemma ack_flow c now pt largest delay first_range ranges : flow_ok c -> flow_ok (process_ack c now pt largest delay first_range ranges).
Proof.
  intros Hok. unfold process_ack. set (idx := space_index pt).
  assert (H1 : flow_ok (record_largest_acked c pt largest)) by (eapply quiet_ok; [| exact Hok]; by destruct pt).
  revert H1. generalize (record_largest_acked c pt largest). intros c1 H1.
  pose proof (on_ack_subset (sent_at c1 idx) largest first_range (map (fun r => (ar_gap r, ar_range r)) ranges)) as Hsub.
  destruct (on_ack _ _ _ _) as [o store]. cbn [snd] in Hsub.
  pose proof (put_fewer_flow c1 idx store Hsub H1) as H2. revert H2. generalize (put_sent idx store c1). intros c2 H2.
  destruct (newly_acked o) as [| p0 ps]; [done |]. generalize (p0 :: ps). intros acked.
  eapply quiet_ok; [apply timer_quiet |]. apply loss_flow. eapply calm_ok; [| exact H2].
  assert (Hf : forall l x, calm x (fold_left (fun c p => fold_left (on_acked_frame now) (sp_frames p) c) l x)).
  { assert (Hf1 : forall l x, calm x (fold_left (on_acked_frame now) l x)).
    { induction l as [| f l IH]; intros x; [done |]. cbn [fold_left]. etransitivity; [| apply IH].
      unfold on_acked_frame, on_mtu_probe_acked. destruct f; try done. repeat case_match; done. }
    induction l as [| p l IH]; intros x; [done |]. cbn [fold_left]. etransitivity; [apply Hf1 | apply IH]. }
  etransitivity; [| apply Hf]. unfold sample_rtt_on_ack. repeat case_match; done.
Qed.

Lemma probe_flow c : flow_ok c -> flow_ok (requeue_for_probe c).
Proof.
  intros Hok. unfold requeue_for_probe. generalize (seq 0 3). intros l. revert c Hok.
  induction l as [| idx l IH]; intros c Hok; [done |]. cbn [fold_left]. apply IH.
  destruct (oldest_ack_eliciting_frames (sent_at c idx)) as [fs |] eqn:E; [| done].
  assert (Hfs : Forall (frame_below (high c)) fs).
  { unfold oldest_ack_eliciting_frames in E. destruct (head _) as [p |] eqn:Eh; [| done]. injection E as <-.
    apply Forall_forall. intros f Hf. apply (sent_at_below c idx p); [done | | done].
    apply head_Some_elem_of in Eh. by apply list_elem_of_filter in Eh as [_ Eh]. }
  clear E IH. revert c Hok Hfs. induction fs as [| f fs IH]; intros c Hok Hfs; [done |]. apply Forall_cons in Hfs as [Hf Hfs].
  cbn [fold_left].
  assert (H1 : flow_ok (requeue_frame c idx f) /\ stream_send_flow (requeue_frame c idx f) = stream_send_flow c).
  { pose proof (requeue_flow idx c f Hok Hf) as H. by destruct f. }
  apply IH; [apply H1 |]. by rewrite (high_same _ _ (proj2 H1)).
Qed.

Lemma timeout_flow c now : flow_ok c -> flow_ok (handle_timeout c now).
Proof.
  intros Hok. unfold handle_timeout. destruct (match idle_deadline c with Some d => _ | None => _ end).
  { eapply quiet_ok; [| exact Hok]. by case_match. }
  assert (Hk : quiet c (keep_alive_timeout c now)) by (unfold keep_alive_timeout; repeat case_match; done).
  apply (quiet_ok _ _ Hk) in Hok. revert Hok. generalize (keep_alive_timeout c now). intros c1 H1.
  assert (Hm : forall x, calm x (mtu_timeout x now)).
  { intros x. unfold mtu_timeout, schedule_mtu_probe. destruct (next_mtu_probe x); [| done]. destruct (_ && _); [| done].
    destruct (_ || _ || _); [done |]. by destruct (next_probe_size x). }
  eapply calm_ok; [apply Hm |]. unfold loss_timeout. destruct (loss_timer c1); [| done]. case_match; [| done].
  unfold on_loss_timeout, on_pto_expiry.
  assert (Hp : flow_ok (set_loss_detection_timer (if is_some (earliest_ack_eliciting_across_spaces c1) then requeue_for_probe (owe_probes c1) else c1))).
  { eapply quiet_ok; [apply timer_quiet |]. case_match; [| done]. apply probe_flow. by eapply quiet_ok; [| exact H1]. }
  destruct (LossDetection.earliest_loss_time (loss c1)) as [[t sp] |]; [| done]. destruct (t <=? now); [| done].
  eapply quiet_ok; [apply timer_quiet |]. by apply loss_flow.
Qed.

(** ** Lemmas: received frames and datagrams *)

Lemma varint_u64 v : is_varint v -> 0 <= v <= u64_MAX.
Proof. unfold is_varint, u64_MAX. rewrite VARINT_MAX_eq. lia. Qed.

Lemma touch_flow c id : flow_ok c -> flow_ok (touch_stream c id).
Proof.
  intros Hok. unfold touch_stream. set (c1 := if negb _ && _ then _ else c).
  assert (H1 : flow_ok c1) by (subst c1; eapply calm_ok; [| exact Hok]; by case_match). clearbody c1. clear Hok.
  case_bool_decide; [| by eapply calm_ok; [| exact H1]].
  assert (Hlim : 0 <= peer_initial_stream_limit c1 <= u64_MAX) by apply (fl_limit _ H1).
  set (c2 := c1 <| send_streams ::= or_insert id SendStream.new |>).
  assert (H2 : flow_ok c2).
  { subst c2. unfold or_insert. destruct (om_contains id (send_streams c1)) eqn:E.
    - eapply calm_ok; [| exact H1]. split; [| done]. unfold flow_view. simpl. by rewrite E.
    - eapply calm_ok; [| apply (flow_ok_stream c1 id SendStream.new H1), stream_below_new; by apply high_nonneg].
      split; [| done]. unfold flow_view. simpl. by rewrite E. }
  match goal with |- context [StreamSendFlow.new ?l] => change l with (peer_initial_stream_limit c1) end.
  set (c3 := c2 <| stream_send_flow ::= or_insert id (StreamSendFlow.new (peer_initial_stream_limit c1)) |>).
  assert (H3 : flow_ok c3).
  { subst c3. unfold or_insert, om_contains. destruct (om_get id (stream_send_flow c2)) eqn:E; cbn [is_some].
    - eapply calm_ok; [| exact H2]. split; [| done]. unfold flow_view. simpl. simpl in E. by rewrite E.
    - eapply calm_ok; [| apply (flow_ok_entry c2 id (StreamSendFlow.new (peer_initial_stream_limit c1)) H2)].
      + split; [| done]. unfold flow_view. simpl. simpl in E. by rewrite E.
      + by apply entry_new_ok.
      + unfold high. by rewrite E. }
  by eapply calm_ok; [| exact H3].
Qed.

Lemma stream_frame_flow c id o fin d : flow_ok c -> flow_ok (recv_stream c id o fin d).2.
Proof.
  intros Hok%(touch_flow _ id). unfold recv_stream. revert Hok. generalize (touch_stream c id). intros c1 H1.
  eapply quiet_ok; [| exact H1]. destruct (RecvStream.is_reset _); [done |].
  destruct (RecvStream.recv _ _ _ _) as [[[] s] | []]; done.
Qed.

Lemma max_stream_data_flow c id max :
  flow_ok c -> is_varint max ->
  flow_ok (c <| stream_send_flow ::= om_insert id (StreamSendFlow.on_max_stream_data
             (unwrap_or (om_get id (stream_send_flow c)) (StreamSendFlow.new (peer_initial_stream_limit c))) max) |>).
Proof.
  intros Hok Hm%varint_u64.
  assert (He : flow_entry_ok (unwrap_or (om_get id (stream_send_flow c)) (StreamSendFlow.new (peer_initial_stream_limit c))) /\
               StreamSendFlow.data_sent (unwrap_or (om_get id (stream_send_flow c)) (StreamSendFlow.new (peer_initial_stream_limit c))) = high c id).
  { unfold high. destruct (om_get id (stream_send_flow c)) as [f |] eqn:E; cbn [unwrap_or].
    - split; [by apply (fl_stream c Hok id) | done].
    - split; [apply entry_new_ok, (fl_limit c Hok) | done]. }
  destruct He as [He Hd]. destruct (entry_raise _ max He Hm) as [He' Hd']. apply flow_ok_entry; [done | done | by rewrite Hd'].
Qed.

Lemma stop_sending_flow c id code : flow_ok c -> flow_ok (recv_stop_sending c id code).
Proof.
  intros Hok. unfold recv_stop_sending. destruct (om_get id (send_streams c)) as [s |] eqn:E; [| done].
  assert (Hs : flow_ok (c <| send_streams ::= om_insert id (SendStream.reset s (unwrap_or (SendStream.reset_code s) code)) |>)).
  { apply flow_ok_stream; [done |]. destruct (fl_send c Hok id s E) as [H1 H2]. split; [done | by apply Forall_nil]. }
  case_match; [eapply quiet_ok; [| exact Hs] | eapply quiet_ok; [| exact Hok]]; done.
Qed.

(** Every well-formed frame the peer sends keeps the invariant. *)
Lemma frame_flow c now pt f : frame_ok f -> flow_ok c -> flow_ok (handle_frame c now pt f).2.
Proof.
  intros Hf Hok. destruct f; unfold handle_frame; try (by eapply quiet_ok; [| exact Hok]).
  - by apply ack_flow.
  - by apply stop_sending_flow.
  - eapply quiet_ok; [| exact Hok]. unfold recv_crypto. destruct pt; try done;
      destruct (CryptoStream.recv _ _ _) as [[bytes |] s]; try done; simpl; destruct (read_hs _ _) as [[] t]; done.
  - by apply stream_frame_flow.
  - assert (Hc : conn_flow_ok (SendFlowControl.on_max_data (send_flow c) max)) by (apply conn_raise; [apply (fl_conn c Hok) | by apply varint_u64]).
    eapply quiet_ok; [| apply (flow_ok_conn c _ Hok Hc)]; [done |]. unfold SendFlowControl.on_max_data. by case_match.
  - apply max_stream_data_flow; [done | by apply Hf].
  - eapply quiet_ok; [| exact Hok]. unfold recv_path_response. repeat case_match; done.
  - eapply quiet_ok; [| exact Hok]. by case_match.
  - eapply quiet_ok; [| exact Hok]. case_match; [done |]. by case_match.
  - eapply quiet_ok; [| exact Hok]. unfold recv_retire_connection_id. case_match; [done |]. case_match; [done |].
    destruct (LocalCidPool.handle_peer_retirement _ _) as [[x |] pool]; [| done]. cbn [snd].
    etransitivity; [| apply issue_quiet]. done.
  - eapply quiet_ok; [| exact Hok]. destruct dir; by case_match.
  - eapply quiet_ok; [| exact Hok]. destruct dir; simpl; by case_match.
  - eapply quiet_ok; [| exact Hok]. unfold recv_new_token. case_match; [done |]. by case_match.
  - eapply quiet_ok; [| exact Hok]. unfold recv_datagram_frame. case_match; [done |]. case_match; [done |]. simpl. by case_match.
Qed.

#[local] Instance keeps_preorder : PreOrder (fun a b : conn => flow_ok a -> flow_ok b).
Proof. split; [intros x; done | intros x y z; auto]. Qed.

(** A UDP datagram. *)
Definition udp_sized (dg : list Z) : Prop := len dg <= 65535.

Lemma payload_buf_ok l : bytes_ok l -> udp_sized l -> buf_ok (buf_new l).
Proof.
  unfold udp_sized. intros Hb Hl. split_and!; [split; simpl; unfold u64_MAX; lia | done |]. simpl. rewrite VARINT_MAX_eq. lia.
Qed.

Lemma datagram_flow `{!LawfulEnv env} c now clock dg r :
  udp_sized dg -> handle_datagram c now clock dg = Some r -> flow_ok c -> flow_ok r.2.2.
Proof.
  intros Hd. apply (handle_datagram_rel (fun a b => flow_ok a -> flow_ok b) udp_sized buf_ok frame_ok); try done.
  - intros a b E. apply flow_ok_same; [exact (f_equal (fun v => v.1.1.2) E) | exact (f_equal (fun v => v.1.2.1) E)].
  - intros a n pt f. apply frame_flow.
  - intros a k. apply pump_flow.
  - intros b f b' Hb E. destruct (decode_frame_inv b f b' Hb E) as [Hf (n & -> & Hn)]. split; [done |]. apply buf_ok_advance; [done | lia].
  - intros a off v l pk hk a' parsed Ha E.
    destruct (parse_long_progress pk_decrypt_in_place hp_decrypt_in_place _ _ _ _ _ _ _ _ E) as [Hl _].
    destruct (parse_long_payload hp_decrypt_in_place pk_decrypt_plaintext _ _ _ _ _ _ _ _ E) as [Hb Hp].
    unfold udp_sized in *. split; [lia |]. apply payload_buf_ok; [done |]. unfold udp_sized. lia.
  - intros a off n hk a' x Ha E. destruct (strip_length hp_decrypt_in_place _ _ _ _ _ _ E) as [Hl _]. unfold udp_sized in *. lia.
  - intros a off n l pk a' x Ha E. destruct (decrypt_short_progress pk_decrypt_in_place _ _ _ _ _ _ _ E) as [Hl _].
    unfold udp_sized in *. split; [lia |]. destruct x as [parsed |]; [| done].
    destruct (decrypt_short_payload pk_decrypt_plaintext _ _ _ _ _ _ _ E) as [Hb Hp].
    apply payload_buf_ok; [done |]. unfold udp_sized. lia.
Qed.

End flow.
