(* ===== verification/ConnSystem.v ===== *)
(** * The connection as a state machine

    Everything that can happen to a connection, in any order: calls of the
    application ([streams.rs], [keys_path.rs], [multipath.rs] and the public methods
    of [mod.rs]), datagrams ([recv.rs]), timer expiry and transmission ([send.rs]).
    The theorems hold of every state a sequence of such events reaches. *)

From stdpp Require Import relations.
From S2P Require Import Prelude OrdMap CoreTypes Coding FrameCodec ParamsCodec PacketSpace SentPackets.
From S2P Require Import Streams FlowControl Recovery Congestion Bbr CidPool Packet Multipath Connection.
From S2P Require Import ConnRecovery ConnHandshake ConnRecv ConnSend ConnFlow.

Section system.
Context {env : QuicEnv}.

Notation conn := (Connection env).

(** ** Events *)

Inductive app_call :=
| CallOpenBidi | CallOpenUni
| CallSend (stream : Z) (data : list Z) (fin : bool)
| CallRead (stream : Z)
| CallReset (stream error_code : Z)
| CallStopSending (stream error_code : Z)
| CallEarlyData (stream : Z) (data : list Z) (fin : bool)
| CallSendDatagram (data : list Z) | CallRecvDatagram
| CallPollNewStream | CallPollReadable | CallPopCidEvent | CallTakeToken
| CallKeepAlive (interval : option Z)
| CallKeyUpdate (now : Z)
| CallPathChallenge | CallCandidate (addr : Addr)
| CallAddPath (addr : Addr) (cid : option (list Z)) (clock : Z) | CallPreferPath (index : nat)
| CallClose (error_code : Z) (reason : list Z).

Inductive event :=
| Call (a : app_call)
| Receive (now clock : Z) (datagram : list Z)
| Timeout (now : Z)
| Transmit (now clock : Z) (out : list Z).

(** The state after a call; its result is dropped here. *)
Definition call (c : conn) (a : app_call) : conn :=
  match a with
  | CallOpenBidi => (open_bidi c).2
  | CallOpenUni => (open_uni c).2
  | CallSend stream data fin => (send_stream c stream data fin).2
  | CallRead stream => (read_stream c stream).2
  | CallReset stream code => (reset_stream c stream code).2
  | CallStopSending stream code => (stop_sending c stream code).2
  | CallEarlyData stream data fin => queue_early_data c stream data fin
  | CallSendDatagram data => (send_datagram c data).2
  | CallRecvDatagram => (recv_datagram c).2
  | CallPollNewStream => (poll_new_peer_stream c).2
  | CallPollReadable => (poll_readable c).2
  | CallPopCidEvent => (pop_cid_event c).2
  | CallTakeToken => (take_received_token c).2
  | CallKeepAlive interval => set_keep_alive c interval
  | CallKeyUpdate now => (initiate_key_update c now).2
  | CallPathChallenge => (initiate_path_challenge c).2
  | CallCandidate addr => set_candidate_addr c addr
  | CallAddPath addr cid clock => (conn_add_path c addr cid clock).2
  | CallPreferPath index => match conn_set_preferred_path c index with Some (_, c') => c' | None => c end
  | CallClose code reason => close c code reason
  end.

Definition exec (c : conn) (e : event) : conn :=
  match e with
  | Call a => call c a
  | Receive now clock dg => match handle_datagram c now clock dg with Some (_, (_, c')) => c' | None => c end
  | Timeout now => handle_timeout c now
  | Transmit now clock out => (poll_transmit c now clock out).2.2
  end.

(** The identifier the next stream of a direction gets. *)
Definition next_stream (c : conn) (dir : Direction) : Z :=
  StreamId.new (local_initiator c) dir (match dir with Bidirectional => next_bidi_index c | Unidirectional => next_uni_index c end).

(** Datagrams fit in UDP; a stream is opened under an identifier without flow-control
    state.  A peer that sends STREAM or MAX_STREAM_DATA frames for a stream this
    endpoint has not opened yet creates such state, and opening then discards it. *)
Definition admissible (c : conn) (e : event) : Prop :=
  match e with
  | Call CallOpenBidi => om_get (next_stream c Bidirectional) (stream_send_flow c) = None
  | Call CallOpenUni => om_get (next_stream c Unidirectional) (stream_send_flow c) = None
  | Receive _ _ dg => udp_sized dg
  | _ => True
  end.

Inductive step : conn -> conn -> Prop :=
| step_event c e : admissible c e -> step c (exec c e).

(** ** Lemmas: calls and flow control *)

Lemma open_flow c id l :
  flow_ok c -> om_get id (stream_send_flow c) = None -> 0 <= l <= u64_MAX ->
  flow_ok (c <| send_streams ::= om_insert id SendStream.new |> <| stream_send_flow ::= om_insert id (StreamSendFlow.new l) |>).
Proof.
  intros Hok Hn Hl.
  pose proof (flow_ok_stream c id SendStream.new Hok (stream_below_new _ (high_nonneg c id Hok))) as H1.
  apply flow_ok_entry; [exact H1 | by apply entry_new_ok |]. unfold high. simpl. by rewrite Hn.
Qed.

Lemma call_flow c a : flow_ok c -> admissible c (Call a) -> flow_ok (call c a).
Proof.
  intros Hok Hadm. assert (Hq : forall c', quiet c c' -> flow_ok c') by (intros; by eapply quiet_ok).
  pose proof (fl_limit c Hok) as Hlim. destruct a; cbn [call].
  - unfold open_bidi. case_match; [by apply Hq |]. cbn [snd].
    eapply quiet_ok; [| apply (open_flow c (next_stream c Bidirectional) (peer_initial_stream_limit c) Hok Hadm Hlim)]. done.
  - unfold open_uni. case_match; [by apply Hq |]. cbn [snd].
    eapply quiet_ok; [| apply (open_flow c (next_stream c Unidirectional) (peer_initial_stream_limit c) Hok Hadm Hlim)]. done.
  - unfold send_stream. destruct (om_get stream (send_streams c)) as [s |] eqn:E; [| done]. cbn [snd].
    apply flow_ok_stream; [done |]. apply stream_below_write. by apply (fl_send c Hok).
  - apply Hq. unfold read_stream. repeat case_match; done.
  - unfold reset_stream. destruct (om_get stream (send_streams c)) as [s |] eqn:E; [| done]. cbn [snd].
    eapply quiet_ok; [| apply (flow_ok_stream c stream (SendStream.reset s error_code) Hok)]; [done |].
    destruct (fl_send c Hok stream s E) as [H1 _]. split; [done | by apply Forall_nil].
  - apply Hq. unfold stop_sending. by case_match.
  - unfold queue_early_data. case_match; [by apply write_or_create_flow | by eapply flow_ok_core; [| | exact Hok]].
  - apply Hq. unfold send_datagram. case_match; [done |]. by case_match.
  - apply Hq. unfold recv_datagram. by case_match.
  - apply Hq. unfold poll_new_peer_stream. by case_match.
  - apply Hq. unfold poll_readable. by case_match.
  - apply Hq. unfold pop_cid_event. by case_match.
  - by apply Hq.
  - by apply Hq.
  - apply Hq. unfold initiate_key_update. case_match; [done |]. by destruct (_ || _).
  - apply Hq. unfold initiate_path_challenge. case_match; [done |]. destruct (rng_fill _ _) as [[nonce |] r]; done.
  - by apply Hq.
  - apply Hq. unfold conn_add_path. destruct (add_path _ _ _ _) as [[i m] |]; done.
  - apply Hq. unfold conn_set_preferred_path. destruct (set_preferred _ _) as [m |]; [| done]. by destruct (active_path m).
  - apply Hq. unfold close. by case_match.
Qed.

Lemma exec_flow `{!LawfulEnv env} c e : flow_ok c -> admissible c e -> flow_ok (exec c e).
Proof.
  intros Hok Hadm. destruct e as [a | now clock dg | now | now clock out]; cbn [exec].
  - by apply call_flow.
  - destruct (handle_datagram c now clock dg) as [[d [r c']] |] eqn:E; [| done].
    exact (datagram_flow c now clock dg _ Hadm E Hok).
  - by apply timeout_flow.
  - by apply poll_transmit_flow.
Qed.

Lemma new_flow role tls params rng algo clock : flow_ok (install_initial_keys (new_inner role tls params rng algo clock)).
Proof.
  unfold new_inner. destruct (rng_fill rng 32) as [secret rng']. split; simpl.
  - split; simpl; unfold u64_MAX; lia.
  - done.
  - done.
  - intros store p f Hst Hp. repeat (apply elem_of_cons in Hst as [-> | Hst]; [by apply elem_of_nil in Hp |]). by apply elem_of_nil in Hst.
  - unfold peer_initial_stream_limit. simpl. unfold u64_MAX. lia.
  - split; [apply om_wf_empty | done].
Qed.

Lemma reachable_flow `{!LawfulEnv env} c c' : rtc step c c' -> flow_ok c -> flow_ok c'.
Proof. induction 1 as [| x y z Hs _ IH]; [done |]. intros Hx. apply IH. destruct Hs. by apply exec_flow. Qed.

(** ** Lemmas: life cycle *)

(** [Handshaking < Established < Closing < Closed]. *)
Definition rank (s : ConnectionState) : nat :=
  match s with Handshaking => 0 | Established => 1 | Closing => 2 | Closed => 3 end.

Definition advances (c c' : conn) : Prop := (rank (state c) <= rank (state c'))%nat.

#[local] Instance advances_preorder : PreOrder advances.
Proof. split; [intros x; unfold advances; lia | intros x y z; unfold advances; lia]. Qed.

Lemma advances_same c c' : state c' = state c -> advances c c'.
Proof. unfold advances. by intros ->. Qed.

Lemma rank_closed c c' : advances c c' -> state c = Closed -> state c' = Closed.
Proof. unfold advances. intros H E. rewrite E in H. destruct (state c'); simpl in H; lia || done. Qed.

Lemma advances_pump c clock : advances c (pump_write_hs c clock).
Proof. unfold advances. destruct (state_pump c clock) as [-> | [-> ->]]; simpl; lia. Qed.

Lemma advances_frame c now pt f : advances c (handle_frame c now pt f).2.
Proof.
  destruct (closes f) eqn:Ec; [destruct f; try done; unfold advances; simpl; destruct (state c); simpl; lia |].
  assert (Hp : (exists d, f = PathResponse d) \/ forall d, f <> PathResponse d) by (destruct f; eauto).
  apply advances_same. destruct Hp as [[d ->] | Hp].
  - unfold handle_frame, recv_path_response. cbn [snd]. repeat case_match; done.
  - pose proof (frame_view_handle c now pt f Ec Hp) as H. exact (f_equal (fun v => v.1.1.1.1.1.1.1) H).
Qed.

Lemma advances_datagram c now clock dg r : handle_datagram c now clock dg = Some r -> advances c r.2.2.
Proof.
  apply (handle_datagram_rel advances (fun _ => True) (fun _ => True) (fun _ => True)); try done.
  - intros a b E. apply advances_same. exact (f_equal (fun v => v.1.1.1.1) E).
  - intros a n pt f _. apply advances_frame.
  - intros a k. apply advances_pump.
  - intros *. by destruct r0.
Qed.

Lemma advances_transmit c now clock out : advances c (poll_transmit c now clock out).2.2.
Proof.
  unfold poll_transmit. etransitivity; [apply (advances_pump c clock) |]. generalize (pump_write_hs c clock). intros c1.
  case_bool_decide; [done |].
  assert (Ht : forall x o, advances x (transmit_packets x now o).2.2).
  { intros x o. apply advances_same. destruct (transmit_packets x now o) as [a [o' x']] eqn:E.
    by apply transmit_packets_spec in E as [E _]. }
  destruct (is_some _ || is_some _); [| apply Ht].
  assert (He : state (emit_close c1 out).2.2 = state c1).
  { destruct (emit_close c1 out) as [r [o c2]] eqn:E. apply wrote_close in E as (_ & [E _] & _). exact (f_equal (fun v => v.1.1.1) E). }
  destruct (emit_close c1 out) as [[a |] [o c2]]; cbn [snd] in *.
  - unfold advances. simpl. destruct (state c1); simpl; lia.
  - etransitivity; [by apply advances_same | apply Ht].
Qed.

Lemma advances_timeout c now : advances c (handle_timeout c now).
Proof.
  unfold handle_timeout. destruct (match idle_deadline c with Some d => _ | None => _ end).
  - assert (E : state (match peer_closed (c <| state := Closed |>) with
                       | None => c <| state := Closed |> <| peer_closed := Some EIdleTimeout |>
                       | Some _ => c <| state := Closed |> end) = Closed) by (by case_match).
    unfold advances. rewrite E. simpl. destruct (state c); simpl; lia.
  - apply advances_same.
    assert (Hk : state (keep_alive_timeout c now) = state c) by (unfold keep_alive_timeout; repeat case_match; done).
    rewrite <- Hk. generalize (keep_alive_timeout c now). intros c1.
    transitivity (state (loss_timeout c1 now)).
    + pose proof (core_view_mtu (loss_timeout c1 now) now) as H. exact (f_equal (fun v => v.1.1.1.1.1.1) H).
    + pose proof (core_view_loss_timeout c1 now) as H. exact (f_equal (fun v => v.1.1.1.1.1.1) H).
Qed.

Lemma advances_call c a : advances c (call c a).
Proof.
  destruct a; cbn [call]; try (apply advances_same; done).
  - apply advances_same. unfold open_bidi. by case_match.
  - apply advances_same. unfold open_uni. by case_match.
  - apply advances_same. unfold send_stream. by case_match.
  - apply advances_same. unfold read_stream. repeat case_match; done.
  - apply advances_same. unfold reset_stream. by case_match.
  - apply advances_same. unfold stop_sending. by case_match.
  - apply advances_same. unfold queue_early_data. by case_match.
  - apply advances_same. unfold send_datagram. case_match; [done |]. by case_match.
  - apply advances_same. unfold recv_datagram. by case_match.
  - apply advances_same. unfold poll_new_peer_stream. by case_match.
  - apply advances_same. unfold poll_readable. by case_match.
  - apply advances_same. unfold pop_cid_event. by case_match.
  - apply advances_same. unfold initiate_key_update. case_match; [done |]. by destruct (_ || _).
  - apply advances_same. unfold initiate_path_challenge. case_match; [done |]. destruct (rng_fill _ _) as [[nonce |] r]; done.
  - apply advances_same. unfold conn_add_path. destruct (add_path _ _ _ _) as [[i m] |]; done.
  - apply advances_same. unfold conn_set_preferred_path. destruct (set_preferred _ _) as [m |]; [| done]. by destruct (active_path m).
  - unfold close. case_bool_decide; [done |]. unfold advances. simpl. destruct (state c); simpl; done || lia.
Qed.

Lemma advances_exec c e : advances c (exec c e).
Proof.
  destruct e as [a | now clock dg | now | now clock out]; cbn [exec].
  - apply advances_call.
  - destruct (handle_datagram c now clock dg) as [[d [r c']] |] eqn:E; [| done]. exact (advances_datagram c now clock dg _ E).
  - apply advances_timeout.
  - apply advances_transmit.
Qed.

End system.

(** ** Properties *)

(** C2: Send-side flow control holds in every reachable state: from a new
    connection, after any sequence of application calls, received datagrams of
    arbitrary content, timer expiries and transmissions, in which streams are opened
    under identifiers that have no flow-control state yet ([admissible]), the stream
    data charged to the connection is the sum over its streams and stays within the
    largest limit the peer gave; every stream's charge stays within its limit; and
    every STREAM frame in a recorded packet, every segment waiting for retransmission
    and the part of every stream already taken lie within what has been charged, so no
    byte is sent beyond the peer's limits in the packets of the three spaces.  0-RTT
    packets are the exception: their data is neither charged nor recorded
    ([early_data_overlaps]). *)
Theorem send_limits_respected {env : QuicEnv} `{!LawfulEnv env} role tls params rng algo clock (c : Connection env) :
  rtc step (install_initial_keys (new_inner role tls params rng algo clock)) c ->
  SendFlowControl.data_sent (send_flow c) = charged (stream_send_flow c) /\
  0 <= SendFlowControl.data_sent (send_flow c) <= SendFlowControl.max_data (send_flow c) /\
  (forall id f, om_get id (stream_send_flow c) = Some f ->
     0 <= StreamSendFlow.data_sent f <= StreamSendFlow.max_stream_data f) /\
  (forall store p id offset fin data, store ∈ sent_packets c -> p ∈ om_values (sent store) ->
     SFStream id offset fin data ∈ sp_frames p -> offset + len data <= high c id) /\
  (forall id s, om_get id (send_streams c) = Some s ->
     SendStream.base s <= high c id /\
     Forall (fun g => SendStream.rs_offset g + len (SendStream.rs_data g) <= high c id) (SendStream.resend s)).
Proof.
  intros H%reachable_flow; [| apply new_flow]. split_and!.
  - apply (fl_sum c H).
  - apply (fl_conn c H).
  - apply (fl_conn c H).
  - intros id f E. apply (fl_stream c H id f E).
  - intros store p id o fin d Hst Hp Hf. by apply (fl_sent c H store p (SFStream id o fin d)).
  - intros id s E. destruct (fl_send c H id s E) as [[_ Hb] Hr]. split; [done |].
    eapply Forall_impl; [exact Hr |]. by intros g [_ Hg].
Qed.

(** C17: The life cycle only moves forward: whatever event happens to a connection,
    its state never goes back in the order handshaking, established, closing,
    closed; a closed connection stays closed under every sequence of events and
    transmits nothing, leaving the output buffer as it was. *)
Theorem lifecycle_monotone {env : QuicEnv} (c : Connection env) e evs now clock out :
  (rank (state c) <= rank (state (exec c e)))%nat /\
  (state c = Closed -> state (fold_left exec evs c) = Closed /\
     (poll_transmit (fold_left exec evs c) now clock out).1 = None /\
     (poll_transmit (fold_left exec evs c) now clock out).2.1 = out).
Proof.
  split; [apply advances_exec |]. intros Hc.
  assert (Hs : state (fold_left exec evs c) = Closed).
  { revert c Hc. induction evs as [| x evs IH]; intros c Hc; [done |]. simpl. apply IH. eapply rank_closed; [apply advances_exec | done]. }
  split; [done |]. revert Hs. generalize (fold_left exec evs c). intros c1 Hs. unfold poll_transmit.
  rewrite bool_decide_true; [done |]. eapply rank_closed; [apply advances_pump | done].
Qed.

(** ** A run

    A client whose handshake is over at the first transmission, with a peer that
    grants ten bytes on the connection and eight per stream: it opens a stream, writes
    twelve bytes and transmits, receives a PATH_RESPONSE it did not ask for, and
    times out. *)
Definition demo_peer_params : TransportParams := mkParams 0 65527 10 8 8 8 4 4 3 25 2 false 0.

Definition demo_run_start : Connection demo_env :=
  @install_initial_keys demo_env
    (@new_inner demo_env Client
       (mkScriptedTls [([1], Some (KcOneRtt demo_keys 5))] false (Some (encode_transport_params demo_peer_params)))
       (mkConnParams [1; 1; 1; 1; 1; 1; 1; 1] [2; 2; 2; 2; 2; 2; 2; 2] [2; 2; 2; 2; 2; 2; 2; 2] 7 default_params
          default_mtu_config 65536)
       0 AlgoNewReno 0).

Definition demo_run_events : list (event (env := demo_env)) :=
  [Transmit 0 0 []; Call CallOpenBidi; Call (CallSend 0 [1; 2; 3; 4; 5; 6; 7; 8; 9; 10; 11; 12] true); Transmit 1 1 [];
   Receive 2 2 demo_response_datagram; Timeout (10 ^ 10); Transmit (10 ^ 10) 3 []].

Definition demo_run_end : Connection demo_env := fold_left exec demo_run_events demo_run_start.

Lemma send_limits_respected_witness :
  let c := demo_run_end in
  (SendFlowControl.data_sent (send_flow c) = 8 /\ high c 0 = 8) /\
  SendFlowControl.data_sent (send_flow c) = charged (stream_send_flow c) /\
  0 <= SendFlowControl.data_sent (send_flow c) <= SendFlowControl.max_data (send_flow c) /\
  (forall id f, om_get id (stream_send_flow c) = Some f ->
     0 <= StreamSendFlow.data_sent f <= StreamSendFlow.max_stream_data f) /\
  (forall store p id offset fin data, store ∈ sent_packets c -> p ∈ om_values (sent store) ->
     SFStream id offset fin data ∈ sp_frames p -> offset + len data <= high c id) /\
  (forall id s, om_get id (send_streams c) = Some s ->
     SendStream.base s <= high c id /\
     Forall (fun g => SendStream.rs_offset g + len (SendStream.rs_data g) <= high c id) (SendStream.resend s)).
Proof.
  split; [split; vm_compute; reflexivity |].
  apply (send_limits_respected (env := demo_env) Client
       (mkScriptedTls [([1], Some (KcOneRtt demo_keys 5))] false (Some (encode_transport_params demo_peer_params)))
       (mkConnParams [1; 1; 1; 1; 1; 1; 1; 1] [2; 2; 2; 2; 2; 2; 2; 2] [2; 2; 2; 2; 2; 2; 2; 2] 7 default_params
          default_mtu_config 65536) 0 AlgoNewReno 0 demo_run_end).
  unfold demo_run_end, demo_run_events. cbn [fold_left].
  repeat (eapply rtc_r; [| apply step_event; vm_compute; first [exact I | congruence | reflexivity]]). apply rtc_refl.
Defined.

Lemma lifecycle_monotone_witness :
  let c := fold_left exec [Call (CallClose 3 [4]); Transmit 20 20 []] demo_run_end in
  (rank (state c) <= rank (state (exec c (Call CallOpenBidi))))%nat /\
  state (fold_left exec demo_run_events c) = Closed /\
  (poll_transmit (fold_left exec demo_run_events c) 30 30 [9]).1 = None /\
  (poll_transmit (fold_left exec demo_run_events c) 30 30 [9]).2.1 = [9].
Proof.
  intros c. assert (Hc : state c = Closed) by (vm_compute; reflexivity).
  destruct (lifecycle_monotone c (Call CallOpenBidi) demo_run_events 30 30 [9]) as [H1 H2]. split; [exact H1 | exact (H2 Hc)].
Defined.
