(* ===== verification/ConnMaps.v ===== *)
(** * The stream maps of a connection stay maps

    [send_streams] and [stream_recv_flow] of the connection are association lists
    sorted by stream identifier in every state the connection reaches, whatever the
    application, the peer and the timers do.  Sums over their entries (see the
    measure of pending output) are only meaningful then. *)

From S2P Require Import Prelude OrdMap CoreTypes Coding FrameCodec ParamsCodec PacketSpace SentPackets.
From S2P Require Import Streams FlowControl Recovery Congestion Bbr CidPool Packet Config Multipath Connection.
From S2P Require Import ConnRecovery ConnHandshake ConnRecv ConnSend ConnFlow ConnSystem.

Section maps.
Context {env : QuicEnv}.

Notation conn := (Connection env).

Definition maps_wf (c : conn) : Prop := om_wf (send_streams c) /\ om_wf (stream_recv_flow c).

Definition maps_kept (c c' : conn) : Prop := maps_wf c -> maps_wf c'.

#[local] Instance maps_kept_preorder : PreOrder maps_kept.
Proof. split; [intros x H; exact H | intros x y z H1 H2 H; by apply H2, H1]. Qed.

(** ** Lemmas: single changes *)

Lemma kept_same c c' : send_streams c' = send_streams c -> stream_recv_flow c' = stream_recv_flow c -> maps_kept c c'.
Proof. intros E1 E2 [H1 H2]. split; by rewrite ?E1, ?E2. Qed.

Lemma kept_send c c' id s : send_streams c' = om_insert id s (send_streams c) -> stream_recv_flow c' = stream_recv_flow c -> maps_kept c c'.
Proof. intros E1 E2 [H1 H2]. split; rewrite ?E1, ?E2; [by apply om_wf_insert | done]. Qed.

Lemma kept_recv c c' id f : send_streams c' = send_streams c -> stream_recv_flow c' = om_insert id f (stream_recv_flow c) -> maps_kept c c'.
Proof. intros E1 E2 [H1 H2]. split; rewrite ?E1, ?E2; [done | by apply om_wf_insert]. Qed.

Lemma or_insert_wf {V} id (v : V) m : om_wf m -> om_wf (or_insert id v m).
Proof. intros H. unfold or_insert. case_match; [done | by apply om_wf_insert]. Qed.

Lemma kept_fold {A} (f : conn -> A -> conn) l c : (forall x a, maps_kept x (f x a)) -> maps_kept c (fold_left f l c).
Proof. intros H. revert c. induction l as [| a l IH]; intros c; [done |]. cbn [fold_left]. etransitivity; [apply H | apply IH]. Qed.

(** ** Lemmas: the handshake *)

Definition unmapped (c : conn) := (send_streams c, stream_recv_flow c).

Lemma kept_unmapped c c' : unmapped c' = unmapped c -> maps_kept c c'.
Proof. intros [= E1 E2]. by apply kept_same. Qed.

Lemma unmapped_pump_step c : unmapped (pump_step c).1 = unmapped c.
Proof.
  unfold pump_step. destruct (write_hs (tls c)) as [[buf kc] t].
  assert (Hq : unmapped (queue_handshake_bytes (c <| tls := t |>) buf) = unmapped c).
  { unfold queue_handshake_bytes, try_install_zero_rtt_keys. destruct buf; [done |].
    destruct (write_level (c <| tls := t |>)); [| done].
    destruct (bool_decide (role (c <| tls := t |>) = Client)); simpl; repeat case_match; done. }
  destruct kc as [kc |]; [| done]. cbn [fst]. rewrite <- Hq. generalize (queue_handshake_bytes (c <| tls := t |>) buf). intros c1.
  unfold install_key_change, try_install_zero_rtt_keys. destruct kc as [ks | ks next]; [done |].
  destruct (next_packet_keys next) as [nk sec]. simpl. repeat case_match; done.
Qed.

Lemma unmapped_pump_loop n c : unmapped (pump_loop n c) = unmapped c.
Proof.
  revert c. induction n as [| n IH]; intros c; [done |]. cbn [pump_loop]. pose proof (unmapped_pump_step c) as H.
  destruct (pump_step c) as [c1 []]; [by rewrite IH | exact H].
Qed.

Lemma unmapped_issue c : unmapped (maybe_issue_new_cid c).2 = unmapped c.
Proof. unfold maybe_issue_new_cid. repeat case_match; done. Qed.

Lemma unmapped_established c clock : unmapped (become_established c clock) = unmapped c.
Proof.
  assert (Hi : forall n c, unmapped (issue_initial_cids n c) = unmapped c).
  { induction n as [| n IH]; intros c1; [done |]. cbn [issue_initial_cids]. pose proof (unmapped_issue c1) as H.
    destruct (maybe_issue_new_cid c1) as [[] c2]; [by rewrite IH | exact H]. }
  unfold become_established. case_bool_decide; [| done]. rewrite Hi. unfold schedule_initial_mtu_probe. by case_match.
Qed.

Lemma kept_write_or_create c id data fin : maps_kept c (c <| send_streams ::= fun m => write_or_create m id data fin |>).
Proof. by eapply kept_send. Qed.

Lemma kept_early c : maps_kept c (settle_early_data c).
Proof.
  unfold settle_early_data. case_match; [| done]. case_match; [| done].
  match goal with |- context [fold_left ?g ?l] => generalize l; set (g0 := g) end. intros l [H1 H2]. split; [| exact H2]. simpl.
  generalize (send_streams c) H1. clear. induction l as [| [[id data] fin] l IH]; intros m Hm; [exact Hm |].
  cbn [fold_left]. apply IH. unfold g0. by apply om_wf_insert.
Qed.

Lemma kept_pump c clock : maps_kept c (pump_write_hs c clock).
Proof.
  unfold pump_write_hs. etransitivity; [apply kept_unmapped, (unmapped_pump_loop (S (key_changes_left (tls c)))) |].
  generalize (pump_loop (S (key_changes_left (tls c))) c). intros c1. unfold refresh_handshake_complete. destruct (negb _ && _); [| done].
  set (c2 := become_established _ clock). etransitivity.
  { apply (kept_unmapped _ c2). subst c2. by rewrite unmapped_established. }
  etransitivity; [apply (kept_unmapped _ (capture_peer_params c2)); unfold capture_peer_params |].
  { case_match; [| done]. destruct (quic_transport_parameters _) as [raw |]; [| done]. by destruct (decode_transport_params raw). }
  etransitivity; [apply kept_early |]. apply kept_unmapped. unfold schedule_new_token. by case_match.
Qed.

(** ** Lemmas: acknowledgements, loss and timers *)

Lemma kept_requeue idx c f : maps_kept c (requeue_frame c idx f).
Proof. destruct f as [| id o fin d | | | | | [] | [] |]; simpl; repeat case_match; first [by apply kept_unmapped | by eapply kept_send]. Qed.

Lemma kept_lost_frame idx c f : maps_kept c (handle_lost_frame idx c f).
Proof. unfold handle_lost_frame. destruct f; try apply kept_requeue. unfold on_mtu_probe_lost. case_match; by apply kept_unmapped. Qed.

Lemma kept_timer c : maps_kept c (set_loss_detection_timer c).
Proof. apply kept_unmapped. unfold set_loss_detection_timer. repeat case_match; done. Qed.

Lemma kept_detect c idx now : maps_kept c (detect_and_handle_loss c idx now).
Proof.
  unfold detect_and_handle_loss. destruct (detect_lost _ _ _) as [[lost next] store].
  set (c1 := (put_sent idx store c) <| loss ::= _ |>). etransitivity; [by apply (kept_unmapped c c1) |]. clearbody c1.
  destruct lost as [| p0 ps]; [done |]. generalize (p0 :: ps). intros l. destruct (lost_summary l) as [[bytes newest] oldest].
  set (c2 := c1 <| packets_lost ::= _ |>). etransitivity; [by apply (kept_unmapped c1 c2) |].
  etransitivity; [apply (kept_fold (fun c p => fold_left (handle_lost_frame idx) (sp_frames p) c) l c2); intros; apply kept_fold; intros; apply kept_lost_frame |].
  generalize (fold_left (fun c p => fold_left (handle_lost_frame idx) (sp_frames p) c) l c2). intros c3. apply kept_unmapped. repeat case_match; done.
Qed.

Lemma kept_acked_frame now c f : maps_kept c (on_acked_frame now c f).
Proof. apply kept_unmapped. unfold on_acked_frame, on_mtu_probe_acked. destruct f; try done. repeat case_match; done. Qed.

Lemma kept_ack c now pt largest delay first_range ranges : maps_kept c (process_ack c now pt largest delay first_range ranges).
Proof.
  unfold process_ack. etransitivity; [apply (kept_unmapped c (record_largest_acked c pt largest)); by destruct pt |].
  generalize (record_largest_acked c pt largest). intros c1. destruct (on_ack _ _ _ _) as [o store].
  etransitivity; [by apply (kept_unmapped c1 (put_sent (space_index pt) store c1)) |]. generalize (put_sent (space_index pt) store c1). intros c2.
  destruct (newly_acked o) as [| p0 ps]; [done |]. generalize (p0 :: ps). intros acked.
  etransitivity; [| apply kept_timer]. etransitivity; [| apply kept_detect].
  etransitivity; [| apply kept_fold; intros x p; apply kept_fold; intros y f; apply kept_acked_frame].
  apply kept_unmapped. unfold sample_rtt_on_ack. repeat case_match; done.
Qed.

Lemma kept_timeout c now : maps_kept c (handle_timeout c now).
Proof.
  unfold handle_timeout. destruct (match idle_deadline c with Some d => _ | None => _ end).
  { apply kept_unmapped. by case_match. }
  etransitivity; [apply (kept_unmapped c (keep_alive_timeout c now)); unfold keep_alive_timeout; repeat case_match; done |].
  generalize (keep_alive_timeout c now). intros c1.
  assert (Hm : forall x, maps_kept x (mtu_timeout x now)).
  { intros x. apply kept_unmapped. unfold mtu_timeout, schedule_mtu_probe. repeat case_match; done. }
  etransitivity; [| apply Hm].
  unfold loss_timeout. destruct (loss_timer c1); [| done]. case_match; [| done]. unfold on_loss_timeout, on_pto_expiry.
  assert (Hp : maps_kept c1 (set_loss_detection_timer (if is_some (earliest_ack_eliciting_across_spaces c1) then requeue_for_probe (owe_probes c1) else c1))).
  { etransitivity; [| apply kept_timer]. case_match; [| done]. etransitivity; [by apply (kept_unmapped c1 (owe_probes c1)) |].
    unfold requeue_for_probe. apply kept_fold. intros x idx. case_match; [| done]. apply kept_fold. intros y f. apply kept_requeue. }
  destruct (LossDetection.earliest_loss_time (loss c1)) as [[t sp] |]; [| done]. destruct (t <=? now); [| done].
  etransitivity; [apply kept_detect | apply kept_timer].
Qed.

(** ** Lemmas: received frames *)

Lemma kept_touch c id : maps_kept c (touch_stream c id).
Proof.
  unfold touch_stream. set (c1 := if negb _ && _ then _ else c).
  etransitivity; [apply (kept_unmapped c c1); subst c1; by case_match |]. clearbody c1. intros [H1 H2].
  case_bool_decide; split; simpl; by auto using or_insert_wf.
Qed.

Lemma kept_stream c id offset fin data : maps_kept c (recv_stream c id offset fin data).2.
Proof.
  unfold recv_stream. etransitivity; [apply (kept_touch c id) |]. generalize (touch_stream c id). intros c1. apply kept_unmapped.
  destruct (RecvStream.is_reset _); [done |]. destruct (RecvStream.recv _ _ _ _) as [[[] s] | []]; done.
Qed.

Lemma kept_frame c now pt f : maps_kept c (handle_frame c now pt f).2.
Proof.
  destruct f; unfold handle_frame; try by apply kept_unmapped.
  - apply kept_ack.
  - unfold recv_stop_sending. case_match; [| done]. case_match; first [by apply kept_unmapped | by eapply kept_send].
  - apply kept_unmapped. unfold recv_crypto. destruct pt; try done;
      destruct (CryptoStream.recv _ _ _) as [[bytes |] s]; try done; simpl; destruct (read_hs _ _) as [[] t]; done.
  - apply kept_stream.
  - apply kept_unmapped. unfold recv_path_response. repeat case_match; done.
  - apply kept_unmapped. by case_match.
  - apply kept_unmapped. case_match; [done |]. by case_match.
  - apply kept_unmapped. unfold recv_retire_connection_id. case_match; [done |]. case_match; [done |].
    destruct (LocalCidPool.handle_peer_retirement _ _) as [[x |] pool]; [| done]. cbn [snd]. by rewrite unmapped_issue.
  - apply kept_unmapped. destruct dir; by case_match.
  - apply kept_unmapped. destruct dir; simpl; by case_match.
  - apply kept_unmapped. unfold recv_new_token. case_match; [done |]. by case_match.
  - apply kept_unmapped. unfold recv_datagram_frame. case_match; [done |]. case_match; [done |]. simpl. by case_match.
Qed.

Lemma kept_datagram c now clock dg r : handle_datagram c now clock dg = Some r -> maps_kept c r.2.2.
Proof.
  apply (handle_datagram_rel maps_kept (fun _ => True) (fun _ => True) (fun _ => True)); try done.
  - intros a b E. apply kept_same; [exact (f_equal (fun v => v.1.1.2.1.1.1) E) | exact (f_equal (fun v => v.2.1.2) E)].
  - intros a n pt f _. apply kept_frame.
  - intros a k. apply kept_pump.
  - intros. by case_match.
Qed.

(** ** Lemmas: calls *)

Lemma kept_read c id : maps_kept c (read_stream c id).2.
Proof.
  unfold read_stream. destruct (om_get id (recv_streams c)) as [s |]; [| done]. destruct (RecvStream.read_checked s) as [[[bytes fin] | e] s'];
    [| by apply kept_unmapped]. cbn [snd]. case_match; [| by apply kept_unmapped]. case_match; [by eapply kept_recv | by apply kept_unmapped].
Qed.

Lemma kept_call c a : maps_kept c (call c a).
Proof.
  destruct a; cbn [call]; try by apply kept_unmapped.
  - unfold open_bidi. case_match; [by apply kept_unmapped |]. intros [H1 H2]. split; by apply om_wf_insert.
  - unfold open_uni. case_match; [by apply kept_unmapped | by eapply kept_send].
  - unfold send_stream. case_match; [by eapply kept_send | done].
  - apply kept_read.
  - unfold reset_stream. case_match; [by eapply kept_send | done].
  - apply kept_unmapped. unfold stop_sending. by case_match.
  - unfold queue_early_data. case_match; [apply kept_write_or_create | by apply kept_unmapped].
  - apply kept_unmapped. unfold send_datagram. case_match; [done |]. by case_match.
  - apply kept_unmapped. unfold recv_datagram. by case_match.
  - apply kept_unmapped. unfold poll_new_peer_stream. by case_match.
  - apply kept_unmapped. unfold poll_readable. by case_match.
  - apply kept_unmapped. unfold pop_cid_event. by case_match.
  - apply kept_unmapped. unfold initiate_key_update. case_match; [done |]. by destruct (_ || _).
  - apply kept_unmapped. unfold initiate_path_challenge. case_match; [done |]. destruct (rng_fill _ _) as [[nonce |] r]; done.
  - apply kept_unmapped. unfold conn_add_path. destruct (add_path _ _ _ _) as [[i m] |]; done.
  - apply kept_unmapped. unfold conn_set_preferred_path. destruct (set_preferred _ _) as [m |]; [| done]. by destruct (active_path m).
  - apply kept_unmapped. unfold close. by case_match.
Qed.

End maps.
