(* ===== verification/ConnBooks.v ===== *)
(** * The sender's books over whole runs

    Bytes in flight, packet numbers and the loss-detection timer in every state that
    application calls, datagrams, timer expiries and transmissions can lead to
    ([recv.rs], [send.rs], [recovery.rs], [mod.rs]).  A Retry is the exception for
    packet numbers: accepting one starts the Initial space again at number zero. *)

From S2P Require Import Prelude OrdMap CoreTypes FrameCodec ParamsCodec PacketSpace SentPackets.
From S2P Require Import Recovery Congestion Bbr CidPool Streams Packet Multipath Connection.
From S2P Require Import ConnRecovery ConnHandshake ConnRecv ConnSend ConnSystem.

Section books.
Context {env : QuicEnv}.

Notation conn := (Connection env).
Notation any := (fun _ : CongestionController => True).

(** ** Lemmas: acknowledgements and timers only take packets away *)

Record shrinks (c c' : conn) : Prop := {
  sh_pns : pns c' = pns c;
  sh_retry : retry_done c' = retry_done c;
  sh_sent : forall i, sent_sub (sent_at c i) (sent_at c' i)
}.

#[local] Instance shrinks_preorder : PreOrder shrinks.
Proof.
  split; [intros c; split; [done | done | by intros i pn p] |]. intros a b c [A1 A2 A3] [B1 B2 B3]. split; [congruence | congruence |].
  intros i pn p H. by apply A3, B3.
Qed.

Lemma shrinks_same c c' : pns c' = pns c -> retry_done c' = retry_done c -> sent_packets c' = sent_packets c -> shrinks c c'.
Proof. intros H1 H2 H3. split; [done | done |]. intros i pn p. unfold sent_at. by rewrite H3. Qed.

Lemma shrinks_fold {A} (step : conn -> A -> conn) l c : (forall a x, shrinks a (step a x)) -> shrinks c (fold_left step l c).
Proof. intros H. revert c. induction l as [| x l IH]; intros c; [done |]. simpl. etransitivity; [apply (H c x) | apply IH]. Qed.

Lemma shrinks_put c idx s : sent_sub (sent_at c idx) s -> shrinks c (put_sent idx s c).
Proof.
  intros H. split; [done | done |]. intros i pn p. unfold put_sent, sent_at. cbn.
  destruct (decide (idx < length (sent_packets c))%nat) as [Hl | Hl].
  - rewrite sent_at_insert by done. case_decide as Hi; [subst i; apply H | done].
  - by rewrite list_insert_ge by lia.
Qed.

Lemma shrinks_requeue c idx f : shrinks c (requeue_frame c idx f).
Proof. destruct f as [| | | | | | [] | [] |]; simpl; repeat case_match; by apply shrinks_same. Qed.

Lemma shrinks_timer c : shrinks c (set_loss_detection_timer c).
Proof. unfold set_loss_detection_timer. repeat case_match; by apply shrinks_same. Qed.

Lemma shrinks_lost_frame idx c f : shrinks c (handle_lost_frame idx c f).
Proof.
  unfold handle_lost_frame. destruct f; try apply shrinks_requeue. unfold on_mtu_probe_lost. case_match; by apply shrinks_same.
Qed.

Lemma shrinks_detect c idx now : shrinks c (detect_and_handle_loss c idx now).
Proof.
  unfold detect_and_handle_loss. pose proof (detect_lost_sub (sent_at c idx) now (Rtt.loss_delay (rtt c))) as Hs.
  destruct (detect_lost _ _ _) as [[lost next] s']. etransitivity; [apply (shrinks_put c idx s' Hs) |].
  generalize (put_sent idx s' c). clear. intros c. destruct lost as [| p lost]; [by apply shrinks_same |].
  destruct (lost_summary _) as [[b n] o].
  match goal with |- context [fold_left ?g ?l ?c0] =>
    assert (Hf : shrinks c (fold_left g l c0))
      by (etransitivity; [| apply shrinks_fold; intros; apply shrinks_fold; intros; apply shrinks_lost_frame]; by apply shrinks_same);
    set (c1 := fold_left g l c0) in * end.
  etransitivity; [exact Hf |]. repeat case_match; by apply shrinks_same.
Qed.

Lemma shrinks_acked_frame now c f : shrinks c (on_acked_frame now c f).
Proof. destruct f; try done. simpl. unfold on_mtu_probe_acked. repeat case_match; by apply shrinks_same. Qed.

Lemma shrinks_ack c now pt largest delay first_range ranges : shrinks c (process_ack c now pt largest delay first_range ranges).
Proof.
  unfold process_ack. assert (H0 : shrinks c (record_largest_acked c pt largest)) by (destruct pt; by apply shrinks_same).
  etransitivity; [exact H0 |]. generalize (record_largest_acked c pt largest). clear. intros c. fold (gap_pairs ranges).
  pose proof (on_ack_sub (sent_at c (space_index pt)) largest first_range (gap_pairs ranges)) as Hs.
  destruct (on_ack _ _ _ _) as [o s']. etransitivity; [apply (shrinks_put c _ s' Hs) |].
  generalize (put_sent (space_index pt) s' c). clear. intros c. destruct (newly_acked o) as [| p ps]; [done |].
  etransitivity; [| apply shrinks_timer]. etransitivity; [| apply shrinks_detect].
  etransitivity; [| apply shrinks_fold; intros; apply shrinks_fold; intros; apply shrinks_acked_frame].
  etransitivity; [apply (shrinks_same c (sample_rtt_on_ack c (space_index pt) o largest delay now)) |];
    try (unfold sample_rtt_on_ack; repeat case_match; done).
  destruct (acked_ack_eliciting o); destruct (acked_for_cc _); by apply shrinks_same.
Qed.

Lemma shrinks_pto c : shrinks c (on_pto_expiry c).
Proof.
  unfold on_pto_expiry. etransitivity; [| apply shrinks_timer]. destruct (is_some _); [| done].
  unfold requeue_for_probe. etransitivity; [| apply shrinks_fold]; [by apply shrinks_same |].
  intros a i. case_match; [| done]. apply shrinks_fold. intros; apply shrinks_requeue.
Qed.

Lemma shrinks_timeout c now : shrinks c (handle_timeout c now).
Proof.
  unfold handle_timeout. destruct (match idle_deadline c with Some d => _ | None => _ end); [case_match; by apply shrinks_same |].
  etransitivity; [apply (shrinks_same c (keep_alive_timeout c now)); unfold keep_alive_timeout; repeat case_match; done |].
  generalize (keep_alive_timeout c now). clear. intros c. etransitivity; [apply (fun H => H : shrinks c (loss_timeout c now)) |].
  - unfold loss_timeout, on_loss_timeout. repeat case_match; try done; try apply shrinks_pto.
    etransitivity; [apply shrinks_detect | apply shrinks_timer].
  - generalize (loss_timeout c now). clear. intros c. unfold mtu_timeout, schedule_mtu_probe. repeat case_match; by apply shrinks_same.
Qed.

(** ** Lemmas: the books from event to event *)

(** What can be taken away keeps the books, if the bytes of the packets are released. *)
Lemma shrinks_sends c c' :
  shrinks c c' ->
  (forall I, CtlLoses I -> (forall acked now, Forall (fun a : acked_packet => 0 <= a.1.1) acked -> I (congestion c) ->
      0 <= ctl_bytes_in_flight (congestion c) -> I (ctl_on_packets_acked cbrt (congestion c) acked now)) ->
     flight_with I (sent_packets c) (congestion c) -> flight_with I (sent_packets c') (congestion c')) ->
  sends_with any 0 c c'.
Proof.
  intros [H1 _ H3] Hfl Hok _ _. pose proof (next_of_pns _ _ H1) as Hn. destruct Hok as [Hf Hfr Hr].
  pose proof (stores_flight_nonneg _ (fo_sized _ _ Hf)) as Hnn. pose proof (fo_bytes _ _ Hf) as Hby.
  set (I := fun cc => ctl_bytes_in_flight cc <= stores_flight (sent_packets c)).
  assert (HF : flight_with I (sent_packets c') (congestion c')).
  { apply Hfl; [by apply ctl_bound_loses | |].
    - intros acked now Ha Hi H0. unfold I. rewrite ctl_acked_bytes by done. unfold sat_sub.
      pose proof (foldr_nonneg (fun a : acked_packet => a.1.1) acked Ha) as Hs. change (0 <= acked_bytes acked) in Hs.
      unfold I in Hi. lia.
    - destruct Hf as [F1 F2 F3 F4 F5 F6]. split; try done. unfold I. lia. }
  destruct HF as [F1 F2 F3 F4 F5 F6]. unfold I in F4. split_and!.
  - split; [by split | intros kind pn p Hp%H3; rewrite Hn; by apply Hfr in Hp | intros kind; by rewrite Hn].
  - intros kind. rewrite Hn. lia.
  - lia.
  - intros kind pn p Hp%H3. by left.
Qed.

Lemma ack_sends c now pt largest delay first_range ranges :
  sends_with any 0 c (process_ack c now pt largest delay first_range ranges).
Proof.
  apply shrinks_sends; [apply shrinks_ack |]. intros I HI Hack HF. apply (flight_ok_ack I); [done |].
  pose proof (stores_flight_nonneg _ (fo_sized _ _ HF)) as Hnn. pose proof (fo_bytes _ _ HF) as Hby.
  apply Hack; [| apply (fo_inv _ _ HF) | lia]. by eapply acked_for_cc_nonneg, ack_outcome_sized.
Qed.

Lemma timeout_sends c now : sends_with any 0 c (handle_timeout c now).
Proof. apply shrinks_sends; [apply shrinks_timeout |]. intros I HI _ HF. by apply (flight_ok_timeout I). Qed.

(** No Retry is accepted, and at most [k] packets are sent. *)
Definition booked (k : Z) (c c' : conn) : Prop := retry_done c' = false -> retry_done c = false /\ sends_with any k c c'.

#[local] Instance booked_preorder : PreOrder (booked 0).
Proof.
  split.
  - intros c Hc. split; [done |]. by apply sends_with_same.
  - intros a b c Hab Hbc Hc. destruct (Hbc Hc) as [Hb Sb]. destruct (Hab Hb) as [Ha Sa]. split; [done |].
    by apply (sends_with_trans any 0 0 a b c).
Qed.

(** Everything but acknowledgements, timers and packets leaves the books alone. *)
Definition sent_view (c : conn) := (cc_view c, num_view c).

Lemma booked_same c c' : sent_view c' = sent_view c -> booked 0 c c'.
Proof.
  intros H Hr. pose proof (f_equal fst H) as H1. pose proof (f_equal (fun v => v.2.1) H) as H2.
  pose proof (f_equal (fun v => v.2.2.2) H) as H3. cbn in H1, H2, H3. split; [congruence |]. by apply sends_with_same.
Qed.

Definition is_ack (f : Frame) : bool := match f with Ack _ _ _ _ => true | _ => false end.

Lemma sent_view_issue c : sent_view (maybe_issue_new_cid c).2 = sent_view c.
Proof. unfold maybe_issue_new_cid. repeat case_match; done. Qed.

Lemma sent_view_frame c now pt f : is_ack f = false -> sent_view (handle_frame c now pt f).2 = sent_view c.
Proof.
  intros Hf. destruct f; try done; unfold handle_frame.
  - unfold recv_stop_sending. repeat case_match; done.
  - unfold recv_crypto. destruct pt; try done;
      destruct (CryptoStream.recv _ _ _) as [[bytes |] s]; try done; simpl; destruct (read_hs _ _) as [[] t]; done.
  - unfold recv_stream, touch_stream. cbn [snd]. repeat case_match; done.
  - unfold recv_path_response. repeat case_match; done.
  - by case_match.
  - case_match; [done |]. by case_match.
  - unfold recv_retire_connection_id. case_match; [done |]. case_match; [done |].
    destruct (LocalCidPool.handle_peer_retirement _ _) as [[x |] pool]; [| done]. cbn [snd]. by rewrite sent_view_issue.
  - destruct dir; by case_match.
  - destruct dir; simpl; by case_match.
  - unfold recv_new_token. case_match; [done |]. by case_match.
  - unfold recv_datagram_frame. case_match; [done |]. case_match; [done |]. simpl. by case_match.
Qed.

Lemma sent_view_pump c clock : sent_view (pump_write_hs c clock) = sent_view c.
Proof. exact (f_equal (fun v => (v.1.1.2, v.1.2.1)) (pump_view_pump c clock)). Qed.

Lemma sent_view_call c a : sent_view (call c a) = sent_view c.
Proof.
  destruct a; cbn [call]; try done.
  - unfold open_bidi. by case_match.
  - unfold open_uni. by case_match.
  - unfold send_stream. by case_match.
  - unfold read_stream. repeat case_match; done.
  - unfold reset_stream. by case_match.
  - unfold stop_sending. by case_match.
  - unfold queue_early_data. by case_match.
  - unfold send_datagram. case_match; [done |]. by case_match.
  - unfold recv_datagram. by case_match.
  - unfold poll_new_peer_stream. by case_match.
  - unfold poll_readable. by case_match.
  - unfold pop_cid_event. by case_match.
  - unfold initiate_key_update. case_match; [done |]. by destruct (_ || _).
  - unfold initiate_path_challenge. case_match; [done |]. destruct (rng_fill _ _) as [[nonce |] r]; done.
  - unfold conn_add_path. destruct (add_path _ _ _ _) as [[i m] |]; done.
  - unfold conn_set_preferred_path. destruct (set_preferred _ _) as [m |]; [| done]. by destruct (active_path m).
  - unfold close. by case_match.
Qed.

(** Accepting a Retry is what [booked] excludes; otherwise it changes nothing. *)
Lemma booked_retry c dg off : booked 0 c (recv_retry_packet c dg off).2.
Proof. unfold recv_retry_packet. repeat case_match; done. Qed.

Lemma booked_datagram c now clock dg r : handle_datagram c now clock dg = Some r -> booked 0 c r.2.2.
Proof.
  apply (handle_datagram_fine (booked 0) (fun _ => True) (fun _ => True) (fun _ => True)); try done.
  - intros a b E. apply booked_same. exact (f_equal (fun v => (v.1.1.2, v.2)) E).
  - apply booked_retry.
  - intros a n pt f _. destruct (is_ack f) eqn:Ef; [| by apply booked_same, sent_view_frame].
    destruct f; try done. intros Hr. split; [| apply ack_sends]. cbn in Hr. by rewrite (sh_retry _ _ (shrinks_ack _ _ _ _ _ _ _)) in Hr.
  - intros a k. by apply booked_same, sent_view_pump.
  - intros. by case_match.
Qed.

(** ** Lemmas: the timer from event to event *)

(** The timer stays right, and a Retry is not forgotten. *)
Definition timed (c c' : conn) : Prop := (retry_done c = true -> retry_done c' = true) /\ (timer_right c -> timer_right c').

#[local] Instance timed_preorder : PreOrder timed.
Proof. split; [intros c; by split | intros a b c [A1 A2] [B1 B2]; split; auto]. Qed.

Lemma timed_same c c' : sent_packets c' = sent_packets c -> recov_view c' = recov_view c -> timed c c'.
Proof. intros H1 [= H2 H3 H4]. split; [congruence | by apply timer_right_same]. Qed.

Lemma timed_view c c' : sent_view c' = sent_view c -> timed c c'.
Proof.
  intros H. apply timed_same; [exact (f_equal (fun v => v.1.1) H) | exact (f_equal (fun v => v.2.2) H)].
Qed.

Lemma timed_unsent c c' : unsent false c c' -> timed c c'.
Proof. intros [H1 H2]. by apply timed_same; [apply H2 |]. Qed.

Lemma timed_retry c dg off : timed c (recv_retry_packet c dg off).2.
Proof. unfold recv_retry_packet. repeat case_match; done. Qed.

Lemma timed_ack c now pt largest delay first_range ranges : timed c (process_ack c now pt largest delay first_range ranges).
Proof. split; [by rewrite (sh_retry _ _ (shrinks_ack _ _ _ _ _ _ _)) | apply timer_right_ack]. Qed.

Lemma timed_datagram c now clock dg r : handle_datagram c now clock dg = Some r -> timed c r.2.2.
Proof.
  apply (handle_datagram_fine timed (fun _ => True) (fun _ => True) (fun _ => True)); try done.
  - intros a b E. apply timed_view. exact (f_equal (fun v => (v.1.1.2, v.2)) E).
  - apply timed_retry.
  - intros a n pt f _. destruct (is_ack f) eqn:Ef; [destruct f; try done; apply timed_ack | by apply timed_view, sent_view_frame].
  - intros a k. by apply timed_view, sent_view_pump.
  - intros. by case_match.
Qed.

Lemma timed_timeout c now : timed c (handle_timeout c now).
Proof.
  split; [by rewrite (sh_retry _ _ (shrinks_timeout _ _)) |]. unfold handle_timeout.
  destruct (match idle_deadline c with Some d => _ | None => _ end); [case_match; by apply timer_right_same |]. intros Hc.
  apply (timer_right_same (loss_timeout (keep_alive_timeout c now) now));
    [unfold mtu_timeout, schedule_mtu_probe; repeat case_match; done .. |].
  assert (Hk : timer_right (keep_alive_timeout c now)).
  { eapply timer_right_same; [| | | exact Hc]; unfold keep_alive_timeout; repeat case_match; done. }
  revert Hk. generalize (keep_alive_timeout c now). clear. intros c Hc.
  unfold loss_timeout, on_loss_timeout, on_pto_expiry. repeat case_match; try done; apply timer_right_set.
Qed.

Lemma timed_packets c now out : timed c (transmit_packets c now out).2.2.
Proof.
  unfold transmit_packets. pose proof (fill_view_advance c) as Ha.
  assert (H0 : timed c (advance_recv_flow c)).
  { apply timed_same; [exact (f_equal (fun v => v.1.1.1) Ha) | by apply fill_view_recov]. }
  etransitivity; [exact H0 |]. generalize (advance_recv_flow c). clear. intros c.
  destruct (write_packets c now out) as [[wi wa] [o c1]] eqn:E. apply wrote_packets in E as (_ & [_ U] & _). cbn [snd] in U.
  destruct wa; cbn [negb]; [| by apply timed_unsent].
  split; [| intros _; apply timer_right_set]. cbn [snd]. destruct U as [[= _ _ Hr] _]. intros Hc.
  assert (Hs : forall x, retry_done (set_loss_detection_timer x) = retry_done x) by (intros; unfold set_loss_detection_timer; repeat case_match; done).
  rewrite Hs. unfold arm_idle_timer, arm_keep_alive. repeat case_match; simpl; congruence.
Qed.

Lemma timed_transmit c now clock out : timed c (poll_transmit c now clock out).2.2.
Proof.
  unfold poll_transmit. etransitivity; [apply (timed_view c (pump_write_hs c clock)), sent_view_pump |].
  generalize (pump_write_hs c clock). clear. intros c. case_bool_decide; [done |].
  destruct (is_some _ || is_some _); [| apply timed_packets].
  destruct (emit_close c out) as [[a |] [o c1]] eqn:E; apply wrote_close in E as (_ & [_ U] & _); apply timed_unsent in U.
  - etransitivity; [exact U | by apply timed_same].
  - etransitivity; [exact U | apply timed_packets].
Qed.

Lemma timed_exec c e : timed c (exec c e).
Proof.
  destruct e as [a | now clock dg | now | now clock out]; cbn [exec].
  - apply timed_view, sent_view_call.
  - destruct (handle_datagram c now clock dg) as [[d [r c']] |] eqn:E; [| done]. exact (timed_datagram c now clock dg _ E).
  - apply timed_timeout.
  - apply timed_transmit.
Qed.

(** ** Runs *)

(** Every datagram the run produces fits in UDP. *)
Definition fits (c : conn) (e : event) : Prop :=
  match e with Transmit now clock out => len (poll_transmit c now clock out).2.1 < 2 ^ 16 | _ => True end.

Lemma booked_exec c e : fits c e -> booked 5 c (exec c e).
Proof.
  intros Hf. assert (Hz : booked 0 c (exec c e) -> booked 5 c (exec c e)).
  { intros H Hr. destruct (H Hr) as [Hc S]. split; [done |]. intros Hok Hn Hs.
    destruct (S Hok) as (S1 & S2 & S3 & S4); [intros k; specialize (Hn k); lia | lia |].
    split_and!; [done | intros k; specialize (S2 k); lia | lia | done]. }
  destruct e as [a | now clock dg | now | now clock out]; cbn [exec fits] in *.
  - apply Hz, booked_same, sent_view_call.
  - apply Hz. destruct (handle_datagram c now clock dg) as [[d [r c']] |] eqn:E; [| done]. exact (booked_datagram c now clock dg _ E).
  - apply Hz. intros Hr. rewrite (sh_retry _ _ (shrinks_timeout _ _)) in Hr. split; [done | apply timeout_sends].
  - intros Hr. split.
    + destruct (timed_transmit c now clock out) as [H _]. destruct (retry_done c); [| done]. rewrite H in Hr; done.
    + destruct (poll_transmit c now clock out) as [addr [out' c']] eqn:E. by apply (poll_transmit_sends _ _ _ _ _ _ _ E).
Qed.

Lemma booked_run evs c :
  fold_ok exec fits c evs -> booked (5 * len evs) c (fold_left exec evs c).
Proof.
  revert c. induction evs as [| e evs IH]; intros c Hok; cbn [fold_left]; [by apply booked_preorder |].
  destruct Hok as [He Hok]. intros Hr. destruct (IH _ Hok Hr) as [H1 S1]. destruct (booked_exec c e He H1) as [H0 S0].
  split; [done |]. replace (5 * len (e :: evs)) with (5 + 5 * len evs) by (simpl; lia). by eapply sends_with_trans; [lia | lia | |].
Qed.

Lemma timed_run evs c : timed c (fold_left exec evs c).
Proof. revert c. induction evs as [| e evs IH]; intros c; [done |]. cbn [fold_left]. etransitivity; [apply timed_exec | apply IH]. Qed.

Lemma new_books role tls params rng algo clock :
  let c := install_initial_keys (new_inner role tls params rng algo clock) in
  sending_with any c /\ (forall kind, next_of c kind = 0) /\ stores_flight (sent_packets c) = 0 /\ timer_right c.
Proof.
  unfold new_inner. destruct (rng_fill rng 32) as [secret rng']. split_and!.
  - split; [split; try done | |].
    + repeat apply Forall_cons_2; try apply sent_wf_new. apply Forall_nil. exact I.
    + repeat apply Forall_cons_2; try (apply Forall_nil; exact I).
    + by destruct algo.
    + by intros [].
    + by intros [].
  - by intros [].
  - done.
  - split; [| done]. intros _. split; [by intros [] |]. intros s p Hs.
    repeat (apply elem_of_cons in Hs as [-> | Hs]; [by intros ?%elem_of_nil |]). by apply elem_of_nil in Hs.
Qed.

Lemma stored_number c : sending_with any c -> forall kind pn p,
  om_get pn (sent (sent_at c (kind_nat kind))) = Some p -> sp_packet_number p = pn /\ 0 <= pn.
Proof.
  intros B kind pn p Hp. destruct (lookup_lt_is_Some_2 (sent_packets c) (kind_nat kind)) as [s Hs].
  { rewrite (fo_three _ _ (so_flight _ B)). apply kind_nat_lt. }
  unfold sent_at in Hp. rewrite (nth_lookup_Some _ _ _ _ Hs) in Hp.
  destruct (proj1 (Forall_lookup _ _) (fo_wf _ _ (so_flight _ B)) _ s Hs) as [_ Hw]. destruct (Hw pn p Hp) as [-> H]. split; [done | lia].
Qed.

End books.

(** ** Properties *)

(** C6: The sender's books balance over any run without an accepted Retry: from a new
    connection, after any sequence of fewer than [2 ^ 40] events ([before ++ after]:
    calls, datagrams of any content, timer expiries, transmissions of datagrams
    shorter than [2 ^ 16] bytes), the congestion controller's bytes in flight are
    exactly the in-flight bytes recorded in the three stores, whatever the algorithm,
    and packet numbers are never used twice: every recorded packet stands under its
    own number, below the next one of its space; next numbers do not go back; and a
    packet recorded in [after] carries a number no packet of [before] had.  Accepting
    a Retry restarts the Initial numbers at zero while the packets sent before stay
    recorded, which is why the run must not have accepted one. *)
Theorem books_balance {env : QuicEnv} role tls params rng algo clock before after :
  let c0 : Connection env := install_initial_keys (new_inner role tls params rng algo clock) in
  let c1 := fold_left exec before c0 in
  let c2 := fold_left exec after c1 in
  len (before ++ after) < 2 ^ 40 -> fold_ok exec fits c0 (before ++ after) -> retry_done c2 = false ->
  ctl_bytes_in_flight (congestion c2) = stores_flight (sent_packets c2) /\
  (forall kind pn p, om_get pn (sent (sent_at c2 (kind_nat kind))) = Some p ->
     sp_packet_number p = pn /\ 0 <= pn < next_of c2 kind) /\
  (forall kind, next_of c1 kind <= next_of c2 kind) /\
  (forall kind pn p, om_get pn (sent (sent_at c2 (kind_nat kind))) = Some p ->
     om_get pn (sent (sent_at c1 (kind_nat kind))) = Some p \/ next_of c1 kind <= pn).
Proof.
  intros c0 c1 c2 Hlen Hok Hr. destruct (new_books role tls params rng algo clock) as (B0 & N0 & F0 & _). fold c0 in B0, N0, F0.
  rewrite length_app, Nat2Z.inj_add in Hlen. apply fold_ok_app in Hok as [Hok1 Hok2].
  destruct (booked_run after c1 Hok2 Hr) as [Hr1 S2]. destruct (booked_run before c0 Hok1 Hr1) as [_ S1].
  fold c1 in S1. fold c2 in S2.
  destruct (S1 B0) as (B1 & N1 & F1 & _); [intros k; rewrite N0; lia | lia |].
  destruct (S2 B1) as (B2 & N2 & F2 & G2); [intros k; specialize (N1 k); rewrite N0 in N1; lia | lia |].
  split_and!.
  - apply (fo_bytes _ _ (so_flight _ B2)).
  - intros kind pn p Hp. destruct (stored_number _ B2 kind pn p Hp) as [H1 H2]. split; [done |].
    split; [lia | by apply (so_fresh _ B2 kind pn p)].
  - intros kind. apply N2.
  - exact G2.
Qed.

(** C24: The loss-detection timer is armed exactly when it has to be, in every state a
    run from a new connection reaches (any calls, any datagrams, timer expiries and
    transmissions): it is off if and only if no time-threshold loss is pending in any
    space and no ack-eliciting packet is outstanding.  And when it expires while an
    ack-eliciting packet is outstanding, the connection acts: either a pending loss
    time has been reached and loss detection runs in its space before the timer is
    set again, or two more probes are owed (four at most) and the timer stays armed. *)
Theorem loss_timer_armed {env : QuicEnv} role tls params rng algo clock evs :
  let c : Connection env := fold_left exec evs (install_initial_keys (new_inner role tls params rng algo clock)) in
  (loss_timer c = None <->
   (forall i, LossDetection.loss_time (loss c) i = None) /\
   (forall s p, s ∈ sent_packets c -> p ∈ om_values (sent s) -> sp_ack_eliciting p = false)) /\
  (forall now t s p, loss_timer c = Some t -> t <= now ->
     s ∈ sent_packets c -> p ∈ om_values (sent s) -> sp_ack_eliciting p = true ->
     (exists due i, LossDetection.loss_time (loss c) i = Some due /\ due <= now /\
        loss_timeout c now = set_loss_detection_timer (detect_and_handle_loss c (space_nat i) now)) \/
     (probes_owed (loss_timeout c now) = Z.min 4 (probes_owed c + 2) /\ is_some (loss_timer (loss_timeout c now)) = true)).
Proof.
  intros c. destruct (new_books role tls params rng algo clock) as (_ & _ & _ & T0). split.
  - by apply (timed_run evs _).
  - clearbody c. intros now t s p Ht Hn Hs Hp He. unfold loss_timeout. rewrite Ht, (proj2 (Z.leb_le _ _)) by done.
    by apply (loss_timeout_acts c now s p).
Qed.

(** ** The run of [ConnSystem]: two datagrams, an expiry, a probe *)

Definition demo_tls_script : ScriptedTls :=
  mkScriptedTls [([1], Some (KcOneRtt demo_keys 5))] false (Some (encode_transport_params demo_peer_params)).

Definition demo_conn_params : ConnectionParams (@Addr demo_env) :=
  mkConnParams [1; 1; 1; 1; 1; 1; 1; 1] [2; 2; 2; 2; 2; 2; 2; 2] [2; 2; 2; 2; 2; 2; 2; 2] 7 default_params default_mtu_config 65536.

Definition demo_before : list (event (env := demo_env)) := take 4 demo_run_events.
Definition demo_after : list (event (env := demo_env)) := drop 4 demo_run_events.
Definition demo_middle : Connection demo_env := fold_left exec demo_before demo_run_start.
Definition demo_last : Connection demo_env := fold_left exec demo_after demo_middle.

Lemma books_balance_witness :
  (ctl_bytes_in_flight (congestion demo_last) = 158 /\ om_keys (sent (sent_at demo_last 0)) = [0; 1] /\
   next_of demo_middle SkInitial = 1 /\ next_of demo_last SkInitial = 2) /\
  ctl_bytes_in_flight (congestion demo_last) = stores_flight (sent_packets demo_last) /\
  (forall kind pn p, om_get pn (sent (sent_at demo_last (kind_nat kind))) = Some p ->
     sp_packet_number p = pn /\ 0 <= pn < next_of demo_last kind) /\
  (forall kind, next_of demo_middle kind <= next_of demo_last kind) /\
  (forall kind pn p, om_get pn (sent (sent_at demo_last (kind_nat kind))) = Some p ->
     om_get pn (sent (sent_at demo_middle (kind_nat kind))) = Some p \/ next_of demo_middle kind <= pn).
Proof.
  split; [vm_compute; repeat split |].
  apply (books_balance (env := demo_env) Client demo_tls_script demo_conn_params 0 AlgoNewReno 0 demo_before demo_after).
  - reflexivity.
  - vm_compute. repeat split.
  - vm_compute. reflexivity.
Defined.

Lemma loss_timer_armed_witness :
  (loss_timer demo_middle = Some 1024000000 /\ probes_owed (loss_timeout demo_middle (10 ^ 10)) = 2) /\
  (loss_timer demo_middle = None <->
   (forall i, LossDetection.loss_time (loss demo_middle) i = None) /\
   (forall s p, s ∈ sent_packets demo_middle -> p ∈ om_values (sent s) -> sp_ack_eliciting p = false)) /\
  ((exists due i, LossDetection.loss_time (loss demo_middle) i = Some due /\ due <= 10 ^ 10 /\
      loss_timeout demo_middle (10 ^ 10) = set_loss_detection_timer (detect_and_handle_loss demo_middle (space_nat i) (10 ^ 10))) \/
   (probes_owed (loss_timeout demo_middle (10 ^ 10)) = Z.min 4 (probes_owed demo_middle + 2) /\
    is_some (loss_timer (loss_timeout demo_middle (10 ^ 10))) = true)).
Proof.
  split; [vm_compute; split; reflexivity |].
  destruct (loss_timer_armed (env := demo_env) Client demo_tls_script demo_conn_params 0 AlgoNewReno 0 demo_before) as [H1 H2].
  split; [exact H1 |].
  apply (H2 (10 ^ 10) 1024000000 (sent_at demo_middle 0) (nth 0 (om_values (sent (sent_at demo_middle 0))) (mkSentPacket 0 0 false false 0 [] None))).
  - vm_compute. reflexivity.
  - vm_compute. congruence.
  - apply list_elem_of_lookup_2 with 0%nat. vm_compute. reflexivity.
  - apply list_elem_of_lookup_2 with 0%nat. vm_compute. reflexivity.
  - vm_compute. reflexivity.
Defined.
