(* ===== verification/ConnMtu.v ===== *)
(** * Path-MTU discovery

    The search of [connection/mod.rs] ([next_probe_size], [schedule_mtu_probe],
    [on_mtu_probe_acked], [on_mtu_probe_lost]) together with everything else the
    connection does: the datagram size in use, the sizes being probed and the probes
    in flight, over all events. *)

From stdpp Require Import relations.
From S2P Require Import Prelude OrdMap CoreTypes Coding FrameCodec ParamsCodec PacketSpace SentPackets.
From S2P Require Import Streams FlowControl Recovery Congestion Bbr CidPool Packet Config Multipath Connection.
From S2P Require Import ConnRecovery ConnHandshake ConnRecv ConnSend ConnFlow ConnSystem.

Section mtu.
Context {env : QuicEnv}.

Notation conn := (Connection env).

(** ** The invariant *)

Definition probe_sized (max : Z) (f : SentFrame) : Prop :=
  match f with SFMtuProbe size => MIN_INITIAL_DATAGRAM < size < max | _ => True end.

Record mtu_ok (c : conn) : Prop := {
  mo_current : MIN_INITIAL_DATAGRAM <= current_mtu c;
  mo_below : current_mtu c = MIN_INITIAL_DATAGRAM \/ current_mtu c < max_mtu c;
  mo_max : MIN_INITIAL_DATAGRAM <= max_mtu c < 2 ^ 16;
  mo_probe : forall size, probe_mtu c = Some size -> MIN_INITIAL_DATAGRAM < size < max_mtu c;
  mo_sent : forall store p f, store ∈ sent_packets c -> p ∈ om_values (sent store) -> f ∈ sp_frames p -> probe_sized (max_mtu c) f
}.

(** A probe of that size is recorded as sent. *)
Definition probed (c : conn) (size : Z) : Prop :=
  exists store p, store ∈ sent_packets c /\ p ∈ om_values (sent store) /\ SFMtuProbe size ∈ sp_frames p.

(** ** Lemmas: steps that find nothing *)

Definition fewer_sent (c c' : conn) : Prop :=
  forall store p, store ∈ sent_packets c' -> p ∈ om_values (sent store) -> exists store', store' ∈ sent_packets c /\ p ∈ om_values (sent store').

(** The size in use and the ceiling stay, a probe may be given up, no probe is sent. *)
Definition eased (c c' : conn) : Prop :=
  (current_mtu c' = current_mtu c /\ max_mtu c' = max_mtu c) /\
  (probe_mtu c' = probe_mtu c \/ probe_mtu c' = None) /\ fewer_sent c c'.

#[local] Instance eased_preorder : PreOrder eased.
Proof.
  split.
  - intros c. split_and!; [done | done | by left |]. intros store p. by exists store.
  - intros a b c [[A1 A2] [A3 A4]] [[B1 B2] [B3 B4]]. split_and!; [congruence | congruence | |].
    + destruct A3, B3; [left | right ..]; congruence.
    + intros store p Hs Hp. destruct (B4 store p Hs Hp) as (s1 & H1 & H2). by apply (A4 s1).
Qed.

Lemma eased_ok c c' : eased c c' -> mtu_ok c -> mtu_ok c'.
Proof.
  intros [[E1 E2] [E3 E4]] [M1 M2 M3 M4 M5]. split; rewrite ?E1, ?E2; try done.
  - intros size H. destruct E3 as [E3 | E3]; rewrite E3 in H; [by apply M4 | done].
  - intros store p f H1 H2 H3. destruct (E4 store p H1 H2) as (s & G1 & G2). by apply (M5 s p).
Qed.

Lemma eased_probed c c' size : eased c c' -> probed c' size -> probed c size.
Proof. intros [_ [_ E]] (store & p & H1 & H2 & H3). destruct (E store p H1 H2) as (s & G1 & G2). by exists s, p. Qed.

Definition mtu_fields (c : conn) := (mtu_view c, sent_packets c).

Lemma eased_same c c' : mtu_fields c' = mtu_fields c -> eased c c'.
Proof.
  unfold mtu_fields, mtu_view. intros [= E1 E2 E3 E4]. split_and!; [done | done | by left |]. intros store p. rewrite E4. by exists store.
Qed.

Lemma eased_quiet c c' : quiet c c' -> eased c c'.
Proof. intros [[_ H1] H2]. apply eased_same. unfold mtu_fields. congruence. Qed.

Lemma eased_fold {A} (f : conn -> A -> conn) l c : (forall x a, eased x (f x a)) -> eased c (fold_left f l c).
Proof. intros H. revert c. induction l as [| a l IH]; intros c; [done |]. cbn [fold_left]. etransitivity; [apply H | apply IH]. Qed.

Lemma eased_put c idx s :
  (forall p, p ∈ om_values (sent s) -> p ∈ om_values (sent (sent_at c idx))) -> eased c (put_sent idx s c).
Proof.
  intros Hs. split_and!; [done | done | by left |]. intros store p Hst Hp. unfold put_sent in Hst. simpl in Hst.
  apply list_elem_of_lookup_1 in Hst as [i Hi]. apply list_lookup_insert_Some in Hi as [(-> & <- & Hl) | [_ Hi]].
  - exists (sent_at c i). split; [| by apply Hs]. apply list_elem_of_lookup_2 with i. unfold sent_at.
    apply lookup_lt_is_Some in Hl as [x Hx]. rewrite Hx. f_equal. symmetry. by apply nth_lookup_Some.
  - exists store. split; [by eapply list_elem_of_lookup_2 | done].
Qed.

(** ** Lemmas: loss *)

Lemma eased_requeue idx c f : eased c (requeue_frame c idx f).
Proof. apply eased_same. destruct f as [| | | | | | [] | [] |]; simpl; repeat case_match; done. Qed.

Lemma eased_lost_frame idx c f : eased c (handle_lost_frame idx c f).
Proof.
  unfold handle_lost_frame. destruct f; try apply eased_requeue. unfold on_mtu_probe_lost.
  case_match; [by apply eased_same |]. split_and!; [done | done | by right |]. intros store p. by exists store.
Qed.

Lemma eased_detect c idx now : eased c (detect_and_handle_loss c idx now).
Proof.
  unfold detect_and_handle_loss. pose proof (detect_lost_subset (sent_at c idx) now (Rtt.loss_delay (rtt c))) as Hsub.
  destruct (detect_lost _ _ _) as [[lost next] store]. set (c1 := (put_sent idx store c) <| loss ::= _ |>).
  etransitivity; [apply (eased_put c idx store); intros p Hp; apply Hsub, elem_of_app; by right |].
  etransitivity; [by apply (eased_same _ c1) |]. clearbody c1.
  destruct lost as [| p0 ps]; [done |]. generalize (p0 :: ps). intros l. destruct (lost_summary l) as [[bytes newest] oldest].
  set (c2 := c1 <| packets_lost ::= _ |>). etransitivity; [by apply (eased_same c1 c2) |].
  etransitivity; [apply (eased_fold (fun c p => fold_left (handle_lost_frame idx) (sp_frames p) c) l c2); intros; apply eased_fold; intros; apply eased_lost_frame |].
  generalize (fold_left (fun c p => fold_left (handle_lost_frame idx) (sp_frames p) c) l c2). intros c3. apply eased_same. repeat case_match; done.
Qed.

Lemma eased_timer c : eased c (set_loss_detection_timer c).
Proof. apply eased_quiet, timer_quiet. Qed.

Lemma eased_loss_timeout c now : eased c (loss_timeout c now).
Proof.
  unfold loss_timeout. destruct (loss_timer c); [| done]. case_match; [| done]. unfold on_loss_timeout, on_pto_expiry.
  assert (Hp : eased c (set_loss_detection_timer (if is_some (earliest_ack_eliciting_across_spaces c) then requeue_for_probe (owe_probes c) else c))).
  { etransitivity; [| apply eased_timer]. case_match; [| done]. etransitivity; [by apply (eased_same c (owe_probes c)) |].
    unfold requeue_for_probe. apply eased_fold. intros x idx. case_match; [| done]. apply eased_fold. intros y f. apply eased_requeue. }
  destruct (LossDetection.earliest_loss_time (loss c)) as [[t sp] |]; [| done]. destruct (t <=? now); [| done].
  etransitivity; [apply eased_detect | apply eased_timer].
Qed.

(** ** Lemmas: acknowledged probes *)

(** What a state has become since [c0] by receiving: the size in use is the one it was
    or that of a probe in flight then. *)
Record found (c0 c : conn) : Prop := {
  fo_ok : mtu_ok c;
  fo_max : max_mtu c = max_mtu c0;
  fo_current : current_mtu c = current_mtu c0 \/ current_mtu c0 < current_mtu c /\ probed c0 (current_mtu c);
  fo_probed : forall size, probed c size -> probed c0 size
}.

Definition finds (c c' : conn) : Prop := forall c0, found c0 c -> found c0 c'.

#[local] Instance finds_preorder : PreOrder finds.
Proof. split; [intros x c0 H; exact H | intros x y z H1 H2 c0 H; by apply H2, H1]. Qed.

Lemma found_refl c : mtu_ok c -> found c c.
Proof. intros H. split; auto. Qed.

Lemma eased_finds c c' : eased c c' -> finds c c'.
Proof.
  intros E c0 [F1 F2 F3 F4]. pose proof E as [[E1 E2] _]. split; [by eapply eased_ok | congruence | by rewrite E1 |].
  intros size H. by apply F4, (eased_probed c c').
Qed.

Lemma found_acked_frame now c0 c f :
  found c0 c -> probe_sized (max_mtu c0) f -> (forall size, f = SFMtuProbe size -> probed c0 size) -> found c0 (on_acked_frame now c f).
Proof.
  intros [[M1 M2 M3 M4 M5] F2 F3 F4] Hs Hp. destruct f as [| | | size | | | | |]; try (split; [by split | done ..]).
  specialize (Hp size eq_refl). cbn [probe_sized] in Hs. rewrite <- F2 in Hs. simpl. unfold on_mtu_probe_acked.
  set (c1 := if current_mtu c <? size then c <| current_mtu := size |> else c).
  assert (H1 : max_mtu c1 = max_mtu c /\ sent_packets c1 = sent_packets c /\ current_mtu c1 = Z.max (current_mtu c) size).
  { subst c1. destruct (Z.ltb_spec (current_mtu c) size); (split_and!; [done | done | simpl; lia]). }
  clearbody c1. destruct H1 as (E1 & E2 & E3).
  match goal with |- found c0 ?x => assert (H2 : (max_mtu x, sent_packets x, current_mtu x, probe_mtu x) = (max_mtu c1, sent_packets c1, current_mtu c1, None)) by (by case_match);
    revert H2; generalize x end. intros c2 [= G1 G2 G3 G4].
  assert (Hmx : current_mtu c2 = Z.max (current_mtu c) size) by congruence. assert (Hmax : max_mtu c2 = max_mtu c) by congruence.
  assert (Hsent : sent_packets c2 = sent_packets c) by congruence.
  split; [split | congruence | |].
  - lia.
  - right. destruct M2; lia.
  - by rewrite Hmax.
  - intros s. by rewrite G4.
  - intros store p f. rewrite Hsent, Hmax. apply M5.
  - destruct (Z.max_spec (current_mtu c) size) as [[Hlt Em] | [Hle Em]]; rewrite Hmx, Em; [| exact F3].
    right. split; [| done]. destruct F3 as [F3 | [F3 _]]; lia.
  - intros s (store & p & H). rewrite Hsent in H. apply F4. by exists store, p.
Qed.

Lemma finds_ack c now pt largest delay first_range ranges : finds c (process_ack c now pt largest delay first_range ranges).
Proof.
  unfold process_ack. etransitivity; [apply eased_finds, (eased_same c (record_largest_acked c pt largest)); by destruct pt |].
  generalize (record_largest_acked c pt largest). intros c1. set (idx := space_index pt).
  pose proof (on_ack_moves (sent_at c1 idx) largest first_range (map (fun r => (ar_gap r, ar_range r)) ranges)) as Hsub.
  destruct (on_ack _ _ _ _) as [o store].
  intros c0 Hf.
  assert (Hfr : forall p f, p ∈ newly_acked o -> f ∈ sp_frames p ->
            probe_sized (max_mtu c0) f /\ forall size, f = SFMtuProbe size -> probed c0 size).
  { intros p f Hp Hin. assert (Hm : p ∈ om_values (sent (sent_at c1 idx))) by (apply Hsub, elem_of_app; by left).
    unfold sent_at in Hm. destruct (sent_packets c1 !! idx) as [s |] eqn:E.
    - rewrite (nth_lookup_Some _ _ _ _ E) in Hm. apply list_elem_of_lookup_2 in E. split.
      + rewrite <- (fo_max c0 c1 Hf). by apply (mo_sent c1 (fo_ok c0 c1 Hf) s p).
      + intros size ->. apply (fo_probed c0 c1 Hf). by exists s, p.
    - rewrite nth_overflow in Hm by (by apply lookup_ge_None). by apply elem_of_nil in Hm. }
  assert (H2 : found c0 (put_sent idx store c1)).
  { apply (eased_finds c1); [| exact Hf]. apply eased_put. intros p Hp. apply Hsub, elem_of_app. by right. }
  revert H2. generalize (put_sent idx store c1). intros c2 H2.
  revert Hfr. destruct (newly_acked o) as [| p0 ps]; [done |]. generalize (p0 :: ps). intros acked Hfr.
  apply (eased_finds _ _ (eased_timer _)), (eased_finds _ _ (eased_detect _ _ _)).
  match goal with |- found c0 (fold_left _ acked ?x) => assert (H3 : found c0 x); [| revert H3; generalize x] end.
  { apply (eased_finds c2); [| exact H2]. apply eased_same. unfold sample_rtt_on_ack. repeat case_match; done. }
  clear -Hfr. induction acked as [| p acked IH]; intros c3 H3; [done |]. cbn [fold_left]. apply IH; [intros q f Hq; apply Hfr; by right |].
  assert (Hp : forall f, f ∈ sp_frames p -> probe_sized (max_mtu c0) f /\ forall size, f = SFMtuProbe size -> probed c0 size)
    by (intros f; apply Hfr; by left).
  revert c3 H3 Hp. generalize (sp_frames p). intros fs. induction fs as [| f fs IHf]; intros c3 H3 Hp; [done |]. cbn [fold_left].
  destruct (Hp f) as [G1 G2]; [by left |]. apply IHf; [by apply found_acked_frame | intros g Hg; apply Hp; by right].
Qed.

(** ** Lemmas: received frames and datagrams *)

Lemma same_touch c id : mtu_fields (touch_stream c id) = mtu_fields c.
Proof. unfold touch_stream. destruct (negb _ && _); case_bool_decide; done. Qed.

Lemma finds_frame c now pt f : finds c (handle_frame c now pt f).2.
Proof.
  destruct f; unfold handle_frame; try (by apply eased_finds, eased_same).
  - apply finds_ack.
  - apply eased_finds, eased_same. unfold recv_stop_sending. case_match; [| done]. by case_match.
  - apply eased_finds, eased_same. unfold recv_crypto. destruct pt; try done;
      destruct (CryptoStream.recv _ _ _) as [[bytes |] s]; try done; simpl; destruct (read_hs _ _) as [[] t]; done.
  - apply eased_finds, eased_same. unfold recv_stream. rewrite <- (same_touch c id). generalize (touch_stream c id). intros c1.
    destruct (RecvStream.is_reset _); [done |]. destruct (RecvStream.recv _ _ _ _) as [[[] s] | []]; done.
  - apply eased_finds, eased_same. unfold recv_path_response. repeat case_match; done.
  - apply eased_finds, eased_same. by case_match.
  - apply eased_finds, eased_same. case_match; [done |]. by case_match.
  - apply eased_finds, eased_quiet. unfold recv_retire_connection_id. case_match; [done |]. case_match; [done |].
    destruct (LocalCidPool.handle_peer_retirement _ _) as [[x |] pool]; [| done]. cbn [snd].
    match goal with |- quiet c (maybe_issue_new_cid ?x).2 => pose proof (issue_quiet x) as H1 end. exact H1.
  - apply eased_finds, eased_same. destruct dir; by case_match.
  - apply eased_finds, eased_same. destruct dir; simpl; by case_match.
  - apply eased_finds, eased_same. unfold recv_new_token. case_match; [done |]. by case_match.
  - apply eased_finds, eased_same. unfold recv_datagram_frame. case_match; [done |]. case_match; [done |]. simpl. by case_match.
Qed.

Lemma eased_pump c clock : eased c (pump_write_hs c clock).
Proof.
  apply eased_same. pose proof (pump_view_pump c clock) as H.
  unfold mtu_fields. f_equal; [exact (f_equal (fun v => v.1.2.2) H) | exact (f_equal (fun v => v.1.1.2.1) H)].
Qed.

Lemma finds_datagram c now clock dg r : handle_datagram c now clock dg = Some r -> finds c r.2.2.
Proof.
  apply (handle_datagram_rel finds (fun _ => True) (fun _ => True) (fun _ => True)); try done.
  - intros a b E. apply eased_finds, eased_same. unfold mtu_fields.
    f_equal; [exact (f_equal (fun v => v.2.2) E) | exact (f_equal (fun v => v.1.2.1) E)].
  - intros a n pt f _. apply finds_frame.
  - intros a k. apply eased_finds, eased_pump.
  - intros. by case_match.
Qed.

(** ** Lemmas: transmission *)

(** Since [c0] nothing was found. *)
Record waited (c0 c : conn) : Prop := {
  wa_ok : mtu_ok c;
  wa_max : max_mtu c = max_mtu c0;
  wa_current : current_mtu c = current_mtu c0
}.

Definition waits (c c' : conn) : Prop := forall c0, waited c0 c -> waited c0 c'.

#[local] Instance waits_preorder : PreOrder waits.
Proof. split; [intros x c0 H; exact H | intros x y z H1 H2 c0 H; by apply H2, H1]. Qed.

Lemma eased_waits c c' : eased c c' -> waits c c'.
Proof. intros E c0 [W1 W2 W3]. pose proof E as [[E1 E2] _]. split; [by eapply eased_ok | congruence | congruence]. Qed.

Lemma quiet_waits c c' : quiet c c' -> waits c c'.
Proof. intros H. by apply eased_waits, eased_quiet. Qed.

Lemma plain_sized max l : Forall (fun f => is_plain f = true) l -> Forall (probe_sized max) l.
Proof. intros Hl. eapply Forall_impl; [exact Hl |]. by intros []. Qed.

(** STREAM frames are added after the plain ones. *)
Lemma stream_frames_sized max ids b st :
  Forall (probe_sized max) (f_frames st) -> Forall (probe_sized max) (f_frames (fill_streams_loop ids b st)).
Proof.
  revert st. induction ids as [| id ids IH]; intros st H; [done |]. cbn [fill_streams_loop]. case_match; [done |]. apply IH.
  unfold fill_one_stream. destruct (om_get id _) as [s |]; [| done]. case_match; [done |]. case_match; [done |].
  match goal with |- context [if ?x =? 0 then _ else _] => destruct (x =? 0) end; [done |].
  destruct (SendStream.take _ _) as [[[[o d] f] |] s']; [| done]. cbn. apply Forall_app. split; [done | by repeat constructor].
Qed.

Lemma wide_mtu c c' : wide_view c' = wide_view c -> mtu_view c' = mtu_view c.
Proof.
  unfold wide_view, fill_view. generalize (cc_view c') (cc_view c) (num_view c') (num_view c) (core_view c') (core_view c) (flow_view c') (flow_view c).
  intros a b d e f g h i H. exact (f_equal (fun v => v.1.2.2) H).
Qed.

Lemma stream_payload_sized max b (st : Fill) :
  Forall (probe_sized max) (f_frames st) -> Forall (probe_sized max) (f_frames (fill_stream_frames b st)).
Proof. intros H. unfold fill_stream_frames, with_conn. cbn [f_frames]. by apply stream_frames_sized. Qed.

Lemma application_sized max b (st : Fill) : no_streams st -> Forall (probe_sized max) (f_frames (fill_application b st)).
Proof. intros H. unfold fill_application. by apply stream_payload_sized, plain_sized, no_streams_control. Qed.

Lemma pings_sized max kind (st : Fill) :
  Forall (probe_sized max) (f_frames st) -> Forall (probe_sized max) (f_frames (fill_pings kind st)).
Proof.
  intros H. destruct (fill_pings_frames kind st) as (l & El & Fl). rewrite El. apply Forall_app. split; [exact H | by apply plain_sized].
Qed.

Lemma main_sized max (app : bool) kind b (st : Fill) :
  no_streams st -> Forall (probe_sized max) (f_frames (fill_pings kind (if app then fill_application b st else st))).
Proof. intros H. apply pings_sized. destruct app; [by apply application_sized | by apply plain_sized]. Qed.

Lemma payload_sized c kind b :
  mtu_ok c -> Forall (probe_sized (max_mtu c)) (f_frames (fill_payload c kind b)).
Proof.
  intros Hok. unfold fill_payload. pose proof (crypto_plain c kind b) as Hns.
  assert (Hv : mtu_view (f_conn (fill_crypto kind b (fill_ack kind (mkFill c [] [] false)))) = mtu_view c)
    by (apply wide_mtu; by rewrite wview_crypto, wview_ack).
  revert Hns Hv. generalize (fill_crypto kind b (fill_ack kind (mkFill c [] [] false))). intros st Hns Hv.
  destruct (probe_mtu (f_conn st)) as [sz |] eqn:Ep; destruct (bool_decide (kind = SkApplication) && pending_mtu_probe (f_conn st));
    try (by apply main_sized).
  unfold fill_mtu_probe. cbn [f_frames place with_conn]. apply Forall_app. split; [by apply plain_sized |].
  apply Forall_singleton. cbn [probe_sized]. apply (mo_probe c Hok). injection Hv as _ _ Hv. congruence.
Qed.

Lemma waits_record c0 c now kind pn bytes frames ae :
  waited c0 c -> Forall (probe_sized (max_mtu c)) frames -> waited c0 (record_sent c now kind pn bytes frames ae).
Proof.
  intros Hw Hfr. unfold record_sent.
  match goal with |- waited c0 (let '(rs, c) := ?x in _) => assert (Hq : quiet c x.2) end.
  { destruct (if is_mtu_probe frames then false else ae); [| done]. destruct (ctl_on_packet_sent _ _ _) as [r cc]. done. }
  match goal with |- waited c0 (let '(rs, c) := ?x in _) => destruct x as [rs c2] end. cbn [snd] in Hq.
  pose proof (quiet_waits _ _ Hq c0 Hw) as Hw2. destruct (ae || _); [| exact Hw2]. destruct Hw2 as [[M1 M2 M3 M4 M5] W2 W3].
  assert (Hmax : max_mtu c2 = max_mtu c) by (destruct Hw as [_ Hw _]; congruence).
  split; [split | done ..]; try done.
  intros store q f Hst Hq' Hf. unfold put_sent in Hst. simpl in Hst. change (max_mtu (put_sent _ _ c2)) with (max_mtu c2).
  apply list_elem_of_lookup_1 in Hst as [i Hi]. apply list_lookup_insert_Some in Hi as [(-> & <- & Hl) | [_ Hi]].
  - apply om_values_insert_elem in Hq' as [-> | Hq'].
    + rewrite Hmax. rewrite Forall_forall in Hfr. by apply Hfr.
    + refine (M5 (sent_at c2 i) q f _ Hq' Hf).
      apply list_elem_of_lookup_2 with i. unfold sent_at. apply lookup_lt_is_Some in Hl as [s Hs].
      rewrite Hs. f_equal. symmetry. by apply nth_lookup_Some.
  - apply (M5 store q); [by eapply list_elem_of_lookup_2 | done | done].
Qed.

Lemma waits_space c now kind out short : waits c (write_space_packet c now kind out short).2.2.
Proof.
  intros c0 Hw. unfold write_space_packet. set (rem := sat_sub _ _). destruct (rem <? 64); [done |].
  pose proof (payload_sized c kind rem (wa_ok _ _ Hw)) as Hfr. pose proof (fill_view_payload c kind rem) as Hv.
  revert Hfr Hv. generalize (fill_payload c kind rem). intros st Hfr Hv.
  assert (Hst : waited c0 (f_conn st)).
  { apply (eased_waits c); [| exact Hw]. apply eased_same. unfold mtu_fields.
    f_equal; [exact (f_equal (fun v => v.2.2) Hv) | exact (f_equal (fun v => v.1.1.1) Hv)]. }
  assert (Hmax : max_mtu (f_conn st) = max_mtu c) by exact (f_equal (fun v => v.2.2.1.2) Hv). rewrite <- Hmax in Hfr. clear Hv Hmax Hw.
  destruct (bool_decide (f_payload st = [])); [done |].
  set (c1 := if short then before_short (f_conn st) now else f_conn st).
  assert (Q1 : quiet (f_conn st) c1) by (subst c1; case_match; [apply quiet_before_short | done]). clearbody c1.
  match goal with |- context [let '(sealed, c) := ?x in _] => assert (Q2 : quiet c1 x.2) end.
  { destruct short; [apply quiet_seal_short |]. destruct kind; [apply quiet_seal_long | apply quiet_seal_long | done]. }
  match goal with |- context [let '(sealed, c) := ?x in _] => destruct x as [sealed c2] end. cbn [snd] in Q2.
  pose proof (quiet_waits _ _ Q2 c0 (quiet_waits _ _ Q1 c0 Hst)) as H2.
  destruct sealed as [[pn [o []]] |]; cbn [snd]; try done. apply waits_record; [done |].
  destruct H2 as [_ H2 _], Hst as [_ H3 _]. by rewrite H2, <- H3.
Qed.

Lemma waits_packets c now out : waits c (write_packets c now out).2.2.
Proof.
  unfold write_packets.
  assert (Hw : forall c kind o sh (g : bool), waits c (if g then write_space_packet c now kind o sh else (false, (o, c))).2.2).
  { intros c0 kind o sh []; [apply waits_space | done]. }
  assert (Hz : forall c o (g : bool), waits c (if g then write_zero_rtt_packet c o else (false, (o, c))).2.2).
  { intros c0 o []; [apply quiet_waits, zero_rtt_quiet | done]. }
  repeat match goal with |- context [let '(w, p) := (if ?g then write_space_packet ?c0 now ?k ?o ?sh else ?e) in _] =>
      let H := fresh in assert (H := Hw c0 k o sh g);
      destruct (if g then write_space_packet c0 now k o sh else e) as [? [? ?]]; cbn [snd] in H;
      etransitivity; [exact H | clear H]
    | |- context [let '(w, p) := (if ?g then write_zero_rtt_packet ?c0 ?o else ?e) in _] =>
      let H := fresh in assert (H := Hz c0 o g);
      destruct (if g then write_zero_rtt_packet c0 o else e) as [? [? ?]]; cbn [snd] in H;
      etransitivity; [exact H | clear H] end.
  done.
Qed.

Lemma waits_transmit c now clock out : waits c (poll_transmit c now clock out).2.2.
Proof.
  unfold poll_transmit. etransitivity; [apply eased_waits, (eased_pump c clock) |]. generalize (pump_write_hs c clock). intros c1.
  assert (Ht : forall x o, waits x (transmit_packets x now o).2.2).
  { intros x o. unfold transmit_packets. etransitivity; [apply quiet_waits, advance_quiet |]. generalize (advance_recv_flow x). intros x1.
    pose proof (waits_packets x1 now o) as Hp. destruct (write_packets x1 now o) as [[wi wa] [o' x2]]. cbn [snd] in Hp.
    destruct (negb wa); [exact Hp |]. cbn [snd]. etransitivity; [exact Hp |]. apply quiet_waits.
    unfold set_loss_detection_timer, arm_idle_timer, arm_keep_alive. repeat case_match; done. }
  case_bool_decide; [done |]. destruct (is_some _ || is_some _); [| apply Ht].
  pose proof (close_quiet c1 out) as Hq. destruct (emit_close c1 out) as [[a |] [o c2]]; cbn [snd] in Hq;
    (etransitivity; [apply quiet_waits, Hq |]); [by apply eased_waits, eased_same | apply Ht].
Qed.

(** ** Lemmas: timers, calls, events *)

Lemma half_bounds x : 2 * (x / 2) <= x < 2 * (x / 2) + 2.
Proof. pose proof (Z.div_mod x 2 ltac:(lia)). pose proof (Z.mod_pos_bound x 2 ltac:(lia)). lia. Qed.

Lemma next_probe_between c size : mtu_ok c -> next_probe_size c = Some size ->
  size = current_mtu c + (max_mtu c - current_mtu c) / 2 /\ current_mtu c < size < max_mtu c.
Proof.
  intros [M1 _ M3 _ _]. unfold next_probe_size, as_u16, MIN_INITIAL_DATAGRAM in *. destruct (Z.leb_spec (max_mtu c) (current_mtu c)); [done |].
  pose proof (half_bounds (max_mtu c - current_mtu c)). rewrite Z.mod_small by lia. case_match eqn:E; [done |]. apply Z.leb_gt in E. intros [= <-]. lia.
Qed.

Lemma waits_timeout c now : waits c (handle_timeout c now).
Proof.
  unfold handle_timeout. destruct (match idle_deadline c with Some d => _ | None => _ end).
  { apply eased_waits, eased_same. by case_match. }
  etransitivity; [apply eased_waits, (eased_same c (keep_alive_timeout c now)); unfold keep_alive_timeout; repeat case_match; done |].
  generalize (keep_alive_timeout c now). intros c1. etransitivity; [apply eased_waits, (eased_loss_timeout c1 now) |].
  generalize (loss_timeout c1 now). intros c2. unfold mtu_timeout, schedule_mtu_probe. destruct (next_mtu_probe c2); [| done].
  case_match; [| done]. case_match; [by apply eased_waits, eased_same |].
  destruct (next_probe_size c2) as [size |] eqn:E; [| by apply eased_waits, eased_same].
  intros c0 [Hok W2 W3]. destruct (next_probe_between c2 size Hok E) as [_ Hs]. destruct Hok as [M1 M2 M3 M4 M5].
  split; [split | done ..]; try done. simpl. intros s [= <-]. unfold MIN_INITIAL_DATAGRAM in *. lia.
Qed.

Lemma call_fields c a : mtu_fields (call c a) = mtu_fields c.
Proof.
  destruct a; cbn [call]; try done.
  - unfold open_bidi. by case_match.
  - unfold open_uni. by case_match.
  - unfold send_stream. by case_match.
  - unfold read_stream. repeat case_match; done.
  - unfold reset_stream. by case_match.
  - unfold stop_sending. by case_match.
  - unfold queue_early_data. by case_match.
  - unfold send_datagram. case_match; [done |]. by case_match.
  - unfold recv_datagram. by case_match.
  - unfold poll_new_peer_stream. by case_match.
  - unfold poll_readable. by case_match.
  - unfold pop_cid_event. by case_match.
  - unfold initiate_key_update. case_match; [done |]. by destruct (_ || _).
  - unfold initiate_path_challenge. case_match; [done |]. destruct (rng_fill _ _) as [[nonce |] r]; done.
  - unfold conn_add_path. destruct (add_path _ _ _ _) as [[i m] |]; done.
  - unfold conn_set_preferred_path. destruct (set_preferred _ _) as [m |]; [| done]. by destruct (active_path m).
  - unfold close. by case_match.
Qed.

(** One event: the size in use changes only by receiving a datagram, and then to the
    size of a probe in flight. *)
Lemma mtu_exec c e :
  mtu_ok c ->
  mtu_ok (exec c e) /\ max_mtu (exec c e) = max_mtu c /\
  (current_mtu (exec c e) = current_mtu c \/
   current_mtu c < current_mtu (exec c e) /\ probed c (current_mtu (exec c e)) /\ exists now clock dg, e = Receive now clock dg).
Proof.
  intros Hok. assert (Hw : waited c (exec c e) -> mtu_ok (exec c e) /\ max_mtu (exec c e) = max_mtu c /\ current_mtu (exec c e) = current_mtu c)
    by (by intros [W1 W2 W3]).
  assert (H0 : waited c c) by (by split).
  destruct e as [a | now clock dg | now | now clock out]; cbn [exec] in *.
  - destruct Hw as (W1 & W2 & W3); [| by split_and!; [| | left]]. exact (eased_waits _ _ (eased_same _ _ (call_fields c a)) c H0).
  - destruct (handle_datagram c now clock dg) as [[d [r c']] |] eqn:E; [| by split_and!; [| | left]].
    destruct (finds_datagram c now clock dg _ E c (found_refl c Hok)) as [F1 F2 F3 F4]. cbn [snd] in *.
    split_and!; [done | done |]. destruct F3 as [F3 | [F3 F5]]; [by left | right]. split_and!; [done | done |]. by eexists _, _, _.
  - destruct Hw as (W1 & W2 & W3); [| by split_and!; [| | left]]. exact (waits_timeout c now c H0).
  - destruct Hw as (W1 & W2 & W3); [| by split_and!; [| | left]]. exact (waits_transmit c now clock out c H0).
Qed.

Lemma reachable_mtu role tls params rng algo clock c :
  0 <= mc_max_mtu (cp_mtu_config params) < 2 ^ 16 ->
  rtc step (install_initial_keys (new_inner role tls params rng algo clock)) c ->
  mtu_ok c /\ max_mtu c = Z.max (mc_max_mtu (cp_mtu_config params)) MIN_INITIAL_DATAGRAM.
Proof.
  intros Hmax Hr.
  assert (H0 : let c := install_initial_keys (new_inner (env := env) role tls params rng algo clock) in
               mtu_ok c /\ max_mtu c = Z.max (mc_max_mtu (cp_mtu_config params)) MIN_INITIAL_DATAGRAM).
  { unfold new_inner. destruct (rng_fill rng 32). split; [split; simpl; unfold MIN_INITIAL_DATAGRAM; try lia |].
    - done.
    - intros store p f Hst Hp. repeat (apply elem_of_cons in Hst as [-> | Hst]; [by apply elem_of_nil in Hp |]). by apply elem_of_nil in Hst.
    - done. }
  revert H0. cbv zeta. induction Hr as [x | x y z [x' e _] _ IH]; [done |]. intros [H1 H2]. apply IH.
  destruct (mtu_exec x' e H1) as (G1 & G2 & _). split; [exact G1 | congruence].
Qed.

(** ** The search when every probe arrives *)

(** [n] rounds of scheduling a probe and getting it acknowledged. *)
Fixpoint mtu_search (n : nat) (now : Z) (c : conn) : conn :=
  match n with
  | O => c
  | S n =>
      let c := schedule_mtu_probe c in
      match probe_mtu c with Some size => mtu_search n now (on_mtu_probe_acked c size now) | None => c end
  end.

(** A round halves what is left of the interval. *)
Lemma search_round c now :
  mtu_ok c -> mtu_discovery_enabled c = true -> state c = Established -> probe_mtu c = None -> current_mtu c < max_mtu c - 1 ->
  exists c', (forall n, mtu_search (S n) now c = mtu_search n now c') /\
    mtu_ok c' /\ mtu_discovery_enabled c' = true /\ state c' = Established /\ probe_mtu c' = None /\ max_mtu c' = max_mtu c /\
    current_mtu c' = current_mtu c + (max_mtu c - current_mtu c) / 2.
Proof.
  intros Hok He Hs Hp Hlt. pose proof (next_probe_between c) as Hb.
  assert (Hn : exists size, next_probe_size c = Some size).
  { destruct Hok as [M1 _ M3 _ _]. unfold next_probe_size, as_u16, MIN_INITIAL_DATAGRAM in *.
    pose proof (half_bounds (max_mtu c - current_mtu c)). rewrite (proj2 (Z.leb_gt _ _)) by lia. rewrite Z.mod_small by lia. rewrite (proj2 (Z.leb_gt _ _)) by lia. by eexists. }
  destruct Hn as [size En]. destruct (Hb size Hok En) as [Hsz Hbd].
  set (c1 := c <| probe_mtu := Some size |> <| probe_count := 0 |> <| pending_mtu_probe := true |> <| next_mtu_probe := None |>).
  assert (E1 : schedule_mtu_probe c = c1).
  { unfold schedule_mtu_probe. rewrite He, Hp, En. rewrite bool_decide_true by done. done. }
  exists (on_mtu_probe_acked c1 size now). split; [intros n; cbn [mtu_search]; by rewrite E1 |].
  unfold on_mtu_probe_acked. rewrite (proj2 (Z.ltb_lt (current_mtu c1) size)) by (simpl; lia).
  match goal with |- context [if ?b then _ else _] => generalize b end. intros b. rewrite <- Hsz.
  destruct Hok as [M1 M2 M3 M4 M5]. destruct b; split_and!; try done; (split; simpl; [lia | by right; lia | done | done | exact M5]).
Qed.

Lemma search_converges n c now :
  mtu_ok c -> mtu_discovery_enabled c = true -> state c = Established -> probe_mtu c = None ->
  current_mtu c < max_mtu c -> max_mtu c - current_mtu c <= 2 ^ Z.of_nat n ->
  current_mtu (mtu_search n now c) = max_mtu c - 1.
Proof.
  revert c. induction n as [| n IH]; intros c Hok He Hs Hp Hlt Hn; [simpl in *; lia |].
  destruct (decide (current_mtu c = max_mtu c - 1)) as [E | E].
  - assert (Hnone : next_probe_size c = None).
    { destruct (next_probe_size c) as [size |] eqn:En; [| done]. destruct (next_probe_between c size Hok En) as [_ ?]. lia. }
    cbn [mtu_search]. unfold schedule_mtu_probe. rewrite He, Hp, Hnone. rewrite bool_decide_true by done. cbn -[mtu_search]. by rewrite Hp.
  - destruct (search_round c now Hok He Hs Hp ltac:(lia)) as (c' & Hr & Hok' & He' & Hs' & Hp' & Hm & Hc). rewrite Hr, <- Hm.
    pose proof (half_bounds (max_mtu c - current_mtu c)). rewrite Nat2Z.inj_succ, Z.pow_succ_r in Hn by lia. apply IH; try done; rewrite Hm, Hc; lia.
Qed.

End mtu.

(** ** Properties *)

(** C21: Path-MTU discovery stays within its bounds: in every state a connection reaches,
    the datagram size in use is at least 1200 bytes and, where a larger ceiling is
    configured, strictly below that ceiling; so is every size being probed and every
    probe in flight.  The size in use never shrinks; only a received datagram raises
    it, to the size of a probe that was in flight.  When no probe is lost, sixteen
    rounds take the search to its end, one byte below the ceiling, which is
    therefore never used. *)
Theorem mtu_discovery_sound {env : QuicEnv} role tls0 params rng algo clock (c : Connection env) e now :
  let ceiling := Z.max (mc_max_mtu (cp_mtu_config params)) MIN_INITIAL_DATAGRAM in
  0 <= mc_max_mtu (cp_mtu_config params) < 2 ^ 16 ->
  rtc step (install_initial_keys (new_inner role tls0 params rng algo clock)) c ->
  (1200 <= current_mtu c /\ (1200 < ceiling -> current_mtu c < ceiling)) /\
  (forall size, probe_mtu c = Some size \/ probed c size -> 1200 < size < ceiling) /\
  (current_mtu (exec c e) = current_mtu c \/
   current_mtu c < current_mtu (exec c e) /\ probed c (current_mtu (exec c e)) /\ exists now clock dg, e = Receive now clock dg) /\
  (mtu_discovery_enabled c = true -> state c = Established -> probe_mtu c = None -> 1200 < ceiling ->
     current_mtu (mtu_search 16 now c) = ceiling - 1).
Proof.
  intros ceiling Hmax Hr. destruct (reachable_mtu _ _ _ _ _ _ _ Hmax Hr) as [Hok Em]. fold ceiling in Em.
  destruct (mtu_exec c e Hok) as (_ & _ & He). pose proof Hok as [M1 M2 M3 M4 M5]. unfold MIN_INITIAL_DATAGRAM in *. rewrite Em in *.
  split_and!; [done | intros; destruct M2; lia | | exact He |].
  - intros size [H | (store & p & H1 & H2 & H3)]; [by apply M4 | exact (M5 store p _ H1 H2 H3)].
  - intros Hd Hs Hp Hc. rewrite <- Em. apply search_converges; try done; rewrite Em; [destruct M2; lia | change (2 ^ Z.of_nat 16) with 65536; lia].
Qed.

(** An established client with the default ceiling of 1452 bytes, before and after its probe timer has fired. *)
Definition demo_ready : Connection demo_env := fold_left exec [Transmit 0 0 []] demo_run_start.
Definition demo_probing : Connection demo_env := fold_left exec [Transmit 0 0 []; Timeout (300 * MILLIS)] demo_run_start.

Lemma mtu_discovery_sound_witness :
  probe_mtu demo_probing = Some 1326 /\
  (forall size, probe_mtu demo_probing = Some size \/ probed demo_probing size -> 1200 < size < 1452) /\
  current_mtu (mtu_search 16 5 demo_ready) = 1451.
Proof.
  assert (Hr : forall evs, Forall (fun e => match e with Transmit _ _ _ | Timeout _ => True | _ => False end) evs ->
            rtc step demo_run_start (fold_left exec evs demo_run_start)).
  { generalize demo_run_start. intros c evs. revert c. induction evs as [| e evs IH]; intros c He; [apply rtc_refl |].
    apply Forall_cons in He as [He Hes]. apply (rtc_l _ c (exec c e)); [| exact (IH _ Hes)]. apply step_event. by destruct e. }
  split; [vm_compute; reflexivity |]. split.
  - apply (mtu_discovery_sound (env := demo_env) Client
       (mkScriptedTls [([1], Some (KcOneRtt demo_keys 5))] false (Some (encode_transport_params demo_peer_params)))
       (mkConnParams [1; 1; 1; 1; 1; 1; 1; 1] [2; 2; 2; 2; 2; 2; 2; 2] [2; 2; 2; 2; 2; 2; 2; 2] 7 default_params
          default_mtu_config 65536) 0 AlgoNewReno 0 demo_probing (Timeout 0) 5).
    + vm_compute. split; congruence.
    + apply Hr. repeat constructor.
  - apply (mtu_discovery_sound (env := demo_env) Client
       (mkScriptedTls [([1], Some (KcOneRtt demo_keys 5))] false (Some (encode_transport_params demo_peer_params)))
       (mkConnParams [1; 1; 1; 1; 1; 1; 1; 1] [2; 2; 2; 2; 2; 2; 2; 2] [2; 2; 2; 2; 2; 2; 2; 2] 7 default_params
          default_mtu_config 65536) 0 AlgoNewReno 0 demo_ready (Timeout 0) 5).
    + vm_compute. split; congruence.
    + apply Hr. repeat constructor.
    + vm_compute. reflexivity.
    + vm_compute. reflexivity.
    + vm_compute. reflexivity.
    + vm_compute. reflexivity.
Defined.
