(* ===== verification/ConnDelivery.v ===== *)
(** * What the application reads

    Stream data through the whole connection: every STREAM frame of every packet a
    peer sends, in any order and with any repetition, against the bytes
    [read_stream] hands to the application; and what an Initial packet can carry. *)

From S2P Require Import Prelude OrdMap CoreTypes Coding FrameCodec ParamsCodec PacketSpace SentPackets.
From S2P Require Import Streams FlowControl Recovery Congestion Bbr CidPool Packet Multipath Connection.
From S2P Require Import ConnRecovery ConnHandshake ConnRecv ConnSend ConnFlow ConnSystem.

(** ** A peer that sends given contents *)

(** Stream [id] carries the bytes [contents id], and a FIN marks their end. *)
Definition honest (contents : Z -> list Z) (f : Frame) : Prop :=
  match f with
  | Stream id offset fin data => ev_ok (contents id) (EvRecv offset data fin)
  | _ => True
  end.

#[export] Instance honest_dec contents f : Decision (honest contents f).
Proof. destruct f; simpl; apply _. Defined.

(** Every frame the decoder finds in the payload is honest. *)
Inductive honest_payload (contents : Z -> list Z) : Buf -> Prop :=
| honest_end b : (forall f b', decode_frame b <> Ok (f, b')) -> honest_payload contents b
| honest_frame b f b' :
    decode_frame b = Ok (f, b') -> honest contents f -> honest_payload contents b' -> honest_payload contents b.

(** Authenticity: whatever a packet protection key opens was sealed by that peer. *)
Class HonestPeer (env : QuicEnv) (contents : Z -> list Z) : Prop := {
  contents_short : forall id, len (contents id) < 2 ^ 62;
  opened_honest : forall k pn h b p, (pk_decrypt k pn h b).2 = Some p -> honest_payload contents (buf_new p)
}.

Lemma honest_payload_decode contents b f b' :
  honest_payload contents b -> decode_frame b = Ok (f, b') -> honest contents f /\ honest_payload contents b'.
Proof. destruct 1 as [b H | b g b2 E Hg Hp]; intros E'; [by destruct (H f b') |]. rewrite E in E'. by injection E' as <- <-. Qed.

Section delivery.
Context {env : QuicEnv}.

Notation conn := (Connection env).

(** ** Reads as observed *)

(** The connection, and for each stream the bytes its reads have returned so far. *)
Definition read_log : Type := Z -> list Z.

Definition log_read (log : read_log) (id : Z) (bytes : list Z) : read_log :=
  match bytes with [] => log | _ => fun j => if j =? id then log j ++ bytes else log j end.

Lemma log_read_at log id bytes j : log_read log id bytes j = if j =? id then log j ++ bytes else log j.
Proof. destruct bytes; [| done]. simpl. rewrite app_nil_r. by bcase. Qed.

Definition log_after (c : conn) (log : read_log) (e : event) : read_log :=
  match e with
  | Call (CallRead id) => match (read_stream c id).1 with Ok (bytes, _) => log_read log id bytes | Err _ => log end
  | _ => log
  end.

Definition observe (st : conn * read_log) (e : event) : conn * read_log := (exec st.1 e, log_after st.1 st.2 e).

(** Streams are opened under identifiers without receive state. *)
Fixpoint opens_fresh (c : conn) (evs : list event) : bool :=
  match evs with
  | [] => true
  | e :: evs =>
      match e with
      | Call CallOpenBidi => negb (om_contains (next_stream c Bidirectional) (recv_streams c))
      | _ => true
      end && opens_fresh (exec c e) evs
  end.

(** ** Lemmas: the receiving halves agree with the log *)

Context (contents : Z -> list Z).

Definition stream_agrees (id : Z) (s : option RecvStream.t) (out : list Z) : Prop :=
  match s with
  | None => out = []
  | Some s => (RecvStream.is_reset s = true /\ out `prefix_of` contents id) \/ exists seen, recv_inv (contents id) seen s out
  end.

Definition agrees (c : conn) (log : read_log) : Prop := forall id, stream_agrees id (om_get id (recv_streams c)) (log id).

Definition keeps (c c' : conn) : Prop := forall log, agrees c log -> agrees c' log.

#[local] Instance keeps_preorder : PreOrder keeps.
Proof. split; [by intros x log | intros x y z H1 H2 log H; by apply H2, H1]. Qed.

Lemma keeps_same c c' : recv_streams c' = recv_streams c -> keeps c c'.
Proof. intros E log H id. rewrite E. apply H. Qed.

Lemma keeps_core c c' : core_view c' = core_view c -> keeps c c'.
Proof. intros E. apply keeps_same. exact (f_equal (fun v => v.1.1.2.2.1.1.1.1.1) E). Qed.

Lemma keeps_pump c clock : keeps c (pump_write_hs c clock).
Proof. apply keeps_same. exact (f_equal (fun v => v.2.1.1) (pump_view_pump c clock)). Qed.

Lemma recv_inv_prefix id seen s out : recv_inv (contents id) seen s out -> out `prefix_of` contents id.
Proof.
  intros [R1 R2 _ _ _]. destruct (re_ro _ _ _ R1) as [H0 Hle].
  rewrite <- (bytes_of_whole (contents id)), <- (bytes_of_app (contents id) 0 (RecvStream.read_offset s)), <- R2 by lia.
  rewrite <- app_assoc. by apply prefix_app_r.
Qed.

Lemma agrees_prefix c log id : agrees c log -> log id `prefix_of` contents id.
Proof.
  intros H. specialize (H id). destruct (om_get id (recv_streams c)) as [s |]; simpl in H.
  - destruct H as [[_ H] | [seen H]]; [done | by eapply recv_inv_prefix].
  - rewrite H. apply prefix_nil.
Qed.

(** Replacing one stream. *)
Lemma keeps_insert c c' id s' :
  recv_streams c' = om_insert id s' (recv_streams c) ->
  (forall out, stream_agrees id (om_get id (recv_streams c)) out -> stream_agrees id (Some s') out) -> keeps c c'.
Proof.
  intros E H log Ha j. rewrite E, om_get_insert. bcase; [| apply Ha]. subst j. apply H, Ha.
Qed.

Lemma agrees_new id out : stream_agrees id None out -> stream_agrees id (Some RecvStream.new) out.
Proof. simpl. intros ->. right. exists false. apply recv_inv_new. Qed.

Lemma touch_recv c id : recv_streams (touch_stream c id) = or_insert id RecvStream.new (recv_streams c).
Proof. unfold touch_stream. destruct (_ && peer_initiated _ _); destruct (bool_decide (StreamId.direction id = _)); done. Qed.

Lemma or_insert_present {V} id (v : V) m : exists x, om_get id (or_insert id v m) = Some x.
Proof.
  unfold or_insert, om_contains. destruct (om_get id m) as [x |] eqn:E; simpl; [by exists x |].
  rewrite om_get_insert, Z.eqb_refl. by exists v.
Qed.

Lemma keeps_touch c id : keeps c (touch_stream c id).
Proof.
  pose proof (touch_recv c id) as E. unfold or_insert, om_contains in E.
  destruct (om_get id (recv_streams c)) as [s |] eqn:Eg; [by apply keeps_same |].
  apply (keeps_insert _ _ id _ E). rewrite Eg. apply agrees_new.
Qed.

(** A frame's data reaches the stream; the FINAL_SIZE_ERROR branch is not taken. *)
Lemma keeps_stream c id offset fin data :
  len (contents id) < 2 ^ 62 -> ev_ok (contents id) (EvRecv offset data fin) -> keeps c (recv_stream c id offset fin data).2.
Proof.
  intros Hlen [Hseg Hfin]. unfold recv_stream. etransitivity; [apply (keeps_touch c id) |].
  destruct (or_insert_present id RecvStream.new (recv_streams c)) as [s Es]. rewrite <- touch_recv in Es.
  revert Es. generalize (touch_stream c id). intros c1 Es. rewrite Es. cbn [unwrap_or].
  destruct (RecvStream.is_reset s) eqn:Er; [done |].
  destruct (RecvStream.recv s offset data fin) as [[newly s'] | []] eqn:E; [| done ..]. cbn [snd].
  apply (keeps_insert c1 _ id s'); [by destruct newly |]. rewrite Es. intros out [[Hr _] | [seen Hi]]; [congruence |].
  destruct (recv_step_recv (contents id) seen s out offset data fin Hi Hseg Hlen Hfin) as (b & s2 & E2 & Hi2 & _).
  rewrite E in E2. injection E2 as <- <-. right. by eexists.
Qed.

Lemma keeps_reset c id code : keeps c (recv_reset_stream c id code).2.
Proof.
  apply (keeps_insert c _ id (RecvStream.apply_reset (unwrap_or (om_get id (recv_streams c)) RecvStream.new) code)); [done |].
  intros out H. left. split; [done |]. destruct (om_get id (recv_streams c)) as [s |]; simpl in H.
  - destruct H as [[_ H] | [seen H]]; [done | by eapply recv_inv_prefix].
  - subst out. apply prefix_nil.
Qed.

Lemma issue_recv c : recv_streams (maybe_issue_new_cid c).2 = recv_streams c.
Proof. unfold maybe_issue_new_cid. repeat case_match; done. Qed.

Lemma crypto_recv c pt offset data : recv_streams (recv_crypto c pt offset data).2 = recv_streams c.
Proof.
  unfold recv_crypto. destruct pt; [destruct (CryptoStream.recv (initial_crypto c) offset data) as [[d |] s] | done |
    destruct (CryptoStream.recv (handshake_crypto c) offset data) as [[d |] s] | done ..]; try done; destruct (read_hs _ _) as [[] t]; done.
Qed.

Lemma keeps_frame c now pt f : (forall id, len (contents id) < 2 ^ 62) -> honest contents f -> keeps c (handle_frame c now pt f).2.
Proof.
  intros Hlen Hf. destruct f; unfold handle_frame; try (apply keeps_same; done).
  - apply keeps_core, core_view_ack.
  - apply keeps_reset.
  - apply keeps_same. unfold recv_stop_sending. case_match; [| done]. by case_match.
  - apply keeps_same, crypto_recv.
  - by apply keeps_stream.
  - apply keeps_same. unfold recv_path_response. repeat case_match; done.
  - apply keeps_same. by case_match.
  - apply keeps_same. case_match; [done |]. by case_match.
  - apply keeps_same. unfold recv_retire_connection_id. case_match; [done |]. case_match; [done |].
    destruct (LocalCidPool.handle_peer_retirement _ _) as [[cid |] pool]; [| done]. cbn [snd]. by rewrite issue_recv.
  - apply keeps_same. destruct dir; by case_match.
  - apply keeps_same. destruct dir; simpl; by case_match.
  - apply keeps_same. unfold recv_new_token. case_match; [done |]. by case_match.
  - apply keeps_same. unfold recv_datagram_frame. case_match; [done |]. case_match; [done |]. simpl. by case_match.
Qed.

Lemma keeps_datagram `{!HonestPeer env contents} c now clock dg r : handle_datagram c now clock dg = Some r -> keeps c r.2.2.
Proof.
  apply (handle_datagram_rel keeps (fun _ => True) (honest_payload contents) (honest contents)); try done.
  - intros a b E. apply keeps_same. exact (f_equal (fun v => v.2.1.1) E).
  - intros a n pt f. apply keeps_frame, (contents_short (env := env)).
  - intros a k. apply keeps_pump.
  - intros b f b'. apply honest_payload_decode.
  - intros dg0 off v l pk hk dg' parsed _ E. split; [done |].
    apply (parse_long_opened (fun p => honest_payload contents (buf_new p)) opened_honest _ _ _ _ _ _ _ _ E).
  - intros dg0 off n l pk dg' [parsed |] _ E; split; try done.
    apply (decrypt_short_opened (fun p => honest_payload contents (buf_new p)) opened_honest _ _ _ _ _ _ _ E).
Qed.

Lemma keeps_transmit c now clock out : keeps c (poll_transmit c now clock out).2.2.
Proof.
  unfold poll_transmit. etransitivity; [apply (keeps_pump c clock) |]. generalize (pump_write_hs c clock). intros c1.
  case_bool_decide; [done |].
  assert (Hr : forall x y, route_view y = route_view x -> keeps x y).
  { intros x y E. apply keeps_same. exact (f_equal (fun v => v.2.1.1.1.1.1) E). }
  assert (Ht : forall x o, keeps x (transmit_packets x now o).2.2).
  { intros x o. destruct (transmit_packets x now o) as [a [o' x']] eqn:E. apply transmit_packets_spec in E as (_ & E & _). by apply Hr. }
  destruct (is_some _ || is_some _); [| apply Ht].
  destruct (emit_close c1 out) as [[a |] [o c2]] eqn:E; apply wrote_close in E as (_ & _ & E & _); apply Hr in E;
    (etransitivity; [exact E |]); [by apply keeps_same | apply Ht].
Qed.

Lemma keeps_timeout c now : keeps c (handle_timeout c now).
Proof.
  unfold handle_timeout. destruct (match idle_deadline c with Some d => _ | None => _ end).
  - apply keeps_same. by case_match.
  - etransitivity; [apply (keeps_same c (keep_alive_timeout c now)); unfold keep_alive_timeout; repeat case_match; done |].
    apply keeps_core. by rewrite core_view_mtu, core_view_loss_timeout.
Qed.

(** One read: what it returns continues the log, and a FIN means the end. *)
Lemma agrees_read c log id :
  agrees c log ->
  match read_stream c id with
  | (Ok (bytes, fin), c') => agrees c' (log_read log id bytes) /\ (fin = true -> log id ++ bytes = contents id)
  | (Err _, c') => agrees c' log
  end.
Proof.
  intros Ha. pose proof (Ha id) as H. unfold read_stream. destruct (om_get id (recv_streams c)) as [s |] eqn:E; [| done].
  assert (Hset : forall s' c' out, recv_streams c' = om_insert id s' (recv_streams c) -> stream_agrees id (Some s') (log id ++ out) ->
                   agrees c' (log_read log id out)).
  { intros s' c' out E' H' j. rewrite E', om_get_insert, log_read_at. bcase; [by subst j | apply Ha]. }
  unfold RecvStream.read_checked. destruct (RecvStream.reset_code s) as [code |] eqn:Er.
  - intros j. change (recv_streams _) with (om_insert id s (recv_streams c)). rewrite om_get_insert. bcase; [by subst j | apply Ha].
  - destruct H as [[Hr _] | [seen [R1 R2 R3 R4 R5]]]; [unfold RecvStream.is_reset in Hr; by rewrite Er in Hr |].
    cbn [RecvStream.read]. split.
    + eapply Hset; [by repeat case_match |]. right. exists seen. split; simpl; try done. by rewrite app_nil_r.
    + intros Hf. apply andb_prop in Hf as [Hf _]. rewrite R4 in Hf. apply andb_prop in Hf as [_ Hf%Z.leb_le].
      destruct (re_ro _ _ _ R1) as [H0 H1]. rewrite R2.
      replace (RecvStream.read_offset s) with (len (contents id)) by lia. apply bytes_of_whole.
Qed.

Lemma agrees_call c log a :
  agrees c log -> (forall id, a <> CallRead id) ->
  (a = CallOpenBidi -> om_contains (next_stream c Bidirectional) (recv_streams c) = false) -> agrees (call c a) log.
Proof.
  intros Ha Hnr Hfresh. assert (Hs : forall c', recv_streams c' = recv_streams c -> agrees c' log) by (intros c' E; by apply (keeps_same c c' E)).
  destruct a; cbn [call]; try (apply Hs; done).
  - unfold open_bidi. destruct (_ && _); [by apply Hs |]. cbn [snd].
    apply (keeps_insert c _ (next_stream c Bidirectional) RecvStream.new); [done | | exact Ha].
    specialize (Hfresh eq_refl). unfold om_contains in Hfresh. destruct (om_get _ (recv_streams c)); [done |]. intros out. apply agrees_new.
  - apply Hs. unfold open_uni. by case_match.
  - apply Hs. unfold send_stream. by case_match.
  - by destruct (Hnr stream).
  - apply Hs. unfold reset_stream. by case_match.
  - apply Hs. unfold stop_sending. by case_match.
  - apply Hs. unfold queue_early_data. by case_match.
  - apply Hs. unfold send_datagram. case_match; [done |]. by case_match.
  - apply Hs. unfold recv_datagram. by case_match.
  - apply Hs. unfold poll_new_peer_stream. by case_match.
  - apply Hs. unfold poll_readable. by case_match.
  - apply Hs. unfold pop_cid_event. by case_match.
  - apply Hs. unfold initiate_key_update. case_match; [done |]. by destruct (_ || _).
  - apply Hs. unfold initiate_path_challenge. case_match; [done |]. destruct (rng_fill _ _) as [[nonce |] r]; done.
  - apply Hs. unfold conn_add_path. destruct (add_path _ _ _ _) as [[i m] |]; done.
  - apply Hs. unfold conn_set_preferred_path. destruct (set_preferred _ _) as [m |]; [| done]. by destruct (active_path m).
  - apply Hs. unfold close. by case_match.
Qed.

Lemma agrees_observe `{!HonestPeer env contents} c log e :
  agrees c log -> opens_fresh c [e] = true -> agrees (observe (c, log) e).1 (observe (c, log) e).2.
Proof.
  intros Ha Hf. unfold observe. cbn [fst snd]. destruct e as [a | now clock dg | now | now clock out]; cbn [exec].
  - assert (Hd : (exists id, a = CallRead id) \/ forall id, a <> CallRead id) by (destruct a; eauto; by right).
    destruct Hd as [[id ->] | Hnr].
    + pose proof (agrees_read c log id Ha) as H. cbn [call log_after]. destruct (read_stream c id) as [[[bytes fin] | e] c']; [by destruct H | done].
    + assert (El : log_after c log (Call a) = log) by (destruct a as [| | | id | | | | | | | | | | | | | | | |]; try done; by destruct (Hnr id)).
      rewrite El.
      apply agrees_call; [done | done |]. intros ->. simpl in Hf. by destruct (om_contains _ _).
  - destruct (handle_datagram c now clock dg) as [[d [r c']] |] eqn:E; [| done]. by apply (keeps_datagram _ _ _ _ _ E).
  - by apply keeps_timeout.
  - by apply keeps_transmit.
Qed.

Lemma observe_run `{!HonestPeer env contents} evs c log :
  agrees c log -> opens_fresh c evs = true ->
  agrees (fold_left observe evs (c, log)).1 (fold_left observe evs (c, log)).2.
Proof.
  revert c log. induction evs as [| e evs IH]; intros c log Ha; [done |]. cbn [opens_fresh]. intros [H1 H2]%andb_prop.
  cbn [fold_left]. pose proof (agrees_observe c log e Ha) as H. cbn [opens_fresh] in H. rewrite andb_true_r in H. specialize (H H1).
  apply IH; [exact H | exact H2].
Qed.

(** ** Lemmas: long-header packets *)

(** The client takes the server's connection ID from an Initial. *)
Definition adopt_scid (c : conn) (pt : PacketType) (scid : list Z) : conn :=
  if bool_decide (role c = Client) && bool_decide (pt = PT_Initial) && negb (bool_decide (scid = [])) then c <| peer_cid := scid |> else c.

(** An Initial packet sealed with the matching key has exactly the effect of its
    frames, whatever their types. *)
Lemma initial_packet_frames (c : conn) ks ke hke dg p fs dg' n tl now :
  remote_keys (initial c) = Some ks -> aead_pair ke (dk_packet ks) -> hp_pair hke (dk_header ks) ->
  bl_long_type p = LT_Initial -> bl_version p = QUIC_V1 -> bl_dcid p = initial_dcid c -> long_params_ok p ->
  pn_in_window (bl_packet_number p) (bl_largest_acked p) (largest_received (initial c)) ->
  Forall frame_ok fs -> no_adjacent_padding fs = true ->
  4 - packet_number_len (bl_packet_number p) (bl_largest_acked p) <= len (payload_bytes fs) <= u64_MAX ->
  build_long_packet dg p (payload_bytes fs) ke hke = (dg', Ok n) -> len (dg' ++ tl) <= VARINT_MAX ->
  (recv_long_packet c now (dg' ++ tl) (length dg)).2 =
    match run_frames ((adopt_scid c PT_Initial (bl_scid p)) <| cids_issued_this_packet := [] |>) now PT_Initial fs false with
    | (Err e, c2) => (Err e, c2)
    | (Ok ae, c2) => (Ok (Some (length dg')), c2 <| initial ::= fun s => on_packet_received s (bl_packet_number p) ae |>)
    end.
Proof.
  intros Hk HA HH Ht Hv Hd Hp Hpn Hok Hpad [Hlo Hhi] Hb Hmax.
  destruct (long_packet_opens ke (dk_packet ks) hke (dk_header ks) dg p (payload_bytes fs) dg' n tl _ LOCAL_CID_LEN HA HH Hp Hpn Hlo Hb Hmax)
    as (_ & _ & Hpeek & Hparse).
  rewrite Ht in Hpeek, Hparse. rewrite Hv in Hparse. unfold recv_long_packet. rewrite Hpeek. cbn [packet_type_of]. rewrite Hk.
  destruct (parse_long_packet _ _ _ _ _ _) as [d r]. cbn [snd] in Hparse. subst r. cbn [snd packet_type_of].
  unfold accept_long_packet. cbn [pp_dcid pp_consumed pp_packet_type pp_scid pp_payload pp_packet_number].
  rewrite Hd, (bool_decide_true (initial_dcid c = initial_dcid c)) by done. rewrite andb_false_r.
  fold (adopt_scid c PT_Initial (bl_scid p)). rewrite process_frames_run by done. by destruct (run_frames _ _ _ _ _) as [[] ?].
Qed.

(** The next bytes of a stream with nothing buffered. *)
Lemma recv_next s data :
  RecvStream.pending s = [] -> RecvStream.final_size s = None -> data <> [] -> 0 <= RecvStream.read_offset s ->
  RecvStream.read_offset s + len data <= u64_MAX ->
  RecvStream.recv s (RecvStream.read_offset s) data false =
    Ok (true, RecvStream.mk (RecvStream.read_offset s + len data) [] (RecvStream.ready s ++ data) None
                (RecvStream.fin_delivered s) (RecvStream.reset_code s)).
Proof.
  destruct s as [ro m rd fs fd rc]. cbn [RecvStream.pending RecvStream.final_size RecvStream.read_offset RecvStream.ready
    RecvStream.fin_delivered RecvStream.reset_code]. intros -> -> Hne H0 Hmax.
  assert (Hpos : 0 < len data) by (destruct data; [done |]; simpl; lia).
  unfold RecvStream.recv, RecvStream.check_final_size. cbn [RecvStream.final_size RecvStream.read_offset RecvStream.pending
    RecvStream.ready RecvStream.fin_delivered RecvStream.reset_code]. cbn.
  rewrite u64_add_small by (unfold is_u64, u64_MAX in *; lia). bcase; [| lia]. unfold trim. bcase; [lia |].
  destruct data as [| x data]; [done |]. unfold buffer_segment, flush_contiguous. cbn [om_insert om_empty length flush_loop].
  assert (El : om_last_le ro [(ro, x :: data)] = Some (ro, x :: data)).
  { unfold om_last_le. rewrite filter_cons, decide_True by (simpl; lia). done. }
  rewrite El. change (Z.of_nat (S (length data))) with (len (x :: data)) in *.
  rewrite u64_add_small by (unfold is_u64, u64_MAX in *; lia). bcase; [lia |].
  assert (Er : om_remove ro [(ro, x :: data)] = []).
  { unfold om_remove. rewrite filter_cons, decide_False by (simpl; lia). done. }
  rewrite Er, Z.sub_diag. change (drop (Z.to_nat 0) (x :: data)) with (x :: data).
  rewrite length_app. bcase; [done |]. simpl in *. lia.
Qed.

Lemma recv_stream_next c id s data :
  om_get id (recv_streams c) = Some s -> RecvStream.is_reset s = false ->
  RecvStream.pending s = [] -> RecvStream.final_size s = None -> data <> [] -> 0 <= RecvStream.read_offset s ->
  RecvStream.read_offset s + len data <= u64_MAX ->
  exists c2 s2, recv_stream c id (RecvStream.read_offset s) false data = (Ok tt, c2) /\ state c2 = state c /\
    om_get id (recv_streams c2) = Some s2 /\ RecvStream.reset_code s2 = None /\ RecvStream.ready s2 = RecvStream.ready s ++ data.
Proof.
  intros Hs Hr Hp Hf Hne H0 Hmax. unfold recv_stream.
  assert (Ht : recv_streams (touch_stream c id) = recv_streams c).
  { rewrite touch_recv. unfold or_insert, om_contains. by rewrite Hs. }
  assert (Hst : state (touch_stream c id) = state c).
  { unfold touch_stream. destruct (_ && peer_initiated _ _); destruct (bool_decide (StreamId.direction id = _)); done. }
  rewrite Ht, Hs. cbn [unwrap_or]. rewrite Hr, recv_next by done.
  set (s2 := RecvStream.mk _ _ _ _ _ _). eexists _, s2. split_and!; [reflexivity | exact Hst | | | reflexivity].
  - change (recv_streams _) with (om_insert id s2 (recv_streams (touch_stream c id))). by rewrite om_get_insert, Z.eqb_refl.
  - unfold RecvStream.is_reset in Hr. simpl. by destruct (RecvStream.reset_code s).
Qed.

End delivery.

(** From a new connection, the log stays a prefix of the contents, and so does what
    the next read adds to it. *)
Lemma reads_faithful {env : QuicEnv} (contents : Z -> list Z) `{!HonestPeer env contents} role tls params rng algo clock evs :
  let start : Connection env := install_initial_keys (new_inner role tls params rng algo clock) in
  opens_fresh start evs = true ->
  let '(c, log) := fold_left observe evs (start, fun _ => []) in
  forall id, log id `prefix_of` contents id /\
    forall bytes fin c', read_stream c id = (Ok (bytes, fin), c') ->
      log id ++ bytes `prefix_of` contents id /\ (fin = true -> log id ++ bytes = contents id).
Proof.
  intros start Hf. assert (H0 : agrees contents start (fun _ => [])).
  { intros id. subst start. unfold new_inner. by destruct (rng_fill rng 32). }
  pose proof (observe_run contents evs start _ H0 Hf) as H. destruct (fold_left observe evs _) as [c log]. cbn [fst snd] in H.
  intros id. split; [by apply (agrees_prefix contents c) |]. intros bytes fin c' E.
  pose proof (agrees_read contents c log id H) as Hr. rewrite E in Hr. destruct Hr as [Ha He]. split; [| exact He].
  pose proof (agrees_prefix contents c' _ id Ha) as Hp. by rewrite log_read_at, Z.eqb_refl in Hp.
Qed.

(** ** Properties *)

(** C3: Whatever happens to a connection, the application reads what the peer
    sent: from a new connection, after any sequence of application calls, datagrams
    (lost, duplicated, reordered, with forged bytes in between), timer expiries and
    transmissions, the bytes read from each stream so far are a prefix of that
    stream's contents, the next read continues that prefix, and a read that reports
    the end of the stream has brought it to exactly the whole contents.  This is under
    two assumptions.  The peer is honest ([HonestPeer]): every payload that any packet
    key opens, those of the Initial space included, was sealed by the peer and carries
    only parts of the given contents; the Initial keys are public, and the next theorem
    is what an attacker does with them.  And the
    application opens its own streams under identifiers the peer has not sent data
    for, since opening would discard that data. *)
Theorem application_reads_faithful {env : QuicEnv} (contents : Z -> list Z) `{!HonestPeer env contents}
    role tls params rng algo clock evs :
  let start : Connection env := install_initial_keys (new_inner role tls params rng algo clock) in
  opens_fresh start evs = true ->
  let '(c, log) := fold_left observe evs (start, fun _ => []) in
  forall id, log id `prefix_of` contents id /\
    forall bytes fin c', read_stream c id = (Ok (bytes, fin), c') ->
      log id ++ bytes `prefix_of` contents id /\ (fin = true -> log id ++ bytes = contents id).
Proof. intros start Hf. exact (reads_faithful contents role tls params rng algo clock evs Hf). Qed.

(** C19: Initial packets carry application data, at any time: whoever has seen the
    connection ID that seeds the Initial keys can seal an Initial packet with a
    STREAM frame for the next bytes of any stream, and the application reads those
    bytes as the peer's, in the state of an established connection too: the frame
    types are not restricted by packet type and the Initial keys are never
    discarded. *)
Theorem initial_packet_injects_data {env : QuicEnv} (c : Connection env) peer dcid dg p id s data dg' n tl now :
  keys (initial c) = Some (initial_keys dcid (role c)) ->
  let sender := local (initial_keys dcid peer) in
  let receiver := remote (initial_keys dcid (role c)) in
  aead_pair (dk_packet sender) (dk_packet receiver) -> hp_pair (dk_header sender) (dk_header receiver) ->
  bl_long_type p = LT_Initial -> bl_version p = QUIC_V1 -> bl_dcid p = initial_dcid c -> long_params_ok p ->
  pn_in_window (bl_packet_number p) (bl_largest_acked p) (largest_received (initial c)) ->
  om_get id (recv_streams c) = Some s -> RecvStream.is_reset s = false ->
  RecvStream.pending s = [] -> RecvStream.final_size s = None -> data <> [] ->
  is_varint id -> is_varint (RecvStream.read_offset s) -> is_varint (len data) ->
  let payload := payload_bytes [Stream id (RecvStream.read_offset s) false data] in
  4 - packet_number_len (bl_packet_number p) (bl_largest_acked p) <= len payload <= u64_MAX ->
  build_long_packet dg p payload (dk_packet sender) (dk_header sender) = (dg', Ok n) -> len (dg' ++ tl) <= VARINT_MAX ->
  exists c', (recv_long_packet c now (dg' ++ tl) (length dg)).2 = (Ok (Some (length dg')), c') /\
    state c' = state c /\
    exists fin, (read_stream c' id).1 = Ok (RecvStream.ready s ++ data, fin).
Proof.
  intros Hk sender receiver HA HH Ht Hv Hd Hp Hpn Hs Hr Hpend Hfs Hne Hid Ho Hdl payload Hpay Hb Hmax.
  assert (Hrk : remote_keys (initial c) = Some receiver) by (unfold remote_keys; by rewrite Hk).
  assert (Hok : Forall frame_ok [Stream id (RecvStream.read_offset s) false data]) by (by apply Forall_singleton).
  rewrite (initial_packet_frames c receiver _ _ dg p [Stream id (RecvStream.read_offset s) false data] dg' n tl now Hrk HA HH Ht Hv Hd Hp
             Hpn Hok eq_refl Hpay Hb Hmax).
  set (c1 := (adopt_scid c PT_Initial (bl_scid p)) <| cids_issued_this_packet := [] |>).
  assert (H1 : recv_streams c1 = recv_streams c /\ state c1 = state c) by (subst c1; unfold adopt_scid; by destruct (_ && _)).
  clearbody c1. destruct H1 as [H1 H2]. rewrite <- H1 in Hs.
  destruct (recv_stream_next c1 id s data Hs Hr Hpend Hfs Hne (proj1 Ho)) as (c2 & s2 & E & Est & Es & Er & Erd).
  { unfold is_varint, u64_MAX in *. rewrite VARINT_MAX_eq in *. lia. }
  cbn [run_frames handle_frame]. rewrite E. cbn [is_ack_eliciting]. eexists. split; [reflexivity |].
  split; [by rewrite <- H2 |]. exists (RecvStream.fin_delivered s2 && SendStream.is_nil (RecvStream.pending s2)).
  unfold read_stream. change (recv_streams (_ <| initial ::= _ |>)) with (recv_streams c2). rewrite Es. unfold RecvStream.read_checked.
  rewrite Er. cbn [RecvStream.read fst]. by rewrite Erd.
Qed.

(** An established client with one open stream, and an Initial that was not sent by its peer. *)
Definition demo_open_client : Connection demo_env := fold_left exec [Transmit 0 0 []; Call CallOpenBidi] demo_run_start.

Definition demo_injection : BuildLong := mkBuildLong LT_Initial QUIC_V1 (initial_dcid demo_open_client) [7; 7] [] 3 None.

Definition demo_injected : list Z :=
  (build_long_packet (PC := toy_crypto) [] demo_injection (payload_bytes [Stream 0 0 false [6; 6; 6]]) 0x11 tt).1.

Lemma initial_packet_injects_data_witness :
  state demo_open_client = Established /\ handshake_complete demo_open_client = true /\
  exists c', (recv_long_packet demo_open_client 5 (demo_injected ++ []) 0).2 = (Ok (Some (length demo_injected)), c') /\
    state c' = state demo_open_client /\ exists fin, (read_stream c' 0).1 = Ok (RecvStream.ready RecvStream.new ++ [6; 6; 6], fin).
Proof.
  split; [vm_compute; reflexivity |]. split; [vm_compute; reflexivity |].
  apply (initial_packet_injects_data (env := demo_env) demo_open_client Server (initial_dcid demo_open_client) [] demo_injection 0
           RecvStream.new [6; 6; 6] demo_injected (len demo_injected) [] 5).
  - vm_compute. reflexivity.
  - apply toy_aead_pair.
  - apply toy_hp_pair.
  - reflexivity.
  - reflexivity.
  - reflexivity.
  - eapply bool_decide_unpack. vm_compute. exact I.
  - unfold pn_in_window. vm_compute. repeat split; congruence.
  - vm_compute. reflexivity.
  - reflexivity.
  - reflexivity.
  - reflexivity.
  - done.
  - eapply bool_decide_unpack. vm_compute. exact I.
  - eapply bool_decide_unpack. vm_compute. exact I.
  - eapply bool_decide_unpack. vm_compute. exact I.
  - vm_compute. split; congruence.
  - vm_compute. reflexivity.
  - vm_compute. congruence.
Defined.

(** A peer that sends [1 .. 7] on stream 1, with a cipher that opens nothing else. *)
Definition demo_contents (id : Z) : list Z := if id =? 1 then [1; 2; 3; 4; 5; 6; 7] else [].

Fixpoint honest_check (contents : Z -> list Z) (fuel : nat) (b : Buf) : bool :=
  match decode_frame b, fuel with
  | Err _, _ => true
  | Ok _, O => false
  | Ok (f, b'), S fuel => bool_decide (honest contents f) && honest_check contents fuel b'
  end.

Lemma honest_check_sound contents fuel b : honest_check contents fuel b = true -> honest_payload contents b.
Proof.
  revert b. induction fuel as [| fuel IH]; intros b; simpl; destruct (decode_frame b) as [[f b'] | e] eqn:E; try done.
  - intros _. apply honest_end. intros f b'. by rewrite E.
  - intros [H1%bool_decide_eq_true H2]%andb_prop. by apply (honest_frame _ b f b'); [| | apply IH].
  - intros _. apply honest_end. intros f b'. by rewrite E.
Qed.

Definition guarded_crypto : PacketCrypto unit Z := {|
  tag_len := tag_len (PacketCrypto := toy_crypto);
  pk_encrypt := pk_encrypt (PacketCrypto := toy_crypto);
  pk_decrypt k pn h b :=
    let '(b', plain) := pk_decrypt (PacketCrypto := toy_crypto) k pn h b in
    (b', match plain with
         | Some p => if honest_check demo_contents (length p) (buf_new p) then Some p else None
         | None => None
         end);
  sample_len := sample_len (PacketCrypto := toy_crypto);
  hp_encrypt := hp_encrypt (PacketCrypto := toy_crypto);
  hp_decrypt := hp_decrypt (PacketCrypto := toy_crypto)
|}.

Definition honest_env : QuicEnv := scripted_env guarded_crypto.

#[export] Instance demo_honest : HonestPeer honest_env demo_contents.
Proof.
  split.
  - intros id. unfold demo_contents. bcase; simpl; lia.
  - intros k pn h b p. cbn [packet_crypto honest_env scripted_env guarded_crypto pk_decrypt].
    destruct (@pk_decrypt unit Z toy_crypto k pn h b) as [b' [q |]]; [| done]. cbn [snd].
    destruct (honest_check _ _ _) eqn:E; [| done]. intros [= <-]. by eapply honest_check_sound.
Qed.

Definition honest_start : Connection honest_env :=
  @install_initial_keys honest_env
    (@new_inner honest_env Client (mkScriptedTls [([1], Some (KcOneRtt demo_keys 5))] false (Some (encode_transport_params demo_peer_params)))
       (mkConnParams [1; 1; 1; 1; 1; 1; 1; 1] [2; 2; 2; 2; 2; 2; 2; 2] [2; 2; 2; 2; 2; 2; 2; 2] 7 default_params
          default_mtu_config 65536)
       0 AlgoNewReno 0).

Definition honest_packet (n : Z) (f : Frame) : list Z :=
  (build_short_packet (PC := toy_crypto) [] (mkBuildShort [1; 1; 1; 1; 1; 1; 1; 1] n None false) (payload_bytes [f]) 0x21 tt).1.

(** The second part first, a forged packet, the first part, a read, the second part again. *)
Definition honest_events : list (event (env := honest_env)) :=
  [Transmit 0 0 []; Receive 1 1 (honest_packet 1 (Stream 1 4 true [5; 6; 7])); Receive 2 2 (honest_packet 2 (Stream 1 4 false [8; 8]));
   Receive 3 3 (honest_packet 0 (Stream 1 0 false [1; 2; 3])); Call (CallRead 1); Receive 5 5 (honest_packet 3 (Stream 1 2 false [3; 4]))].

Definition honest_run : Connection honest_env * read_log := fold_left observe honest_events (honest_start, fun _ => []).

Lemma application_reads_faithful_witness :
  opens_fresh honest_start honest_events = true /\
  honest_run.2 1 = [1; 2; 3] /\ (read_stream honest_run.1 1).1 = Ok ([4; 5; 6; 7], true) /\
  honest_run.2 1 ++ [4; 5; 6; 7] = demo_contents 1.
Proof.
  assert (Hf : opens_fresh honest_start honest_events = true) by (vm_compute; reflexivity).
  split; [exact Hf |]. split; [vm_compute; reflexivity |].
  assert (Hr : (read_stream honest_run.1 1).1 = Ok ([4; 5; 6; 7], true)) by (vm_compute; reflexivity).
  split; [exact Hr |].
  pose proof (application_reads_faithful (env := honest_env) demo_contents Client
                (mkScriptedTls [([1], Some (KcOneRtt demo_keys 5))] false (Some (encode_transport_params demo_peer_params)))
                (mkConnParams [1; 1; 1; 1; 1; 1; 1; 1] [2; 2; 2; 2; 2; 2; 2; 2] [2; 2; 2; 2; 2; 2; 2; 2] 7 default_params
                   default_mtu_config 65536)
                0 AlgoNewReno 0 honest_events Hf) as H.
  change (fold_left observe honest_events _) with honest_run in H. revert H Hr. generalize honest_run. intros [c log] H Hr.
  cbn [fst snd] in *. destruct (H 1) as [_ H1]. destruct (read_stream c 1) as [r c'] eqn:E. cbn [fst] in Hr. subst r.
  by destruct (H1 _ _ _ eq_refl) as [_ ->].
Defined.
