(* ===== verification/Mpsc.v ===== *)
(** * Bounded channels

    The endpoint's tasks talk over [tokio::sync::mpsc] channels, which are not part of
    the sources: [Mpsc] is the interface the tasks use and [LawfulMpsc] what the
    documentation of that crate promises, stated through [view], the queue a channel
    stands for.  The clients' theorems are proved against the interface; [queue_mpsc]
    shows that it can be met. *)

From S2P Require Import Prelude.

Inductive TrySend := SendOk | SendFull | SendClosed.
Inductive TryRecv (A : Type) := RecvItem (x : A) | RecvEmpty | RecvDisconnected.
Arguments RecvItem {A}. Arguments RecvEmpty {A}. Arguments RecvDisconnected {A}.

(** What a channel holds: the queued items, its capacity, and whether each end is alive. *)
Record Queue (A : Type) := mkQueue { items : list A; capacity : nat; rx_alive : bool; tx_alive : bool }.
Arguments mkQueue {A}. Arguments items {A}. Arguments capacity {A}. Arguments rx_alive {A}. Arguments tx_alive {A}.

Definition queue_send {A} (q : Queue A) (x : A) : TrySend * Queue A :=
  if negb (rx_alive q) then (SendClosed, q)
  else if (capacity q <=? length (items q))%nat then (SendFull, q)
  else (SendOk, mkQueue (items q ++ [x]) (capacity q) (rx_alive q) (tx_alive q)).

Definition queue_recv {A} (q : Queue A) : TryRecv A * Queue A :=
  match items q with
  | x :: xs => (RecvItem x, mkQueue xs (capacity q) (rx_alive q) (tx_alive q))
  | [] => (if tx_alive q then RecvEmpty else RecvDisconnected, q)
  end.

Class Mpsc := {
  Chan : Type -> Type;
  channel : forall {A}, nat -> Chan A;
  try_send : forall {A}, Chan A -> A -> TrySend * Chan A;
  try_recv : forall {A}, Chan A -> TryRecv A * Chan A;
  drop_rx : forall {A}, Chan A -> Chan A;
  drop_tx : forall {A}, Chan A -> Chan A;
  view : forall {A}, Chan A -> Queue A
}.

Class LawfulMpsc (M : Mpsc) : Prop := {
  view_channel : forall A n, view (@channel M A n) = mkQueue [] n true true;
  view_try_send : forall A (c : @Chan M A) x,
    (try_send c x).1 = (queue_send (view c) x).1 /\ view (try_send c x).2 = (queue_send (view c) x).2;
  view_try_recv : forall A (c : @Chan M A),
    (try_recv c).1 = (queue_recv (view c)).1 /\ view (try_recv c).2 = (queue_recv (view c)).2;
  view_drop_rx : forall A (c : @Chan M A), view (drop_rx c) = mkQueue [] (capacity (view c)) false (tx_alive (view c));
  view_drop_tx : forall A (c : @Chan M A),
    view (drop_tx c) = mkQueue (items (view c)) (capacity (view c)) (rx_alive (view c)) false
}.

#[export] Instance queue_mpsc : Mpsc := {|
  Chan := Queue;
  channel _ n := mkQueue [] n true true;
  try_send _ := queue_send;
  try_recv _ := queue_recv;
  drop_rx _ q := mkQueue [] (capacity q) false (tx_alive q);
  drop_tx _ q := mkQueue (items q) (capacity q) (rx_alive q) false;
  view _ q := q
|}.

#[export] Instance queue_mpsc_lawful : LawfulMpsc queue_mpsc.
Proof. by split. Qed.

(** ** Lemmas *)

Section channel_lemmas.
Context {M : Mpsc} `{!LawfulMpsc M} {A : Type}.
Implicit Types c : Chan A.

(** A send never disturbs what is queued: the items stay, with the new one last or not at all. *)
Lemma try_send_items c x :
  items (view (try_send c x).2) = (match (try_send c x).1 with SendOk => items (view c) ++ [x] | _ => items (view c) end).
Proof. destruct (view_try_send A c x) as [-> ->]. unfold queue_send. destruct (negb _); [done |]. by destruct (_ <=? _)%nat. Qed.

Lemma try_send_caps c x :
  capacity (view (try_send c x).2) = capacity (view c) /\ rx_alive (view (try_send c x).2) = rx_alive (view c).
Proof. destruct (view_try_send A c x) as [_ ->]. unfold queue_send. destruct (negb _); [done |]. by destruct (_ <=? _)%nat. Qed.

Lemma try_send_result c x :
  (try_send c x).1 = (if negb (rx_alive (view c)) then SendClosed
                      else if (capacity (view c) <=? length (items (view c)))%nat then SendFull else SendOk).
Proof. destruct (view_try_send A c x) as [-> _]. unfold queue_send. destruct (negb _); [done |]. by destruct (_ <=? _)%nat. Qed.

Lemma try_recv_item c x :
  (try_recv c).1 = RecvItem x -> items (view c) = x :: items (view (try_recv c).2).
Proof.
  destruct (view_try_recv A c) as [-> ->]. unfold queue_recv. destruct (items (view c)) as [| y ys]; cbn; [by destruct (tx_alive _) |].
  by intros [= <-].
Qed.

Lemma try_recv_other c : (forall x, (try_recv c).1 <> RecvItem x) -> view (try_recv c).2 = view c.
Proof.
  destruct (view_try_recv A c) as [-> ->]. unfold queue_recv. destruct (items (view c)) as [| y ys]; cbn; [done |].
  intros H. by destruct (H y).
Qed.

End channel_lemmas.
