(* ===== verification/Endpoint.v ===== *)
(** * Endpoints ([oxiquic-transport/src/endpoint/mod.rs])

    The server's demultiplexer with its two routing tables, Version Negotiation, Retry
    address validation and the creation of connections, and the driver that moves
    datagrams between an inbound source, a connection and the socket.  Each turn of a
    task's loop is a function of the task's state and of what the turn is given: the
    datagram and its source address, clock readings, the random generator, the
    outcome of socket calls.  The channels between the tasks are those of [Mpsc]. *)

From stdpp Require Import gmap.
From S2P Require Import Prelude OrdMap CoreTypes Coding FrameCodec ParamsCodec PacketSpace SentPackets.
From S2P Require Import Streams FlowControl Recovery Congestion Bbr CidPool Packet Config Multipath Connection.
From S2P Require Import ConnRecovery ConnHandshake ConnRecv ConnSend Mpsc.

Definition RECV_BUF : nat := 2048.
Definition SUPPORTED_VERSIONS : list Z := [QUIC_V1].
Definition CONN_CHANNEL : nat := Z.to_nat 16384.
Definition ROUTE_CHANNEL : nat := 256.
Definition BURST_DRAIN_LIMIT : nat := 128.

(** The rustls configurations an endpoint is given, and an address as the match in
    [hmac_retry_tag] sees it. *)
Class EndpointEnv (env : QuicEnv) := {
  ServerConfig : Type;
  ClientConfig : Type;
  tls_early_data : ServerConfig -> Z;
  with_tls_early_data : ServerConfig -> Z -> ServerConfig;
  server_connection_new : ServerConfig -> list Z -> option Tls;
  (** [ServerName::try_from] and [ClientConnection::new] *)
  server_name : list Z -> option (list Z);
  client_connection_new : ClientConfig -> list Z -> list Z -> option Tls;
  socket_addr : Addr -> SocketAddr
}.

Section endpoint.
Context {env : QuicEnv} `{EE : !EndpointEnv env} {M : Mpsc}.

Notation conn := (Connection env).

(** ** Routing tables *)

(** A sender handle is the index of its channel. *)
Record CidRouteUpdate := mkRouteUpdate { ru_event : CidEvent; ru_conn_tx : nat }.

Record Demux := mkDemux {
  transport : TransportConfig;
  initial_map : gmap (list Z) nat;
  local_cid_map : gmap (list Z) nat;
  channels : list (Chan (list Z * Addr));
  cid_route : Chan CidRouteUpdate
}.

#[export] Instance Demux_eta : Settable Demux := fun d =>
  mkDemux (transport d) (initial_map d) (local_cid_map d) (channels d) (cid_route d).
#[export] Instance set_transport : Setter transport := ltac:(solve_setter).
#[export] Instance set_initial_map : Setter initial_map := ltac:(solve_setter).
#[export] Instance set_local_cid_map : Setter local_cid_map := ltac:(solve_setter).
#[export] Instance set_channels : Setter channels := ltac:(solve_setter).
#[export] Instance set_cid_route : Setter cid_route := ltac:(solve_setter).

(** What a turn of the demultiplexer does outside its own state. *)
Inductive Output :=
| SendTo (packet : list Z) (to : Addr)
| AcceptErr (e : OxiQuicError)
| Spawn (c : conn) (peer : Addr) (keep_alive : option Z) (ch : nat) (dcid : list Z).

Record Arrival := mkArrival {
  datagram : list Z;
  from : Addr;
  os_rng : Rng;
  scid_nanos : Z;
  secret_nanos : Z;
  arrival_clock : Z
}.

Definition demux_new (t : TransportConfig) : Demux := mkDemux t ∅ ∅ [] (channel ROUTE_CHANNEL).

Definition apply_cid_route_update (d : Demux) (u : CidRouteUpdate) : bool * Demux :=
  match ru_event u with
  | Register cid =>
      if (length cid =? LOCAL_CID_LEN)%nat then (true, d <| local_cid_map ::= <[cid := ru_conn_tx u]> |>) else (false, d)
  | Unregister cid =>
      if (length cid =? LOCAL_CID_LEN)%nat then (true, d <| local_cid_map ::= delete cid |>) else (false, d)
  | InitialRetired dcid => (true, d <| initial_map ::= delete dcid |>)
  end.

(** The [loop { match cid_route_rx.try_recv() ... }] that empties the update channel;
    as many turns as there are queued updates, and one to see it empty. *)
Fixpoint drain_updates (fuel : nat) (d : Demux) : Demux :=
  match fuel with
  | O => d
  | S fuel =>
      match try_recv (cid_route d) with
      | (RecvItem u, r) => drain_updates fuel (apply_cid_route_update (d <| cid_route := r |>) u).2
      | (_, r) => d <| cid_route := r |>
      end
  end.

(** [tx.try_send((datagram, peer_addr))]. *)
Definition offer (d : Demux) (ch : nat) (item : list Z * Addr) : TrySend * Demux :=
  match channels d !! ch with
  | None => (SendClosed, d)
  | Some c => let '(r, c) := try_send c item in (r, d <| channels ::= <[ch := c]> |>)
  end.

Definition forward_local (d : Demux) (key : list Z) (ch : nat) (item : list Z * Addr) : Demux :=
  match offer d ch item with
  | (SendClosed, d) => d <| local_cid_map ::= delete key |>
  | (_, d) => d
  end.

Definition forward_initial (d : Demux) (dcid : list Z) (ch : nat) (item : list Z * Addr) : Demux :=
  match offer d ch item with
  | (SendClosed, d) => d <| initial_map ::= delete dcid |>
  | (_, d) => d
  end.

Definition parse_client_initial_ids (dg : list Z) : option (Z * list Z * list Z) :=
  first ← dg !! 0%nat;
  if Z.land first 0x80 =? 0 then None else
  let buf := buf_new dg in
  '(_, buf) ← result_ok (get_u8 buf);
  '(version, buf) ← result_ok (get_u32 buf);
  '(dcid_len, buf) ← result_ok (get_u8 buf);
  '(dcid, buf) ← result_ok (get_bytes dcid_len buf);
  '(scid_len, buf) ← result_ok (get_u8 buf);
  '(scid, buf) ← result_ok (get_bytes scid_len buf);
  Some (version, dcid, scid).

Definition apply_early_data_config (config : ServerConfig) (t : TransportConfig) : ServerConfig :=
  let size := max_early_data_size t in
  if size =? 0 then config
  else if tls_early_data config =? size then config
  else with_tls_early_data config size.

Definition random_scid_for_retry (rng : Rng) (nanos : Z) : list Z * Rng :=
  match rng_fill rng 8 with
  | (Some bytes, rng) => (bytes, rng)
  | (None, rng) => (map (fun i => as_u8 (as_u32 (nanos + as_u32 (Z.of_nat i * 0x9e3779b9)))) (seq 0 8), rng)
  end.

(** ** New connections *)

(** Build the connection, register its channel under both identifiers, forward the
    first datagram and spawn the handshake task. *)
Definition create_connection (config : ServerConfig) (d : Demux) (a : Arrival) (dcid scid : list Z) : list Output * Demux :=
  let t := transport d in
  match new_server (server_connection_new (apply_early_data_config config t)) (os_rng a) dcid scid (from a)
          (to_transport_params t) (mkMtuConfig (Config.max_mtu t) true) (congestion_controller t)
          (datagram_receive_buffer_size t) (arrival_clock a) with
  | Err e => ([AcceptErr e], d)
  | Ok c =>
      if negb (length (local_cid c) =? LOCAL_CID_LEN)%nat then ([], d)
      else
        let ch := length (channels d) in
        let d := d <| channels ::= fun cs => cs ++ [channel CONN_CHANNEL] |>
                   <| initial_map ::= <[dcid := ch]> |> <| local_cid_map ::= <[local_cid c := ch]> |> in
        let d := (offer d ch (datagram a, from a)).2 in
        ([Spawn c (from a) (Config.keep_alive_interval t) ch dcid], d)
  end.

Definition send_retry (d : Demux) (a : Arrival) (dcid scid : list Z) : list Output * Demux :=
  let '(retry_scid, rng) := random_scid_for_retry (os_rng a) (scid_nanos a) in
  let fresh := getrandom_secret (rng_fill rng 32).1 (secret_nanos a) in
  let '(retry_token, t) := generate_retry_token hmac_sha256 (transport d) fresh dcid (socket_addr (from a)) in
  let d := d <| transport := t |> in
  match encode_retry_packet aes128gcm_encrypt retry_scid scid dcid retry_token with
  | Some pkt => ([SendTo pkt (from a)], d)
  | None => ([], d)
  end.

(** ** One datagram *)

Definition accept_initial (config : ServerConfig) (d : Demux) (a : Arrival) : list Output * Demux :=
  match parse_client_initial_ids (datagram a) with
  | None => ([], d)
  | Some (version, dcid, scid) =>
      if negb (version =? QUIC_V1) then
        ([SendTo (encode_version_negotiation scid dcid SUPPORTED_VERSIONS) (from a)], d)
      else if retry_enabled (transport d) then
        let token := unwrap_or (parse_initial_token (datagram a)) [] in
        if (length token =? 0)%nat then send_retry d a dcid scid
        else match validate_retry_token hmac_sha256 (transport d) token (socket_addr (from a)) with
             | Some _ => create_connection config d a dcid scid
             | None => send_retry d a dcid scid
             end
      else create_connection config d a dcid scid
  end.

Definition on_datagram (config : ServerConfig) (d : Demux) (a : Arrival) : list Output * Demux :=
  match peek_dcid (datagram a) LOCAL_CID_LEN with
  | Err _ => ([], d)
  | Ok (pkt_type, dcid) =>
      let item := (datagram a, from a) in
      if bool_decide (pkt_type = PT_Short) then
        if negb (length dcid =? LOCAL_CID_LEN)%nat then ([], d)
        else match local_cid_map d !! dcid with
             | Some ch => ([], forward_local d dcid ch item)
             | None => ([], d)
             end
      else
        match (if (length dcid =? LOCAL_CID_LEN)%nat then local_cid_map d !! dcid else None) with
        | Some ch => ([], forward_local d dcid ch item)
        | None =>
            if negb (bool_decide (pkt_type = PT_Initial)) then ([], d)
            else match initial_map d !! dcid with
                 | Some ch => ([], forward_initial d dcid ch item)
                 | None => accept_initial config d a
                 end
        end
  end.

(** A turn of [run_server_demux]'s loop: [None] ends the loop, an arrival that is [None] is
    a failed receive, and at most [RECV_BUF] bytes of a datagram are read. *)
Definition demux_turn (config : ServerConfig) (accept_closed : bool) (d : Demux) (a : option Arrival)
    : option (list Output * Demux) :=
  if accept_closed then None
  else
    let d := drain_updates (S (length (items (view (cid_route d))))) d in
    match a with
    | None => Some ([], d)
    | Some a =>
        Some (on_datagram config d (mkArrival (take RECV_BUF (datagram a)) (from a) (os_rng a) (scid_nanos a) (secret_nanos a) (arrival_clock a)))
    end.

(** ** The connection driver *)

Record Driver := mkDriver {
  dconn : conn;
  peer : option Addr;
  self_tx : option nat
}.

#[export] Instance Driver_eta : Settable Driver := fun d => mkDriver (dconn d) (peer d) (self_tx d).
#[export] Instance set_dconn : Setter dconn := ltac:(solve_setter).
#[export] Instance set_peer : Setter peer := ltac:(solve_setter).
#[export] Instance set_self_tx : Setter self_tx := ltac:(solve_setter).

Definition driver_new (c : conn) (p : option Addr) : Driver := mkDriver c p None.
Definition with_cid_routing (d : Driver) (ch : nat) : Driver := d <| self_tx := Some ch |>.

(** [while let Some(event) = self.conn.pop_cid_event()]: a turn per queued event. *)
Fixpoint drain_cid_loop (fuel : nat) (d : Driver) (route : Chan CidRouteUpdate) : Driver * Chan CidRouteUpdate :=
  match fuel with
  | O => (d, route)
  | S fuel =>
      match pop_cid_event (dconn d) with
      | (None, c) => (d <| dconn := c |>, route)
      | (Some e, c) =>
          let route := match self_tx d with Some ch => (try_send route (mkRouteUpdate e ch)).2 | None => route end in
          drain_cid_loop fuel (d <| dconn := c |>) route
      end
  end.

Definition drain_cid_events (d : Driver) (route : Chan CidRouteUpdate) : Driver * Chan CidRouteUpdate :=
  drain_cid_loop (S (length (pending_cid_events (dconn d)))) d route.

Definition is_established (c : conn) : bool := bool_decide (state c = Established).
Definition is_closed (c : conn) : bool := bool_decide (state c = Closed).
Definition conn_is_handshaking (c : conn) : bool := negb (handshake_complete c).

(** Register a candidate address and challenge it when the source changed. *)
Definition note_source (d : Driver) (src : Addr) : Driver :=
  match peer d with
  | None => d <| peer := Some src |>
  | Some p =>
      if negb (bool_decide (p = src)) && is_established (dconn d) then
        d <| dconn ::= fun c => (initiate_path_challenge (set_candidate_addr c src)).2 |>
      else d
  end.

(** [None] is [handle_datagram] out of fuel, which does not happen. *)
Definition handle_inbound_datagram (d : Driver) (route : Chan CidRouteUpdate) (now clock : Z) (owned : list Z) (src : Addr)
    : option (result OxiQuicError unit * (Driver * Chan CidRouteUpdate)) :=
  let d := note_source d src in
  '(_, (r, c)) ← handle_datagram (dconn d) now clock owned;
  let d := d <| dconn := c |> in
  match r with
  | Err e => Some (Err e, (d, route))
  | Ok _ =>
      let d := if path_validated c then d <| peer := Some (peer_addr c) |> else d in
      Some (Ok tt, drain_cid_events d route)
  end.

(** [flush]: a clock reading and the socket's answer per turn; [None] is a loop that
    has used up the readings. *)
Record Reading := mkReading { at_ : Z; wall : Z; send_ok : bool }.

Fixpoint flush (rs : list Reading) (c : conn) : option (result OxiQuicError unit * (list (list Z * Addr) * conn)) :=
  match rs with
  | [] => None
  | r :: rs =>
      let '(to, (out, c)) := poll_transmit c (at_ r) (wall r) [] in
      match to with
      | Some addr =>
          if (length out =? 0)%nat then Some (Ok tt, ([], c))
          else if send_ok r then
            '(res, (sent, c)) ← flush rs c; Some (res, ((out, addr) :: sent, c))
          else Some (Err EIo, ([], c))
      | None => Some (Ok tt, ([], c))
      end
  end.

Definition close_error (c : conn) : OxiQuicError :=
  match peer_closed c with
  | Some (ETransportError code ft) => ETransportError code ft
  | Some (EApplicationClose code) => EApplicationClose code
  | Some _ => EConnection
  | None => EConnection
  end.

(** The burst loop of [pump_once] over what [try_recv_inbound] returns. *)
Fixpoint burst (n : nat) (d : Driver) (route : Chan CidRouteUpdate) (pending : list (option (list Z * Addr) * (Z * Z)))
    : option (result OxiQuicError unit * (Driver * Chan CidRouteUpdate)) :=
  match n, pending with
  | S n, (Some (owned, src), (now, clock)) :: pending =>
      '(r, (d, route)) ← handle_inbound_datagram d route now clock owned src;
      match r with
      | Err e => Some (Err e, (d, route))
      | Ok _ => burst n d route pending
      end
  | S _, (None, _) :: _ => Some (Err EIo, (d, route))
  | _, _ => Some (Ok tt, (d, route))
  end.

(** What [select!] saw: a received datagram (or a receive error) with what was queued
    behind it, or the timer. *)
Inductive PumpEvent :=
| Inbound (first : option (list Z * Addr)) (now clock : Z) (pending : list (option (list Z * Addr) * (Z * Z))) (rs : list Reading)
| Timer (now : Z) (rs : list Reading).

Definition flush_driver (rs : list Reading) (d : Driver) (route : Chan CidRouteUpdate)
    : option (result OxiQuicError unit * (list (list Z * Addr) * (Driver * Chan CidRouteUpdate))) :=
  '(r, (sent, c)) ← flush rs (dconn d); Some (r, (sent, (d <| dconn := c |>, route))).

Definition pump_once (d : Driver) (route : Chan CidRouteUpdate) (deadline : Z) (e : PumpEvent)
    : option (result OxiQuicError unit * (list (list Z * Addr) * (Driver * Chan CidRouteUpdate))) :=
  match e with
  | Inbound None _ _ _ _ => Some (Err EIo, ([], (d, route)))
  | Inbound (Some (owned, src)) now clock pending rs =>
      '(r, (d, route)) ← handle_inbound_datagram d route now clock owned src;
      match r with
      | Err e => Some (Err e, ([], (d, route)))
      | Ok _ =>
          '(r, (d, route)) ← burst BURST_DRAIN_LIMIT d route pending;
          match r with
          | Err e => Some (Err e, ([], (d, route)))
          | Ok _ => flush_driver rs d route
          end
      end
  | Timer now rs =>
      let d := d <| dconn ::= fun c => handle_timeout c now |> in
      if (deadline <=? now) && conn_is_handshaking (dconn d) then Some (Err ETimeout, ([], (d, route)))
      else flush_driver rs d route
  end.

(** [while self.conn.is_handshaking()], one event per turn; [None] is a handshake that
    still waits for an event. *)
Fixpoint handshake_loop (evs : list PumpEvent) (d : Driver) (route : Chan CidRouteUpdate) (deadline : Z)
    : option (result OxiQuicError unit * (list (list Z * Addr) * (Driver * Chan CidRouteUpdate))) :=
  if negb (conn_is_handshaking (dconn d)) then Some (Ok tt, ([], (d, route)))
  else if is_closed (dconn d) then Some (Err (close_error (dconn d)), ([], (d, route)))
  else match evs with
       | [] => None
       | e :: evs =>
           '(r, (sent, (d, route))) ← pump_once d route deadline e;
           match r with
           | Err x => Some (Err x, (sent, (d, route)))
           | Ok _ => '(r, (sent', st)) ← handshake_loop evs d route deadline; Some (r, (sent ++ sent', st))
           end
       end.

Definition HANDSHAKE_TIMEOUT : Z := 10 * SECONDS.

Definition run_handshake (start : Z) (before : list Reading) (evs : list PumpEvent) (after : list Reading)
    (d : Driver) (route : Chan CidRouteUpdate)
    : option (result OxiQuicError unit * (list (list Z * Addr) * (Driver * Chan CidRouteUpdate))) :=
  '(r, (sent, (d, route))) ← flush_driver before d route;
  match r with
  | Err e => Some (Err e, (sent, (d, route)))
  | Ok _ =>
      '(r, (sent', (d, route))) ← handshake_loop evs d route (start + HANDSHAKE_TIMEOUT);
      match r with
      | Err e => Some (Err e, (sent ++ sent', (d, route)))
      | Ok _ => '(r, (sent'', st)) ← flush_driver after d route; Some (r, (sent ++ sent' ++ sent'', st))
      end
  end.

(** The per-connection task up to the hand-over to [accept]. *)
Definition run_server_handshake (start : Z) (before : list Reading) (evs : list PumpEvent) (after : list Reading)
    (c : conn) (peer_addr : Addr) (keep_alive : option Z) (ch : nat) (dcid : list Z) (route : Chan CidRouteUpdate)
    : option (result OxiQuicError Driver * (list (list Z * Addr) * Chan CidRouteUpdate)) :=
  let d := with_cid_routing (driver_new c (Some peer_addr)) ch in
  '(r, (sent, (d, route))) ← run_handshake start before evs after d route;
  let route := (try_send route (mkRouteUpdate (InitialRetired dcid) ch)).2 in
  match r with
  | Err e => Some (Err e, (sent, route))
  | Ok _ => Some (Ok (d <| dconn ::= fun c => set_keep_alive c keep_alive |>), (sent, route))
  end.

(** [connect]: the client's connection and driver before the handshake is run. *)
Definition connect (config : ClientConfig) (t : TransportConfig) (addr : Addr) (name : list Z) (rng : Rng) (clock : Z)
    : result OxiQuicError Driver :=
  match server_name name with
  | None => Err ETls
  | Some name =>
      match new_client (client_connection_new config name) rng addr (to_transport_params t)
              (mkMtuConfig (Config.max_mtu t) true) (congestion_controller t) (datagram_receive_buffer_size t) clock with
      | Err e => Err e
      | Ok c => Ok (driver_new c (Some addr))
      end
  end.

(** ** Lemmas: headers *)

Lemma get_u32_inv b v b' : get_u32 b = Ok (v, b') -> exists l, length l = 4%nat /\ rest b = l ++ rest b'.
Proof.
  unfold get_u32, get_u16, mbind, result_bind.
  destruct (get_u8 b) as [[x1 b1] |] eqn:E1; [| done]. destruct (get_u8 b1) as [[x2 b2] |] eqn:E2; [| done].
  destruct (get_u8 b2) as [[x3 b3] |] eqn:E3; [| done]. destruct (get_u8 b3) as [[x4 b4] |] eqn:E4; [| done].
  apply get_u8_inv in E1 as [E1 _], E2 as [E2 _], E3 as [E3 _], E4 as [E4 _].
  intros [= _ <-]. exists [x1; x2; x3; x4]. by rewrite E1, E2, E3, E4.
Qed.

(** The identifiers of a long header, read off the datagram. *)
Lemma parse_ids_spec dg version dcid scid :
  bytes_ok dg -> parse_client_initial_ids dg = Some (version, dcid, scid) ->
  exists first v4 tl, length v4 = 4%nat /\ dg = first :: v4 ++ len dcid :: dcid ++ len scid :: scid ++ tl.
Proof.
  intros Hb. unfold parse_client_initial_ids. destruct (dg !! 0%nat) as [first |]; [| done]. cbn [mbind option_bind].
  destruct (Z.land first 0x80 =? 0); [done |].
  pose proof (rest_new dg) as H0. destruct (get_u8 (buf_new dg)) as [[f b1] |] eqn:E1; [| done]. cbn [result_ok mbind option_bind].
  apply get_u8_inv in E1 as [E1 _]. rewrite H0 in E1.
  destruct (get_u32 b1) as [[v b2] |] eqn:E2; [| done]. cbn [result_ok mbind option_bind]. apply get_u32_inv in E2 as (v4 & Hv & E2).
  destruct (get_u8 b2) as [[n b3] |] eqn:E3; [| done]. cbn [result_ok mbind option_bind]. apply get_u8_inv in E3 as [E3 _].
  rewrite E1, E2, E3 in Hb. apply Forall_cons in Hb as [_ Hb]. apply Forall_app in Hb as [_ Hb]. apply Forall_cons in Hb as [Hn Hb].
  destruct (get_bytes n b3) as [[o b4] |] eqn:E4; [| done]. cbn [result_ok mbind option_bind]. apply get_bytes_inv in E4 as (E4 & Ho & _); [| by destruct Hn].
  destruct (get_u8 b4) as [[m b5] |] eqn:E5; [| done]. cbn [result_ok mbind option_bind]. apply get_u8_inv in E5 as [E5 _].
  rewrite E4, E5 in Hb. apply Forall_app in Hb as [_ Hb]. apply Forall_cons in Hb as [Hm Hb].
  destruct (get_bytes m b5) as [[t b6] |] eqn:E6; [| done]. cbn [result_ok mbind option_bind]. apply get_bytes_inv in E6 as (E6 & Ht & _); [| by destruct Hm].
  intros [= _ <- <-]. exists f, v4, (rest b6). by rewrite E1, E2, E3, E4, E5, E6, Ho, Ht.
Qed.

Lemma parse_token_bytes dg token : bytes_ok dg -> parse_initial_token dg = Some token -> bytes_ok token.
Proof.
  intros Hb. unfold parse_initial_token. destruct (dg !! 0%nat) as [first |]; [| done]. cbn [mbind option_bind].
  destruct (Z.land first 0x80 =? 0); [done |]. destruct (negb _); [done |].
  rewrite <- (rest_new dg) in Hb. unfold bytes_ok in Hb. revert Hb.
  destruct (get_u8 (buf_new dg)) as [[f b1] |] eqn:E1; [| done]. apply get_u8_inv in E1 as [-> _]. rewrite Forall_cons. intros [_ Hb]. cbn [result_ok mbind option_bind].
  destruct (get_u32 b1) as [[v b2] |] eqn:E2; [| done]. apply get_u32_inv in E2 as (v4 & _ & E2). rewrite E2, Forall_app in Hb. destruct Hb as [_ Hb]. cbn [result_ok mbind option_bind].
  destruct (get_u8 b2) as [[n b3] |] eqn:E3; [| done]. apply get_u8_inv in E3 as [E3 _]. rewrite E3, Forall_cons in Hb. destruct Hb as [Hn Hb]. cbn [result_ok mbind option_bind].
  destruct (get_bytes n b3) as [[o b4] |] eqn:E4; [| done]. apply get_bytes_inv in E4 as (E4 & _ & _); [| by destruct Hn].
  rewrite E4, Forall_app in Hb. destruct Hb as [_ Hb]. cbn [result_ok mbind option_bind].
  destruct (get_u8 b4) as [[m b5] |] eqn:E5; [| done]. apply get_u8_inv in E5 as [E5 _]. rewrite E5, Forall_cons in Hb. destruct Hb as [Hm Hb]. cbn [result_ok mbind option_bind].
  destruct (get_bytes m b5) as [[t b6] |] eqn:E6; [| done]. apply get_bytes_inv in E6 as (E6 & _ & _); [| by destruct Hm].
  rewrite E6, Forall_app in Hb. destruct Hb as [_ Hb]. cbn [result_ok mbind option_bind].
  destruct (get_varint b6) as [[k b7] |] eqn:E7; [| done]. apply get_varint_inv in E7 as ([Hk _] & j & _ & -> & _); [| done]. cbn [result_ok mbind option_bind].
  destruct (get_bytes k (advance b6 j)) as [[x b8] |] eqn:E8; [| done]. apply get_bytes_inv in E8 as (E8 & _ & _); [| done].
  intros [= <-]. apply (bytes_ok_drop j) in Hb. rewrite <- rest_advance, E8 in Hb. by apply bytes_ok_app in Hb as [? _].
Qed.

Lemma peek_parse_dcid dg n ty k version dcid scid :
  peek_dcid dg n = Ok (ty, k) -> parse_client_initial_ids dg = Some (version, dcid, scid) -> k = dcid.
Proof.
  unfold peek_dcid, parse_client_initial_ids. destruct (dg !! 0%nat) as [first |]; [| done]. cbn [mbind option_bind].
  destruct (Z.land first 0x80 =? 0); [done |].
  destruct (get_u8 (buf_new dg)) as [[f b1] |]; [| done]. cbn.
  destruct (get_u32 b1) as [[v b2] |]; [| done]. cbn.
  destruct (get_u8 b2) as [[m b3] |]; [| done]. cbn.
  destruct (get_bytes m b3) as [[o b4] |]; [| done]. cbn. intros [= _ <-].
  destruct (get_u8 b4) as [[m' b5] |]; [| done]. cbn.
  destruct (get_bytes m' b5) as [[o' b6] |]; [| done]. cbn. by intros [= _ <- _].
Qed.

(** ** Lemmas: what a datagram does to the demultiplexer *)

Definition same_routes (d d' : Demux) : Prop :=
  initial_map d' = initial_map d /\ local_cid_map d' = local_cid_map d /\ channels d' = channels d /\ cid_route d' = cid_route d.

(** The two packets the demultiplexer answers with on its own. *)
Definition replies (d : Demux) (a : Arrival) (pkt : list Z) (d' : Demux) : Prop :=
  exists version dcid scid, parse_client_initial_ids (datagram a) = Some (version, dcid, scid) /\
    ((version <> QUIC_V1 /\ pkt = encode_version_negotiation scid dcid SUPPORTED_VERSIONS) \/
     (retry_enabled (transport d) = true /\ send_retry d a dcid scid = ([SendTo pkt (from a)], d'))).

Inductive effect (config : ServerConfig) (d : Demux) (a : Arrival) : list Output -> Demux -> Prop :=
| eff_silent d' : same_routes d d' -> effect config d a [] d'
| eff_reply pkt d' : same_routes d d' -> replies d a pkt d' -> effect config d a [SendTo pkt (from a)] d'
| eff_local ty k ch :
    peek_dcid (datagram a) LOCAL_CID_LEN = Ok (ty, k) -> length k = LOCAL_CID_LEN -> local_cid_map d !! k = Some ch ->
    effect config d a [] (forward_local d k ch (datagram a, from a))
| eff_initial k ch :
    peek_dcid (datagram a) LOCAL_CID_LEN = Ok (PT_Initial, k) -> initial_map d !! k = Some ch ->
    effect config d a [] (forward_initial d k ch (datagram a, from a))
| eff_create dcid scid :
    peek_dcid (datagram a) LOCAL_CID_LEN = Ok (PT_Initial, dcid) ->
    parse_client_initial_ids (datagram a) = Some (QUIC_V1, dcid, scid) ->
    (length dcid = LOCAL_CID_LEN -> local_cid_map d !! dcid = None) ->
    (retry_enabled (transport d) = true ->
     exists token odcid, parse_initial_token (datagram a) = Some token /\
       validate_retry_token hmac_sha256 (transport d) token (socket_addr (from a)) = Some odcid) ->
    effect config d a (create_connection config d a dcid scid).1 (create_connection config d a dcid scid).2.

(** A Retry: its source ID, its token, and the secret kept in the configuration. *)
Lemma send_retry_spec d a dcid scid :
  exists rs fresh rng,
    random_scid_for_retry (os_rng a) (scid_nanos a) = (rs, rng) /\
    let '(token, t) := generate_retry_token hmac_sha256 (transport d) fresh dcid (socket_addr (from a)) in
    send_retry d a dcid scid =
      (match encode_retry_packet aes128gcm_encrypt rs scid dcid token with Some pkt => [SendTo pkt (from a)] | None => [] end,
       d <| transport := t |>).
Proof.
  unfold send_retry. destruct (random_scid_for_retry _ _) as [rs rng].
  exists rs, (getrandom_secret (rng_fill rng 32).1 (secret_nanos a)), rng. split; [done |].
  destruct (generate_retry_token _ _ _ _ _) as [token t]. by destruct (encode_retry_packet _ _ _ _ _).
Qed.

Lemma send_retry_effect config d a dcid scid :
  parse_client_initial_ids (datagram a) = Some (QUIC_V1, dcid, scid) -> retry_enabled (transport d) = true ->
  effect config d a (send_retry d a dcid scid).1 (send_retry d a dcid scid).2.
Proof.
  intros Hids Hr. destruct (send_retry_spec d a dcid scid) as (rs & fresh & rng & _ & H).
  destruct (generate_retry_token _ _ _ _ _) as [token t].
  destruct (encode_retry_packet _ _ _ _ _) as [pkt |]; rewrite H; cbn [fst snd]; [| by constructor].
  apply eff_reply; [done |]. exists QUIC_V1, dcid, scid. split; [done |]. by right.
Qed.

Lemma on_datagram_effect config d a : effect config d a (on_datagram config d a).1 (on_datagram config d a).2.
Proof.
  unfold on_datagram. destruct (peek_dcid _ _) as [[ty k] |] eqn:Ep; [| by constructor].
  destruct (bool_decide (ty = PT_Short)).
  { destruct (Nat.eqb_spec (length k) LOCAL_CID_LEN) as [Hk |]; [| by constructor]. cbn [negb].
    destruct (local_cid_map d !! k) as [ch |] eqn:El; [| by constructor]. by apply (eff_local _ _ _ ty). }
  destruct (if (length k =? LOCAL_CID_LEN)%nat then local_cid_map d !! k else None) as [ch |] eqn:El.
  { destruct (Nat.eqb_spec (length k) LOCAL_CID_LEN) as [Hk |]; [| done]. by apply (eff_local _ _ _ ty). }
  assert (Hnone : length k = LOCAL_CID_LEN -> local_cid_map d !! k = None).
  { intros Hk. by rewrite (proj2 (Nat.eqb_eq _ _) Hk) in El. }
  clear El. destruct (bool_decide_reflect (ty = PT_Initial)) as [-> |]; [| by constructor]. cbn [negb].
  destruct (initial_map d !! k) as [ch |] eqn:Ei; [by apply eff_initial |].
  unfold accept_initial. destruct (parse_client_initial_ids _) as [[[v dcid] scid] |] eqn:Eids; [| by constructor].
  pose proof (peek_parse_dcid _ _ _ _ _ _ _ Ep Eids) as ->.
  destruct (Z.eqb_spec v QUIC_V1) as [-> |]; cbn [negb];
    [| apply eff_reply; [done |]; exists v, dcid, scid; split; [done |]; by left].
  destruct (retry_enabled (transport d)) eqn:Er; [| apply eff_create; [done | done | done | congruence]].
  destruct (parse_initial_token (datagram a)) as [token |] eqn:Et; cbn [unwrap_or];
    [| cbn [length Nat.eqb]; by apply send_retry_effect].
  destruct (length token =? 0)%nat; [by apply send_retry_effect |].
  destruct (validate_retry_token _ _ _ _) as [o |] eqn:Ev;
    [| by apply send_retry_effect].
  apply eff_create; [done | done | done |]. intros _. by exists token, o.
Qed.

(** A turn only ever creates a connection by registering it under both identifiers. *)
Lemma create_spec `{!LawfulMpsc M} config d a dcid scid :
  let '(outs, d') := create_connection config d a dcid scid in
  (d' = d /\ (outs = [] \/ exists e, outs = [AcceptErr e])) \/
  exists c q, outs = [Spawn c (from a) (Config.keep_alive_interval (transport d)) (length (channels d)) dcid] /\
    length (local_cid c) = LOCAL_CID_LEN /\
    view q = mkQueue [(datagram a, from a)] CONN_CHANNEL true true /\
    d' = mkDemux (transport d) (<[dcid := length (channels d)]> (initial_map d))
           (<[local_cid c := length (channels d)]> (local_cid_map d)) (channels d ++ [q]) (cid_route d).
Proof.
  unfold create_connection. destruct (new_server _ _ _ _ _ _ _ _ _ _) as [c | e]; [| left; eauto].
  destruct (Nat.eqb_spec (length (local_cid c)) LOCAL_CID_LEN) as [Hl |]; cbn [negb]; [| left; eauto].
  right. cbn [fst snd]. unfold offer. cbn -[try_send CONN_CHANNEL channel].
  rewrite lookup_app_r, Nat.sub_diag by done. cbn -[try_send CONN_CHANNEL channel].
  destruct (try_send (channel CONN_CHANNEL) (datagram a, from a)) as [r q] eqn:Es.
  exists c, q. split; [done |]. split; [done |].
  assert (Hq : view q = mkQueue [(datagram a, from a)] CONN_CHANNEL true true).
  { replace q with (try_send (channel CONN_CHANNEL) (datagram a, from a)).2 by (by rewrite Es).
    rewrite (proj2 (view_try_send _ _ _)), view_channel. unfold queue_send. cbn -[CONN_CHANNEL].
    destruct (Nat.leb_spec CONN_CHANNEL 0); [| done]. unfold CONN_CHANNEL in *. lia. }
  split; [done |].
  assert (Hi : <[length (channels d) := q]> (channels d ++ [channel CONN_CHANNEL]) = channels d ++ [q])
    by (by rewrite insert_app_r_alt, Nat.sub_diag by lia).
  by rewrite <- Hi.
Qed.

Lemma random_scid_length `{!LawfulEnv env} r n rs r' : random_scid_for_retry r n = (rs, r') -> length rs = 8%nat.
Proof.
  unfold random_scid_for_retry. destruct (rng_fill r 8) as [[bytes |] g] eqn:E; intros [= <- <-]; [| done].
  exact (rng_fill_length _ _ _ _ E).
Qed.

Lemma long_prefix_length f v dcid scid tl : length (long_prefix f v dcid scid tl) = (7 + length dcid + length scid + length tl)%nat.
Proof. unfold long_prefix. cbn [length app be32]. rewrite length_app. cbn [length]. rewrite length_app. lia. Qed.

Lemma vn_length scid dcid : length (encode_version_negotiation scid dcid SUPPORTED_VERSIONS) = (11 + length scid + length dcid)%nat.
Proof.
  unfold encode_version_negotiation, SUPPORTED_VERSIONS. cbn [fold_left]. rewrite !length_app. cbn [length be32]. lia.
Qed.

Lemma spawn_key config d a c p ka ch dcid :
  Spawn c p ka ch dcid ∈ (on_datagram config d a).1 -> peek_dcid (datagram a) LOCAL_CID_LEN = Ok (PT_Initial, dcid).
Proof.
  destruct (on_datagram_effect config d a) as [d' | pkt d' | | | dcid' scid Hp _ _ _]; rewrite ?elem_of_cons, ?elem_of_nil;
    [by intros [] | by intros [|] | by intros [] | by intros [] |].
  unfold create_connection. destruct (new_server _ _ _ _ _ _ _ _ _ _) as [c' |]; [destruct (negb _) |];
    cbn [fst]; rewrite ?elem_of_cons, elem_of_nil; [by intros [] | | by intros [|]].
  intros [[= _ _ _ _ ->] | []]. done.
Qed.

(** ** Lemmas: the route of a connection that was just created *)

(** A datagram for a connection: of any type for its own ID, an Initial for the client's. *)
Definition addressed (c : Connection env) (dcid : list Z) (a : Arrival) : Prop :=
  exists ty k, peek_dcid (datagram a) LOCAL_CID_LEN = Ok (ty, k) /\ (k = local_cid c \/ (ty = PT_Initial /\ k = dcid)).

(** The demultiplexer over a sequence of datagrams. *)
Definition datagrams (config : ServerConfig) (d : Demux) (l : list Arrival) : list Output * Demux :=
  fold_left (fun s a => let '(o, d) := on_datagram config s.2 a in (s.1 ++ o, d)) l ([], d).

Record serving (d : Demux) (c : Connection env) (dcid : list Z) (ch : nat) (q : Chan (list Z * Addr)) : Prop := {
  sv_local : length (local_cid c) = LOCAL_CID_LEN /\ local_cid_map d !! local_cid c = Some ch;
  sv_initial : initial_map d !! dcid = Some ch;
  sv_free : length dcid = LOCAL_CID_LEN -> dcid <> local_cid c -> local_cid_map d !! dcid = None;
  sv_channel : channels d !! ch = Some q;
  sv_alive : rx_alive (view q) = true
}.

Lemma spawn_serving `{!LawfulMpsc M} config d a outs d' c p ka ch dcid :
  on_datagram config d a = (outs, d') -> Spawn c p ka ch dcid ∈ outs ->
  exists q, serving d' c dcid ch q /\ view q = mkQueue [(datagram a, from a)] CONN_CHANNEL true true.
Proof.
  intros E Hin. pose proof (on_datagram_effect config d a) as He. rewrite E in He. cbn [fst snd] in He.
  destruct He as [| | | | dcid' scid _ _ Hfree _]; try (by repeat (apply elem_of_cons in Hin as [Hin | Hin]; [done |]); apply elem_of_nil in Hin).
  pose proof (create_spec config d a dcid' scid) as Hc. destruct (create_connection config d a dcid' scid) as [outs d']. cbn [fst snd] in *.
  destruct Hc as [[-> [-> | [e ->]]] | (c' & q & -> & Hlen & Hq & ->)];
    try (by repeat (apply elem_of_cons in Hin as [Hin | Hin]; [done |]); apply elem_of_nil in Hin).
  apply list_elem_of_singleton in Hin. injection Hin as <- -> -> -> <-. exists q. split; [| done].
  split; cbn.
  - split; [done | apply lookup_insert_eq].
  - apply lookup_insert_eq.
  - intros Hl Hne. rewrite lookup_insert_ne by done. auto.
  - by apply list_lookup_middle.
  - by rewrite Hq.
Qed.

Lemma serving_datagram `{!LawfulMpsc M} config d c dcid ch q a :
  serving d c dcid ch q -> addressed c dcid a -> (length (items (view q)) < capacity (view q))%nat ->
  exists q', on_datagram config d a = ([], d <| channels ::= <[ch := q']> |>) /\
    items (view q') = items (view q) ++ [(datagram a, from a)] /\ capacity (view q') = capacity (view q) /\
    serving (d <| channels ::= <[ch := q']> |>) c dcid ch q'.
Proof.
  intros [[Hl Hm] Hi Hf Hc Ha] (ty & k & Hp & Hk) Hroom.
  set (q' := (try_send q (datagram a, from a)).2).
  assert (Ho : offer d ch (datagram a, from a) = (SendOk, d <| channels ::= <[ch := q']> |>) /\
            items (view q') = items (view q) ++ [(datagram a, from a)]).
  { pose proof (try_send_result q (datagram a, from a)) as Hr. rewrite Ha, (proj2 (Nat.leb_gt _ _) Hroom) in Hr. cbn in Hr.
    pose proof (try_send_items q (datagram a, from a)) as Hit. rewrite Hr in Hit. split; [| exact Hit].
    unfold offer. rewrite Hc. subst q'. destruct (try_send q (datagram a, from a)) as [r q2]. cbn [fst snd] in *. by subst r. }
  destruct Ho as [Ho Hit]. destruct (try_send_caps q (datagram a, from a)) as [Hcap Hal]. fold q' in Hcap, Hal.
  exists q'. split_and!; [| done | done |].
  - unfold on_datagram, forward_local, forward_initial. rewrite Hp.
    destruct (decide (k = local_cid c)) as [-> | Hne].
    + rewrite (proj2 (Nat.eqb_eq _ _) Hl), Hm, Ho. by destruct (bool_decide _).
    + destruct Hk as [| [-> ->]]; [done |]. rewrite bool_decide_false by done.
      assert (Hnone : (if (length dcid =? LOCAL_CID_LEN)%nat then local_cid_map d !! dcid else None) = None).
      { destruct (Nat.eqb_spec (length dcid) LOCAL_CID_LEN); auto. }
      rewrite Hnone, bool_decide_true by done. cbn [negb]. by rewrite Hi, Ho.
  - split; [done | done | done | | by rewrite Hal]. cbn. apply list_lookup_insert_eq. by eapply lookup_lt_Some.
Qed.

Lemma serving_datagrams `{!LawfulMpsc M} config c dcid ch later d q :
  serving d c dcid ch q -> Forall (addressed c dcid) later -> (length (items (view q)) + length later <= capacity (view q))%nat ->
  exists q', datagrams config d later = ([], d <| channels ::= <[ch := q']> |>) /\
    items (view q') = items (view q) ++ ((fun x => (datagram x, from x)) <$> later).
Proof.
  intros Hs Ha. revert d q Hs. induction Ha as [| a later Ha _ IH]; intros d q Hs Hl; unfold datagrams; cbn [fold_left].
  - exists q. rewrite app_nil_r. split; [| done]. f_equal. destruct Hs as [_ _ _ Hc _]. destruct d. cbn in *.
    unfold update_field, set_channels. cbn. by rewrite list_insert_id.
  - cbn [length] in Hl. destruct (serving_datagram config d c dcid ch q a Hs Ha) as (q1 & E & Hi & Hcap & Hs1); [lia |].
    cbn [snd fst]. rewrite E. destruct (IH _ q1 Hs1) as (q2 & E2 & Hi2); [rewrite Hi, Hcap, length_app; cbn [length]; lia |].
    exists q2. unfold datagrams in E2. cbn [app]. rewrite E2. split.
    + f_equal. destruct d. cbn. unfold update_field, set_channels. cbn. by rewrite list_insert_insert_eq.
    + rewrite Hi2, Hi, <- app_assoc. done.
Qed.

(** ** Properties *)

(** C15: The datagrams that follow a connection's first one are not lost to its
    creation.  As soon as the turn that spawned a connection has ended, any sequence of
    datagrams for it (of any type for the ID the server chose, Initials for the ID the
    client chose), as long as its channel has room (16384 datagrams), is queued for it
    in order behind the Initial that created it, is not answered and changes no route.
    For the ID the client chose this holds of Initials only: a datagram that begins
    with a 0-RTT or a Handshake packet for it is dropped. *)
Theorem spawn_no_race `{!LawfulMpsc M} config d a outs d' c p ka ch dcid :
  on_datagram config d a = (outs, d') -> Spawn c p ka ch dcid ∈ outs ->
  (forall later, (length later < CONN_CHANNEL)%nat -> Forall (addressed c dcid) later ->
     exists q, datagrams config d' later = ([], d' <| channels ::= <[ch := q]> |>) /\
       items (view q) = (fun x => (datagram x, from x)) <$> a :: later) /\
  (forall a2 ty, peek_dcid (datagram a2) LOCAL_CID_LEN = Ok (ty, dcid) -> ty <> PT_Initial -> dcid <> local_cid c ->
     on_datagram config d' a2 = ([], d')).
Proof.
  intros E Hin. destruct (spawn_serving config d a outs d' c p ka ch dcid E Hin) as (q & Hs & Hq). split.
  - intros later Hl Ha. destruct (serving_datagrams config c dcid ch later d' q Hs Ha) as (q' & E' & Hq').
    + rewrite Hq. cbn [items capacity length]. lia.
    + exists q'. split; [done |]. by rewrite Hq', Hq.
  - intros a2 ty Hp Hty Hne. unfold on_datagram. rewrite Hp. destruct Hs as [_ _ Hfree _ _].
    destruct (Nat.eqb_spec (length dcid) LOCAL_CID_LEN) as [Hl |]; cbn [negb].
    + rewrite (Hfree Hl Hne). destruct (bool_decide _); [done |]. by rewrite bool_decide_false.
    + destruct (bool_decide _); [done |]. by rewrite bool_decide_false.
Qed.

(** C13: With Retry enabled no connection is created for an address that has not
    answered a Retry: whenever handling a datagram spawns a connection, the
    configuration holds a secret and the datagram's token is a connection ID with
    the HMAC, under that secret, of the ID and of the very address and port the
    datagram came from; the connection is spawned for that address. *)
Theorem retry_gate config d a c p ka ch dcid :
  hmac_lawful hmac_sha256 -> bytes_ok (datagram a) -> retry_enabled (transport d) = true ->
  Spawn c p ka ch dcid ∈ (on_datagram config d a).1 ->
  p = from a /\
  exists s token odcid rest,
    retry_secret (transport d) = Some s /\ parse_initial_token (datagram a) = Some token /\
    token = len odcid :: odcid ++
              take 16 (hmac_sha256 s (odcid ++ octets_of (socket_addr p) ++ be16 (port_of (socket_addr p)))) ++ rest.
Proof.
  intros Hh Hb Hr Hin. destruct (on_datagram_effect config d a) as [| | | | dcid' scid Hp Hids _ Hv];
    try (by repeat (apply elem_of_cons in Hin as [Hin | Hin]; [done |]); apply elem_of_nil in Hin).
  destruct (Hv Hr) as (token & odcid & Ht & Hval).
  apply (validate_token_inv _ Hh) in Hval as (s & rest & Hs & Htok & _); [| by eapply parse_token_bytes].
  assert (p = from a) as ->.
  { revert Hin. unfold create_connection. destruct (new_server _ _ _ _ _ _ _ _ _ _) as [c' |]; [destruct (negb _) |];
      cbn [fst]; intros Hin; try (apply elem_of_cons in Hin as [Hin |]); try set_solver. }
  split; [done |]. by exists s, token, odcid, rest.
Qed.

(** C14: A Retry admits the client it was sent to.  An Initial without an acceptable
    token leaves routes and channels alone and is answered to its source with one
    packet, which the client's parser takes apart into a fresh eight-byte
    connection ID, its own ID and a token; and that token, echoed from the same
    address, passes validation and gives back the connection ID of the first
    Initial, unless that ID was empty: a token for an empty ID is one byte too short for
    [validate_retry_token], so a client that chose it is sent Retries for ever. *)
Theorem retry_admits `{!LawfulEnv env} d a dcid scid pkt d' :
  hmac_lawful hmac_sha256 -> bytes_ok (datagram a) -> len (datagram a) <= 65535 ->
  parse_client_initial_ids (datagram a) = Some (QUIC_V1, dcid, scid) ->
  send_retry d a dcid scid = ([SendTo pkt (from a)], d') ->
  same_routes d d' /\
  exists retry_scid token, length retry_scid = 8%nat /\
    parse_retry_packet pkt = Some (retry_scid, scid, token) /\
    validate_retry_token hmac_sha256 (transport d') token (socket_addr (from a)) =
      if bool_decide (dcid = []) then None else Some dcid.
Proof.
  intros Hh Hb Hlen Hids. destruct (parse_ids_spec _ _ _ _ Hb Hids) as (f & v4 & tl & _ & Hdg).
  assert (Hl : len dcid <= 255 /\ len scid <= 255).
  { rewrite Hdg in Hb. apply Forall_cons in Hb as [_ Hb]. apply Forall_app in Hb as [_ Hb]. apply Forall_cons in Hb as [H1 Hb].
    apply Forall_app in Hb as [_ Hb]. apply Forall_cons in Hb as [H2 _]. unfold is_u8 in *. lia. }
  destruct (send_retry_spec d a dcid scid) as (rs & fresh & rng & Hrs & Hsend). apply random_scid_length in Hrs.
  unfold generate_retry_token in Hsend.
  destruct (get_or_generate_retry_secret (transport d) fresh) as [s t] eqn:Es.
  assert (Ht : retry_secret t = Some s).
  { revert Es. unfold get_or_generate_retry_secret. destruct (retry_secret (transport d)) eqn:E; intros [= <- <-]; done. }
  set (token := as_u8 (len dcid) :: dcid ++ hmac_retry_tag hmac_sha256 s dcid (socket_addr (from a))) in *.
  destruct (tag_shape _ Hh s dcid (socket_addr (from a))) as [Htl _].
  destruct (encode_retry_packet _ rs scid dcid token) as [pkt' |] eqn:Ee; rewrite Hsend; [| done]. intros [= -> <-].
  split; [done |]. exists rs, token. split; [done |]. destruct (encode_retry_shape _ _ _ _ _ _ Ee) as (tag & Htag & ->). split.
  - apply parse_retry_prefix; [lia | lia | done |]. rewrite long_prefix_length, length_app.
    subst token. cbn [length]. rewrite length_app, VARINT_MAX_eq. lia.
  - case_bool_decide as He.
    + unfold validate_retry_token. change (retry_secret (transport _)) with (retry_secret t). rewrite Ht. cbn [mbind option_bind]. destruct (Nat.ltb_spec (length token) (2 + 16)) as [| Hge]; [done |].
      exfalso. subst token. cbn [length] in Hge. rewrite length_app, Htl, He in Hge. cbn [length] in Hge. lia.
    + assert (Htok : token = token_for hmac_sha256 s dcid (socket_addr (from a)) []).
      { subst token. unfold token_for, as_u8. rewrite Z.mod_small, app_nil_r by lia. done. }
      rewrite Htok. apply (validate_token_for _ Hh); [done |]. destruct dcid; [done |]. cbn [length]. lia.
Qed.

(** C36: What the demultiplexer says on its own is bounded by what it was told.  A
    datagram draws at most one packet from it, sent to the datagram's source and at
    most 41 bytes longer than the datagram; a datagram it answers leaves the
    routing tables and the channels as they were. *)
Theorem stateless_reply_bound `{!LawfulEnv env} config d a :
  bytes_ok (datagram a) ->
  let '(outs, d') := on_datagram config d a in
  (length outs <= 1)%nat /\
  forall pkt to, SendTo pkt to ∈ outs -> to = from a /\ len pkt <= len (datagram a) + 41 /\ same_routes d d'.
Proof.
  intros Hb. pose proof (on_datagram_effect config d a) as He. destruct (on_datagram config d a) as [outs d']. cbn [fst snd] in He.
  destruct He as [d' | pkt d' Hs Hr | | | dcid scid _ _ _ _]; cbn [length].
  - split; [lia |]. by intros pkt to Hin%elem_of_nil.
  - split; [lia |]. intros pkt' to [[= -> ->] | Hin%elem_of_nil]%elem_of_cons; [| done]. split; [done |]. split; [| done].
    destruct Hr as (v & dcid & scid & Hids & Hr). destruct (parse_ids_spec _ _ _ _ Hb Hids) as (f & v4 & tl & Hv & Hdg).
    assert (Hl : (7 + length dcid + length scid <= length (datagram a))%nat).
    { rewrite Hdg. cbn [length]. rewrite length_app. cbn [length]. rewrite length_app. cbn [length]. rewrite length_app. lia. }
    destruct Hr as [[_ ->] | [_ Hr]]; [rewrite vn_length; lia |].
    destruct (send_retry_spec d a dcid scid) as (rs & fresh & rng & Hrs & H). apply random_scid_length in Hrs.
    unfold generate_retry_token in H. destruct (get_or_generate_retry_secret _ _) as [s t].
    destruct (encode_retry_packet _ _ _ _ _) as [p |] eqn:Ee; rewrite H in Hr; [| done]. injection Hr as -> _.
    destruct (encode_retry_shape _ _ _ _ _ _ Ee) as (tag & Htag & ->). rewrite long_prefix_length, length_app. cbn [length].
    rewrite length_app. unfold hmac_retry_tag. rewrite length_take. lia.
  - split; [lia |]. by intros pkt to Hin%elem_of_nil.
  - split; [lia |]. by intros pkt to Hin%elem_of_nil.
  - unfold create_connection. destruct (new_server _ _ _ _ _ _ _ _ _ _) as [c |]; [destruct (negb _) |]; cbn [fst length];
      (split; [lia |]); intros pkt to; rewrite ?elem_of_cons, elem_of_nil; [intros [] | intros [|] | intros [|]]; done.
Qed.

End endpoint.

(** ** A concrete endpoint *)

#[export] Instance demo_endpoint : EndpointEnv demo_env := {|
  ServerConfig := Z; ClientConfig := unit;
  tls_early_data n := n;
  with_tls_early_data _ n := n;
  server_connection_new _ tp := (Some (mkScriptedTls [] true (Some tp)) : option (@Tls demo_env));
  server_name n := Some n;
  client_connection_new _ _ tp := (Some (mkScriptedTls [([1; 2; 3], None)] true (Some tp)) : option (@Tls demo_env));
  socket_addr (n : @Addr demo_env) := V4 [10; 0; 0; as_u8 n] 4433
|}.

Lemma demo_hmac_lawful : hmac_lawful (@hmac_sha256 demo_env).
Proof.
  intros k m. cbn -[replicate]. split; [rewrite length_take, length_app, length_replicate; lia |].
  apply Forall_take, Forall_app. split; [apply Forall_map, Forall_true; intros x; apply as_u8_range | apply bytes_ok_replicate].
Qed.

(** An Initial with the IDs and the token given, and nothing that could be decrypted. *)
Definition demo_initial (dcid scid token : list Z) : list Z :=
  long_prefix 0xc3 1 dcid scid (varint_bytes (len token) ++ token).

Definition demo_arrival (dg : list Z) (src : Z) : @Arrival demo_env := @mkArrival demo_env dg src 5 0 0 0.

Definition demo_config : @ServerConfig demo_env demo_endpoint := 0.

Definition demo_demux : @Demux demo_env queue_mpsc := demux_new (with_retry true (with_retry_secret (replicate 32 9) default_config)).

Definition demo_token (src : Z) : list Z :=
  (generate_retry_token (@hmac_sha256 demo_env) (transport demo_demux) [] [1; 2; 3; 4; 5; 6; 7; 8] (socket_addr (src : @Addr demo_env))).1.

(** A first Initial. *)
Definition demo_first : @Arrival demo_env := demo_arrival (demo_initial [1; 2; 3; 4; 5; 6; 7; 8] [7; 7] []) 3.

(** The second Initial, echoing the token from the address it was issued to. *)
Definition demo_second : @Arrival demo_env := demo_arrival (demo_initial [5; 6; 7; 8; 9; 10; 11; 12] [7; 7] (demo_token 3)) 3.

Definition spawned (outs : list (@Output demo_env)) : bool :=
  existsb (fun o => match o with Spawn _ _ _ _ _ => true | _ => false end) outs.

Lemma spawned_in outs : spawned outs = true -> exists c p ka ch dcid, Spawn c p ka ch dcid ∈ outs.
Proof.
  intros H. apply existsb_exists in H as ([| | c p ka ch dcid] & Hin & H); try done.
  exists c, p, ka, ch, dcid. by apply list_elem_of_In.
Qed.

(** A server without Retry, its first connection, and a second datagram for it. *)
Definition demo_open : @Demux demo_env queue_mpsc := demux_new default_config.

Lemma spawn_no_race_witness :
  exists d' ch q, (on_datagram demo_config demo_open demo_first).2 = d' /\
    datagrams demo_config d' [demo_first; demo_first] = ([], d' <| channels ::= <[ch := q]> |>) /\
    items (view q) = (fun x => (datagram x, from x)) <$> [demo_first; demo_first; demo_first].
Proof.
  assert (E : spawned (on_datagram demo_config demo_open demo_first).1 = true) by (vm_compute; reflexivity).
  destruct (spawned_in _ E) as (c & p & ka & ch & dcid & Hin).
  pose proof (spawn_key demo_config demo_open demo_first c p ka ch dcid Hin) as Hk.
  destruct (on_datagram demo_config demo_open demo_first) as [outs d'] eqn:Eo.
  destruct (spawn_no_race demo_config demo_open demo_first outs d' c p ka ch dcid Eo Hin) as [Hlater _].
  destruct (Hlater [demo_first; demo_first]) as (q & H1 & H2).
  - apply Nat2Z.inj_lt. vm_compute. reflexivity.
  - assert (Ha : addressed c dcid demo_first) by (exists PT_Initial, dcid; split; [exact Hk | right; split; reflexivity]).
    repeat (apply Forall_cons; split; [exact Ha |]). apply Forall_nil. exact I.
  - exists d', ch, q. split; [reflexivity | split; [exact H1 | exact H2]].
Defined.

Lemma retry_gate_witness :
  spawned (on_datagram demo_config demo_demux demo_second).1 = true /\
  spawned (on_datagram demo_config demo_demux (demo_arrival (datagram demo_second) 4)).1 = false /\
  exists s token odcid rest,
    retry_secret (transport demo_demux) = Some s /\ parse_initial_token (datagram demo_second) = Some token /\
    token = len odcid :: odcid ++
              take 16 (@hmac_sha256 demo_env s (odcid ++ octets_of (socket_addr (from demo_second)) ++ be16 (port_of (socket_addr (from demo_second))))) ++ rest.
Proof.
  assert (E : spawned (on_datagram demo_config demo_demux demo_second).1 = true) by (vm_compute; reflexivity).
  destruct (spawned_in _ E) as (c & p & ka & ch & dcid & Hin).
  destruct (retry_gate demo_config demo_demux demo_second c p ka ch dcid demo_hmac_lawful) as [-> H].
  - eapply bool_decide_unpack. vm_compute. exact I.
  - reflexivity.
  - exact Hin.
  - split; [exact E | split; [vm_compute; reflexivity | exact H]].
Defined.

Definition one_reply (n : Z) (to : Z) (outs : list (@Output demo_env)) : bool :=
  match outs with [SendTo pkt src] => (len pkt =? n) && (src =? to) | _ => false end.

Lemma one_reply_inv n to outs : one_reply n to outs = true -> exists pkt, outs = [SendTo pkt (to : @Addr demo_env)] /\ len pkt = n.
Proof.
  destruct outs as [| [pkt src | |] [| ? ?]]; try done. cbn. intros [H1%Z.eqb_eq H2%Z.eqb_eq]%andb_prop. exists pkt. by subst src.
Qed.

(** An Initial of seven bytes and no IDs: the Retry it draws has forty-eight. *)
Lemma stateless_reply_bound_witness :
  exists pkt d', on_datagram demo_config demo_demux (demo_arrival [0xc3; 0; 0; 0; 1; 0; 0] 3) = ([SendTo pkt (3 : @Addr demo_env)], d') /\
    len pkt = 48 /\ same_routes demo_demux d'.
Proof.
  assert (E : one_reply 48 3 (on_datagram demo_config demo_demux (demo_arrival [0xc3; 0; 0; 0; 1; 0; 0] 3)).1 = true)
    by (vm_compute; reflexivity).
  pose proof (stateless_reply_bound demo_config demo_demux (demo_arrival [0xc3; 0; 0; 0; 1; 0; 0] 3)) as H.
  destruct (on_datagram demo_config demo_demux (demo_arrival [0xc3; 0; 0; 0; 1; 0; 0] 3)) as [outs d'].
  cbn [fst] in E. destruct (one_reply_inv _ _ _ E) as (pkt & -> & Hl).
  destruct H as [_ H]; [eapply bool_decide_unpack; vm_compute; exact I |].
  destruct (H pkt 3) as (_ & _ & Hs); [apply elem_of_cons; left; reflexivity |].
  exists pkt, d'. split; [reflexivity | split; [exact Hl | exact Hs]].
Defined.

Lemma retry_admits_witness :
  exists pkt d' retry_scid token,
    send_retry demo_demux demo_first [1; 2; 3; 4; 5; 6; 7; 8] [7; 7] = ([SendTo pkt (3 : @Addr demo_env)], d') /\ length retry_scid = 8%nat /\
    parse_retry_packet pkt = Some (retry_scid, [7; 7], token) /\
    validate_retry_token (@hmac_sha256 demo_env) (transport d') token (socket_addr (3 : @Addr demo_env)) = Some [1; 2; 3; 4; 5; 6; 7; 8].
Proof.
  destruct (send_retry demo_demux demo_first [1; 2; 3; 4; 5; 6; 7; 8] [7; 7]) as [outs d'] eqn:E.
  assert (Eo : one_reply 58 3 outs = true) by (replace outs with (send_retry demo_demux demo_first [1; 2; 3; 4; 5; 6; 7; 8] [7; 7]).1 by (by rewrite E); vm_compute; reflexivity).
  destruct (one_reply_inv _ _ _ Eo) as (pkt & -> & _).
  destruct (retry_admits demo_demux demo_first [1; 2; 3; 4; 5; 6; 7; 8] [7; 7] pkt d' demo_hmac_lawful) as (_ & rs & token & H1 & H2 & H3).
  - eapply bool_decide_unpack. vm_compute. exact I.
  - vm_compute. congruence.
  - vm_compute. reflexivity.
  - exact E.
  - exists pkt, d', rs, token. split; [reflexivity | split; [exact H1 | split; [exact H2 | exact H3]]].
Defined.
