(* ===== verification/ConnFlush.v ===== *)
(** * Sending comes to an end

    [flush] of the endpoint ([endpoint/mod.rs]) calls [poll_transmit] until it has
    nothing to send.  Every datagram uses up some of the work that is queued in the
    connection, so the loop ends; [work] is the measure. *)

From stdpp Require Import relations.
From S2P Require Import Prelude OrdMap CoreTypes Coding FrameCodec ParamsCodec PacketSpace SentPackets.
From S2P Require Import Streams FlowControl Recovery Congestion Bbr CidPool Packet Config Multipath Connection.
From S2P Require Import ConnRecovery ConnHandshake ConnRecv ConnSend ConnFlow ConnSystem ConnMaps ConnDelivery Mpsc Endpoint.

Section flush.
Context {env : QuicEnv}.

Notation conn := (Connection env).

(** ** The work queued in a connection *)

Definition crypto_work (s : CryptoStream.t) : nat :=
  length (CryptoStream.send_buf s) + foldr (fun r n => length (CryptoStream.rs_data r) + 1 + n)%nat 0%nat (CryptoStream.resend s).

(** A stream may still have to report once that it is blocked at its limit. *)
Definition stream_report (f : option StreamSendFlow.t) : nat :=
  match f with
  | Some f => Nat.b2n (negb (bool_decide (StreamSendFlow.blocked_at f = Some (StreamSendFlow.max_stream_data f))))
  | None => 1
  end.

Definition conn_report (f : SendFlowControl.t) : nat :=
  Nat.b2n (negb (bool_decide (SendFlowControl.blocked_at f = Some (SendFlowControl.max_data f)))).

Definition om_sum {V} (g : Z -> V -> nat) (m : BTreeMap V) : nat := foldr (fun e n => g e.1 e.2 + n)%nat 0%nat m.

Definition sum_streams (flow : BTreeMap StreamSendFlow.t) (m : BTreeMap SendStream.t) : nat :=
  om_sum (fun id s => send_work s + stream_report (om_get id flow))%nat m.

(** Credit that can be granted to the peer. *)
Definition sum_credit (m : BTreeMap StreamRecvFlow.t) : nat := om_sum (fun _ f => Nat.b2n (is_some (StreamRecvFlow.maybe_update f).1)) m.

Definition work (c : conn) : nat :=
  (Nat.b2n (ack_pending (initial c)) + Nat.b2n (ack_pending (handshake c)) + Nat.b2n (ack_pending (application c))
  + crypto_work (initial_crypto c) + crypto_work (handshake_crypto c)
  + Nat.b2n (is_some (pending_path_response c)) + Nat.b2n (pending_path_challenge_send c) + Nat.b2n (handshake_done_to_send c)
  + Nat.b2n (is_some (pending_max_data c)) + length (pending_max_stream_data c)
  + Nat.b2n (is_some (pending_data_blocked c)) + length (pending_stream_data_blocked c)
  + length (pending_reset_streams c) + length (pending_stop_sending c)
  + length (LocalCidPool.pending_new (local_cid_pool c)) + length (PeerCidPool.pending_retire (peer_cid_pool c))
  + Nat.b2n (is_some (pending_max_streams_bidi c)) + Nat.b2n (is_some (pending_max_streams_uni c))
  + Nat.b2n (is_some (pending_streams_blocked_bidi c)) + Nat.b2n (is_some (pending_streams_blocked_uni c))
  + Nat.b2n (is_some (pending_new_token c)) + length (datagram_send_queue c)
  + Z.to_nat (probes_owed c) + Nat.b2n (pending_keep_alive_ping c) + Nat.b2n (pending_mtu_probe c)
  + Nat.b2n (key_update_pending c) + Nat.b2n (negb (zero_rtt_sent c)) + Nat.b2n (negb (bool_decide (state c = Closed)))
  + sum_streams (stream_send_flow c) (send_streams c) + conn_report (send_flow c)
  + Nat.b2n (is_some (RecvFlowControl.maybe_update (recv_flow c)).1) + sum_credit (stream_recv_flow c))%nat.

(** ** Lemmas: sums over maps *)

Lemma om_sum_insert {V} (g : Z -> V -> nat) id v m :
  om_wf m ->
  (om_sum g (om_insert id v m) + match om_get id m with Some w => g id w | None => 0%nat end = om_sum g m + g id v)%nat.
Proof.
  induction m as [| [k w] m IH]; [unfold om_sum; simpl; lia |]. rewrite om_wf_cons. intros [Hw Hk].
  cbn [om_insert om_get]. destruct (Z.ltb_spec id k).
  - rewrite (proj2 (Z.eqb_neq id k)) by lia. assert (Hn : om_get id m = None).
    { destruct (om_get id m) eqn:E; [| done]. assert (Hin : id ∈ om_keys m) by (apply om_keys_get; by rewrite E).
      rewrite Forall_forall in Hk. specialize (Hk id Hin). lia. }
    rewrite Hn. unfold om_sum. simpl. lia.
  - destruct (Z.eqb_spec id k) as [-> |]; [unfold om_sum; simpl; lia |]. specialize (IH Hw). unfold om_sum in *. simpl in *. lia.
Qed.

Lemma om_sum_le {V} (g h : Z -> V -> nat) m : (forall k v, g k v <= h k v)%nat -> (om_sum g m <= om_sum h m)%nat.
Proof. intros H. induction m as [| [k v] m IH]; [done |]. unfold om_sum in *. simpl. specialize (H k v). lia. Qed.

Lemma om_sum_lt {V} (g h : Z -> V -> nat) m k v :
  (forall k v, g k v <= h k v)%nat -> (k, v) ∈ m -> (g k v < h k v)%nat -> (om_sum g m < om_sum h m)%nat.
Proof.
  intros H Hin Hlt. induction m as [| [k0 v0] m IH]; [by apply elem_of_nil in Hin |]. unfold om_sum in *. simpl.
  apply elem_of_cons in Hin as [[= <- <-] | Hin].
  - pose proof (om_sum_le g h m H). unfold om_sum in *. lia.
  - specialize (IH Hin). pose proof (H k0 v0). lia.
Qed.

Lemma om_insert_length {V} id (v : V) m : (length (om_insert id v m) <= S (length m))%nat.
Proof. induction m as [| [k w] m IH]; [done |]. simpl. repeat case_match; simpl; lia. Qed.

Lemma om_remove_le {V} id (m : BTreeMap V) : (length (om_remove id m) <= length m)%nat.
Proof. apply length_filter. Qed.

(** Replacing a flow entry by one that reports no more. *)
Lemma sum_streams_flow id f flow m :
  (stream_report (Some f) <= stream_report (om_get id flow))%nat -> (sum_streams (om_insert id f flow) m <= sum_streams flow m)%nat.
Proof.
  intros H. apply om_sum_le. intros k s. rewrite om_get_insert. bcase; [subst k |]; simpl in *; lia.
Qed.

Lemma sum_streams_reported id f flow m s :
  om_get id m = Some s -> (stream_report (Some f) < stream_report (om_get id flow))%nat ->
  (sum_streams (om_insert id f flow) m < sum_streams flow m)%nat.
Proof.
  intros Hg H. apply (om_sum_lt _ _ m id s); [| by apply om_get_elem |].
  - intros k x. rewrite om_get_insert. bcase; [subst k |]; simpl in *; lia.
  - rewrite om_get_insert, Z.eqb_refl. simpl in *. lia.
Qed.

Lemma sum_streams_send id s s' flow m :
  om_wf m -> om_get id m = Some s ->
  (sum_streams flow (om_insert id s' m) + send_work s = sum_streams flow m + send_work s')%nat.
Proof. intros Hw Hg. pose proof (om_sum_insert (fun id s => send_work s + stream_report (om_get id flow))%nat id s' m Hw) as H. rewrite Hg in H. unfold sum_streams. lia. Qed.

(** ** Lemmas: steps that only use up work *)

Definition lighter (c c' : conn) : Prop := maps_wf c -> maps_wf c' /\ (work c' <= work c)%nat.

#[local] Instance lighter_preorder : PreOrder lighter.
Proof.
  split; [intros c H; by split |]. intros a b c H1 H2 Ha. destruct (H1 Ha) as [Hb L1]. destruct (H2 Hb) as [Hc L2]. split; [done | lia].
Qed.

(** A step of filling a payload: whatever it places is paid for. *)
Definition paid (st st' : Fill) : Prop :=
  maps_wf (f_conn st) ->
  maps_wf (f_conn st') /\ (work (f_conn st') <= work (f_conn st))%nat /\
  (f_payload st' = f_payload st \/ (work (f_conn st') < work (f_conn st))%nat).

#[local] Instance paid_preorder : PreOrder paid.
Proof.
  split; [intros st H; split_and!; auto |]. intros a b c H1 H2 Ha. destruct (H1 Ha) as (Hb & L1 & P1). destruct (H2 Hb) as (Hc & L2 & P2).
  split_and!; [done | lia |]. destruct P1 as [P1 | P1]; [| right; lia]. destruct P2 as [P2 | P2]; [left; congruence | right; lia].
Qed.

Lemma paid_place st frame sent (g : conn -> conn) :
  (maps_wf (f_conn st) -> maps_wf (g (f_conn st)) /\ (work (g (f_conn st)) < work (f_conn st))%nat) ->
  paid st (with_conn (place st frame sent) g).
Proof. intros H Hw. destruct (H Hw) as [H1 H2]. cbn [f_conn with_conn place]. split_and!; [done | lia | right; lia]. Qed.

Lemma paid_conn st (g : conn -> conn) : lighter (f_conn st) (g (f_conn st)) -> paid st (with_conn st g).
Proof. intros H Hw. destruct (H Hw) as [H1 H2]. cbn [f_conn f_payload with_conn]. split_and!; auto. Qed.

(** Close a comparison of [work] across an update of the connection. *)
Ltac weigh := unfold work, handshake_done_to_send; cbn -[om_remove om_insert om_get sum_streams sum_credit conn_report crypto_work
                RecvFlowControl.maybe_update Nat.add]; lia.
Ltac weigh_with H := unfold work, handshake_done_to_send; rewrite ?H; cbn -[om_remove om_insert om_get sum_streams sum_credit conn_report
                crypto_work RecvFlowControl.maybe_update Nat.add]; rewrite ?H; cbn [Nat.b2n is_some negb]; lia.

Lemma paid_path_response budget st : paid st (fill_path_response budget st).
Proof.
  unfold fill_path_response. destruct (pending_path_response _) as [data |] eqn:E; [| done]. case_match; [| done].
  apply paid_place. intros Hw. split; [done |]. weigh_with E.
Qed.

Lemma paid_path_challenge budget st : paid st (fill_path_challenge budget st).
Proof.
  unfold fill_path_challenge. destruct (pending_path_challenge_send _) eqn:E; [| done]. repeat case_match; try done.
  apply paid_place. intros Hw. split; [done |]. weigh_with E.
Qed.

Lemma paid_handshake_done st : paid st (fill_handshake_done st).
Proof.
  unfold fill_handshake_done. destruct (handshake_done_to_send (f_conn st)) eqn:E; [| done].
  apply paid_place. intros Hw. split; [done |]. unfold handshake_done_to_send in E.
  destruct (andb_prop _ _ E) as [E1 E2]. apply negb_true_iff in E2. unfold work, handshake_done_to_send. rewrite E.
  cbn -[om_remove om_insert om_get sum_streams sum_credit conn_report crypto_work RecvFlowControl.maybe_update Nat.add]. rewrite andb_false_r. simpl Nat.b2n. lia.
Qed.

Lemma paid_max_data budget st : paid st (fill_max_data budget st).
Proof.
  unfold fill_max_data. destruct (pending_max_data _) as [m |] eqn:E; [| done]. case_match; [| done].
  apply paid_place. intros Hw. split; [done |]. weigh_with E.
Qed.

Lemma paid_data_blocked budget st : paid st (fill_data_blocked budget st).
Proof.
  unfold fill_data_blocked. destruct (pending_data_blocked _) as [m |] eqn:E; [| done].
  assert (Hl : (work ((f_conn st) <| pending_data_blocked := None |>) < work (f_conn st))%nat) by weigh_with E.
  destruct (16 <? _); intros Hw; cbn [f_conn f_payload with_conn place]; split_and!; try done; lia || (right; lia).
Qed.

Lemma paid_max_streams dir budget st : paid st (fill_max_streams dir budget st).
Proof.
  unfold fill_max_streams. destruct dir; (case_match eqn:E; [| done]); (case_match; [| done]);
    (apply paid_place; intros Hw; split; [done |]; weigh_with E).
Qed.

Lemma paid_streams_blocked dir budget st : paid st (fill_streams_blocked dir budget st).
Proof.
  unfold fill_streams_blocked. destruct dir; (case_match eqn:E; [| done]); (case_match; [| done]);
    (apply paid_place; intros Hw; split; [done |]; weigh_with E).
Qed.

Lemma paid_new_token budget st : paid st (fill_new_token budget st).
Proof.
  unfold fill_new_token. case_match; [| done]. destruct (pending_new_token _) as [t |] eqn:E; [| done]. case_match; [| done].
  apply paid_place. intros Hw. split; [done |]. weigh_with E.
Qed.

(** A queue kept as a map: the first entry that is placed pays for the packet. *)
Section maps.
Context {V : Type} (queue : conn -> BTreeMap V) (drop_entry : Z -> conn -> conn) (frame : Z -> V -> Frame).
Context (Hmaps : forall id c, maps_wf c -> maps_wf (drop_entry id c)).
Context (Hdrop : forall id c, (work (drop_entry id c) + length (queue c) = work c + length (om_remove id (queue c)))%nat).

Lemma drop_lighter id c : lighter c (drop_entry id c).
Proof. intros Hw. split; [by apply Hmaps |]. pose proof (Hdrop id c). pose proof (om_remove_le id (queue c)). lia. Qed.

Lemma drop_strict id v c : (id, v) ∈ queue c -> (work (drop_entry id c) < work c)%nat.
Proof. intros Hin. pose proof (Hdrop id c). pose proof (om_remove_length id (queue c) v Hin). lia. Qed.

Lemma lighter_fold min_room budget entries st :
  lighter (f_conn st) (f_conn (fill_map entries min_room budget frame drop_entry st)).
Proof.
  revert st. induction entries as [| [id v] entries IH]; intros st; [done |]. unfold fill_map. cbn [fold_left].
  fold (fill_map entries min_room budget frame drop_entry (if min_room <? avail budget (f_payload st)
    then with_conn (place st (frame id v) []) (drop_entry id) else st)).
  etransitivity; [| apply IH]. case_match; [| done]. apply drop_lighter.
Qed.

Lemma paid_map min_room budget entries st :
  (forall e, e ∈ entries -> e ∈ queue (f_conn st)) -> paid st (fill_map entries min_room budget frame drop_entry st).
Proof.
  induction entries as [| [id v] entries IH]; intros Hin; [done |]. unfold fill_map. cbn [fold_left].
  destruct (min_room <? avail budget (f_payload st)).
  - fold (fill_map entries min_room budget frame drop_entry (with_conn (place st (frame id v) []) (drop_entry id))).
    intros Hw. pose proof (drop_strict id v (f_conn st) (Hin _ (list_elem_of_here _ _))) as Hs.
    destruct (lighter_fold min_room budget entries (with_conn (place st (frame id v) []) (drop_entry id)) (Hmaps id _ Hw)) as [H1 H2].
    cbn [f_conn with_conn place] in H2. split_and!; [exact H1 | lia | right; lia].
  - apply IH. intros e He. apply Hin. by apply elem_of_cons; right.
Qed.

Lemma lighter_break min_room budget entries st :
  lighter (f_conn st) (f_conn (fill_map_break entries min_room budget frame drop_entry st)).
Proof.
  revert st. induction entries as [| [id v] entries IH]; intros st; [done |]. cbn [fill_map_break]. case_match; [done |].
  etransitivity; [| apply IH]. apply drop_lighter.
Qed.

Lemma paid_map_break min_room budget entries st :
  (forall e, e ∈ entries -> e ∈ queue (f_conn st)) -> paid st (fill_map_break entries min_room budget frame drop_entry st).
Proof.
  destruct entries as [| [id v] entries]; intros Hin; [done |]. cbn [fill_map_break]. case_match; [done |].
  intros Hw. pose proof (drop_strict id v (f_conn st) (Hin _ (list_elem_of_here _ _))) as Hs.
  destruct (lighter_break min_room budget entries (with_conn (place st (frame id v) []) (drop_entry id)) (Hmaps id _ Hw)) as [H1 H2].
  cbn [f_conn with_conn place] in H2. split_and!; [exact H1 | lia | right; lia].
Qed.

End maps.

Lemma paid_flow_control budget st : paid st (fill_flow_control_frames budget st).
Proof.
  unfold fill_flow_control_frames. etransitivity; [apply (paid_max_data budget) |]. generalize (fill_max_data budget st). clear st. intros st.
  assert (H : paid st (fill_max_stream_data budget st)).
  { apply (paid_map pending_max_stream_data (fun id c => c <| pending_max_stream_data ::= om_remove id |>) MaxStreamData); [| intros; weigh | done].
    intros id c Hw. exact Hw. }
  etransitivity; [exact H |]. clear H. generalize (fill_max_stream_data budget st). clear st. intros st.
  etransitivity; [apply (paid_data_blocked budget) |]. generalize (fill_data_blocked budget st). clear st. intros st.
  apply (paid_map pending_stream_data_blocked (fun id c => c <| pending_stream_data_blocked ::= om_remove id |>) StreamDataBlocked);
    [intros id c Hw; exact Hw | intros; weigh | done].
Qed.

Lemma paid_resets budget st : paid st (fill_reset_stream_frames budget st).
Proof.
  apply (paid_map_break pending_reset_streams (fun id c => c <| pending_reset_streams ::= om_remove id |>)
           (fun id v => ResetStream id v.1 v.2)); [intros id c Hw; exact Hw | intros; weigh | done].
Qed.

Lemma paid_stops budget st : paid st (fill_stop_sending_frames budget st).
Proof.
  apply (paid_map_break pending_stop_sending (fun id c => c <| pending_stop_sending ::= om_remove id |>) StopSending);
    [intros id c Hw; exact Hw | intros; weigh | done].
Qed.

Lemma paid_new_cids fuel budget st : paid st (fill_new_cids fuel budget st).
Proof.
  revert st. induction fuel as [| fuel IH]; intros st; [done |]. cbn [fill_new_cids]. unfold LocalCidPool.pop_pending_new.
  destruct (LocalCidPool.pending_new (local_cid_pool (f_conn st))) as [| i tl] eqn:E; [done |]. case_match.
  - apply paid_conn. intros Hw. split; [done |]. weigh_with E.
  - etransitivity; [| apply IH]. intros Hw. cbn [f_conn f_payload with_conn place].
    match goal with |- _ /\ (work ?c' <= _)%nat /\ _ => assert (Hl : (work c' < work (f_conn st))%nat) by weigh_with E end.
    split_and!; [done | lia | right; lia].
Qed.

Lemma paid_retire_cids fuel budget st : paid st (fill_retire_cids fuel budget st).
Proof.
  revert st. induction fuel as [| fuel IH]; intros st; [done |]. cbn [fill_retire_cids]. unfold PeerCidPool.pop_pending_retire.
  destruct (PeerCidPool.pending_retire (peer_cid_pool (f_conn st))) as [| i tl] eqn:E; [done |]. case_match.
  - apply paid_conn. intros Hw. split; [done |]. weigh_with E.
  - etransitivity; [| apply IH]. intros Hw. cbn [f_conn f_payload with_conn place].
    match goal with |- _ /\ (work ?c' <= _)%nat /\ _ => assert (Hl : (work c' < work (f_conn st))%nat) by weigh_with E end.
    split_and!; [done | lia | right; lia].
Qed.

Lemma paid_datagrams queue budget st :
  queue = datagram_send_queue (f_conn st) -> paid st (fill_datagrams queue budget st).
Proof.
  revert st. induction queue as [| front queue IH]; intros st E; [done |]. cbn [fill_datagrams]. case_match; [done |].
  etransitivity; [| by apply IH]. intros Hw. cbn [f_conn f_payload with_conn place].
  match goal with |- _ /\ (work ?c' <= _)%nat /\ _ => assert (Hl : (work c' < work (f_conn st))%nat) by weigh_with (eq_sym E) end.
  split_and!; [done | lia | right; lia].
Qed.

Lemma paid_control budget st : paid st (fill_control budget st).
Proof.
  unfold fill_control. etransitivity; [apply (paid_path_response budget) |]. etransitivity; [apply (paid_path_challenge budget) |].
  etransitivity; [apply paid_handshake_done |]. etransitivity; [apply (paid_flow_control budget) |].
  etransitivity; [apply (paid_resets budget) |]. etransitivity; [apply (paid_stops budget) |].
  etransitivity; [apply paid_new_cids |]. etransitivity; [apply paid_retire_cids |].
  etransitivity; [apply (paid_max_streams Bidirectional budget) |]. etransitivity; [apply (paid_max_streams Unidirectional budget) |].
  etransitivity; [apply (paid_streams_blocked Bidirectional budget) |]. etransitivity; [apply (paid_streams_blocked Unidirectional budget) |].
  etransitivity; [apply (paid_new_token budget) |]. by apply paid_datagrams.
Qed.

(** ** Lemmas: stream data *)

Lemma lighter_entry c id :
  lighter c (if om_contains id (stream_send_flow c) then c
             else c <| stream_send_flow ::= om_insert id (StreamSendFlow.new (peer_initial_stream_limit c)) |>).
Proof.
  unfold om_contains. destruct (om_get id (stream_send_flow c)) as [f |] eqn:E; [done |]. intros Hw. split; [done |].
  assert (H : (sum_streams (om_insert id (StreamSendFlow.new (peer_initial_stream_limit c)) (stream_send_flow c)) (send_streams c)
               <= sum_streams (stream_send_flow c) (send_streams c))%nat) by (apply sum_streams_flow; by rewrite E).
  weigh.
Qed.

Lemma lighter_charge c id high : lighter c (charge_flow c id high).
Proof.
  unfold charge_flow. destruct (om_get id (stream_send_flow c)) as [f |] eqn:E.
  2: { intros Hw. split; [done |]. assert (H : conn_report (SendFlowControl.on_data_sent (send_flow c) 0) = conn_report (send_flow c)) by done. weigh. }
  destruct (StreamSendFlow.record_high_offset f high) as [fresh f'] eqn:Ef. intros Hw. split; [done |].
  assert (H : conn_report (SendFlowControl.on_data_sent (send_flow c) fresh) = conn_report (send_flow c)) by done.
  assert (Hs : (sum_streams (om_insert id f' (stream_send_flow c)) (send_streams c) <= sum_streams (stream_send_flow c) (send_streams c))%nat).
  { apply sum_streams_flow. rewrite E. unfold StreamSendFlow.record_high_offset in Ef. by case_match; injection Ef as <- <-. }
  weigh.
Qed.

Lemma stream_credit_nonneg c id a r : 0 <= a -> 0 <= stream_credit c id a r.
Proof.
  intros Ha. unfold stream_credit, SendFlowControl.available. destruct r; [done |].
  assert (Hs : forall x y, 0 <= sat_sub x y) by (intros; unfold sat_sub; lia).
  pose proof (Hs (SendFlowControl.max_data (send_flow c)) (SendFlowControl.data_sent (send_flow c))).
  destruct (om_get id (stream_send_flow c)) as [f |]; cbn [fmap option_fmap option_map unwrap_or]; [| lia].
  unfold StreamSendFlow.available. pose proof (Hs (StreamSendFlow.max_stream_data f) (StreamSendFlow.data_sent f)). lia.
Qed.

Lemma paid_one_stream budget st id : paid st (fill_one_stream budget st id).
Proof.
  unfold fill_one_stream. destruct (om_get id (send_streams (f_conn st))) as [s |] eqn:E; [| done].
  destruct (SendStream.is_reset s); [done |]. destruct (SendStream.has_pending s) eqn:Ep; [| done]. cbn [negb].
  set (a := sat_sub _ 24). assert (Ha : 0 <= a) by (subst a; unfold sat_sub; lia). clearbody a. set (st1 := with_conn st _).
  assert (H1 : paid st st1) by (apply paid_conn, lighter_entry).
  assert (E1 : om_get id (send_streams (f_conn st1)) = Some s).
  { subst st1. cbn [f_conn with_conn]. by destruct (om_contains _ _). }
  clearbody st1. etransitivity; [exact H1 |]. clear H1 E st.
  set (n := stream_credit (f_conn st1) id a (SendStream.has_resend s)).
  assert (Hn : 0 <= n) by (by apply stream_credit_nonneg). clearbody n.
  destruct (Z.eqb_spec n 0) as [| Hne]; [done |].
  destruct (take_progress s n ltac:(lia) Ep) as (fr & s' & Et & Hless). rewrite Et. destruct fr as [[offset data] fin].
  intros Hw. cbn [f_conn f_payload with_conn place].
  set (c1 := (f_conn st1) <| send_streams ::= om_insert id s' |>).
  assert (Hs : maps_wf c1 /\ (work c1 < work (f_conn st1))%nat).
  { destruct Hw as [W1 W2]. split; [split; [by apply om_wf_insert | done] |].
    pose proof (sum_streams_send id s s' (stream_send_flow (f_conn st1)) (send_streams (f_conn st1)) W1 E1). subst c1. weigh. }
  clearbody c1. destruct Hs as [W1 L1]. destruct (lighter_charge c1 id (u64_add offset (len data)) W1) as [W2 L2].
  split_and!; [exact W2 | lia | right; lia].
Qed.

Lemma paid_streams_loop ids budget st : paid st (fill_streams_loop ids budget st).
Proof.
  revert st. induction ids as [| id ids IH]; intros st; [done |]. cbn [fill_streams_loop]. case_match; [done |].
  etransitivity; [apply paid_one_stream | apply IH].
Qed.

(** Reporting that a limit blocks: the report is paid for by not being due again. *)
Lemma lighter_note c : lighter c (note_blocked_streams c).
Proof.
  unfold note_blocked_streams.
  match goal with |- lighter _ (fold_left ?g ?l ?x) => set (c1 := x); set (step := g) end.
  generalize (om_keys (send_streams c1)).
  assert (H1 : lighter c c1).
  { subst c1. destruct (any_stream_send_data c); [| done]. unfold SendFlowControl.take_blocked.
    destruct (SendFlowControl.is_blocked (send_flow c) && _) eqn:Eb; intros Hw; (split; [done |]).
    - apply andb_prop in Eb as [_ Eb]. assert (H : conn_report (send_flow c) = 1%nat) by (unfold conn_report; by rewrite Eb).
      assert (H' : conn_report (SendFlowControl.mk (SendFlowControl.max_data (send_flow c)) (SendFlowControl.data_sent (send_flow c))
                     (Some (SendFlowControl.max_data (send_flow c)))) = 0%nat) by (unfold conn_report; simpl; by rewrite bool_decide_true by done).
      weigh.
    - weigh. }
  intros ids. etransitivity; [exact H1 |]. clearbody c1. clear H1 c. revert c1. induction ids as [| id ids IH]; intros c; [cbn [fold_left]; reflexivity |].
  cbn [fold_left]. etransitivity; [| apply IH]. clear IH. subst step. cbv beta.
  destruct (om_get id (send_streams c)) as [s |] eqn:Es; [| done]. cbn [fmap option_fmap option_map unwrap_or].
  destruct (negb _); [done |]. destruct (om_get id (stream_send_flow c)) as [f |] eqn:E; [| done].
  unfold StreamSendFlow.take_blocked. destruct (StreamSendFlow.is_blocked f && _) eqn:Eb; intros Hw; (split; [done |]).
  - apply andb_prop in Eb as [_ Eb].
    set (f' := StreamSendFlow.mk (StreamSendFlow.max_stream_data f) (StreamSendFlow.data_sent f) (Some (StreamSendFlow.max_stream_data f))).
    assert (H : (sum_streams (om_insert id f' (stream_send_flow c)) (send_streams c) < sum_streams (stream_send_flow c) (send_streams c))%nat).
    { apply (sum_streams_reported id f' _ _ s Es). rewrite E. simpl. rewrite Eb, bool_decide_true by done. simpl. lia. }
    pose proof (om_insert_length id (StreamSendFlow.max_stream_data f) (pending_stream_data_blocked c)). weigh.
  - assert (H : (sum_streams (om_insert id f (stream_send_flow c)) (send_streams c) <= sum_streams (stream_send_flow c) (send_streams c))%nat)
      by (apply sum_streams_flow; by rewrite E).
    weigh.
Qed.

Lemma paid_application budget st : paid st (fill_application budget st).
Proof.
  unfold fill_application, fill_stream_frames. etransitivity; [apply (paid_control budget) |].
  etransitivity; [apply paid_streams_loop |]. apply paid_conn, lighter_note.
Qed.

(** ** Lemmas: acknowledgements, handshake data and probes *)

(** Something taken from the connection, and placed if it was there. *)
Lemma paid_taken {A} st c' (x : option A) (frame : A -> Frame) (sent : A -> list SentFrame) :
  (maps_wf (f_conn st) -> maps_wf c' /\ (work c' + Nat.b2n (is_some x) <= work (f_conn st))%nat) ->
  paid st (match x with Some y => place (with_conn st (fun _ => c')) (frame y) (sent y) | None => with_conn st (fun _ => c') end).
Proof.
  intros H Hw. destruct (H Hw) as [H1 H2]. destruct x as [y |]; cbn [f_conn f_payload with_conn place is_some Nat.b2n] in *.
  - split_and!; [done | lia | right; lia].
  - split_and!; [done | lia | by left].
Qed.

Lemma build_ack_pays (s : PacketSpace HeaderKey PacketKey) d :
  (Nat.b2n (ack_pending (build_ack s d).2) + Nat.b2n (is_some (build_ack s d).1) = Nat.b2n (ack_pending s))%nat.
Proof. unfold build_ack. destruct (ack_pending s) eqn:E; simpl; [| by rewrite E]. case_match; simpl; by rewrite ?E. Qed.

Lemma paid_ack kind st : paid st (fill_ack kind st).
Proof.
  unfold fill_ack. destruct kind;
    (match goal with |- context [build_ack ?s 0] => pose proof (build_ack_pays s 0) as Hp; destruct (build_ack s 0) as [fr s'] end;
     cbn [fst snd] in Hp; apply (paid_taken st _ fr (fun f => f) (fun _ => [])); intros Hw; split; [done |]; weigh).
Qed.

Lemma take_send_pays s max :
  0 <= max -> (crypto_work (CryptoStream.take_send s max).2 + Nat.b2n (is_some (CryptoStream.take_send s max).1) <= crypto_work s)%nat.
Proof.
  intros Hm. unfold CryptoStream.take_send, crypto_work. destruct (Z.eqb_spec max 0); [simpl; lia |].
  destruct (CryptoStream.resend s) as [| r rest] eqn:Er.
  - destruct (CryptoStream.send_buf s) as [| x b] eqn:Eb; [cbn; rewrite Er, Eb; simpl; lia |].
    cbn [fst snd is_some Nat.b2n CryptoStream.send_buf CryptoStream.resend foldr]. rewrite length_drop. simpl length. lia.
  - case_match; cbn [fst snd is_some Nat.b2n CryptoStream.send_buf CryptoStream.resend foldr CryptoStream.rs_data]; rewrite ?length_drop; lia.
Qed.

Lemma paid_crypto kind budget st : paid st (fill_crypto kind budget st).
Proof.
  unfold fill_crypto. set (room := sat_sub _ 16). assert (Hr : 0 <= room) by (subst room; unfold sat_sub; lia). clearbody room.
  destruct kind; [| | apply paid_conn; done];
    (match goal with |- context [CryptoStream.take_send ?s room] => pose proof (take_send_pays s room Hr) as Hp;
       destruct (CryptoStream.take_send s room) as [[[o d] |] s'] end;
     cbn [fst snd is_some Nat.b2n] in Hp;
     [apply (paid_taken st _ (Some tt) (fun _ => Crypto o d) (fun _ => [SFCrypto o d]))
     | apply (paid_taken st _ None (fun _ : unit => Ping) (fun _ => []))]; intros Hw; (split; [done |]); weigh).
Qed.

Lemma paid_mtu_probe size st : pending_mtu_probe (f_conn st) = true -> paid st (fill_mtu_probe size st).
Proof.
  intros E Hw. unfold fill_mtu_probe. cbn [f_conn f_payload with_conn place].
  match goal with |- _ /\ (work ?c' <= _)%nat /\ _ => assert (Hl : (work c' < work (f_conn st))%nat) by weigh_with E end.
  split_and!; [done | lia | right; lia].
Qed.

(** Everything but the PING for a key update is paid for here; that one is paid for
    by the update itself. *)
Definition paid_or_update (kind : SpaceKind) (st st' : Fill) : Prop :=
  maps_wf (f_conn st) ->
  maps_wf (f_conn st') /\ (work (f_conn st') <= work (f_conn st))%nat /\
  (f_payload st' = f_payload st \/ (work (f_conn st') < work (f_conn st))%nat \/
   (kind = SkApplication /\ key_update_pending (f_conn st') = true)).

Lemma paid_then kind a b c : paid a b -> paid_or_update kind b c -> paid_or_update kind a c.
Proof.
  intros H1 H2 Ha. destruct (H1 Ha) as (Hb & L1 & P1). destruct (H2 Hb) as (Hc & L2 & P2). split_and!; [done | lia |].
  destruct P1 as [P1 | P1]; [| right; left; lia]. destruct P2 as [P2 | [P2 | P2]]; [left; congruence | right; left; lia | by right; right].
Qed.

Lemma paid_pings kind st : paid_or_update kind st (fill_pings kind st).
Proof.
  unfold fill_pings. set (st1 := if 0 <? probes_owed (f_conn st) then _ else st).
  assert (H1 : paid st st1).
  { subst st1. destruct (Z.ltb_spec 0 (probes_owed (f_conn st))) as [Hp |]; [| done]. intros Hw.
    set (st0 := if negb (f_eliciting st) then _ else _).
    set (c1 := (f_conn st) <| probes_owed ::= fun n => n - 1 |>).
    assert (Hl : (work c1 < work (f_conn st))%nat) by (subst c1; weigh).
    assert (E0 : f_conn (with_conn st0 (fun c => c <| probes_owed ::= fun n => n - 1 |>)) = c1)
      by (subst st0; by destruct (f_eliciting st)).
    rewrite E0. split_and!; [done | lia | right; lia]. }
  apply (paid_then kind st st1); [exact H1 |]. clearbody st1. clear H1 st.
  set (st2 := if bool_decide (kind = SkApplication) && pending_keep_alive_ping (f_conn st1) then _ else st1).
  assert (H2 : paid st1 st2).
  { subst st2. destruct (_ && pending_keep_alive_ping (f_conn st1)) eqn:E; [| done]. apply andb_prop in E as [_ E].
    apply paid_place. intros Hw. split; [done |]. weigh_with E. }
  apply (paid_then kind st1 st2); [exact H2 |]. clearbody st2. clear H2 st1.
  intros Hw. destruct (_ && key_update_pending (f_conn st2) && _) eqn:E; [| by split_and!; auto].
  apply andb_prop in E as [[E1%bool_decide_eq_true E2]%andb_prop _]. cbn [f_conn place]. split_and!; auto.
Qed.

Lemma paid_payload c kind budget : paid_or_update kind (mkFill c [] [] false) (fill_payload c kind budget).
Proof.
  unfold fill_payload. set (st0 := mkFill c [] [] false).
  apply (paid_then kind st0 (fill_ack kind st0)); [apply paid_ack |].
  apply (paid_then kind _ (fill_crypto kind budget (fill_ack kind st0))); [apply paid_crypto |].
  generalize (fill_crypto kind budget (fill_ack kind st0)). intros st.
  assert (Hrest : paid_or_update kind st (fill_pings kind (if bool_decide (kind = SkApplication) then fill_application budget st else st))).
  { eapply paid_then; [| apply paid_pings]. case_match; [apply paid_application | done]. }
  destruct (bool_decide (kind = SkApplication) && pending_mtu_probe (f_conn st)) eqn:E.
  - apply andb_prop in E as [Ea Ep]. destruct (probe_mtu (f_conn st)) as [size |].
    + intros Hw. destruct (paid_mtu_probe size st Ep Hw) as (H1 & H2 & H3). split_and!; [done | done |]. destruct H3; auto.
    + eapply paid_then; [| apply paid_pings]. etransitivity.
      * apply (paid_conn st (fun c => c <| pending_mtu_probe := false |>)). intros Hw. split; [done |]. weigh_with Ep.
      * case_match; [apply paid_application | done].
  - destruct (probe_mtu (f_conn st)); exact Hrest.
Qed.

(** ** Lemmas: packets and datagrams *)

(** The fields [work] and [maps_wf] read, in a state that differs elsewhere. *)
Definition idle (c c' : conn) : Prop := work c' = work c /\ (maps_wf c -> maps_wf c').

Lemma idle_seal_short c payload out : idle c (seal_short c payload out).2.
Proof.
  unfold seal_short, next_pn. destruct (local_keys _) as [k |]; [| by split].
  destruct (build_short_packet _ _ _ _ _) as [o r]. by split.
Qed.

Lemma idle_seal_long c t token payload out : idle c (seal_long c t token payload out).2.
Proof.
  unfold seal_long, next_pn. destruct t; (destruct (local_keys _) as [k |]; [| by split];
    destruct (build_long_packet _ _ _ _ _) as [o r]; by split).
Qed.

Lemma idle_record c now kind pn bytes frames ae : idle c (record_sent c now kind pn bytes frames ae).
Proof.
  unfold record_sent. destruct (if is_mtu_probe frames then false else ae);
    [destruct (ctl_on_packet_sent _ _ _) as [r cc] |]; destruct (ae || _); by split.
Qed.

Lemma before_short_work c now :
  (work (before_short c now) + Nat.b2n (key_update_pending c) = work c)%nat /\ (maps_wf c -> maps_wf (before_short c now)).
Proof.
  unfold before_short, initiate_key_update_now, rotate_keys. destruct (key_update_pending c) eqn:E; [| split; [weigh_with E | done]].
  cbn [one_rtt_secrets]. destruct (one_rtt_secrets _) as [sec |]; [| split; [weigh_with E | done]].
  destruct (next_packet_keys sec) as [nk sec']. cbn [next_1rtt_keys]. destruct (next_1rtt_keys _) as [ne |]; [| split; [weigh_with E | done]].
  unfold rotate_to_next_epoch. destruct (keys _) as [k |]; (split; [weigh_with E | done]).
Qed.

Lemma space_packet_paid c now kind out b out' c' :
  write_space_packet c now kind out (bool_decide (kind = SkApplication)) = (b, (out', c')) -> maps_wf c ->
  maps_wf c' /\ (work c' + Nat.b2n b <= work c)%nat.
Proof.
  unfold write_space_packet. destruct (_ <? 64); [intros [= <- _ <-] Hw; split; [exact Hw | cbn [Nat.b2n]; lia] |].
  pose proof (paid_payload c kind (sat_sub (packet_budget c kind) (len out))) as Hp. revert Hp.
  generalize (fill_payload c kind (sat_sub (packet_budget c kind) (len out))). intros st Hp E Hw. destruct (Hp Hw) as (W1 & L1 & P1).
  cbn [f_conn f_payload] in L1, P1. revert E. case_bool_decide as Epay; [intros [= <- _ <-]; split; [exact W1 | cbn [Nat.b2n]; lia] |].
  set (c1 := if bool_decide (kind = SkApplication) then before_short (f_conn st) now else f_conn st).
  assert (H1 : maps_wf c1 /\ (work c1 < work c)%nat).
  { subst c1. destruct (before_short_work (f_conn st) now) as [B1 B2]. destruct P1 as [P1 | [P1 | [-> P1]]]; [done | |].
    - case_match; split; auto; lia.
    - rewrite bool_decide_true by done. rewrite P1 in B1. cbn [Nat.b2n] in B1. split; [auto | lia]. }
  clearbody c1. destruct H1 as [W2 L2].
  match goal with |- (let '(sealed, c) := ?x in _) = _ -> _ => assert (Hs : idle c1 x.2) end.
  { destruct kind; [apply idle_seal_long | apply idle_seal_long | apply idle_seal_short]. }
  match goal with |- (let '(sealed, c) := ?x in _) = _ -> _ => destruct x as [sealed c2] end. cbn [snd] in Hs. destruct Hs as [S1 S2].
  destruct sealed as [[pn [o []]] |].
  - intros [= <- _ <-]. destruct (idle_record c2 now kind pn (len o - len out) (f_frames st) (f_eliciting st)) as [R1 R2].
    split; [auto |]. rewrite R1, S1. cbn [Nat.b2n]. lia.
  - intros [= <- _ <-]. split; [auto |]. cbn [Nat.b2n]. lia.
  - intros [= <- _ <-]. split; [auto |]. cbn [Nat.b2n]. lia.
Qed.

Lemma zero_rtt_paid c out b out' c' :
  write_zero_rtt_packet c out = (b, (out', c')) -> maps_wf c -> maps_wf c' /\ (work c' + Nat.b2n b <= work c)%nat.
Proof.
  unfold write_zero_rtt_packet. intros E Hw. revert E.
  assert (Hn : maps_wf c /\ (work c + Nat.b2n false <= work c)%nat) by (split; [exact Hw | cbn [Nat.b2n]; lia]).
  destruct (negb _ || _ || _ || zero_rtt_sent c) eqn:Eg; [by intros [= <- _ <-] |]. apply orb_false_iff in Eg as [_ Ez].
  destruct (zero_rtt_keys c) as [ks |]; [| by intros [= <- _ <-]]. case_bool_decide; [by intros [= <- _ <-] |]. unfold next_pn.
  destruct (build_long_packet _ _ _ _ _) as [o [n | e]]; intros [= <- _ <-]; (split; [done |]); weigh_with Ez.
Qed.

Lemma idle_close c out : lighter c (emit_close c out).2.2.
Proof.
  unfold emit_close. assert (Ht : idle c (take_close_frame c).2) by (unfold take_close_frame; repeat case_match; by split).
  destruct (take_close_frame c) as [[frame |] c1]; cbn [snd] in Ht; destruct Ht as [T1 T2]; [| intros Hw; cbn [snd]; split; [auto | lia]].
  match goal with |- context [let '(sealed, c) := ?x in _] => assert (Hs : idle c1 x.2) end.
  { destruct (one_rtt_ready c); [apply idle_seal_short |]. destruct (handshake_keys_ready c1); apply idle_seal_long. }
  match goal with |- context [let '(sealed, c) := ?x in _] => destruct x as [[[pn [o r]] |] c2] end; cbn [snd] in *; destruct Hs as [S1 S2];
    intros Hw; (split; [auto |]); lia.
Qed.

(** Granting credit: a grant that was made is not due again. *)
Lemma recv_update_once f : is_some (RecvFlowControl.maybe_update (RecvFlowControl.maybe_update f).2).1 = false.
Proof.
  unfold RecvFlowControl.maybe_update at 2.
  destruct ((RecvFlowControl.max_data f <? u64_add (RecvFlowControl.consumed f) (RecvFlowControl.window f)) && _) eqn:E; cbn [snd].
  - unfold RecvFlowControl.maybe_update. cbn [RecvFlowControl.max_data RecvFlowControl.consumed RecvFlowControl.window]. by rewrite Z.ltb_irrefl.
  - unfold RecvFlowControl.maybe_update. by rewrite E.
Qed.

Lemma stream_update_once f : is_some (StreamRecvFlow.maybe_update (StreamRecvFlow.maybe_update f).2).1 = false.
Proof.
  unfold StreamRecvFlow.maybe_update at 2.
  destruct ((StreamRecvFlow.max_stream_data f <? u64_add (StreamRecvFlow.consumed f) (StreamRecvFlow.window f)) && _) eqn:E; cbn [snd].
  - unfold StreamRecvFlow.maybe_update. cbn [StreamRecvFlow.max_stream_data StreamRecvFlow.consumed StreamRecvFlow.window]. by rewrite Z.ltb_irrefl.
  - unfold StreamRecvFlow.maybe_update. by rewrite E.
Qed.

Lemma lighter_advance c : lighter c (advance_recv_flow c).
Proof.
  unfold advance_recv_flow. pose proof (recv_update_once (recv_flow c)) as Ho.
  destruct (RecvFlowControl.maybe_update (recv_flow c)) as [m f] eqn:Em. cbn [snd] in Ho.
  set (c1 := match m with Some m => _ | None => _ end). set (step := fun c id => _).
  assert (H1 : lighter c c1).
  { assert (Hp : is_some (RecvFlowControl.maybe_update (recv_flow c)).1 = is_some m) by (by rewrite Em).
    subst c1. destruct m as [m |]; intros Hw; (split; [done |]); unfold work, handshake_done_to_send; rewrite Hp;
      cbn -[om_remove om_insert om_get sum_streams sum_credit conn_report crypto_work RecvFlowControl.maybe_update Nat.add]; rewrite Ho;
      cbn [Nat.b2n]; lia. }
  etransitivity; [exact H1 |]. generalize (om_keys (stream_recv_flow c1)). clearbody c1. clear. intros ids. revert c1.
  induction ids as [| id ids IH]; intros c; [cbn [fold_left]; reflexivity |].
  cbn [fold_left]. etransitivity; [| apply IH]. clear IH. subst step. cbv beta.
  destruct (om_get id (stream_recv_flow c)) as [g |] eqn:E; [| done].
  pose proof (stream_update_once g) as Ho. destruct (StreamRecvFlow.maybe_update g) as [m g'] eqn:Em. cbn [snd] in Ho.
  intros [W1 W2]. pose proof (om_sum_insert (fun _ f => Nat.b2n (is_some (StreamRecvFlow.maybe_update f).1)) id g' _ W2) as Hs.
  rewrite E, Ho, Em in Hs. cbn [fst Nat.b2n] in Hs.
  change (om_sum (fun _ f => Nat.b2n (is_some (StreamRecvFlow.maybe_update f).1))) with sum_credit in Hs.
  destruct m as [m |]; cbn [is_some Nat.b2n] in Hs; (split; [split; [exact W1 | by apply om_wf_insert] |]).
  - pose proof (om_insert_length id m (pending_max_stream_data c)). weigh.
  - weigh.
Qed.

Lemma write_packets_paid c now out r out' c' :
  write_packets c now out = (r, (out', c')) -> maps_wf c -> maps_wf c' /\ (work c' + Nat.b2n r.2 <= work c)%nat.
Proof.
  assert (Hsp : forall c kind out (g : bool) b out' c', maps_wf c ->
    (if g then write_space_packet c now kind out (bool_decide (kind = SkApplication)) else (false, (out, c))) = (b, (out', c')) ->
    maps_wf c' /\ (work c' + Nat.b2n b <= work c)%nat).
  { intros c0 kind o [] b o' c1 Hw E; [by apply space_packet_paid in E | injection E as <- _ <-; split; [exact Hw | cbn [Nat.b2n]; lia]]. }
  assert (Hz : forall c out (g : bool) b out' c', maps_wf c ->
    (if g then write_zero_rtt_packet c out else (false, (out, c))) = (b, (out', c')) -> maps_wf c' /\ (work c' + Nat.b2n b <= work c)%nat).
  { intros c0 o [] b o' c1 Hw E; [by apply zero_rtt_paid in E | injection E as <- _ <-; split; [exact Hw | cbn [Nat.b2n]; lia]]. }
  intros E W0. revert E. unfold write_packets.
  match goal with |- (let '(w, p) := ?x in _) = _ -> _ => destruct x as [b1 [o1 c1]] eqn:E1 end.
  apply (Hsp c SkInitial) in E1 as [W1 L1]; [| exact W0].
  match goal with |- (let '(w, p) := ?x in _) = _ -> _ => destruct x as [b2 [o2 c2]] eqn:E2 end.
  apply (Hsp c1 SkHandshake) in E2 as [W2 L2]; [| exact W1].
  match goal with |- (let '(w, p) := ?x in _) = _ -> _ => destruct x as [b3 [o3 c3]] eqn:E3 end.
  apply Hz in E3 as [W3 L3]; [| exact W2].
  match goal with |- (let '(w, p) := ?x in _) = _ -> _ => destruct x as [b4 [o4 c4]] eqn:E4 end.
  apply (Hsp c3 SkApplication) in E4 as [W4 L4]; [| exact W3].
  intros [= <- _ <-]. cbn [snd]. split; [exact W4 |]. destruct b1, b2, b3, b4; cbn [orb Nat.b2n] in *; lia.
Qed.

Lemma idle_timers c now : idle c (set_loss_detection_timer (arm_idle_timer c now)).
Proof. unfold set_loss_detection_timer, arm_idle_timer, arm_keep_alive. repeat case_match; by split. Qed.

Lemma transmit_paid c now out a out' c' :
  transmit_packets c now out = (a, (out', c')) -> maps_wf c -> maps_wf c' /\ (work c' + Nat.b2n (is_some a) <= work c)%nat.
Proof.
  intros E Hw. destruct (lighter_advance c Hw) as [W1 L1]. revert E. unfold transmit_packets.
  destruct (write_packets (advance_recv_flow c) now out) as [[wi wa] [o c1]] eqn:E. apply write_packets_paid in E as [W2 L2]; [| exact W1].
  cbn [snd] in L2. destruct wa; cbn [negb]; intros [= <- _ <-]; cbn [is_some Nat.b2n] in *; [| split; [exact W2 | lia]].
  destruct (idle_timers c1 now) as [I1 I2]. split; [auto | lia].
Qed.

(** ** Lemmas: the flush loop *)

(** The handshake is over and the TLS session has nothing to write. *)
Definition quiescent (c : conn) : Prop := handshake_complete c = true /\ write_hs (tls c) = ([], None, tls c).

Lemma set_tls_same (c : conn) : c <| tls := tls c |> = c.
Proof. by destruct c. Qed.

Lemma pump_quiescent c clock : quiescent c -> pump_write_hs c clock = c.
Proof.
  intros [Hc Hq]. unfold pump_write_hs, refresh_handshake_complete. cbn [pump_loop]. unfold pump_step. rewrite Hq.
  cbn [queue_handshake_bytes]. rewrite set_tls_same, Hc. done.
Qed.

Lemma quiescent_route c c' : route_view c' = route_view c -> quiescent c -> quiescent c'.
Proof.
  intros E [H1 H2]. pose proof (f_equal (fun v => v.1.2) E) as Et. pose proof (f_equal (fun v => v.2.2) E) as Eh. simpl in Et, Eh.
  split; congruence.
Qed.

Lemma poll_paid c now clock out a out' c' :
  quiescent c -> maps_wf c -> poll_transmit c now clock out = (a, (out', c')) ->
  quiescent c' /\ maps_wf c' /\ (work c' + Nat.b2n (is_some a) <= work c)%nat.
Proof.
  intros Hq Hw. unfold poll_transmit. rewrite (pump_quiescent c clock Hq). case_bool_decide as Ecl.
  { intros [= <- _ <-]. split_and!; [done | done | cbn [is_some Nat.b2n]; lia]. }
  assert (Ht : forall x o, quiescent x -> maps_wf x -> transmit_packets x now o = (a, (out', c')) ->
            quiescent c' /\ maps_wf c' /\ (work c' + Nat.b2n (is_some a) <= work x)%nat).
  { intros x o Hx Hwx E. pose proof (transmit_packets_spec _ _ _ _ _ _ E) as (_ & Er & _). apply transmit_paid in E as [W L]; [| exact Hwx].
    split_and!; [by eapply quiescent_route | done | done]. }
  destruct (is_some _ || is_some _); [| by apply Ht].
  destruct (idle_close c out Hw) as [W1 L1]. destruct (emit_close c out) as [x [o c1]] eqn:E. cbn [snd] in W1, L1.
  pose proof (wrote_close _ _ _ _ _ E) as (_ & [El _] & Er & _). pose proof (quiescent_route _ _ Er Hq) as Hq1.
  destruct x as [addr |].
  - intros [= <- _ <-]. split_and!; [exact Hq1 | exact W1 |].
    assert (Es : state c1 = state c) by exact (f_equal (fun v => v.1.1.1) El).
    assert (Hcl : bool_decide (state c1 = Closed) = false) by (rewrite Es; by apply bool_decide_false).
    cbn [is_some Nat.b2n]. enough (S (work (c1 <| state := Closed |>)) = work c1) by lia.
    unfold work, handshake_done_to_send. rewrite Hcl.
    cbn -[om_remove om_insert om_get sum_streams sum_credit conn_report crypto_work RecvFlowControl.maybe_update Nat.add bool_decide].
    rewrite (bool_decide_true (Closed = Closed)) by done. cbn [negb Nat.b2n]. lia.
  - intros E2. destruct (Ht c1 o Hq1 W1 E2) as (H1 & H2 & H3). split_and!; [done | done | lia].
Qed.

(** Transmitting keeps the maps sorted, in any state; so does every event. *)
Lemma kept_transmit c now clock out : maps_kept c (poll_transmit c now clock out).2.2.
Proof.
  intros Hw%(kept_pump c clock). unfold poll_transmit. revert Hw. generalize (pump_write_hs c clock). intros c1 Hw.
  case_bool_decide; [exact Hw |].
  assert (Ht : forall x o, maps_wf x -> maps_wf (transmit_packets x now o).2.2).
  { intros x o Hx. destruct (transmit_packets x now o) as [a [o' x']] eqn:E. by apply transmit_paid in E as [W _]. }
  destruct (is_some _ || is_some _); [| by apply Ht].
  destruct (idle_close c1 out Hw) as [W1 _]. destruct (emit_close c1 out) as [[addr |] [o c2]]; [exact W1 | by apply Ht].
Qed.

Lemma kept_exec c e : maps_kept c (exec c e).
Proof.
  destruct e as [a | now clock dg | now | now clock out]; cbn [exec]; [apply kept_call | | apply kept_timeout | apply kept_transmit].
  destruct (handle_datagram c now clock dg) as [[d [r c']] |] eqn:E; [| intros H; exact H]. exact (kept_datagram c now clock dg _ E).
Qed.

Lemma reachable_maps role tls params rng algo clock c :
  rtc step (install_initial_keys (new_inner role tls params rng algo clock)) c -> maps_wf c.
Proof.
  intros Hr. assert (H0 : maps_wf (install_initial_keys (new_inner (env := env) role tls params rng algo clock))).
  { unfold new_inner. destruct (rng_fill rng 32). split; apply om_wf_empty. }
  revert H0. induction Hr as [x | x y z [x' e _] _ IH]; [done |]. intros H. by apply IH, kept_exec.
Qed.

Lemma flush_ends rs c :
  quiescent c -> maps_wf c -> (work c < length rs)%nat ->
  exists r sent c', flush rs c = Some (r, (sent, c')) /\ (length sent + work c' <= work c)%nat.
Proof.
  revert c. induction rs as [| x rs IH]; intros c Hq Hw Hl; [simpl in Hl; lia |]. cbn [flush].
  destruct (poll_transmit c (at_ x) (wall x) []) as [a [out c1]] eqn:E. apply poll_paid in E as (Hq1 & Hw1 & L1); [| done | done].
  destruct a as [addr |]; cbn [is_some Nat.b2n] in L1; [| by eexists _, _, _; split; [reflexivity | cbn [length]; lia]].
  destruct (length out =? 0)%nat; [by eexists _, _, _; split; [reflexivity | cbn [length]; lia] |].
  destruct (send_ok x); [| by eexists _, _, _; split; [reflexivity | cbn [length]; lia]].
  cbn [length] in Hl. destruct (IH c1 Hq1 Hw1 ltac:(lia)) as (r & sent & c2 & E2 & L2). rewrite E2. cbn [mbind option_bind].
  eexists _, _, _. split; [reflexivity |]. cbn [length]. lia.
Qed.

End flush.

(** ** Properties *)

(** C9: Flushing comes to an end: from any state a new connection reaches by calls,
    datagrams, timeouts and transmissions and in which the handshake is over and the
    TLS session has nothing to write, the loop that calls [poll_transmit] until
    nothing is left ends after at most as many datagrams as there is work queued
    (frames, bytes of stream and handshake data, probes, credit to grant, blocked
    limits to report), whatever the clock and the socket do, because every datagram
    uses up some of it. *)
Theorem flush_terminates {env : QuicEnv} role tls0 params rng algo clock (c : Connection env) rs :
  rtc step (install_initial_keys (new_inner role tls0 params rng algo clock)) c ->
  handshake_complete c = true -> write_hs (tls c) = ([], None, tls c) -> (work c < length rs)%nat ->
  exists r sent c', flush rs c = Some (r, (sent, c')) /\ (length sent <= work c)%nat.
Proof.
  intros Hr%reachable_maps Hc Ht Hl. destruct (flush_ends rs c (conj Hc Ht) Hr Hl) as (r & sent & c' & E & L).
  exists r, sent, c'. split; [done | lia].
Qed.

(** An established client with thirty bytes to send on a stream, within the peer's limit of eight bytes. *)
Definition demo_loaded : Connection demo_env :=
  fold_left exec [Transmit 0 0 []; Call CallOpenBidi; Call (CallSend 0 (replicate 30 7) true)] demo_run_start.

Definition demo_patience : list Reading := replicate 100 (mkReading 5 5 true).

Lemma flush_terminates_witness :
  (exists r sent c', flush demo_patience demo_loaded = Some (r, (sent, c')) /\ (length sent <= work demo_loaded)%nat) /\
  match flush demo_patience demo_loaded with Some (_, (sent, _)) => length sent = 2%nat | None => False end.
Proof.
  split; [| vm_compute; reflexivity].
  apply (flush_terminates (env := demo_env) Client
       (mkScriptedTls [([1], Some (KcOneRtt demo_keys 5))] false (Some (encode_transport_params demo_peer_params)))
       (mkConnParams [1; 1; 1; 1; 1; 1; 1; 1] [2; 2; 2; 2; 2; 2; 2; 2] [2; 2; 2; 2; 2; 2; 2; 2] 7 default_params
          default_mtu_config 65536) 0 AlgoNewReno 0 demo_loaded).
  - unfold demo_loaded. cbn [fold_left].
    repeat (eapply rtc_r; [| apply step_event; vm_compute; first [exact I | congruence | reflexivity]]). apply rtc_refl.
  - vm_compute. reflexivity.
  - vm_compute. reflexivity.
  - apply Nat.ltb_lt. vm_compute. reflexivity.
Defined.
