(* ===== verification/ConnWire.v ===== *)
(** * From one connection to the other

    The transmit path of a connection composed with the receive path of its peer:
    which frames a payload that [fill_payload] assembled consists of, and what the
    datagram that carries them does at the receiver. *)

From S2P Require Import Prelude OrdMap CoreTypes Coding FrameCodec ParamsCodec PacketSpace SentPackets.
From S2P Require Import Streams FlowControl Recovery Congestion Bbr CidPool Packet Config Multipath Connection.
From S2P Require Import ConnRecovery ConnHandshake ConnRecv ConnSend ConnFlow ConnSystem ConnFlush.

(** The record a frame leaves in the packet, from which it is sent again. *)
Definition record_of (f : Frame) : list SentFrame :=
  match f with
  | Crypto offset data => [SFCrypto offset data]
  | Stream id offset fin data => [SFStream id offset fin data]
  | Ping => [SFPing]
  | NewConnectionId seq rpt cid token => [SFNewConnectionId seq rpt cid token]
  | RetireConnectionId seq => [SFRetireConnectionId seq]
  | MaxStreams dir max => [SFMaxStreams dir max]
  | StreamsBlocked dir limit => [SFStreamsBlocked dir limit]
  | NewToken token => [SFNewToken token]
  | _ => []
  end.

Definition frames_bytes (fs : list Frame) : list Z := concat (map frame_bytes fs).

Definition frames_eliciting (fs : list Frame) : bool := existsb is_ack_eliciting fs.

Section wire.
Context {env : QuicEnv}.

Notation conn := (Connection env).

(** ** Lemmas: every operation on the payload appends whole frames *)

(** What protecting a 1-RTT packet reads besides the keys. *)
Definition wire_view (c : conn) := (peer_cid c, ps_largest_acked (application c), key_update_pending c).

(** [fs] was appended, none of it PADDING, with its records and its ack-eliciting flag. *)
Record emitted (st st' : Fill) (fs : list Frame) : Prop := {
  em_payload : f_payload st' = f_payload st ++ frames_bytes fs;
  em_frames : f_frames st' = f_frames st ++ flat_map record_of fs;
  em_eliciting : f_eliciting st' = f_eliciting st || frames_eliciting fs;
  em_plain : Forall (fun f => is_padding f = false) fs;
  em_wire : wire_view (f_conn st') = wire_view (f_conn st)
}.

Definition emits (st st' : Fill) : Prop := exists fs, emitted st st' fs.

Lemma emitted_nil st st' :
  f_payload st' = f_payload st -> f_frames st' = f_frames st -> f_eliciting st' = f_eliciting st ->
  wire_view (f_conn st') = wire_view (f_conn st) -> emitted st st' [].
Proof. intros H1 H2 H3 H4. split; [| | | done | done]; simpl; rewrite ?app_nil_r, ?orb_false_r; done. Qed.

Lemma emitted_app st st1 st2 fs gs : emitted st st1 fs -> emitted st1 st2 gs -> emitted st st2 (fs ++ gs).
Proof.
  intros [P1 F1 E1 N1 W1] [P2 F2 E2 N2 W2]. split.
  - rewrite P2, P1. unfold frames_bytes. by rewrite map_app, concat_app, app_assoc.
  - by rewrite F2, F1, flat_map_app, app_assoc.
  - rewrite E2, E1. unfold frames_eliciting. by rewrite existsb_app, orb_assoc.
  - by apply Forall_app.
  - congruence.
Qed.

#[local] Instance emits_preorder : PreOrder emits.
Proof.
  split; [intros st; exists []; by apply emitted_nil |]. intros a b c [fs H1] [gs H2]. exists (fs ++ gs). by eapply emitted_app.
Qed.

Lemma emitted_place st f : is_padding f = false -> emitted st (place st f (record_of f)) [f].
Proof.
  intros Hf. split; [| | | by constructor | done].
  - unfold frames_bytes. simpl. by rewrite app_nil_r, encode_app.
  - simpl. by rewrite app_nil_r.
  - simpl. destruct (is_ack_eliciting f); by rewrite ?orb_true_r, ?orb_false_r.
Qed.

Lemma emits_place st f sent : sent = record_of f -> is_padding f = false -> emits st (place st f sent).
Proof. intros -> Hf. exists [f]. by apply emitted_place. Qed.

Lemma emits_conn st st' (g : conn -> conn) :
  wire_view (g (f_conn st')) = wire_view (f_conn st') -> emits st st' -> emits st (with_conn st' g).
Proof. intros Hw [fs [H1 H2 H3 H4 H5]]. exists fs. split; try done. simpl. congruence. Qed.

Lemma build_ack_frame (s : PacketSpace HeaderKey PacketKey) d a s' :
  build_ack s d = (Some a, s') -> exists largest delay first ranges, a = Ack largest delay first ranges.
Proof.
  unfold build_ack. case_match; [done |]. destruct (ReceivedPackets.to_ack_frame _ _) as [f |] eqn:E; [| done].
  unfold ReceivedPackets.to_ack_frame in E. destruct (last _) as [[low high] |]; simplify_eq/=. intros [= <- _]. by eexists _, _, _, _.
Qed.

Lemma build_ack_acked (s : PacketSpace HeaderKey PacketKey) d a s' :
  build_ack s d = (a, s') -> ps_largest_acked s' = ps_largest_acked s.
Proof. unfold build_ack. repeat case_match; by intros [= _ <-]. Qed.

(** What a payload starts with: at most an ACK frame. *)
Lemma emitted_ack kind st : exists fs, emitted st (fill_ack kind st) fs /\ (fs = [] \/ exists a d f rs, fs = [Ack a d f rs]).
Proof.
  unfold fill_ack. destruct kind;
    (match goal with |- context [build_ack ?s ?d] => destruct (build_ack s d) as [[a |] s'] eqn:E end;
     pose proof (build_ack_acked _ _ _ _ E) as Ha;
     [| exists []; split; [by apply emitted_nil; try done; unfold wire_view; simpl; rewrite ?Ha | by left]]);
    apply build_ack_frame in E as (l & dl & f & rs & ->); (eexists [_]; split; [| right; by eexists _, _, _, _]);
    (split; [| | | by constructor | by unfold wire_view; simpl; rewrite ?Ha]); cbn [place with_conn f_payload f_frames f_eliciting flat_map record_of];
    rewrite ?encode_app, ?app_nil_r, ?orb_false_r; try done; unfold frames_bytes; simpl; by rewrite app_nil_r.
Qed.

Lemma emits_crypto kind budget st : emits st (fill_crypto kind budget st).
Proof.
  unfold fill_crypto. destruct kind; try by apply emits_conn.
  all: destruct (CryptoStream.take_send _ _) as [[[o d] |] s']; [| by apply emits_conn].
  all: etransitivity; [| by apply emits_place]; by apply emits_conn.
Qed.

(** Close a goal about one optional frame: follow the branches, then place it. *)
Ltac emit_one := repeat case_match; try reflexivity; repeat (apply emits_conn; [done |]); try reflexivity;
  first [by apply emits_place | etransitivity; [| by apply emits_place]; repeat (apply emits_conn; [done |]); reflexivity].

Lemma emits_map {V} (es : list (Z * V)) min_room budget frame drop_entry st :
  (forall id v, record_of (frame id v) = [] /\ is_padding (frame id v) = false) ->
  (forall id c, wire_view (drop_entry id c) = wire_view c) ->
  emits st (fill_map es min_room budget frame drop_entry st) /\ emits st (fill_map_break es min_room budget frame drop_entry st).
Proof.
  intros Hf Hd. assert (Hp : forall st id v, emits st (with_conn (place st (frame id v) []) (drop_entry id))).
  { intros st' id v. destruct (Hf id v) as [H1 H2]. apply emits_conn; [apply Hd |]. apply emits_place; [by rewrite H1 | done]. }
  split; revert st; induction es as [| [id v] es IH]; intros st; try reflexivity.
  - unfold fill_map in *. cbn [fold_left]. etransitivity; [| apply IH]. case_match; [apply Hp | reflexivity].
  - cbn [fill_map_break]. case_match; [reflexivity |]. etransitivity; [apply Hp | apply IH].
Qed.

Lemma emits_flow_control budget st : emits st (fill_flow_control_frames budget st).
Proof.
  unfold fill_flow_control_frames.
  assert (H1 : forall st, emits st (fill_max_data budget st)) by (intros; unfold fill_max_data; emit_one).
  assert (H2 : forall st, emits st (fill_data_blocked budget st)) by (intros; unfold fill_data_blocked; emit_one).
  assert (H3 : forall st, emits st (fill_max_stream_data budget st)) by (intros; by apply emits_map).
  assert (H4 : forall st, emits st (fill_stream_data_blocked budget st)) by (intros; by apply emits_map).
  etransitivity; [| apply H4]. etransitivity; [| apply H2]. etransitivity; [apply H1 | apply H3].
Qed.

Lemma emits_new_cids fuel budget st : emits st (fill_new_cids fuel budget st).
Proof.
  revert st. induction fuel as [| fuel IH]; intros st; [reflexivity |]. cbn [fill_new_cids].
  destruct (LocalCidPool.pop_pending_new _) as [[i |] pool]; [| reflexivity]. case_match; [by apply emits_conn |].
  etransitivity; [| apply IH]. etransitivity; [| by apply emits_place]. by apply emits_conn.
Qed.

Lemma emits_retire_cids fuel budget st : emits st (fill_retire_cids fuel budget st).
Proof.
  revert st. induction fuel as [| fuel IH]; intros st; [reflexivity |]. cbn [fill_retire_cids].
  destruct (PeerCidPool.pop_pending_retire _) as [[q |] pool]; [| reflexivity]. case_match; [by apply emits_conn |].
  etransitivity; [| apply IH]. etransitivity; [| by apply emits_place]. by apply emits_conn.
Qed.

Lemma emits_datagrams queue budget st : emits st (fill_datagrams queue budget st).
Proof.
  revert st. induction queue as [| d queue IH]; intros st; [reflexivity |]. cbn [fill_datagrams]. case_match; [reflexivity |].
  etransitivity; [| apply IH]. etransitivity; [| by apply emits_place]. by apply emits_conn.
Qed.

Lemma emits_one_stream budget st id : emits st (fill_one_stream budget st id).
Proof.
  unfold fill_one_stream. destruct (om_get id _) as [s |]; [| reflexivity]. do 2 (case_match; [reflexivity |]).
  match goal with |- context [with_conn st ?g] => transitivity (with_conn st g); [apply emits_conn; [by repeat case_match | done] |]; generalize (with_conn st g) end.
  intros st1. case_match; [reflexivity |]. destruct (SendStream.take _ _) as [[[[o d] fin] |] s']; [| by apply emits_conn].
  apply emits_conn; [unfold charge_flow; by repeat case_match |]. etransitivity; [| by apply emits_place]. by apply emits_conn.
Qed.

Lemma wire_view_blocked c : wire_view (note_blocked_streams c) = wire_view c.
Proof.
  unfold note_blocked_streams. rewrite fold_view.
  - case_match; [| done]. destruct (SendFlowControl.take_blocked _) as [[l |] f]; done.
  - intros a id. case_match; [done |]. destruct (om_get id (stream_send_flow a)) as [flow |]; [| done].
    destruct (StreamSendFlow.take_blocked flow) as [[l |] f]; done.
Qed.

Lemma emits_stream_frames budget st : emits st (fill_stream_frames budget st).
Proof.
  unfold fill_stream_frames. apply emits_conn; [apply wire_view_blocked |]. generalize (om_keys (send_streams (f_conn st))). intros ids.
  revert st. induction ids as [| id ids IH]; intros st; [reflexivity |]. cbn [fill_streams_loop]. case_match; [reflexivity |].
  etransitivity; [apply emits_one_stream | apply IH].
Qed.

Lemma emits_control budget st : emits st (fill_control budget st).
Proof.
  assert (H1 : forall st, emits st (fill_path_response budget st)) by (intros; unfold fill_path_response; emit_one).
  assert (H2 : forall st, emits st (fill_path_challenge budget st)) by (intros; unfold fill_path_challenge; emit_one).
  assert (H3 : forall st, emits st (fill_handshake_done st)) by (intros; unfold fill_handshake_done; emit_one).
  assert (H4 : forall st, emits st (fill_reset_stream_frames budget st)) by (intros; by apply emits_map).
  assert (H5 : forall st, emits st (fill_stop_sending_frames budget st)) by (intros; by apply emits_map).
  assert (H6 : forall d st, emits st (fill_max_streams d budget st)) by (intros []; intros; unfold fill_max_streams; emit_one).
  assert (H7 : forall d st, emits st (fill_streams_blocked d budget st)) by (intros []; intros; unfold fill_streams_blocked; emit_one).
  assert (H8 : forall st, emits st (fill_new_token budget st)) by (intros; unfold fill_new_token; emit_one).
  unfold fill_control.
  etransitivity; [| apply emits_datagrams]. etransitivity; [| apply H8]. do 2 (etransitivity; [| apply H7]).
  do 2 (etransitivity; [| apply H6]). etransitivity; [| apply emits_retire_cids]. etransitivity; [| apply emits_new_cids].
  etransitivity; [| apply H5]. etransitivity; [| apply H4]. etransitivity; [| apply emits_flow_control].
  etransitivity; [| apply H3]. etransitivity; [apply H1 | apply H2].
Qed.

Lemma emits_pings kind st : emits st (fill_pings kind st).
Proof.
  unfold fill_pings.
  match goal with |- context [if 0 <? probes_owed _ then ?x else st] =>
    transitivity (if 0 <? probes_owed (f_conn st) then x else st); [by emit_one |]; generalize (if 0 <? probes_owed (f_conn st) then x else st) end.
  intros st1.
  match goal with |- context [if _ && pending_keep_alive_ping _ then ?x else st1] =>
    transitivity (if bool_decide (kind = SkApplication) && pending_keep_alive_ping (f_conn st1) then x else st1);
    [by emit_one |]; generalize (if bool_decide (kind = SkApplication) && pending_keep_alive_ping (f_conn st1) then x else st1) end.
  intros st2. emit_one.
Qed.

(** The records of a packet are those of its frames; the PING of an MTU probe is
    recorded with the size it probes. *)
Definition carried (fs : list Frame) (sent : list SentFrame) : Prop :=
  sent = flat_map record_of fs \/
  exists before size, fs = before ++ [Ping] /\ sent = flat_map record_of before ++ [SFMtuProbe size].

(** A payload: the frames [fs], none of them PADDING, and [pad] bytes of padding. *)
Record assembled (st : Fill) (fs : list Frame) (pad : nat) : Prop := {
  as_payload : f_payload st = frames_bytes fs ++ replicate pad 0;
  as_carried : carried fs (f_frames st);
  as_eliciting : f_eliciting st = frames_eliciting fs;
  as_plain : Forall (fun f => is_padding f = false) fs
}.

Lemma emitted_assembled c st fs : emitted (mkFill c [] [] false) st fs -> assembled st fs 0 /\ wire_view (f_conn st) = wire_view c.
Proof.
  intros [H1 H2 H3 H4 H5]. split; [| done]. split; [| by left | done | done]. simpl. by rewrite app_nil_r.
Qed.

Lemma assembled_probe c st fs size :
  emitted (mkFill c [] [] false) st fs ->
  exists pad, assembled (fill_mtu_probe size st) (fs ++ [Ping]) pad /\ wire_view (f_conn (fill_mtu_probe size st)) = wire_view c.
Proof.
  intros [H1 H2 H3 H4 H5]. simpl in H1, H2, H3. unfold fill_mtu_probe, pad_to. cbn [place with_conn f_conn f_payload f_frames f_eliciting].
  rewrite encode_app, H1, H2, H3. eexists. split; [split | exact H5]; cbn [f_payload f_frames f_eliciting].
  - unfold frames_bytes. rewrite map_app, concat_app. simpl. reflexivity.
  - right. by exists fs, size.
  - unfold frames_eliciting. rewrite existsb_app. simpl. by rewrite orb_true_r.
  - apply Forall_app. by repeat constructor.
Qed.

Lemma fill_payload_assembled c kind budget :
  exists fs pad, assembled (fill_payload c kind budget) fs pad /\ wire_view (f_conn (fill_payload c kind budget)) = wire_view c.
Proof.
  assert (H0 : emits (mkFill c [] [] false) (fill_crypto kind budget (fill_ack kind (mkFill c [] [] false)))).
  { etransitivity; [| apply emits_crypto]. destruct (emitted_ack kind (mkFill c [] [] false)) as (fs & H & _). by exists fs. }
  unfold fill_payload. revert H0. generalize (fill_crypto kind budget (fill_ack kind (mkFill c [] [] false))). intros st H0.
  assert (Hrest : forall st1, emits st st1 ->
            emits (mkFill c [] [] false) (fill_pings kind (if bool_decide (kind = SkApplication) then fill_application budget st1 else st1))).
  { intros st1 H1. etransitivity; [| apply emits_pings]. etransitivity; [exact H0 |]. etransitivity; [exact H1 |].
    case_match; [| reflexivity]. unfold fill_application. etransitivity; [apply emits_control | apply emits_stream_frames]. }
  assert (Hstop : forall st1, emits (mkFill c [] [] false) st1 -> exists fs pad, assembled st1 fs pad /\ wire_view (f_conn st1) = wire_view c).
  { intros st1 [fs H]. exists fs, 0%nat. by apply emitted_assembled. }
  destruct (probe_mtu (f_conn st)) as [size |]; destruct (bool_decide (kind = SkApplication) && pending_mtu_probe (f_conn st));
    try (apply Hstop, Hrest; first [reflexivity | by apply emits_conn]).
  destruct H0 as [fs H0]. destruct (assembled_probe c st fs size H0) as (pad & H1 & H2). by exists (fs ++ [Ping]), pad.
Qed.

(** ** Lemmas: padding at the receiver *)

Definition pad_frames (n : nat) : list Frame := match n with O => [] | S _ => [Padding (Z.of_nat n)] end.

Lemma pad_frames_bytes fs n : payload_bytes (fs ++ pad_frames n) = frames_bytes fs ++ replicate n 0.
Proof.
  unfold payload_bytes, frames_bytes. rewrite payload_bytes_acc. simpl. rewrite map_app, concat_app. f_equal.
  destruct n; [done |]. cbn [pad_frames map concat]. rewrite app_nil_r. unfold frame_bytes. cbn [encode app]. by rewrite Nat2Z.id.
Qed.

Lemma pad_frames_ok fs n : Forall frame_ok fs -> Forall frame_ok (fs ++ pad_frames n).
Proof. intros H. apply Forall_app. split; [done |]. destruct n; constructor; [simpl; lia | done]. Qed.

Lemma pad_frames_apart fs n : Forall (fun f => is_padding f = false) fs -> no_adjacent_padding (fs ++ pad_frames n) = true.
Proof.
  induction 1 as [| f fs Hf Hr IH]; [by destruct n |]. cbn [app no_adjacent_padding]. destruct (fs ++ pad_frames n) eqn:E; [done |].
  by rewrite Hf, IH.
Qed.

Lemma run_frames_pad c now pt fs n ae : run_frames c now pt (fs ++ pad_frames n) ae = run_frames c now pt fs ae.
Proof.
  revert c ae. induction fs as [| f fs IH]; intros c ae; [by destruct n |]. cbn [app run_frames].
  destruct (handle_frame c now pt f) as [[u | e] c1]; [apply IH | done].
Qed.

Lemma padded_assembled k fs pad :
  exists n, padded k (frames_bytes fs ++ replicate pad 0) = payload_bytes (fs ++ pad_frames n).
Proof.
  unfold padded. eexists (pad + _)%nat. rewrite pad_frames_bytes, replicate_add, app_assoc. reflexivity.
Qed.

(** ** Lemmas: the sender *)

Lemma at_epoch_view k0 s0 hl hr n (c c' : conn) : key_view c' = key_view c -> at_epoch k0 s0 hl hr n c -> at_epoch k0 s0 hl hr n c'.
Proof. intros [= E1 E2 E3 _ E5] [H1 H2 H3 H4]. split; congruence. Qed.

(** The key epoch the next packet is sealed in. *)
Definition send_epoch (c : conn) (n : nat) : nat := if key_update_pending c then S n else n.

Lemma before_short_epoch c now k0 s0 hl hr n :
  at_epoch k0 s0 hl hr n c ->
  at_epoch k0 s0 hl hr (send_epoch c n) (before_short c now) /\ peer_cid (before_short c now) = peer_cid c /\
  ps_largest_acked (application (before_short c now)) = ps_largest_acked (application c) /\
  next_packet_number (application (before_short c now)) = next_packet_number (application c) /\
  cc_view (before_short c now) = cc_view c.
Proof.
  intros He. unfold send_epoch. split.
  - assert (Hk : forall x, at_epoch k0 s0 hl hr (if key_update_pending c then S n else n) x ->
              at_epoch k0 s0 hl hr (if key_update_pending c then S n else n) (x <| key_update_received := false |>)).
    { intros x. by apply at_epoch_view. }
    unfold before_short. apply Hk. destruct (key_update_pending c); [| done].
    by apply (key_update_step c k0 s0 hl hr n now He); right.
  - unfold before_short, initiate_key_update_now, rotate_keys. destruct (key_update_pending c); [| done]. simpl.
    destruct (one_rtt_secrets c) as [sec |]; [| done]. destruct (next_packet_keys sec) as [nk sec']. simpl.
    destruct (next_1rtt_keys c) as [ne |]; [| done]. unfold rotate_to_next_epoch. by destruct (keys (application c)) as [k |].
Qed.

Lemma sent_at_put i s c : (i < length (sent_packets c))%nat -> sent_at (put_sent i s c) i = s.
Proof.
  intros Hi. unfold sent_at. change (sent_packets (put_sent i s c)) with (<[i := s]> (sent_packets c)).
  rewrite sent_at_insert by done. by rewrite decide_True.
Qed.

(** A packet that was built is kept until it is acknowledged or lost. *)
Lemma record_sent_store c now kind pn bytes frames ae :
  length (sent_packets c) = 3%nat -> ae = true \/ frames <> [] ->
  exists p, om_get pn (sent (sent_at (record_sent c now kind pn bytes frames ae) (kind_nat kind))) = Some p /\
            sp_frames p = frames /\ sp_ack_eliciting p = ae.
Proof.
  intros Hl Hr. assert (Hrec : ae || negb (SendStream.is_nil frames) = true).
  { destruct Hr as [-> | Hf]; [done |]. destruct frames; [done |]. by rewrite orb_true_r. }
  unfold record_sent.
  match goal with |- context [(let '(rate_sample, c) := ?x in _)] => assert (Hs : sent_packets x.2 = sent_packets c) by
    (destruct (if is_mtu_probe frames then false else ae); [destruct (ctl_on_packet_sent _ _ _) |]; done); destruct x as [rs c1] end.
  cbn [snd] in Hs. rewrite Hrec.
  match goal with |- context [on_packet_sent _ ?p] => exists p end. split; [| done].
  rewrite sent_at_put by (rewrite Hs, Hl; apply kind_nat_lt). cbn [on_packet_sent sent sp_packet_number].
  by rewrite om_get_insert, Z.eqb_refl.
Qed.

Lemma write_space_room c now kind out short out' c' :
  write_space_packet c now kind out short = (true, (out', c')) -> 64 <= sat_sub (packet_budget c kind) (len out).
Proof. unfold write_space_packet. intros H. destruct (Z.ltb_spec (sat_sub (packet_budget c kind) (len out)) 64); [done | lia]. Qed.

(** The 1-RTT packet [write_space_packet] appends: what it is built from, and its record. *)
Lemma write_short_built c now k0 s0 hl hr n out out' c' :
  at_epoch k0 s0 hl hr n c -> length (sent_packets c) = 3%nat ->
  write_space_packet c now SkApplication out true = (true, (out', c')) ->
  let st := fill_payload c SkApplication (sat_sub (packet_budget c SkApplication) (len out)) in
  let pn := next_packet_number (application c) in
  (exists sz, build_short_packet out
     (mkBuildShort (peer_cid c) pn (ps_largest_acked (application c)) (Nat.odd (send_epoch c n)))
     (f_payload st) (ks_local (keys_at k0 s0 (send_epoch c n))) hl = (out', Ok sz)) /\
  (f_eliciting st = true \/ f_frames st <> [] ->
   exists p, om_get pn (sent (sent_at c' (kind_nat SkApplication))) = Some p /\
             sp_frames p = f_frames st /\ sp_ack_eliciting p = f_eliciting st).
Proof.
  intros He Hl. unfold write_space_packet. set (rem := sat_sub _ _). destruct (rem <? 64); [done |].
  pose proof (fill_view_payload c SkApplication rem) as Hv. destruct (fill_payload_assembled c SkApplication rem) as (_ & _ & _ & Hw).
  revert Hv Hw. generalize (fill_payload c SkApplication rem). intros st Hv Hw.
  apply fill_view_split in Hv as (Hcc & Hpn & Hcore). pose proof (f_equal (fun v => v.1.2) Hcore) as Hkey. cbn [core_view fst snd] in Hkey.
  assert (He1 : at_epoch k0 s0 hl hr n (f_conn st)) by (by eapply at_epoch_view).
  injection Hw as W1 W2 W3. injection Hpn as _ _ P3. injection Hcc as C1 _.
  case_bool_decide; [done |]. destruct (before_short_epoch (f_conn st) now k0 s0 hl hr n He1) as (He2 & B1 & B2 & B3 & B4).
  assert (Hep : send_epoch (f_conn st) n = send_epoch c n) by (unfold send_epoch; by rewrite W3). rewrite Hep in He2.
  revert He2 B1 B2 B3 B4. generalize (before_short (f_conn st) now). intros c2 He2 B1 B2 B3 B4. injection B4 as B4 _.
  unfold seal_short, next_pn, local_keys. cbn [keys]. rewrite (ae_keys _ _ _ _ _ _ He2).
  cbn [fmap option_fmap option_map local dk_header dk_packet ps_largest_acked].
  change (key_phase (c2 <| application := _ |>)) with (key_phase c2). rewrite (ae_phase _ _ _ _ _ _ He2).
  change (peer_cid (c2 <| application := _ |>)) with (peer_cid c2). rewrite B1, B2, B3, W1, W2, P3.
  destruct (build_short_packet out _ _ _ _) as [o [sz | e]]; [| done]. cbn [result_ok is_some]. intros [= <- <-].
  split; [by exists sz |]. apply record_sent_store. cbn [sent_packets]. change (length (sent_packets c2) = 3%nat). by rewrite B4, C1.
Qed.

(** The Initial and Handshake spaces have nothing to send. *)
Definition only_1rtt (c : conn) : bool :=
  negb (has_keys (initial c) && space_has_output c SkInitial) &&
  negb (handshake_keys_ready c && space_has_output c SkHandshake).

Definition flight_view (c : conn) :=
  (wire_view c, (initial c, handshake c), (initial_crypto c, handshake_crypto c), handshake_keys_ready c).

Lemma flight_view_advance c : flight_view (advance_recv_flow c) = flight_view c.
Proof.
  unfold advance_recv_flow. destruct (RecvFlowControl.maybe_update _) as [m f]. rewrite fold_view.
  - by destruct m.
  - intros a id. destruct (om_get id (stream_recv_flow a)) as [flow |]; [| done].
    destruct (StreamRecvFlow.maybe_update flow) as [[x |] g]; done.
Qed.

Lemma only_1rtt_view c c' : flight_view c' = flight_view c -> only_1rtt c' = only_1rtt c.
Proof. intros [= _ _ _ H1 H2 H3 H4 H5]. unfold only_1rtt. cbn [space_has_output]. by rewrite H1, H2, H3, H4, H5. Qed.

(** With nothing else to send, a datagram is one 1-RTT packet. *)
Lemma transmit_one_packet c now addr dg c' :
  only_1rtt c = true -> transmit_packets c now [] = (Some addr, (dg, c')) ->
  exists c1, write_space_packet (advance_recv_flow c) now SkApplication [] true = (true, (dg, c1)) /\
             sent_packets c' = sent_packets c1.
Proof.
  intros Ho. unfold transmit_packets. rewrite <- (only_1rtt_view _ _ (flight_view_advance c)) in Ho.
  revert Ho. generalize (advance_recv_flow c). intros c0 Ho. apply andb_prop in Ho as [H1%negb_true_iff H2%negb_true_iff].
  unfold write_packets. rewrite H1. cbn [andb]. rewrite H2. cbn [negb andb orb].
  destruct (one_rtt_ready c0 && app_space_may_send c0); [| done].
  destruct (write_space_packet c0 now SkApplication [] true) as [[] [o c1]]; [| done].
  cbn [negb]. rewrite andb_false_r. intros [= _ <- <-]. exists c1. split; [done |].
  transitivity (sent_packets (arm_idle_timer c1 now)); [exact (f_equal fst (cc_view_timer (arm_idle_timer c1 now))) |].
  unfold arm_idle_timer, arm_keep_alive. by repeat case_match.
Qed.

(** The same for [poll_transmit]: what the datagram is built from, and the packet's record. *)
Lemma poll_one_packet c now clock k0 s0 hl hr n addr dg c' :
  at_epoch k0 s0 hl hr n c -> length (sent_packets c) = 3%nat ->
  quiescent c -> pending_close c = None -> pending_transport_close c = None -> only_1rtt c = true ->
  poll_transmit c now clock [] = (Some addr, (dg, c')) ->
  let c1 := advance_recv_flow c in
  let st := fill_payload c1 SkApplication (packet_budget c1 SkApplication) in
  let pn := next_packet_number (application c) in
  (exists sz, build_short_packet []
     (mkBuildShort (peer_cid c) pn (ps_largest_acked (application c)) (Nat.odd (send_epoch c n)))
     (f_payload st) (ks_local (keys_at k0 s0 (send_epoch c n))) hl = (dg, Ok sz)) /\
  (f_eliciting st = true \/ f_frames st <> [] ->
   exists p, om_get pn (sent (sent_at c' (kind_nat SkApplication))) = Some p /\
             sp_frames p = f_frames st /\ sp_ack_eliciting p = f_eliciting st).
Proof.
  intros He Hl Hq Hc1 Hc2 Ho Hpoll c1 st pn.
  unfold poll_transmit in Hpoll. rewrite (pump_quiescent c clock Hq), Hc1, Hc2 in Hpoll. cbn [is_some orb] in Hpoll.
  case_bool_decide; [done |]. destruct (transmit_one_packet c now addr dg c' Ho Hpoll) as (c2 & Hw & Hs). fold c1 in Hw.
  destruct (fill_view_split _ _ (fill_view_advance c)) as (A1 & A2 & A3). fold c1 in A1, A2, A3.
  pose proof (flight_view_advance c) as A4. fold c1 in A4. injection A4 as W1 W2 W3 _ _ _ _ _. injection A1 as A1 _. injection A2 as _ _ A2.
  assert (Hse : send_epoch c1 n = send_epoch c n) by (unfold send_epoch; by rewrite W3).
  destruct (write_short_built c1 now k0 s0 hl hr n [] dg c2) as [Hb Hrec]; [| by rewrite A1 | done |].
  { apply (at_epoch_view _ _ _ _ _ c); [| done]. exact (f_equal (fun v => v.1.2) A3). }
  assert (Hbud : sat_sub (packet_budget c1 SkApplication) (len (@nil Z)) = packet_budget c1 SkApplication).
  { pose proof (write_space_room _ _ _ _ _ _ _ Hw) as Hr. unfold sat_sub in Hr |- *. cbn [length] in *. lia. }
  rewrite Hbud in Hb, Hrec. fold st in Hb, Hrec. rewrite Hse, A2, W1, W2 in Hb. rewrite A2 in Hrec.
  split; [exact Hb |]. unfold sent_at. rewrite Hs. exact Hrec.
Qed.

(** ** Lemmas: the receiver *)

(** Bookkeeping of a datagram before its packets are looked at. *)
Definition arrive (r : conn) (now : Z) (dg : list Z) : conn :=
  (arm_idle_timer r now) <| packets_recv ::= fun n => u64_add n 1 |> <| bytes_recv ::= fun n => u64_add n (len dg) |>.

(** The effect of one 1-RTT packet with the frames [fs], first rotating the keys if
    it is the first of the next epoch. *)
Definition deliver (r : conn) (now clock : Z) (update : bool) (pn : Z) (fs : list Frame) : result OxiQuicError unit * conn :=
  let r := if update then perform_key_update r now else r in
  match run_frames (r <| cids_issued_this_packet := [] |>) now PT_Short fs false with
  | (Err e, r) => (Err e, r)
  | (Ok ack_eliciting, r) =>
      (Ok tt, drive_handshake (r <| application ::= fun s => on_packet_received s pn ack_eliciting |>) clock)
  end.

(** A protected short packet: its first byte keeps the form bits, and the plaintext fits in. *)
Lemma build_short_shape ke kd hke hkd p payload dg sz :
  aead_pair ke kd -> hp_pair hke hkd -> build_short_packet [] p payload ke hke = (dg, Ok sz) ->
  (nth 0 dg 0 =? 0) = false /\ (Z.land (nth 0 dg 0) 0x80 =? 0) = true /\ (0 < length dg)%nat /\
  (length (padded (Z.to_nat (packet_number_len (bs_packet_number p) (bs_largest_acked p))) payload) <= length dg)%nat.
Proof.
  intros HA HH Hb. destruct (build_short_concat _ _ _ _ _ _ _ Hb) as [Hf _]. set (k := packet_number_len _ _) in *.
  destruct (pnb_facts (bs_packet_number p) (bs_largest_acked p)) as [Hk Hk4]. fold k in Hk, Hk4.
  destruct (short_first_facts (bs_key_phase p) k (packet_number_len_range _ _)) as (Hu8 & _ & He0 & _).
  destruct (finish_packet_shape _ _ _ _ _ _ _ _ _ _ _ HA HH Hk4 Hf) as (f' & pnb' & x & t & -> & Hl' & Hct & _ & Hhp).
  destruct (hp_high _ _ HH _ _ _ _ _ Hhp Hu8) as [Hh _]. rewrite He0 in Hh.
  split_and!.
  - apply Z.eqb_neq. cbn [app nth]. by intros ->.
  - apply Z.eqb_eq. cbn [app nth]. change 0x80 with (Z.land 0xe0 0x80). by rewrite Z.land_assoc, Hh.
  - simpl. lia.
  - rewrite pn_bytes_length in Hct. rewrite length_app in Hct. rewrite !length_app. lia.
Qed.

Section receiver.
Context `{!LawfulEnv env}.

Lemma datagram_delivered r k0 s0 hl hr n m now clock ke hke p payload fs dg sz :
  at_epoch k0 s0 hl hr n r -> m = n \/ m = S n ->
  aead_pair ke (ks_remote (keys_at k0 s0 m)) -> hp_pair hke hr ->
  length (bs_dcid p) = LOCAL_CID_LEN -> bs_key_phase p = Nat.odd m ->
  pn_in_window (bs_packet_number p) (bs_largest_acked p) (largest_received (application r)) ->
  Forall frame_ok fs -> Forall (fun f => is_padding f = false) fs ->
  (exists pad, payload = frames_bytes fs ++ replicate pad 0) -> len dg <= u64_MAX ->
  build_short_packet [] p payload ke hke = (dg, Ok sz) ->
  exists dg', handle_datagram r now clock dg =
    Some (dg', deliver (arrive r now dg) now clock (bool_decide (m <> n)) (bs_packet_number p) fs).
Proof.
  intros He Hm HA HH Hd Hp Hpn Hok Hpl [pad ->] Hlen Hb.
  destruct (build_short_shape _ _ _ _ _ _ _ _ HA HH Hb) as (Hf0 & Hf8 & Hpos & Hfit).
  set (k := Z.to_nat _) in Hfit. destruct (padded_assembled k fs pad) as [q Hq].
  unfold handle_datagram. fold (arrive r now dg).
  assert (He1 : at_epoch k0 s0 hl hr n (arrive r now dg)).
  { apply (at_epoch_view _ _ _ _ _ r); [| done]. unfold arrive, arm_idle_timer, arm_keep_alive. by repeat case_match. }
  assert (Hap : application (arrive r now dg) = application r) by (unfold arrive, arm_idle_timer, arm_keep_alive; by repeat case_match).
  revert He1 Hap. generalize (arrive r now dg). intros r1 He1 Hap. rewrite <- Hap in Hpn.
  pose proof (short_packet_run r1 k0 s0 hl hr n m now ke hke [] p _ (fs ++ pad_frames q) dg sz He1 Hm HA HH Hd Hp Hpn
    (pad_frames_ok fs q Hok) (pad_frames_apart fs q Hpl) Hq ltac:(rewrite <- Hq; lia) Hb) as Hrun.
  cbv zeta in Hrun. rewrite run_frames_pad in Hrun. cbn [length] in Hrun.
  cbn [datagram_loop]. rewrite (proj2 (Nat.leb_gt _ _)) by lia. rewrite Hf0, Hf8. cbn [negb].
  pose proof (recv_short_progress r1 now dg 0) as Hprog.
  destruct (recv_short_packet r1 now dg 0) as [d [res r2]]. cbn [snd] in Hrun. unfold deliver.
  assert (Hu : (if bool_decide (m <> n) then perform_key_update r1 now else r1) = if decide (m = n) then r1 else perform_key_update r1 now)
    by (case_bool_decide; case_decide; congruence || done).
  rewrite Hu. destruct (run_frames _ now PT_Short fs false) as [[ae | e] r3]; injection Hrun as -> ->; [| by exists d].
  destruct (Hprog d (length dg) _ Hpos eq_refl) as [Hl _]. exists d.
  destruct (length dg); [lia |]. cbn [datagram_loop]. by rewrite Hl, Nat.leb_refl.
Qed.

End receiver.

End wire.

(** ** Properties *)

(** C5: What one side transmits, the other side receives: take a sender whose
    handshake is over and that has only 1-RTT packets to send, and a receiver whose
    read key of the epoch the packet is sealed in (the sender's epoch, or the next
    one when a key update is pending) is its current or its next one.  The datagram
    [poll_transmit] produces carries exactly the frames [fill_payload] assembled,
    and [handle_datagram] at the receiver has exactly the effect of handling those
    frames one after the other, in order and up to the first error, after one key
    update if the epoch is new, and of recording the packet number for
    acknowledgement; padding has no effect.  The sender keeps, under that packet
    number, the record of each frame that is sent again if the packet is lost. *)
Theorem transmitted_frames_delivered {env : QuicEnv} `{!LawfulEnv env} (c r : Connection env)
    kA sA hlA hrA nA kB sB hlB hrB nB now clock now' clock' addr dg c' :
  at_epoch kA sA hlA hrA nA c -> at_epoch kB sB hlB hrB nB r ->
  let e := send_epoch c nA in
  e = nB \/ e = S nB ->
  aead_pair (ks_local (keys_at kA sA e)) (ks_remote (keys_at kB sB e)) -> hp_pair hlA hrB ->
  length (peer_cid c) = LOCAL_CID_LEN -> length (sent_packets c) = 3%nat ->
  let pn := next_packet_number (application c) in
  pn_in_window pn (ps_largest_acked (application c)) (largest_received (application r)) ->
  quiescent c -> pending_close c = None -> pending_transport_close c = None -> only_1rtt c = true ->
  poll_transmit c now clock [] = (Some addr, (dg, c')) -> len dg <= u64_MAX ->
  let c1 := advance_recv_flow c in
  let st := fill_payload c1 SkApplication (packet_budget c1 SkApplication) in
  exists fs pad, assembled st fs pad /\
    (frames_eliciting fs = true \/ f_frames st <> [] ->
     exists p, om_get pn (sent (sent_at c' (kind_nat SkApplication))) = Some p /\
               sp_frames p = f_frames st /\ sp_ack_eliciting p = frames_eliciting fs) /\
    (Forall frame_ok fs ->
     exists dg', handle_datagram r now' clock' dg =
       Some (dg', deliver (arrive r now' dg) now' clock' (bool_decide (e <> nB)) pn fs)).
Proof.
  intros He1 He2 e Hep HA HH Hcid Hl pn Hpn Hq Hc1 Hc2 Ho Hpoll Hlen c1 st.
  destruct (fill_payload_assembled c1 SkApplication (packet_budget c1 SkApplication)) as (fs & pad & Has & _).
  fold st in Has. exists fs, pad. split; [done |].
  destruct (poll_one_packet c now clock kA sA hlA hrA nA addr dg c' He1 Hl Hq Hc1 Hc2 Ho Hpoll) as [[sz Hb] Hrec].
  fold c1 st pn e in Hb, Hrec. split; [by rewrite <- (as_eliciting _ _ _ Has) |].
  intros Hok. rewrite (as_payload _ _ _ Has) in Hb.
  apply (datagram_delivered r kB sB hlB hrB nB e now' clock' _ _ _ _ fs dg sz) in Hb; try done; [by apply (as_plain _ _ _ Has) | by exists pad].
Qed.

(** The client with thirty bytes to send, about to update its keys. *)
Definition demo_sender : Connection demo_env := exec demo_loaded (Call (CallKeyUpdate 1)).

Definition demo_wire_datagram : list Z := (poll_transmit demo_sender 5 5 []).2.1.

Lemma surjective_addr {A B C} (x : option A * (B * C)) a : x.1 = Some a -> x = (Some a, (x.2.1, x.2.2)).
Proof. destruct x as [y [z w]]. cbn [fst snd]. by intros ->. Qed.

Lemma transmitted_frames_delivered_witness :
  (let c1 := advance_recv_flow demo_sender in
   let st := fill_payload c1 SkApplication (packet_budget c1 SkApplication) in
   exists fs pad, assembled st fs pad /\
    (frames_eliciting fs = true \/ f_frames st <> [] ->
     exists p, om_get 0 (sent (sent_at (poll_transmit demo_sender 5 5 []).2.2 (kind_nat SkApplication))) = Some p /\
               sp_frames p = f_frames st /\ sp_ack_eliciting p = frames_eliciting fs) /\
    (Forall frame_ok fs ->
     exists dg', handle_datagram demo_receiver 6 6 demo_wire_datagram =
       Some (dg', deliver (arrive demo_receiver 6 demo_wire_datagram) 6 6 true 0 fs))) /\
  match handle_datagram demo_receiver 6 6 demo_wire_datagram with
  | Some (_, (Ok _, r)) => (read_stream r 0).1 = Ok (replicate 8 7, false) /\ key_update_count r = 1
  | _ => False
  end.
Proof.
  split; [| vm_compute; split; reflexivity].
  apply (transmitted_frames_delivered (env := demo_env) demo_sender demo_receiver (mkKeySet 0x21 0x21) 5 tt tt 0
           (mkKeySet 0x21 0x21) 5 tt tt 0 5 5 6 6 7 demo_wire_datagram (poll_transmit demo_sender 5 5 []).2.2).
  - split; vm_compute; reflexivity.
  - split; vm_compute; reflexivity.
  - right. vm_compute. reflexivity.
  - apply toy_aead_pair.
  - apply toy_hp_pair.
  - vm_compute. reflexivity.
  - vm_compute. reflexivity.
  - unfold pn_in_window. vm_compute. repeat split; congruence.
  - split; vm_compute; reflexivity.
  - vm_compute. reflexivity.
  - vm_compute. reflexivity.
  - vm_compute. reflexivity.
  - unfold demo_wire_datagram. refine (surjective_addr (poll_transmit demo_sender 5 5 []) 7 _). vm_compute. reflexivity.
  - vm_compute. congruence.
Defined.
