(* ===== verification/ConnSize.v ===== *)
(** * How large a packet gets

    The sizes of the frames against the room each operation of [send.rs] checks for,
    the payload against its budget, and the datagram against the MTU. *)

From S2P Require Import Prelude OrdMap CoreTypes Coding FrameCodec ParamsCodec PacketSpace SentPackets.
From S2P Require Import Streams FlowControl Recovery Congestion Bbr CidPool Packet Config Multipath Connection.
From S2P Require Import ConnRecovery ConnHandshake ConnRecv ConnSend ConnFlow ConnSystem ConnFlush ConnWire.

(** ** Lemmas: sizes of frames *)

Lemma varint_bytes_size v : len (varint_bytes v) = varint_size v.
Proof.
  assert (H : len (varint_bytes v) = varint_size (Z.min v VARINT_MAX)).
  { unfold varint_bytes, put_varint. destruct (varint_size_cases (Z.min v VARINT_MAX)) as [E | [E | [E | E]]]; by rewrite E. }
  rewrite H. destruct (Z.le_gt_cases v VARINT_MAX); [by rewrite Z.min_l |]. rewrite Z.min_r by lia.
  rewrite VARINT_MAX_eq in *. unfold varint_size. by rewrite !(proj2 (Z.ltb_ge v _)) by (vm_compute (Z.shiftl _ _); lia).
Qed.

Lemma varint_size_le v : 1 <= varint_size v <= 8.
Proof. destruct (varint_size_cases v) as [-> | [-> | [-> | ->]]]; lia. Qed.

Lemma varint_size_short v : v < 2 ^ 30 -> varint_size v <= 4.
Proof.
  intros Hv. unfold varint_size. do 3 (case_match; [lia |]). change (Z.shiftl 1 30) with (2 ^ 30) in *. lia.
Qed.

(** The most bytes a frame takes, counting eight per variable-length integer but
    the length of its data. *)
Definition frame_room (f : Frame) : Z :=
  match f with
  | Ping | HandshakeDone => 1
  | MaxData _ | DataBlocked _ | RetireConnectionId _ | MaxStreams _ _ | StreamsBlocked _ _ => 9
  | MaxStreamData _ _ | StreamDataBlocked _ _ | StopSending _ _ => 17
  | ResetStream _ _ _ => 25
  | PathChallenge data | PathResponse data => 1 + len data
  | NewConnectionId _ _ cid token => 18 + len cid + len token
  | NewToken data | Datagram data => 1 + varint_size (len data) + len data
  | Crypto _ data => 9 + varint_size (len data) + len data
  | Stream _ _ _ data => 17 + varint_size (len data) + len data
  | _ => len (frame_bytes f)
  end.

(** Close a bound on the encoded length of a frame. *)
Ltac bound_frame :=
  unfold frame_bytes; cbn [encode]; rewrite ?put_varint_app, ?length_app, ?Nat2Z.inj_add, ?varint_bytes_size, ?length_cons;
  repeat match goal with |- context [varint_size ?v] =>
    tryif is_var v then (pose proof (varint_size_le v); generalize dependent (varint_size v); intros)
    else (generalize (varint_size_le v); change (varint_size v) with 1; intros _) end;
  cbn [length]; lia.

Lemma frame_room_bound f : len (frame_bytes f) <= frame_room f.
Proof.
  destruct f as [| | | | | o data | id o fin data | | | | | | | | | | | dir ? | dir ? | data | data |]; cbn [frame_room]; try apply Z.le_refl.
  all: try destruct fin; try destruct dir.
  all: bound_frame.
Qed.

Section sizes.
Context {env : QuicEnv}.

Notation conn := (Connection env).

(** ** Lemmas: payloads stay within their budget *)

(** The arrays of fixed size: path data of eight bytes, reset tokens of sixteen. *)
Record arrays_sized (c : conn) : Prop := {
  as_response : forall data, pending_path_response c = Some data -> length data = 8%nat;
  as_challenge : forall data, pending_path_challenge c = Some data -> length data = 8%nat;
  as_tokens : Forall (fun i => length (ic_token i) = 16%nat) (LocalCidPool.pending_new (local_cid_pool c))
}.

Definition arrays_view (c : conn) :=
  (pending_path_response c, pending_path_challenge c, LocalCidPool.pending_new (local_cid_pool c)).

Lemma arrays_sized_view c c' : arrays_view c' = arrays_view c -> arrays_sized c -> arrays_sized c'.
Proof. intros [= E1 E2 E3] [H1 H2 H3]. by split; rewrite ?E1, ?E2, ?E3. Qed.

(** A step fills the payload up to the budget at most, unless it was beyond it already. *)
Definition fits (budget : Z) (st st' : Fill) : Prop :=
  arrays_sized (f_conn st) -> arrays_sized (f_conn st') /\ len (f_payload st') <= Z.max (len (f_payload st)) budget.

#[local] Instance fits_preorder budget : PreOrder (fits budget).
Proof.
  split; [intros st H; split; [done | lia] |]. intros a b c H1 H2 Ha. destruct (H1 Ha) as [Hb L1]. destruct (H2 Hb) as [Hc L2].
  split; [done | lia].
Qed.

Lemma fits_conn budget st st' (g : conn -> conn) :
  (arrays_sized (f_conn st') -> arrays_sized (g (f_conn st'))) -> fits budget st st' -> fits budget st (with_conn st' g).
Proof. intros Hg H Ha. destruct (H Ha) as [H1 H2]. split; [by apply Hg | done]. Qed.

Lemma fits_place budget st f sent :
  (arrays_sized (f_conn st) -> frame_room f <= avail budget (f_payload st)) -> fits budget st (place st f sent).
Proof.
  intros Hf Ha. split; [done |]. specialize (Hf Ha). pose proof (frame_room_bound f). cbn [place f_payload].
  rewrite encode_app, length_app, Nat2Z.inj_add. unfold avail, sat_sub in Hf. lia.
Qed.

(** Updates that leave the sized arrays alone, or clear one of them. *)
Ltac keeps_arrays := intros [? ? ?]; split; simpl; (done || congruence || intros; congruence).

Ltac room := cbn [frame_room with_conn f_payload] in *; unfold avail, sat_sub in *; lia.

(** Close a goal about one optional frame under a check for room. *)
Ltac fit_one := repeat case_match; try reflexivity;
  repeat (apply fits_conn; [keeps_arrays |]); try reflexivity; try (apply fits_place; intros; room);
  try (etransitivity; [| apply fits_place; intros; room]; repeat (apply fits_conn; [keeps_arrays |]); reflexivity).

Lemma fits_path_response budget st : fits budget st (fill_path_response budget st).
Proof.
  unfold fill_path_response. destruct (pending_path_response _) as [data |] eqn:E; [| reflexivity]. case_match; [| reflexivity].
  apply fits_conn; [keeps_arrays |]. apply fits_place. intros Ha. pose proof (as_response _ Ha data E) as Hd. room.
Qed.

Lemma fits_path_challenge budget st : fits budget st (fill_path_challenge budget st).
Proof.
  unfold fill_path_challenge. case_match; [| reflexivity]. destruct (pending_path_challenge _) as [data |] eqn:E; [| reflexivity].
  case_match; [| reflexivity]. apply fits_conn; [keeps_arrays |]. apply fits_place. intros Ha.
  pose proof (as_challenge _ Ha data E) as Hd. room.
Qed.

Lemma fits_map {V} (es : list (Z * V)) min_room budget frame drop_entry st :
  (forall id v, frame_room (frame id v) <= min_room + 1) ->
  (forall id c, arrays_sized c -> arrays_sized (drop_entry id c)) ->
  fits budget st (fill_map es min_room budget frame drop_entry st) /\
  fits budget st (fill_map_break es min_room budget frame drop_entry st).
Proof.
  intros Hf Hd. assert (Hp : forall st id v, (min_room <? avail budget (f_payload st)) = true ->
                        fits budget st (with_conn (place st (frame id v) []) (drop_entry id))).
  { intros st' id v Hm. apply fits_conn; [apply Hd |]. apply fits_place. intros _. specialize (Hf id v). lia. }
  split; revert st; induction es as [| [id v] es IH]; intros st; try reflexivity.
  - unfold fill_map in *. cbn [fold_left]. etransitivity; [| apply IH]. case_match; [by apply Hp | reflexivity].
  - cbn [fill_map_break]. case_match eqn:E; [reflexivity |]. apply negb_false_iff in E. etransitivity; [by apply Hp | apply IH].
Qed.

Lemma fits_flow_control budget st : fits budget st (fill_flow_control_frames budget st).
Proof.
  unfold fill_flow_control_frames.
  assert (H1 : forall st, fits budget st (fill_max_data budget st)) by (intros; unfold fill_max_data; fit_one).
  assert (H2 : forall st, fits budget st (fill_data_blocked budget st)) by (intros; unfold fill_data_blocked; fit_one).
  assert (H3 : forall st, fits budget st (fill_max_stream_data budget st)) by (intros; apply fits_map; [by intros | intros ? ?; keeps_arrays]).
  assert (H4 : forall st, fits budget st (fill_stream_data_blocked budget st)) by (intros; apply fits_map; [by intros | intros ? ?; keeps_arrays]).
  etransitivity; [| apply H4]. etransitivity; [| apply H2]. etransitivity; [apply H1 | apply H3].
Qed.

Lemma fits_new_cids fuel budget st : fits budget st (fill_new_cids fuel budget st).
Proof.
  revert st. induction fuel as [| fuel IH]; intros st; [reflexivity |]. cbn [fill_new_cids]. unfold LocalCidPool.pop_pending_new.
  destruct (LocalCidPool.pending_new (local_cid_pool (f_conn st))) as [| i tl] eqn:E; [reflexivity |]. case_match eqn:Er.
  - apply fits_conn; [| reflexivity]. intros [H1 H2 H3]. split; simpl; [done | done | by rewrite E in H3].
  - etransitivity; [| apply IH]. set (st1 := with_conn st _).
    assert (H1 : fits budget st st1).
    { apply fits_conn; [| reflexivity]. intros [H1 H2 H3]. rewrite E in H3. split; simpl; [done | done | by apply Forall_inv_tail in H3]. }
    intros Ha. pose proof (as_tokens _ Ha) as Ht. rewrite E in Ht. apply Forall_inv in Ht.
    apply (fits_place budget st1); [| by apply H1]. intros _. subst st1. room.
Qed.

Lemma fits_retire_cids fuel budget st : fits budget st (fill_retire_cids fuel budget st).
Proof.
  revert st. induction fuel as [| fuel IH]; intros st; [reflexivity |]. cbn [fill_retire_cids].
  destruct (PeerCidPool.pop_pending_retire _) as [[q |] pool]; [| reflexivity]. case_match.
  - apply fits_conn; [keeps_arrays | reflexivity].
  - etransitivity; [| apply IH]. etransitivity; [| apply fits_place; intros; room]. apply fits_conn; [keeps_arrays | reflexivity].
Qed.

Lemma fits_datagrams queue budget st : fits budget st (fill_datagrams queue budget st).
Proof.
  revert st. induction queue as [| d queue IH]; intros st; [reflexivity |]. cbn [fill_datagrams]. case_match; [reflexivity |].
  etransitivity; [| apply IH]. etransitivity; [| apply fits_place; intros; room]. apply fits_conn; [keeps_arrays | reflexivity].
Qed.

Lemma take_data_le s max offset data fin s' :
  SendStream.take s max = (Some (offset, data, fin), s') -> len data <= Z.max 0 max.
Proof.
  unfold SendStream.take. intros H. repeat case_match; simplify_eq; rewrite ?length_take; simpl length in *; lia.
Qed.

Lemma fits_one_stream budget st id :
  budget < 2 ^ 30 -> 0 < sat_sub (avail budget (f_payload st)) 24 -> fits budget st (fill_one_stream budget st id).
Proof.
  intros Hb Hroom. unfold fill_one_stream. destruct (om_get id _) as [s |]; [| reflexivity]. do 2 (case_match; [reflexivity |]).
  set (room := sat_sub _ 24) in *.
  match goal with |- context [with_conn st ?g] => assert (H1 : fits budget st (with_conn st g)) by
    (apply fits_conn; [apply arrays_sized_view; by repeat case_match | reflexivity]); set (st1 := with_conn st g) in * end.
  assert (Hp : f_payload st1 = f_payload st) by done. clearbody st1.
  set (take := stream_credit _ _ _ _). assert (Ht : take <= room) by (subst take; unfold stream_credit; case_match; lia).
  case_match; [exact H1 |]. destruct (SendStream.take s take) as [[[[o d] fin] |] s'] eqn:E;
    [| apply fits_conn; [keeps_arrays | exact H1]].
  apply take_data_le in E. apply fits_conn; [apply arrays_sized_view; unfold charge_flow; by repeat case_match |].
  etransitivity; [apply fits_conn; [| exact H1] | apply fits_place; intros _]; [keeps_arrays |].
  assert (Hd : len d < 2 ^ 30) by (subst room; unfold avail, sat_sub in *; lia).
  pose proof (varint_size_short (len d) Hd). subst room. cbn [frame_room with_conn f_payload]. rewrite Hp.
  unfold avail, sat_sub in *. lia.
Qed.

Lemma arrays_view_blocked c : arrays_view (note_blocked_streams c) = arrays_view c.
Proof.
  unfold note_blocked_streams. rewrite fold_view.
  - case_match; [| done]. destruct (SendFlowControl.take_blocked _) as [[l |] f]; done.
  - intros a id. case_match; [done |]. destruct (om_get id (stream_send_flow a)) as [flow |]; [| done].
    destruct (StreamSendFlow.take_blocked flow) as [[l |] f]; done.
Qed.

Lemma fits_stream_frames budget st : budget < 2 ^ 30 -> fits budget st (fill_stream_frames budget st).
Proof.
  intros Hb. unfold fill_stream_frames. apply fits_conn; [apply arrays_sized_view, arrays_view_blocked |].
  generalize (om_keys (send_streams (f_conn st))). intros ids. revert st.
  induction ids as [| id ids IH]; intros st; [reflexivity |]. cbn [fill_streams_loop]. case_match eqn:E; [reflexivity |].
  etransitivity; [apply fits_one_stream; [done |] | apply IH]. apply Z.eqb_neq in E. unfold sat_sub in *. lia.
Qed.

(** The same with [k] bytes placed without a check for room. *)
Definition fits_but (k budget : Z) (st st' : Fill) : Prop :=
  arrays_sized (f_conn st) -> arrays_sized (f_conn st') /\ len (f_payload st') <= Z.max (len (f_payload st)) budget + k.

Lemma fits_but_after k budget st st1 st2 : 0 <= k -> fits_but k budget st st1 -> fits budget st1 st2 -> fits_but k budget st st2.
Proof. intros Hk H1 H2 Ha. destruct (H1 Ha) as [Hb L1]. destruct (H2 Hb) as [Hc L2]. split; [done | lia]. Qed.

Lemma fits_but_trans k1 k2 budget st st1 st2 :
  0 <= k1 -> 0 <= k2 -> fits_but k1 budget st st1 -> fits_but k2 budget st1 st2 -> fits_but (k1 + k2) budget st st2.
Proof. intros Hk1 Hk2 H1 H2 Ha. destruct (H1 Ha) as [Hb L1]. destruct (H2 Hb) as [Hc L2]. split; [done | lia]. Qed.

Lemma fits_fits_but budget st st' : fits budget st st' -> fits_but 0 budget st st'.
Proof. intros H Ha. destruct (H Ha) as [H1 H2]. split; [done | lia]. Qed.

Lemma fits_but_handshake_done budget st : fits_but 1 budget st (fill_handshake_done st).
Proof.
  unfold fill_handshake_done. case_match; intros Ha; [| split; [done | lia]]. split; [by apply (arrays_sized_view (f_conn st)) |].
  cbn [with_conn place f_payload]. rewrite encode_app, length_app. pose proof (frame_room_bound HandshakeDone). simpl frame_room in *. lia.
Qed.

Lemma fits_but_control budget st : fits_but 1 budget st (fill_control budget st).
Proof.
  assert (H4 : forall st, fits budget st (fill_reset_stream_frames budget st)) by (intros; apply fits_map; [by intros | intros ? ?; keeps_arrays]).
  assert (H5 : forall st, fits budget st (fill_stop_sending_frames budget st)) by (intros; apply fits_map; [by intros | intros ? ?; keeps_arrays]).
  assert (H6 : forall d st, fits budget st (fill_max_streams d budget st)) by (intros []; intros; unfold fill_max_streams; fit_one).
  assert (H7 : forall d st, fits budget st (fill_streams_blocked d budget st)) by (intros []; intros; unfold fill_streams_blocked; fit_one).
  assert (H8 : forall st, fits budget st (fill_new_token budget st)) by (intros; unfold fill_new_token; fit_one).
  unfold fill_control. eapply fits_but_after; [lia | |].
  - eapply (fits_but_trans 0 1); [lia | lia | | apply fits_but_handshake_done]. apply fits_fits_but.
    etransitivity; [apply fits_path_response | apply fits_path_challenge].
  - etransitivity; [| apply fits_datagrams]. etransitivity; [| apply H8]. do 2 (etransitivity; [| apply H7]).
    do 2 (etransitivity; [| apply H6]). etransitivity; [| apply fits_retire_cids]. etransitivity; [| apply fits_new_cids].
    etransitivity; [| apply H5]. etransitivity; [| apply H4]. apply fits_flow_control.
Qed.

Lemma len_ping (st : Fill) sent : len (f_payload (place st Ping sent)) = len (f_payload st) + 1.
Proof. cbn [place f_payload]. rewrite encode_app, length_app. change (length (frame_bytes Ping)) with 1%nat. lia. Qed.

(** At most two PINGs end a payload. *)
Lemma pings_size kind st : len (f_payload (fill_pings kind st)) <= len (f_payload st) + 2.
Proof.
  unfold fill_pings.
  match goal with |- context [if 0 <? probes_owed _ then ?x else st] =>
    assert (H1 : len (f_payload (if 0 <? probes_owed (f_conn st) then x else st)) <= len (f_payload st) + 1 /\
                 (f_eliciting (if 0 <? probes_owed (f_conn st) then x else st) = false ->
                  len (f_payload (if 0 <? probes_owed (f_conn st) then x else st)) = len (f_payload st)));
    [| generalize dependent (if 0 <? probes_owed (f_conn st) then x else st)] end.
  { case_match; [| split; [lia | done]]. cbn [with_conn f_payload f_eliciting]. case_match; [rewrite len_ping; split; [lia | done] |].
    split; [lia | done]. }
  intros st1 [L1 E1]. destruct (_ && pending_keep_alive_ping _).
  - match goal with |- context [with_conn ?x ?g] => set (st2 := with_conn x g) end.
    assert (He : f_eliciting st2 = true) by done. assert (Hl : len (f_payload st2) = len (f_payload st1) + 1) by apply (len_ping st1 [SFPing]).
    rewrite He, andb_false_r. lia.
  - case_match eqn:E; [| lia]. rewrite len_ping. apply andb_prop in E as [_ E%negb_true_iff]. rewrite E1 by done. lia.
Qed.

(** Bytes the ACK frame of the next 1-RTT packet takes. *)
Definition ack_size (c : conn) : Z := len (f_payload (fill_ack SkApplication (mkFill c [] [] false))).

Lemma ack_leaves st c : f_conn st = f_conn (fill_ack SkApplication (mkFill c [] [] false)) ->
  pending_mtu_probe (f_conn st) = pending_mtu_probe c /\ probe_mtu (f_conn st) = probe_mtu c /\ arrays_view (f_conn st) = arrays_view c.
Proof. intros ->. unfold fill_ack. destruct (build_ack _ _) as [[a |] s']; done. Qed.

Lemma payload_size c :
  let budget := packet_budget c SkApplication in
  budget < 2 ^ 30 -> arrays_sized c ->
  len (f_payload (fill_payload c SkApplication budget)) <= Z.max budget (ack_size c) + 3.
Proof.
  intros budget Hb Ha. unfold fill_payload, ack_size.
  assert (Hc : fill_crypto SkApplication budget (fill_ack SkApplication (mkFill c [] [] false)) = fill_ack SkApplication (mkFill c [] [] false))
    by (unfold fill_crypto; by destruct (fill_ack _ _)).
  rewrite Hc. destruct (ack_leaves _ c eq_refl) as (P1 & P2 & P3). revert P1 P2 P3.
  generalize (fill_ack SkApplication (mkFill c [] [] false)). intros st P1 P2 P3.
  assert (Hrest : forall st1, f_payload st1 = f_payload st -> arrays_sized (f_conn st1) ->
            len (f_payload (fill_pings SkApplication (fill_application budget st1))) <= Z.max budget (len (f_payload st)) + 3).
  { intros st1 Hp1 Ha1. pose proof (pings_size SkApplication (fill_application budget st1)) as Hpi.
    destruct (fits_but_after 1 budget st1 (fill_control budget st1) (fill_application budget st1)) as [_ L];
      [lia | apply fits_but_control | by apply fits_stream_frames | done |]. rewrite Hp1 in L. lia. }
  assert (Hs : arrays_sized (f_conn st)) by (by eapply arrays_sized_view).
  rewrite bool_decide_true by done. cbn [andb]. subst budget. unfold packet_budget in *. rewrite P1, P2 in *.
  destruct (probe_mtu c) as [size |]; destruct (pending_mtu_probe c); cbn [unwrap_or] in *;
    try (apply Hrest; [done | first [done | by apply (arrays_sized_view (f_conn st))]]).
  unfold fill_mtu_probe, pad_to. cbn [f_payload with_conn]. rewrite length_app, length_replicate, Nat2Z.inj_add, len_ping.
  unfold sat_sub, SHORT_HDR_OVERHEAD, LOCAL_CID_LEN. lia.
Qed.

(** ** Lemmas: the packet around a payload *)

Lemma build_short_size ke kd hke hkd out p payload dg sz :
  aead_pair ke kd -> hp_pair hke hkd -> build_short_packet out p payload ke hke = (dg, Ok sz) ->
  let k := packet_number_len (bs_packet_number p) (bs_largest_acked p) in
  len dg = len out + 1 + len (bs_dcid p) + k + Z.max (len payload) (4 - k) + 16.
Proof.
  intros HA HH Hb k. destruct (build_short_concat _ _ _ _ _ _ _ Hb) as [Hf _]. fold k in Hf.
  destruct (pnb_facts (bs_packet_number p) (bs_largest_acked p)) as [Hk Hk4]. fold k in Hk, Hk4.
  destruct (finish_packet_shape _ _ _ _ _ _ _ _ _ _ _ HA HH Hk4 Hf) as (f' & pnb' & x & t & -> & Hl' & Hct & _).
  unfold padded in Hct. rewrite !length_app, length_replicate in Hct. rewrite !length_app. cbn [length]. lia.
Qed.

Lemma advance_leaves c :
  (application (advance_recv_flow c), pending_mtu_probe (advance_recv_flow c), arrays_view (advance_recv_flow c)) =
  (application c, pending_mtu_probe c, arrays_view c).
Proof.
  unfold advance_recv_flow. destruct (RecvFlowControl.maybe_update _) as [m f].
  rewrite (fold_view (fun x => (application x, pending_mtu_probe x, arrays_view x))).
  - by destruct m.
  - intros a id. destruct (om_get id (stream_recv_flow a)) as [flow |]; [| done].
    destruct (StreamRecvFlow.maybe_update flow) as [[x |] g]; done.
Qed.

End sizes.

(** ** Properties *)

(** C20: The size of a 1-RTT datagram: it is the payload plus the header (first byte,
    the peer's connection ID, the packet number) and the 16-byte tag, with padding up
    to the header-protection sample.  The payload stays within its budget, the whole
    MTU (or the probed size), but for an ACK frame that is larger on its own and three
    bytes of HANDSHAKE_DONE and PING frames that are placed without a check.  So a
    datagram exceeds the larger of the two by at most 24 bytes and the length of the
    connection ID, and the room for header and tag is not set aside: a full packet is
    larger than the MTU. *)
Theorem datagram_size {env : QuicEnv} (c : Connection env) k0 s0 hl hr n kd hkd now clock addr dg c' :
  at_epoch k0 s0 hl hr n c ->
  aead_pair (ks_local (keys_at k0 s0 (send_epoch c n))) kd -> hp_pair hl hkd ->
  length (sent_packets c) = 3%nat -> arrays_sized c -> packet_budget c SkApplication < 2 ^ 30 ->
  quiescent c -> pending_close c = None -> pending_transport_close c = None -> only_1rtt c = true ->
  poll_transmit c now clock [] = (Some addr, (dg, c')) ->
  let c1 := advance_recv_flow c in
  let payload := f_payload (fill_payload c1 SkApplication (packet_budget c1 SkApplication)) in
  let pn_len := packet_number_len (next_packet_number (application c)) (ps_largest_acked (application c)) in
  len dg = 1 + len (peer_cid c) + pn_len + Z.max (len payload) (4 - pn_len) + 16 /\
  len payload <= Z.max (packet_budget c SkApplication) (ack_size c) + 3 /\
  len dg <= Z.max (packet_budget c SkApplication) (ack_size c) + 24 + len (peer_cid c).
Proof.
  intros He HA HH Hl Ha Hb Hq Hc1 Hc2 Ho Hpoll c1 payload pn_len.
  destruct (poll_one_packet c now clock k0 s0 hl hr n addr dg c' He Hl Hq Hc1 Hc2 Ho Hpoll) as [[sz Hbuild] _].
  pose proof (build_short_size _ _ _ _ _ _ _ _ _ HA HH Hbuild) as Hsz. cbn [bs_dcid bs_packet_number bs_largest_acked length] in Hsz.
  fold c1 in Hsz. fold payload pn_len in Hsz.
  pose proof (advance_leaves c) as Hv. fold c1 in Hv. injection Hv as V1 V2 V3 V4 V5.
  pose proof (f_equal (fun v => v.2.2) (fill_view_advance c)) as Hm. fold c1 in Hm. cbn [fill_view snd] in Hm. injection Hm as M1 _ M3.
  assert (Hbud : packet_budget c1 SkApplication = packet_budget c SkApplication) by (unfold packet_budget; by rewrite V2, M1, M3).
  assert (Hack : ack_size c1 = ack_size c).
  { unfold ack_size, fill_ack. cbn [f_conn]. rewrite V1. by destruct (build_ack _ _) as [[a |] s']. }
  pose proof (payload_size c1 ltac:(by rewrite Hbud)) as Hp.
  assert (Hsized : arrays_sized c1) by (apply (arrays_sized_view c); [unfold arrays_view; congruence | done]).
  specialize (Hp Hsized). fold payload in Hp. rewrite Hbud, Hack in Hp.
  pose proof (packet_number_len_range (next_packet_number (application c)) (ps_largest_acked (application c))) as Hk. fold pn_len in Hk.
  split_and!; lia.
Qed.

(** An established client with two thousand bytes to send and credit for them. *)
Definition demo_full : Connection demo_env :=
  let c := fold_left exec [Transmit 0 0 []; Call CallOpenBidi; Call (CallSend 0 (replicate 2000 7) false)] demo_run_start in
  let c := (handle_frame c 1 PT_Short (MaxData 5000)).2 in
  (handle_frame c 1 PT_Short (MaxStreamData 0 5000)).2.

Definition demo_full_sent := poll_transmit demo_full 5 5 [].

(** Its first datagram has 1207 bytes at an MTU of 1200. *)
Lemma datagram_size_witness :
  (len demo_full_sent.2.1 = 1 + 8 + 1 + Z.max (len (f_payload (fill_payload (advance_recv_flow demo_full) SkApplication
       (packet_budget (advance_recv_flow demo_full) SkApplication)))) 3 + 16 /\
   len (f_payload (fill_payload (advance_recv_flow demo_full) SkApplication
       (packet_budget (advance_recv_flow demo_full) SkApplication))) <= Z.max 1200 (ack_size demo_full) + 3 /\
   len demo_full_sent.2.1 <= Z.max 1200 (ack_size demo_full) + 24 + 8) /\
  current_mtu demo_full = 1200 /\ 1200 < len demo_full_sent.2.1.
Proof.
  split; [| vm_compute; split; reflexivity].
  apply (datagram_size (env := demo_env) demo_full (mkKeySet 0x21 0x21) 5 tt tt 0 0x21 tt 5 5 7 demo_full_sent.2.1 demo_full_sent.2.2).
  - split; vm_compute; reflexivity.
  - apply toy_aead_pair.
  - apply toy_hp_pair.
  - vm_compute. reflexivity.
  - split; [vm_compute; congruence | vm_compute; congruence |]. apply (bool_decide_unpack _). vm_compute. exact I.
  - vm_compute. reflexivity.
  - split; vm_compute; reflexivity.
  - vm_compute. reflexivity.
  - vm_compute. reflexivity.
  - vm_compute. reflexivity.
  - unfold demo_full_sent. refine (surjective_addr (poll_transmit demo_full 5 5 []) 7 _). vm_compute. reflexivity.
Defined.
