(* ===== verification/ConnHonest.v ===== *)
(** * What a sender puts on the wire

    The stream data a connection sends, against what its application wrote: the send
    streams with their retransmission queues, the records of the packets in flight
    and the STREAM frames of every payload, over any sequence of events; and with the
    receiving side, the bytes that one application writes and the other reads. *)

From S2P Require Import Prelude OrdMap CoreTypes Coding FrameCodec ParamsCodec PacketSpace SentPackets.
From S2P Require Import Streams FlowControl Recovery Congestion Bbr CidPool Packet Config Multipath Connection.
From S2P Require Import ConnRecovery ConnHandshake ConnRecv ConnSend ConnFlow ConnSystem ConnDelivery ConnFlush ConnWire.

(** ** Lemmas: one send stream *)

(** The stream [ct] from offset [o] on continues with [d]; [f] marks its end. *)
Definition part_of (ct : list Z) (o : Z) (d : list Z) (f : bool) : Prop := ev_ok ct (EvRecv o d f).

Definition stream_true (ct : list Z) (s : SendStream.t) : Prop :=
  SendStream.is_reset s = true \/
  (part_of ct (SendStream.base s) (SendStream.buf s) (SendStream.fin s) /\
   Forall (fun g => part_of ct (SendStream.rs_offset g) (SendStream.rs_data g) (SendStream.rs_fin g)) (SendStream.resend s)).

Lemma seg_at_app ct o d e : seg_at ct o d -> seg_at ct (o + len d) e -> seg_at ct o (d ++ e).
Proof.
  intros (H0 & H1 & E1) (H2 & H3 & E2). unfold seg_at. rewrite length_app, Nat2Z.inj_add. split_and!; [done | lia |].
  rewrite Z.add_assoc, <- (bytes_of_app ct o (o + len d)) by lia. congruence.
Qed.

Lemma seg_at_nil ct o : 0 <= o <= len ct -> seg_at ct o [].
Proof. intros H. unfold seg_at. cbn [length]. rewrite Z.add_0_r, bytes_of_nil. split_and!; [lia | lia | done]. Qed.

Lemma stream_true_new ct : stream_true ct SendStream.new.
Proof. right. split; [| by constructor]. split; [apply seg_at_nil; simpl; lia | done]. Qed.

Lemma stream_true_reset ct s code : stream_true ct (SendStream.reset s code).
Proof. by left. Qed.

Lemma stream_true_requeue ct s o d f : stream_true ct s -> part_of ct o d f -> stream_true ct (SendStream.requeue s o d f).
Proof.
  intros [H | [H1 H2]] Hp; [by left |]. right. split; [done |]. cbn [SendStream.requeue SendStream.resend].
  apply Forall_app. split; [done |]. by constructor.
Qed.

(** Writing on: the data continues the stream, and nothing follows its end. *)
Lemma stream_true_write ct s data f :
  len ct < 2 ^ 62 -> stream_true ct s ->
  (SendStream.is_reset s = false -> part_of ct (SendStream.final_size s) data f) -> stream_true ct (SendStream.write s data f).
Proof.
  intros Hct [H | [[Hs Hf] Hr]] Hw; [by left |]. destruct (SendStream.is_reset s) eqn:E; [by left |]. specialize (Hw eq_refl).
  right. split; [| done]. destruct Hs as (H0 & H1 & E1). unfold SendStream.final_size in Hw.
  rewrite u64_add_small in Hw by (unfold is_u64; lia). destruct Hw as [Hd Hdf]. cbn [SendStream.write SendStream.base SendStream.buf SendStream.fin].
  split; [by apply seg_at_app |]. rewrite length_app, Nat2Z.inj_add. destruct Hd as (_ & Hd & _).
  destruct f; [intros _; specialize (Hdf eq_refl); lia |]. intros Hfin. specialize (Hf Hfin). lia.
Qed.

Lemma stream_true_take ct s max o d f s' :
  len ct < 2 ^ 62 -> 0 < max -> stream_true ct s -> SendStream.take s max = (Some (o, d, f), s') ->
  part_of ct o d f /\ stream_true ct s'.
Proof.
  intros Hct Hmax Hs. unfold SendStream.take. destruct (SendStream.reset_code s) as [x |] eqn:Er; [done |].
  destruct Hs as [Hs | [[Hb Hbf] Hr]]; [unfold SendStream.is_reset in Hs; by rewrite Er in Hs |].
  destruct (SendStream.resend s) as [| front rest] eqn:Ef.
  - destruct (SendStream.buf s) as [| x l] eqn:Eb.
    + destruct (SendStream.fin s && negb (SendStream.fin_sent s)) eqn:E; [| done]. apply andb_prop in E as [E _].
      intros [= <- <- <- <-]. specialize (Hbf E). assert (Hp : part_of ct (SendStream.base s) [] true) by (split; [done | by intros _]).
      split; [exact Hp |]. right. split; [by rewrite <- E in Hp | by constructor].
    + set (n := Z.min max (len (x :: l))). assert (Hn : 0 < n <= len (x :: l)) by (subst n; simpl; lia).
      rewrite (proj2 (Z.eqb_neq n 0)) by lia. intros [= <- <- <- <-]. clearbody n. revert Hb Hbf Hn. generalize (x :: l). intros b Hb Hbf Hn.
      pose proof Hb as (H0 & H1 & _). assert (Hl : len (take (Z.to_nat n) b) = n) by (rewrite length_take; lia).
      assert (Hd : len (drop (Z.to_nat n) b) = len b - n) by (rewrite length_drop; lia).
      split; [split; [apply seg_at_take; [done | lia] |] |].
      * intros [E1 E2]%andb_prop. specialize (Hbf E1). rewrite Hl. destruct (drop (Z.to_nat n) b); [| done]. simpl in Hd. lia.
      * right. cbn [SendStream.base SendStream.buf SendStream.fin SendStream.resend]. rewrite u64_add_small by (unfold is_u64; lia).
        split; [| by constructor]. split; [apply seg_at_drop; [done | lia] |]. rewrite Hd. intros E. specialize (Hbf E). lia.
  - rewrite (proj2 (Z.eqb_neq max 0)) by lia. apply Forall_cons in Hr as [[Hfs Hff] Hrest].
    destruct (Z.leb_spec (len (SendStream.rs_data front)) max); intros [= <- <- <- <-]; [by split; [| right] |].
    pose proof Hfs as (H0 & H1 & _). split; [split; [apply seg_at_take; [done | lia] | done] |]. right. split; [done |].
    cbn [SendStream.resend]. constructor; [| done]. cbn [SendStream.rs_offset SendStream.rs_data SendStream.rs_fin].
    rewrite u64_add_small by (unfold is_u64; lia). split; [apply seg_at_drop; [done | lia] |].
    rewrite length_drop. intros E. specialize (Hff E). lia.
Qed.

Section honest_sender.
Context {env : QuicEnv}.

Notation conn := (Connection env).

Context (contents : Z -> list Z) (Hcontents : forall id, len (contents id) < 2 ^ 62).

(** ** The invariant *)

Definition record_true (f : SentFrame) : Prop :=
  match f with SFStream id o fin d => part_of (contents id) o d fin | _ => True end.

(** Every stream and every record of a packet in flight holds parts of the contents;
    no data waits for 0-RTT. *)
Record truthful (c : conn) : Prop := {
  tr_send : forall id s, om_get id (send_streams c) = Some s -> stream_true (contents id) s;
  tr_sent : forall store p f, store ∈ sent_packets c -> p ∈ om_values (sent store) -> f ∈ sp_frames p -> record_true f;
  tr_early : early_data_buf c = []
}.

(** ** Lemmas: how a step may change it *)

Lemma truthful_step c c' :
  truthful c -> early_data_buf c' = early_data_buf c ->
  (forall id s, om_get id (send_streams c') = Some s -> om_get id (send_streams c) = Some s \/ stream_true (contents id) s) ->
  (forall store p f, store ∈ sent_packets c' -> p ∈ om_values (sent store) -> f ∈ sp_frames p ->
     (exists store', store' ∈ sent_packets c /\ p ∈ om_values (sent store')) \/ record_true f) ->
  truthful c'.
Proof.
  intros [T1 T2 T3] He Hs Hp. split; [| | by rewrite He].
  - intros id s Hg. destruct (Hs id s Hg) as [H | H]; [by apply T1 | done].
  - intros store p f H1 H2 H3. destruct (Hp store p f H1 H2 H3) as [(store' & G1 & G2) | H]; [by apply (T2 store' p f) | done].
Qed.

Lemma truthful_calm c c' : calm c c' -> truthful c -> truthful c'.
Proof.
  intros [[= E1 _ _ _ E2] E3] Ht. apply (truthful_step c); [done | done | rewrite E1; by left |].
  intros store p f H1 H2 _. left. exists store. by rewrite <- E3.
Qed.

Lemma truthful_quiet c c' : quiet c c' -> truthful c -> truthful c'.
Proof. intros [H _]. by apply truthful_calm. Qed.

Lemma truthful_stream c c' id s :
  truthful c -> stream_true (contents id) s -> send_streams c' = om_insert id s (send_streams c) ->
  sent_packets c' = sent_packets c -> early_data_buf c' = early_data_buf c -> truthful c'.
Proof.
  intros Ht Hs E1 E2 E3. apply (truthful_step c); [done | done | |].
  - intros j t. rewrite E1, om_get_insert. destruct (Z.eqb_spec j id) as [-> |]; [| by left]. intros [= <-]. by right.
  - intros store p f H1 H2 _. left. exists store. by rewrite <- E2.
Qed.

Lemma sent_at_elem c i : (i < length (sent_packets c))%nat -> sent_at c i ∈ sent_packets c.
Proof.
  intros Hl. apply list_elem_of_lookup_2 with i. unfold sent_at. apply lookup_lt_is_Some in Hl as [s Hs].
  rewrite Hs. f_equal. symmetry. by apply nth_lookup_Some.
Qed.

(** ** Lemmas: filling a payload *)

Definition fill_true (st : Fill) : Prop := truthful (f_conn st) /\ Forall record_true (f_frames st).

Lemma credit_nonneg (c : conn) id room r : 0 <= room -> 0 <= stream_credit c id room r.
Proof.
  intros Hr. unfold stream_credit. case_match; [done |]. unfold SendFlowControl.available, StreamSendFlow.available, sat_sub.
  destruct (om_get id (stream_send_flow c)); simpl; lia.
Qed.

Lemma fill_true_one b st id : fill_true st -> fill_true (fill_one_stream b st id).
Proof.
  intros [Ht Hfr]. unfold fill_one_stream. destruct (om_get id (send_streams (f_conn st))) as [s |] eqn:Es; [| done].
  do 2 (case_match; [done |]). set (room := sat_sub _ 24). pose proof (tr_send _ Ht id s Es) as Hs.
  match goal with |- context [with_conn st ?g] => assert (H1 : truthful (f_conn (with_conn st g)) /\ f_frames (with_conn st g) = f_frames st);
    [split; [| done]; cbn [with_conn f_conn]; case_match; [done |]; by apply (truthful_step (f_conn st)); [| | by left | by left; eexists] |];
    generalize dependent (with_conn st g) end.
  intros st1 [Ht1 Hf1]. set (n := stream_credit _ _ _ _). assert (Hn : 0 <= n) by (apply credit_nonneg; subst room; unfold sat_sub; lia).
  destruct (Z.eqb_spec n 0); [by split; [| rewrite Hf1] |].
  destruct (SendStream.take s n) as [[[[o d] fin] |] s'] eqn:E.
  - destruct (stream_true_take (contents id) s n o d fin s') as [Hp Hs']; [done | lia | done | done |].
    split; cbn [with_conn place f_conn f_frames].
    + apply (truthful_stream (f_conn st1) _ id s'); unfold charge_flow; repeat case_match; done.
    + rewrite Hf1. apply Forall_app. split; [done |]. by constructor.
  - assert (s' = s) as -> by (unfold SendStream.take in E; repeat case_match; by simplify_eq).
    split; [| by cbn [with_conn f_frames]; rewrite Hf1]. by apply (truthful_stream (f_conn st1) _ id s).
Qed.

Lemma fill_true_loop ids b st : fill_true st -> fill_true (fill_streams_loop ids b st).
Proof.
  revert st. induction ids as [| id ids IH]; intros st Hst; [done |]. cbn [fill_streams_loop]. case_match; [done |].
  by apply IH, fill_true_one.
Qed.

Lemma wide_truthful c c' : wide_view c' = wide_view c -> truthful c -> truthful c'.
Proof. intros H. apply truthful_calm. split; [exact (f_equal snd H) | exact (f_equal (fun v => v.1.1.1.1) H)]. Qed.

Lemma plain_true l : Forall (fun f => is_plain f = true) l -> Forall record_true l.
Proof. intros Hl. eapply Forall_impl; [exact Hl |]. by intros []. Qed.

Lemma plain_fill_true c st : wide_view (f_conn st) = wide_view c -> truthful c -> no_streams st -> fill_true st.
Proof. intros Hv Ht Hn. split; [by eapply wide_truthful | by apply plain_true]. Qed.

Lemma blocked_truthful c : truthful c -> truthful (note_blocked_streams c).
Proof.
  intros Ht. assert (H : (send_streams (note_blocked_streams c), sent_packets (note_blocked_streams c), early_data_buf (note_blocked_streams c))
                      = (send_streams c, sent_packets c, early_data_buf c)).
  { unfold note_blocked_streams. rewrite (fold_view (fun c => (send_streams c, sent_packets c, early_data_buf c))).
    - case_match; [| done]. destruct (SendFlowControl.take_blocked _) as [[l |] f]; done.
    - intros a id. case_match; [done |]. destruct (om_get id (stream_send_flow a)) as [flow |]; [| done].
      destruct (StreamSendFlow.take_blocked flow) as [[l |] f]; done. }
  injection H as E1 E2 E3. apply (truthful_step c); [done | done | rewrite E1; by left |].
  intros store p f H1 H2 _. left. exists store. by rewrite <- E2.
Qed.

Lemma fill_true_payload c kind b : truthful c -> fill_true (fill_payload c kind b).
Proof.
  intros Hok. unfold fill_payload. set (st := fill_crypto _ _ _).
  assert (Hv : wide_view (f_conn st) = wide_view c) by (subst st; by rewrite wview_crypto, wview_ack).
  assert (Hns : no_streams st) by apply crypto_plain. clearbody st.
  assert (Hmain : forall st1, wide_view (f_conn st1) = wide_view c -> no_streams st1 ->
            fill_true (fill_pings kind (if bool_decide (kind = SkApplication) then fill_application b st1 else st1))).
  { intros st1 Hv1 Hns1. set (st2 := if bool_decide _ then _ else _).
    assert (H2 : fill_true st2).
    { subst st2. case_match; [| by eapply plain_fill_true]. unfold fill_application, fill_stream_frames.
      assert (H3 : fill_true (fill_control b st1)).
      { apply (plain_fill_true c); [by rewrite wview_control | done | by apply no_streams_control]. }
      revert H3. generalize (fill_control b st1). intros st2 H3.
      destruct (fill_true_loop (om_keys (send_streams (f_conn st2))) b st2 H3) as [H4 H5].
      split; [by apply blocked_truthful | exact H5]. }
    clearbody st2. destruct H2 as [T2 F2]. destruct (fill_pings_frames kind st2) as (l & El & Fl).
    split; [by apply (wide_truthful (f_conn st2)); [apply wview_pings |] |]. rewrite El. apply Forall_app. split; [done | by apply plain_true]. }
  destruct (probe_mtu (f_conn st)) as [sz |]; destruct (bool_decide (kind = SkApplication) && pending_mtu_probe (f_conn st));
    try (apply Hmain; done).
  destruct (plain_fill_true c st Hv Hok Hns) as [T F]. split; [by apply (wide_truthful (f_conn st)) |].
  unfold fill_mtu_probe. cbn [place with_conn f_frames]. apply Forall_app. split; [done |]. by constructor.
Qed.

(** So every STREAM frame of the payload is honest. *)
Lemma payload_honest c kind b fs pad :
  truthful c -> assembled (fill_payload c kind b) fs pad -> Forall (honest contents) fs.
Proof.
  intros Ht [_ Hc _ _]. destruct (fill_true_payload c kind b Ht) as [_ Hfr].
  assert (H : forall gs, Forall record_true (flat_map record_of gs) -> Forall (honest contents) gs).
  { induction gs as [| g gs IH]; [by constructor |]. cbn [flat_map]. intros [H1 H2]%Forall_app. constructor; [| by apply IH].
    destruct g; try done. by apply Forall_inv in H1. }
  destruct Hc as [-> | (before & size & -> & Hc)] in Hfr |- *; [by apply H |].
  rewrite Hc in Hfr. apply Forall_app in Hfr as [Hfr _]. apply Forall_app. split; [by apply H | by repeat constructor].
Qed.

(** ** Lemmas: packets *)

Lemma record_truthful c now kind pn bytes frames ae :
  truthful c -> Forall record_true frames -> truthful (record_sent c now kind pn bytes frames ae).
Proof.
  intros Ht Hfr. unfold record_sent.
  match goal with |- truthful (let '(rs, c) := ?x in _) => assert (Hq : quiet c x.2) end.
  { destruct (if is_mtu_probe frames then false else ae); [| done]. destruct (ctl_on_packet_sent _ _ _) as [r cc]. done. }
  match goal with |- truthful (let '(rs, c) := ?x in _) => destruct x as [rs c2] end. cbn [snd] in Hq.
  pose proof (truthful_quiet _ _ Hq Ht) as Ht2. destruct (ae || _); [| done].
  set (p := mkSentPacket _ _ _ _ _ _ _). apply (truthful_step c2); [done | done | by left |].
  intros store q f Hst Hq' Hf. unfold put_sent in Hst. simpl in Hst.
  apply list_elem_of_lookup_1 in Hst as [i Hi]. apply list_lookup_insert_Some in Hi as [(<- & <- & Hl) | [_ Hi]].
  - apply om_values_insert_elem in Hq' as [-> | Hq'].
    + right. rewrite Forall_forall in Hfr. by apply Hfr.
    + left. exists (sent_at c2 (kind_nat kind)). split; [| done]. by apply sent_at_elem.
  - left. exists store. split; [by eapply list_elem_of_lookup_2 | done].
Qed.

Lemma write_space_truthful c now kind out short :
  truthful c -> truthful (write_space_packet c now kind out short).2.2.
Proof.
  intros Ht. unfold write_space_packet. set (rem := sat_sub _ _). destruct (rem <? 64); [done |].
  pose proof (fill_true_payload c kind rem Ht) as Hf. revert Hf. generalize (fill_payload c kind rem). intros st [Hst Hfr].
  destruct (bool_decide (f_payload st = [])); [done |].
  set (c1 := if short then before_short (f_conn st) now else f_conn st).
  assert (Q1 : quiet (f_conn st) c1) by (subst c1; case_match; [apply quiet_before_short | done]). clearbody c1.
  match goal with |- context [let '(sealed, c) := ?x in _] => assert (Q2 : quiet c1 x.2) end.
  { destruct short; [apply quiet_seal_short |]. destruct kind; [apply quiet_seal_long | apply quiet_seal_long | done]. }
  match goal with |- context [let '(sealed, c) := ?x in _] => destruct x as [sealed c2] end. cbn [snd] in Q2.
  pose proof (truthful_quiet _ _ Q2 (truthful_quiet _ _ Q1 Hst)) as Ht2.
  destruct sealed as [[pn [o []]] |]; [by apply record_truthful | exact Ht2 | exact Ht2].
Qed.

Lemma write_if_truthful c now kind out short (g : bool) :
  truthful c -> truthful (if g then write_space_packet c now kind out short else (false, (out, c))).2.2.
Proof. intros Ht. destruct g; [by apply write_space_truthful | done]. Qed.

(** ** What is sealed during a transmission *)

Definition space_fill (c : conn) (kind : SpaceKind) (out : list Z) (g : bool) : list Fill :=
  let remaining := sat_sub (packet_budget c kind) (len out) in
  if g && negb (remaining <? 64) then [fill_payload c kind remaining] else [].

(** The payloads of [write_packets], in its order. *)
Definition packets_fills (c : conn) (now : Z) (out : list Z) : list Fill :=
  let g1 := has_keys (initial c) && space_has_output c SkInitial in
  let f1 := space_fill c SkInitial out g1 in
  let '(wrote_initial, (out, c)) := if g1 then write_space_packet c now SkInitial out false else (false, (out, c)) in
  let g2 := handshake_keys_ready c && space_has_output c SkHandshake in
  let f2 := space_fill c SkHandshake out g2 in
  let '(wrote_hs, (out, c)) := if g2 then write_space_packet c now SkHandshake out false else (false, (out, c)) in
  let '(wrote_early, (out, c)) :=
    if wrote_initial && negb (one_rtt_ready c) then write_zero_rtt_packet c out else (false, (out, c)) in
  let g3 := negb wrote_initial && one_rtt_ready c && app_space_may_send c in
  f1 ++ f2 ++ space_fill c SkApplication out g3.

Definition transmit_fills (c : conn) (now clock : Z) (out : list Z) : list Fill :=
  let c := pump_write_hs c clock in
  if bool_decide (state c = Closed) then []
  else if is_some (pending_transport_close c) || is_some (pending_close c) then
    match emit_close c out with
    | (Some _, _) => []
    | (None, (out, c)) => packets_fills (advance_recv_flow c) now out
    end
  else packets_fills (advance_recv_flow c) now out.

(** The frames of a packet that is sealed when [e] happens in the state [c]. *)
Inductive seals (c : conn) : event -> list Frame -> Prop :=
| seals_payload now clock out st fs pad :
    st ∈ transmit_fills c now clock out -> assembled st fs pad -> seals c (Transmit now clock out) fs
| seals_close now clock out f :
    (take_close_frame (pump_write_hs c clock)).1 = Some f -> seals c (Transmit now clock out) [f].

(** ** Lemmas: transmissions *)

(** Follow the packets of a datagram, each time with the invariant at hand. *)
Ltac next_packet := match goal with
  | |- context [let '(w, p) := (if ?g then write_space_packet ?c0 ?now ?k ?o ?sh else ?e) in _] =>
      let H := fresh in assert (H := write_if_truthful c0 now k o sh g ltac:(assumption));
      destruct (if g then write_space_packet c0 now k o sh else e) as [? [? ?]]; cbn [snd] in H
  | |- context [let '(w, p) := (if ?g then write_zero_rtt_packet ?c0 ?o else ?e) in _] =>
      let H := fresh in assert (H : quiet c0 (if g then write_zero_rtt_packet c0 o else e).2.2)
        by (destruct g; [apply zero_rtt_quiet | done]);
      destruct (if g then write_zero_rtt_packet c0 o else e) as [? [? ?]]; cbn [snd] in H;
      apply truthful_quiet in H; [| assumption] end.

Lemma packets_truthful c now out : truthful c -> truthful (write_packets c now out).2.2.
Proof. intros Ht. unfold write_packets. repeat next_packet. assumption. Qed.

Lemma space_fill_true c kind out g : truthful c -> Forall (fun st => exists c' k b, truthful c' /\ st = fill_payload c' k b) (space_fill c kind out g).
Proof. intros Ht. unfold space_fill. case_match; [| by constructor]. constructor; [by eexists _, _, _ | by constructor]. Qed.

Lemma packets_fills_true c now out : truthful c -> Forall (fun st => exists c' k b, truthful c' /\ st = fill_payload c' k b) (packets_fills c now out).
Proof.
  intros Ht. unfold packets_fills. repeat next_packet. repeat (apply Forall_app; split); by apply space_fill_true.
Qed.

Lemma transmit_truthful c now out : truthful c -> truthful (transmit_packets c now out).2.2.
Proof.
  intros Ht. unfold transmit_packets. pose proof (truthful_quiet _ _ (advance_quiet c) Ht) as H1.
  pose proof (packets_truthful (advance_recv_flow c) now out H1) as H2.
  destruct (write_packets (advance_recv_flow c) now out) as [[wi wa] [o c1]]. cbn [snd] in H2.
  destruct (negb wa); [done |]. cbn [snd]. eapply truthful_quiet; [| exact H2].
  unfold set_loss_detection_timer, arm_idle_timer, arm_keep_alive. repeat case_match; done.
Qed.

Lemma capture_truthful c : truthful c -> truthful (capture_peer_params c).
Proof.
  intros Ht. apply (truthful_step c); [done | | |]; unfold capture_peer_params, apply_peer_params; repeat case_match; try done; try by left.
  all: intros store p f H3 H4 _; left; by exists store.
Qed.

Lemma early_truthful c : truthful c -> truthful (settle_early_data c).
Proof.
  intros Ht. pose proof (tr_early _ Ht) as He. unfold settle_early_data. case_match; [| done]. case_match; [| done].
  change (early_data_buf (c <| zero_rtt_accepted := _ |>)) with (early_data_buf c).
  rewrite He. cbn [SendStream.is_nil negb]. rewrite andb_false_r. cbn [fold_left].
  apply (truthful_step c); [done | by rewrite He | by left |]. intros store p f H1 H2 _. left. by exists store.
Qed.

Lemma pump_truthful c clock : truthful c -> truthful (pump_write_hs c clock).
Proof.
  intros Hok. unfold pump_write_hs. apply (truthful_quiet _ _ (pump_loop_quiet (S (key_changes_left (tls c))) c)) in Hok.
  revert Hok. generalize (pump_loop (S (key_changes_left (tls c))) c). intros c1 Hok.
  unfold refresh_handshake_complete. destruct (negb _ && _); [| done]. set (c2 := become_established _ clock).
  assert (H2 : truthful c2).
  { eapply truthful_quiet; [apply established_quiet |]. by eapply truthful_quiet; [| exact Hok]. }
  apply capture_truthful, early_truthful in H2. eapply truthful_quiet; [| exact H2]. unfold schedule_new_token. by case_match.
Qed.

Lemma poll_truthful c now clock out : truthful c -> truthful (poll_transmit c now clock out).2.2.
Proof.
  intros Hok%(pump_truthful _ clock). unfold poll_transmit. revert Hok. generalize (pump_write_hs c clock). intros c1 H1.
  case_bool_decide; [done |]. destruct (is_some _ || is_some _); [| by apply transmit_truthful].
  pose proof (close_quiet c1 out) as Hq. destruct (emit_close c1 out) as [[a |] [o c2]]; cbn [snd] in Hq;
    pose proof (truthful_quiet _ _ Hq H1) as H2; [by eapply truthful_quiet; [| exact H2] | by apply transmit_truthful].
Qed.

(** Whatever is sealed is honest. *)
Lemma seals_honest c e fs :
  truthful c -> seals c e fs -> Forall (honest contents) fs /\ Forall (fun f => is_padding f = false) fs.
Proof.
  intros Ht [now clock out st gs pad Hst Has | now clock out f Hf].
  - split; [| by apply (as_plain _ _ _ Has)]. apply (pump_truthful _ clock) in Ht.
    assert (H : exists c' k b, truthful c' /\ st = fill_payload c' k b).
    { unfold transmit_fills in Hst. revert Hst Ht. generalize (pump_write_hs c clock). intros c1 Hst Ht.
      assert (Hp : forall x o, truthful x -> st ∈ packets_fills (advance_recv_flow x) now o -> exists c' k b, truthful c' /\ st = fill_payload c' k b).
      { intros x o Hx Hin. pose proof (packets_fills_true (advance_recv_flow x) now o (truthful_quiet _ _ (advance_quiet x) Hx)) as H.
        rewrite Forall_forall in H. by apply H. }
      case_bool_decide; [by apply elem_of_nil in Hst |]. destruct (is_some _ || is_some _); [| by eapply Hp].
      pose proof (close_quiet c1 out) as Hq. destruct (emit_close c1 out) as [[a |] [o c2]]; [by apply elem_of_nil in Hst |].
      cbn [snd] in Hq. by eapply Hp; [eapply truthful_quiet |]. }
    destruct H as (c' & k & b & Hc' & ->). by eapply payload_honest.
  - unfold take_close_frame in Hf. repeat case_match; simplify_eq/=; split; by apply Forall_singleton.
Qed.

(** ** Lemmas: acknowledgements, loss and timers *)

Lemma put_fewer_truthful c idx s :
  (forall p, p ∈ om_values (sent s) -> p ∈ om_values (sent (sent_at c idx))) -> truthful c -> truthful (put_sent idx s c).
Proof.
  intros Hs Ht. apply (truthful_step c); [done | done | by left |]. intros store p f Hst Hp _. left.
  unfold put_sent in Hst. simpl in Hst. apply list_elem_of_lookup_1 in Hst as [i Hi].
  apply list_lookup_insert_Some in Hi as [(<- & <- & Hl) | [_ Hi]].
  - exists (sent_at c idx). split; [by apply sent_at_elem | by apply Hs].
  - exists store. split; [by eapply list_elem_of_lookup_2 | done].
Qed.

Lemma sent_at_true c idx p f : truthful c -> p ∈ om_values (sent (sent_at c idx)) -> f ∈ sp_frames p -> record_true f.
Proof.
  intros Ht Hp. unfold sent_at in Hp. destruct (sent_packets c !! idx) as [s |] eqn:E.
  - rewrite (nth_lookup_Some _ _ _ _ E) in Hp. apply (tr_sent c Ht s); [by eapply list_elem_of_lookup_2 | done].
  - rewrite nth_overflow in Hp by (by apply lookup_ge_None). by apply elem_of_nil in Hp.
Qed.

Lemma requeue_truthful idx c f : truthful c -> record_true f -> truthful (requeue_frame c idx f).
Proof.
  intros Ht Hf. destruct f; unfold requeue_frame; try (repeat case_match; (eapply truthful_calm; [| exact Ht]); done).
  destruct (om_get id (send_streams c)) as [s |] eqn:E; [| done].
  apply (truthful_stream c _ id (SendStream.requeue s offset data fin)); try done.
  apply stream_true_requeue; [by apply (tr_send c Ht) | done].
Qed.

Lemma lost_truthful idx c f : truthful c -> record_true f -> truthful (handle_lost_frame idx c f).
Proof.
  intros Ht Hf. unfold handle_lost_frame. destruct f; try by apply requeue_truthful.
  eapply truthful_calm; [| exact Ht]. unfold on_mtu_probe_lost. repeat case_match; done.
Qed.

Lemma fold_truthful {A} (g : conn -> A -> conn) (P : A -> Prop) l c :
  (forall c a, truthful c -> P a -> truthful (g c a)) -> Forall P l -> truthful c -> truthful (fold_left g l c).
Proof. intros Hg Hl. revert c. induction Hl as [| a l Ha _ IH]; intros c Ht; [done |]. apply IH. by apply Hg. Qed.

Lemma lost_packets_truthful idx ps c :
  Forall (fun p => Forall record_true (sp_frames p)) ps -> truthful c ->
  truthful (fold_left (fun c p => fold_left (handle_lost_frame idx) (sp_frames p) c) ps c).
Proof.
  apply fold_truthful. intros c1 p H1 Hp. revert Hp H1. apply fold_truthful. intros c2 f H2 Hf. by apply lost_truthful.
Qed.

Lemma loss_truthful c idx now : truthful c -> truthful (detect_and_handle_loss c idx now).
Proof.
  intros Ht. unfold detect_and_handle_loss. pose proof (detect_lost_subset (sent_at c idx) now (Rtt.loss_delay (rtt c))) as Hsub.
  destruct (detect_lost _ _ _) as [[lost next] store].
  assert (Hfr : Forall (fun p => Forall record_true (sp_frames p)) lost).
  { apply Forall_forall. intros p Hp. apply Forall_forall. intros f Hf. apply (sent_at_true c idx p); [done | | done].
    apply Hsub, elem_of_app. by left. }
  set (c1 := (put_sent idx store c) <| loss ::= _ |>).
  assert (H1 : truthful c1).
  { eapply truthful_quiet; [| apply (put_fewer_truthful c idx store); [| exact Ht]]; [done |].
    intros p Hp. apply Hsub, elem_of_app. by right. }
  clearbody c1. destruct lost as [| p0 ps]; [done |]. revert Hfr. generalize (p0 :: ps). intros l Hfr.
  destruct (lost_summary l) as [[bytes newest] oldest].
  set (c2 := c1 <| packets_lost ::= _ |>). assert (H2 : truthful c2) by (by eapply truthful_quiet; [| exact H1]).
  apply (lost_packets_truthful idx l c2 Hfr) in H2.
  revert H2. generalize (fold_left (fun c p => fold_left (handle_lost_frame idx) (sp_frames p) c) l c2). intros c3 H3.
  eapply truthful_quiet; [| exact H3]. repeat case_match; done.
Qed.

Lemma ack_truthful c now pt largest delay first_range ranges :
  truthful c -> truthful (process_ack c now pt largest delay first_range ranges).
Proof.
  intros Ht. unfold process_ack. set (idx := space_index pt).
  assert (H1 : truthful (record_largest_acked c pt largest)) by (eapply truthful_quiet; [| exact Ht]; by destruct pt).
  revert H1. generalize (record_largest_acked c pt largest). intros c1 H1.
  pose proof (on_ack_subset (sent_at c1 idx) largest first_range (map (fun r => (ar_gap r, ar_range r)) ranges)) as Hsub.
  destruct (on_ack _ _ _ _) as [o store]. cbn [snd] in Hsub.
  pose proof (put_fewer_truthful c1 idx store Hsub H1) as H2. revert H2. generalize (put_sent idx store c1). intros c2 H2.
  destruct (newly_acked o) as [| p0 ps]; [done |]. generalize (p0 :: ps). intros acked.
  eapply truthful_quiet; [apply timer_quiet |]. apply loss_truthful.
  apply (fold_truthful _ (fun _ => True)); [| by apply Forall_forall |].
  - intros c3 p H3 _. apply (fold_truthful _ (fun _ => True)); [| by apply Forall_forall | done].
    intros c4 f H4 _. eapply truthful_calm; [| exact H4]. unfold on_acked_frame, on_mtu_probe_acked. repeat case_match; done.
  - eapply truthful_calm; [| exact H2]. unfold sample_rtt_on_ack. repeat case_match; done.
Qed.

Lemma probe_truthful c : truthful c -> truthful (requeue_for_probe c).
Proof.
  intros Ht. unfold requeue_for_probe. apply (fold_truthful _ (fun _ => True)); [| by apply Forall_forall | done].
  intros c1 idx H1 _. destruct (oldest_ack_eliciting_frames (sent_at c1 idx)) as [fs |] eqn:E; [| done].
  apply (fold_truthful _ record_true); [| | done].
  - intros c2 f H2 Hf. by apply requeue_truthful.
  - unfold oldest_ack_eliciting_frames in E. destruct (head _) as [p |] eqn:Eh; [| done]. injection E as <-.
    apply Forall_forall. intros f Hf. apply (sent_at_true c1 idx p); [done | | done].
    apply head_Some_elem_of in Eh. by apply list_elem_of_filter in Eh as [_ Eh].
Qed.

Lemma timeout_truthful c now : truthful c -> truthful (handle_timeout c now).
Proof.
  intros Hok. unfold handle_timeout. destruct (match idle_deadline c with Some d => _ | None => _ end).
  { eapply truthful_quiet; [| exact Hok]. by case_match. }
  assert (Hk : quiet c (keep_alive_timeout c now)) by (unfold keep_alive_timeout; repeat case_match; done).
  apply (truthful_quiet _ _ Hk) in Hok. revert Hok. generalize (keep_alive_timeout c now). intros c1 H1.
  assert (Hm : forall x, calm x (mtu_timeout x now)).
  { intros x. unfold mtu_timeout, schedule_mtu_probe. destruct (next_mtu_probe x); [| done]. destruct (_ && _); [| done].
    destruct (_ || _ || _); [done |]. by destruct (next_probe_size x). }
  eapply truthful_calm; [apply Hm |]. unfold loss_timeout. destruct (loss_timer c1); [| done]. case_match; [| done].
  unfold on_loss_timeout, on_pto_expiry.
  assert (Hp : truthful (set_loss_detection_timer (if is_some (earliest_ack_eliciting_across_spaces c1) then requeue_for_probe (owe_probes c1) else c1))).
  { eapply truthful_quiet; [apply timer_quiet |]. case_match; [| done]. apply probe_truthful. by eapply truthful_quiet; [| exact H1]. }
  destruct (LossDetection.earliest_loss_time (loss c1)) as [[t sp] |]; [| done]. destruct (t <=? now); [| done].
  eapply truthful_quiet; [apply timer_quiet |]. by apply loss_truthful.
Qed.

(** ** Lemmas: received frames and datagrams, from any peer *)

Lemma touch_truthful c id : truthful c -> truthful (touch_stream c id).
Proof.
  intros Ht. unfold touch_stream. set (c1 := if negb _ && _ then _ else c).
  assert (H1 : truthful c1) by (subst c1; eapply truthful_calm; [| exact Ht]; by case_match). clearbody c1.
  case_bool_decide; [| by eapply truthful_calm; [| exact H1]].
  apply (truthful_step c1); [done | done | |].
  - intros j s. simpl. unfold or_insert. destruct (om_contains id (send_streams c1)); [by left |].
    rewrite om_get_insert. destruct (Z.eqb_spec j id); [| by left]. intros [= <-]. right. apply stream_true_new.
  - intros store p f G1 G2 _. left. by exists store.
Qed.

Lemma stop_truthful c id code : truthful c -> truthful (recv_stop_sending c id code).
Proof.
  intros Ht. unfold recv_stop_sending. destruct (om_get id (send_streams c)) as [s |] eqn:E; [| done].
  case_match; [| by eapply truthful_quiet; [| exact Ht]].
  apply (truthful_stream c _ id (SendStream.reset s (unwrap_or (SendStream.reset_code s) code))); try done. apply stream_true_reset.
Qed.

Lemma frame_truthful c now pt f : truthful c -> truthful (handle_frame c now pt f).2.
Proof.
  intros Ht. assert (Hq : forall c', quiet c c' -> truthful c') by (intros; by eapply truthful_quiet).
  assert (Hs : forall c', send_streams c' = send_streams c -> sent_packets c' = sent_packets c -> early_data_buf c' = early_data_buf c -> truthful c').
  { intros c' E1 E2 E3. apply (truthful_step c); [done | done | rewrite E1; by left |]. intros store p g G1 G2 _. left. exists store. by rewrite <- E2. }
  destruct f; unfold handle_frame; try (by apply Hq).
  - by apply ack_truthful.
  - by apply stop_truthful.
  - apply Hq. unfold recv_crypto. destruct pt; try done;
      destruct (CryptoStream.recv _ _ _) as [[bytes |] s]; try done; simpl; destruct (read_hs _ _) as [[] t]; done.
  - unfold recv_stream. apply (truthful_quiet (touch_stream c id)); [| by apply touch_truthful].
    destruct (RecvStream.is_reset _); [done |]. destruct (RecvStream.recv _ _ _ _) as [[[] s] | []]; done.
  - by apply Hs.
  - by apply Hs.
  - apply Hq. unfold recv_path_response. repeat case_match; done.
  - apply Hq. by case_match.
  - apply Hq. case_match; [done |]. by case_match.
  - unfold recv_retire_connection_id. case_match; [done |]. case_match; [done |].
    destruct (LocalCidPool.handle_peer_retirement _ _) as [[x |] pool]; [| by apply Hq]. cbn [snd].
    eapply truthful_quiet; [apply issue_quiet | by apply Hq].
  - apply Hq. destruct dir; by case_match.
  - apply Hq. destruct dir; simpl; by case_match.
  - apply Hq. unfold recv_new_token. case_match; [done |]. by case_match.
  - apply Hq. unfold recv_datagram_frame. case_match; [done |]. case_match; [done |]. simpl. by case_match.
Qed.

#[local] Instance truthful_kept : PreOrder (fun a b : conn => truthful a -> truthful b).
Proof. split; [intros x; done | intros x y z; auto]. Qed.

Lemma datagram_truthful c now clock dg r : handle_datagram c now clock dg = Some r -> truthful c -> truthful r.2.2.
Proof.
  apply (handle_datagram_rel (fun a b => truthful a -> truthful b) (fun _ => True) (fun _ => True) (fun _ => True)); try done.
  - intros a b E. apply truthful_calm. split; [exact (f_equal (fun v => v.1.1.2) E) | exact (f_equal (fun v => v.1.2.1) E)].
  - intros a n pt f _. apply frame_truthful.
  - intros a k. apply pump_truthful.
  - intros *. by destruct r0.
Qed.

(** ** Lemmas: runs *)

#[export] Instance part_of_dec ct o d f : Decision (part_of ct o d f).
Proof. unfold part_of. apply _. Defined.

(** The application writes each stream's contents in order, with FIN at the end, and
    queues early data only once the handshake is complete, when it is an ordinary
    write; before that it would be sent in a 0-RTT packet. *)
Definition write_follows (c : conn) (e : event) : bool :=
  match e with
  | Call (CallSend id data fin) =>
      match om_get id (send_streams c) with
      | Some s => SendStream.is_reset s || bool_decide (part_of (contents id) (SendStream.final_size s) data fin)
      | None => true
      end
  | Call (CallEarlyData id data fin) =>
      handshake_complete c &&
      match om_get id (send_streams c) with
      | Some s => SendStream.is_reset s || bool_decide (part_of (contents id) (SendStream.final_size s) data fin)
      | None => bool_decide (part_of (contents id) 0 data fin)
      end
  | _ => true
  end.

Fixpoint run_follows (c : conn) (evs : list event) : bool :=
  match evs with [] => true | e :: evs => write_follows c e && run_follows (exec c e) evs end.

(** The frames of some packet sealed in the course of a run. *)
Definition sealed_in (c : conn) (evs : list event) (fs : list Frame) : Prop :=
  exists before e after, evs = before ++ e :: after /\ seals (fold_left exec before c) e fs.

Lemma call_truthful c a : truthful c -> write_follows c (Call a) = true -> truthful (call c a).
Proof.
  intros Ht Hw. assert (Hq : forall c', quiet c c' -> truthful c') by (intros; by eapply truthful_quiet).
  assert (Hn : forall c' id s, stream_true (contents id) s -> send_streams c' = om_insert id s (send_streams c) ->
            sent_packets c' = sent_packets c -> early_data_buf c' = early_data_buf c -> truthful c') by (intros; by eapply truthful_stream).
  destruct a; cbn [call].
  - unfold open_bidi. case_match; [by apply Hq |]. cbn [snd]. by eapply Hn; [apply stream_true_new | ..].
  - unfold open_uni. case_match; [by apply Hq |]. cbn [snd]. by eapply Hn; [apply stream_true_new | ..].
  - unfold send_stream. cbn [write_follows] in Hw. destruct (om_get stream (send_streams c)) as [s |] eqn:E; [| by apply Hq]. cbn [snd].
    eapply (Hn _ stream (SendStream.write s data fin)); try done.
    apply stream_true_write; [done | by apply (tr_send c Ht) |]. intros Hr. rewrite Hr in Hw. by apply bool_decide_eq_true in Hw.
  - apply Hq. unfold read_stream. repeat case_match; done.
  - unfold reset_stream. destruct (om_get stream (send_streams c)) as [s |] eqn:E; [| by apply Hq]. cbn [snd].
    by eapply (Hn _ stream (SendStream.reset s error_code)); [apply stream_true_reset | ..].
  - apply Hq. unfold stop_sending. by case_match.
  - cbn [write_follows] in Hw. apply andb_prop in Hw as [Hh Hw]. unfold queue_early_data. rewrite Hh.
    eapply Hn; [| reflexivity | done | done].
    destruct (om_get stream (send_streams c)) as [s |] eqn:E; cbn [unwrap_or].
    + apply stream_true_write; [done | by apply (tr_send c Ht) |]. intros Hr. rewrite Hr in Hw. by apply bool_decide_eq_true in Hw.
    + apply stream_true_write; [done | apply stream_true_new |]. intros _. by apply bool_decide_eq_true in Hw.
  - apply Hq. unfold send_datagram. case_match; [done |]. by case_match.
  - apply Hq. unfold recv_datagram. by case_match.
  - apply Hq. unfold poll_new_peer_stream. by case_match.
  - apply Hq. unfold poll_readable. by case_match.
  - apply Hq. unfold pop_cid_event. by case_match.
  - by apply Hq.
  - by apply Hq.
  - apply Hq. unfold initiate_key_update. case_match; [done |]. by destruct (_ || _).
  - apply Hq. unfold initiate_path_challenge. case_match; [done |]. destruct (rng_fill _ _) as [[nonce |] r]; done.
  - by apply Hq.
  - apply Hq. unfold conn_add_path. destruct (add_path _ _ _ _) as [[i m] |]; done.
  - apply Hq. unfold conn_set_preferred_path. destruct (set_preferred _ _) as [m |]; [| done]. by destruct (active_path m).
  - apply Hq. unfold close. by case_match.
Qed.

Lemma exec_truthful c e : truthful c -> write_follows c e = true -> truthful (exec c e).
Proof.
  intros Ht Hw. destruct e as [a | now clock dg | now | now clock out]; cbn [exec].
  - by apply call_truthful.
  - destruct (handle_datagram c now clock dg) as [[d [r c']] |] eqn:E; [| done]. exact (datagram_truthful c now clock dg _ E Ht).
  - by apply timeout_truthful.
  - by apply poll_truthful.
Qed.

Lemma run_truthful evs c : truthful c -> run_follows c evs = true -> truthful (fold_left exec evs c).
Proof.
  revert c. induction evs as [| e evs IH]; intros c Ht; [done |]. cbn [run_follows fold_left]. intros [H1 H2]%andb_prop.
  apply IH; [by apply exec_truthful | done].
Qed.

Lemma run_follows_app before after c :
  run_follows c (before ++ after) = run_follows c before && run_follows (fold_left exec before c) after.
Proof. revert c. induction before as [| e before IH]; intros c; [done |]. cbn [app run_follows fold_left]. by rewrite IH, andb_assoc. Qed.

Lemma new_truthful role tls params rng algo clock : truthful (install_initial_keys (new_inner role tls params rng algo clock)).
Proof.
  unfold new_inner. destruct (rng_fill rng 32) as [secret rng']. split; [done | | done].
  intros store p f Hst Hp. simpl in Hst. repeat (apply elem_of_cons in Hst as [-> | Hst]; [by apply elem_of_nil in Hp |]). by apply elem_of_nil in Hst.
Qed.

Lemma sealed_honest c evs fs :
  truthful c -> run_follows c evs = true -> sealed_in c evs fs ->
  Forall (honest contents) fs /\ Forall (fun f => is_padding f = false) fs.
Proof.
  intros Ht Hr (before & e & after & -> & Hs). rewrite run_follows_app in Hr. apply andb_prop in Hr as [Hr _].
  by eapply seals_honest; [apply run_truthful |].
Qed.

End honest_sender.

(** ** Lemmas: the receiver of honest payloads *)

Lemma honest_payload_bytes contents fs b :
  Forall frame_ok fs -> Forall (honest contents) fs -> no_adjacent_padding fs = true -> buf_wf b ->
  rest b = concat (map frame_bytes fs) -> honest_payload contents b.
Proof.
  revert b. induction fs as [| f fs IH]; intros b Hok Hh Hpad Hb Hr.
  - apply honest_end. intros f b'. unfold decode_frame, get_varint. by rewrite get_u8_nil.
  - pose proof (Forall_inv Hok) as Hf. pose proof (frame_follow_next f fs Hok Hpad) as Hn. simpl in Hr.
    apply (honest_frame _ b f (advance b (length (frame_bytes f)))).
    + by apply (decode_frame_bytes f b (concat (map frame_bytes fs))).
    + by apply Forall_inv in Hh.
    + apply IH; [by apply Forall_inv_tail in Hok | by apply Forall_inv_tail in Hh | by apply no_adjacent_padding_tail in Hpad | |].
      * by apply (buf_wf_advance_app b _ (concat (map frame_bytes fs))).
      * by apply rest_advance_app.
Qed.

(** Authenticity between two connections: what the receiver's keys open is the payload
    of a packet the sender sealed in its run, its frames well-formed, and padding. *)
Definition authentic {envA envB : QuicEnv} (start : Connection envA) (evs : list (event (env := envA))) : Prop :=
  forall (k : PacketKey (QuicEnv := envB)) pn h b p, (pk_decrypt k pn h b).2 = Some p ->
    exists fs n, sealed_in start evs fs /\ Forall frame_ok fs /\ p = frames_bytes fs ++ replicate n 0 /\ len p <= u64_MAX.

Lemma authentic_honest {envA envB : QuicEnv} contents (start : Connection envA) evs :
  (forall id, len (contents id) < 2 ^ 62) -> truthful contents start -> run_follows contents start evs = true ->
  authentic (envB := envB) start evs -> HonestPeer envB contents.
Proof.
  intros Hc Ht Hr Ha. split; [done |]. intros k pn h b p Hp. destruct (Ha k pn h b p Hp) as (fs & n & Hs & Hok & -> & Hl).
  destruct (sealed_honest contents Hc start evs fs Ht Hr Hs) as [Hh Hpl].
  apply (honest_payload_bytes contents (fs ++ pad_frames n)).
  - by apply pad_frames_ok.
  - apply Forall_app. split; [done |]. destruct n; [by constructor |]. by apply Forall_singleton.
  - by apply pad_frames_apart.
  - split; simpl; lia.
  - pose proof (pad_frames_bytes fs n) as E. unfold payload_bytes in E. rewrite payload_bytes_acc in E. simpl in E.
    unfold rest. simpl. by rewrite drop_0, <- E.
Qed.

(** ** Properties *)

(** C1: What one application writes is what the other reads: take two connections, the
    sender and the receiver, each from its start and through any sequence of calls,
    datagrams (lost, duplicated, reordered, forged; the sender's from any peer at
    all), timer expiries and transmissions, in which the sender's application writes
    each stream's contents in order, marks their end with FIN and queues no early data
    before its handshake is complete ([early_data_overlaps] shows how 0-RTT data
    breaks the claim), and the receiver's opens its own streams under identifiers the
    peer has not sent data for.  If whatever the receiver's keys open, the Initial
    keys included, was sealed by the sender, then what the receiving application
    has read of each stream is a prefix of what the sending one writes, the next read
    continues that prefix, and a read that reports the end of the stream has brought
    it to exactly the whole contents.  In particular neither retransmission, nor
    splitting, nor loss detection puts wrong bytes or a wrong end on the wire. *)
Theorem streams_end_to_end {envA envB : QuicEnv} (contents : Z -> list Z)
    roleA tlsA paramsA rngA algoA clockA evsA roleB tlsB paramsB rngB algoB clockB evsB :
  let sender : Connection envA := install_initial_keys (new_inner roleA tlsA paramsA rngA algoA clockA) in
  let receiver : Connection envB := install_initial_keys (new_inner roleB tlsB paramsB rngB algoB clockB) in
  (forall id, len (contents id) < 2 ^ 62) -> run_follows contents sender evsA = true ->
  authentic (envB := envB) sender evsA -> opens_fresh receiver evsB = true ->
  let '(c, log) := fold_left observe evsB (receiver, fun _ => []) in
  forall id, log id `prefix_of` contents id /\
    forall bytes fin c', read_stream c id = (Ok (bytes, fin), c') ->
      log id ++ bytes `prefix_of` contents id /\ (fin = true -> log id ++ bytes = contents id).
Proof.
  intros sender receiver Hc Hr Ha Ho.
  pose proof (authentic_honest contents sender evsA Hc (new_truthful contents _ _ _ _ _ _) Hr Ha) as HP.
  exact (reads_faithful contents roleB tlsB paramsB rngB algoB clockB evsB Ho).
Qed.

(** A client that writes seven bytes in two pieces and transmits after each. *)
Definition wire_contents (id : Z) : list Z := if id =? 0 then [1; 2; 3; 4; 5; 6; 7] else [].

Definition wire_first : list (event (env := demo_env)) := [Transmit 0 0 []; Call CallOpenBidi; Call (CallSend 0 [1; 2; 3] false)].
Definition wire_second : list (event (env := demo_env)) := [Transmit 1 1 []; Call (CallSend 0 [4; 5; 6; 7] true)].
Definition wire_events : list (event (env := demo_env)) := wire_first ++ wire_second ++ [Transmit 2 2 []].

Definition wire_frames_1 : list Frame :=
  [NewConnectionId 1 0 [1; 2; 3; 4; 5; 6; 7; 8] ([1; 2; 3; 4; 5; 6; 7; 8] ++ replicate 8 0); Stream 0 0 false [1; 2; 3]].
Definition wire_frames_2 : list Frame := [Stream 0 3 true [4; 5; 6; 7]].

(** A cipher that opens nothing but these two payloads. *)
Definition wire_crypto : PacketCrypto unit Z := {|
  tag_len := tag_len (PacketCrypto := toy_crypto);
  pk_encrypt := pk_encrypt (PacketCrypto := toy_crypto);
  pk_decrypt k pn h b :=
    let '(b', plain) := pk_decrypt (PacketCrypto := toy_crypto) k pn h b in
    (b', match plain with
         | Some p => if bool_decide (p = frames_bytes wire_frames_1 \/ p = frames_bytes wire_frames_2) then Some p else None
         | None => None
         end);
  sample_len := sample_len (PacketCrypto := toy_crypto);
  hp_encrypt := hp_encrypt (PacketCrypto := toy_crypto);
  hp_decrypt := hp_decrypt (PacketCrypto := toy_crypto)
|}.

Definition wire_env : QuicEnv := scripted_env wire_crypto.

(** The server: the second packet, a forged one, the first, a read. *)
Definition wire_tls : ScriptedTls := mkScriptedTls [([1], Some (KcOneRtt demo_keys 5))] false (Some (encode_transport_params demo_peer_params)).
Definition wire_params : ConnectionParams Z :=
  mkConnParams [2; 2; 2; 2; 2; 2; 2; 2] [1; 1; 1; 1; 1; 1; 1; 1] [2; 2; 2; 2; 2; 2; 2; 2] 7 default_params default_mtu_config 65536.
Definition wire_start : Connection wire_env := @install_initial_keys wire_env (@new_inner wire_env Server wire_tls wire_params 0 AlgoNewReno 0).

Definition wire_sent (evs : list (event (env := demo_env))) (now : Z) : list Z := (poll_transmit (fold_left exec evs demo_run_start) now now []).2.1.

Definition wire_received : list (event (env := wire_env)) :=
  [Transmit 0 0 []; Receive 1 1 (wire_sent (wire_first ++ wire_second) 2); Receive 2 2 (honest_packet 9 (Stream 0 0 false [8; 8; 8]));
   Receive 3 3 (wire_sent wire_first 1)].

(** The first payload of a transmission in the sender's run, given as frames. *)
Definition wire_fills (before : list (event (env := demo_env))) (now : Z) : list Fill :=
  transmit_fills (fold_left exec before demo_run_start) now now [].
Definition wire_fill (before : list (event (env := demo_env))) (now : Z) : list Z * list SentFrame * bool :=
  match wire_fills before now with st :: _ => (f_payload st, f_frames st, f_eliciting st) | [] => ([], [], true) end.

Lemma wire_sealed before now after fs :
  wire_events = before ++ Transmit now now [] :: after ->
  wire_fill before now = (frames_bytes fs, flat_map record_of fs, frames_eliciting fs) ->
  Forall (fun f => is_padding f = false) fs -> frames_bytes fs <> [] -> sealed_in demo_run_start wire_events fs.
Proof.
  intros E Hf Hp Hb. exists before, (Transmit now now []), after. split; [done |]. unfold wire_fill in Hf.
  destruct (wire_fills before now) as [| st l] eqn:El; [congruence |]. injection Hf as H1 H2 H3.
  apply (seals_payload _ now now [] st fs 0).
  - unfold wire_fills in El. rewrite El. by left.
  - split; [by rewrite app_nil_r | by left | done | done].
Qed.

Lemma wire_authentic : authentic (envB := wire_env) demo_run_start wire_events.
Proof.
  intros k pn h b p. cbn [packet_crypto wire_env scripted_env wire_crypto pk_decrypt].
  destruct (@pk_decrypt unit Z toy_crypto k pn h b) as [b' [q |]]; [| done]. cbn [snd].
  case_bool_decide as Hq; [| done]. intros [= <-].
  assert (Hok : Forall frame_ok wire_frames_1 /\ Forall frame_ok wire_frames_2)
    by (split; eapply bool_decide_unpack; vm_compute; exact I).
  destruct Hq as [-> | ->]; [exists wire_frames_1, 0%nat | exists wire_frames_2, 0%nat]; cbn [replicate]; rewrite app_nil_r.
  - split_and!; [| apply Hok | done | vm_compute; congruence].
    apply (wire_sealed wire_first 1 [Call (CallSend 0 [4; 5; 6; 7] true); Transmit 2 2 []] wire_frames_1);
      [reflexivity | vm_compute; reflexivity | by repeat constructor | done].
  - split_and!; [| apply Hok | done | vm_compute; congruence].
    apply (wire_sealed (wire_first ++ wire_second) 2 [] wire_frames_2);
      [reflexivity | vm_compute; reflexivity | by repeat constructor | done].
Qed.

Lemma streams_end_to_end_witness :
  let st := fold_left observe wire_received (wire_start, fun _ => []) in
  (forall id, st.2 id `prefix_of` wire_contents id /\
    forall bytes fin c', read_stream st.1 id = (Ok (bytes, fin), c') ->
      st.2 id ++ bytes `prefix_of` wire_contents id /\ (fin = true -> st.2 id ++ bytes = wire_contents id)) /\
  (read_stream st.1 0).1 = Ok ([1; 2; 3; 4; 5; 6; 7], true).
Proof.
  split; [| vm_compute; reflexivity].
  assert (Hc : forall id, len (wire_contents id) < 2 ^ 62) by (intros id; unfold wire_contents; destruct (id =? 0); simpl; lia).
  pose proof (streams_end_to_end (envA := demo_env) (envB := wire_env) wire_contents Client
    (mkScriptedTls [([1], Some (KcOneRtt demo_keys 5))] false (Some (encode_transport_params demo_peer_params)))
    (mkConnParams [1; 1; 1; 1; 1; 1; 1; 1] [2; 2; 2; 2; 2; 2; 2; 2] [2; 2; 2; 2; 2; 2; 2; 2] 7 default_params default_mtu_config 65536)
    0 AlgoNewReno 0 wire_events Server wire_tls wire_params 0 AlgoNewReno 0 wire_received Hc) as H.
  fold demo_run_start wire_start in H. specialize (H ltac:(vm_compute; reflexivity) wire_authentic ltac:(vm_compute; reflexivity)).
  by destruct (fold_left observe wire_received (wire_start, fun _ => [])) as [c log].
Defined.
