(* ===== verification/Handle.v ===== *)
(** * The connection handle

    [QuicConnection] of [endpoint/mod.rs]: the application's calls on a connection it
    drives itself, each a loop over the driver's [pump_once] and [flush].  The
    [Option] around the driver is empty only after [into_driven] has consumed the
    handle, so the operations take the driver itself. *)

From stdpp Require Import relations.
From S2P Require Import Prelude OrdMap CoreTypes Coding FrameCodec ParamsCodec PacketSpace SentPackets.
From S2P Require Import Streams FlowControl Recovery Congestion Bbr CidPool Packet Config Multipath Connection.
From S2P Require Import ConnRecovery ConnHandshake ConnRecv ConnSend ConnFlow ConnSystem ConnDelivery Mpsc Endpoint.

Section handle.
Context {env : QuicEnv} {M : Mpsc}.

Notation conn := (Connection env).
Notation Drv := (Driver (env := env)).
Notation Route := (Chan CidRouteUpdate).

(** The result of a call, the datagrams it put on the socket, the state after it. *)
Notation ran A := (option (result OxiQuicError A * (list (list Z * Addr) * (Drv * Route)))).

(** ** Waiting *)

(** A turn of a waiting loop: what the pump saw, and the clock after it. *)
Record Wait := mkWait { w_event : PumpEvent (env := env); w_after : Z }.

(** [loop { attempt; closed?; pump_once; deadline? }], the body of
    [read_with_deadline], [accept_uni_or_bidi_data_with_deadline] and
    [recv_datagram]; [None] still waits for an event. *)
Fixpoint pump_until {A} (attempt : conn -> option (result OxiQuicError A) * conn) (turns : list Wait) (d : Drv) (route : Route)
    (deadline : Z) : ran A :=
  let '(r, c) := attempt (dconn d) in
  let d := d <| dconn := c |> in
  match r with
  | Some r => Some (r, ([], (d, route)))
  | None =>
      if is_closed c then Some (Err (close_error c), ([], (d, route)))
      else match turns with
           | [] => None
           | t :: turns =>
               '(r, (sent, (d, route))) ← pump_once d route deadline (w_event t);
               match r with
               | Err e => Some (Err e, (sent, (d, route)))
               | Ok _ =>
                   if deadline <=? w_after t then Some (Err ETimeout, (sent, (d, route)))
                   else '(r, (sent', st)) ← pump_until attempt turns d route deadline; Some (r, (sent ++ sent', st))
               end
           end
  end.

(** ** Streams *)

Definition attempt_read (stream : Z) (c : conn) : option (result OxiQuicError (list Z * bool)) * conn :=
  match read_stream c stream with
  | (Err e, c) => (Some (Err e), c)
  | (Ok (bytes, fin), c) => if negb (SendStream.is_nil bytes) || fin then (Some (Ok (bytes, fin)), c) else (None, c)
  end.

(** The flush before the data is returned; its failure is the result of the call. *)
Definition read_with_deadline (turns : list Wait) (before_return : list Reading) (stream deadline : Z) (d : Drv) (route : Route)
    : ran (list Z * bool) :=
  '(r, (sent, (d, route))) ← pump_until (attempt_read stream) turns d route deadline;
  match r with
  | Err e => Some (Err e, (sent, (d, route)))
  | Ok x =>
      '(r, (sent', st)) ← flush_driver before_return d route;
      Some (match r with Ok _ => Ok x | Err e => Err e end, (sent ++ sent', st))
  end.

Definition READ_TIMEOUT : Z := 10 * SECONDS.

Definition read (start : Z) (turns : list Wait) (before_return : list Reading) (stream : Z) (d : Drv) (route : Route) : ran (list Z * bool) :=
  read_with_deadline turns before_return stream (start + READ_TIMEOUT) d route.

Definition attempt_accept (c : conn) : option (result OxiQuicError (Z * list Z * bool)) * conn :=
  match poll_readable c with
  | (None, c) => (None, c)
  | (Some id, c) =>
      match read_stream c id with
      | (Err e, c) => (Some (Err e), c)
      | (Ok (bytes, fin), c) => (Some (Ok (id, bytes, fin)), c)
      end
  end.

Definition accept_uni_or_bidi_data_with_deadline (turns : list Wait) (deadline : Z) (d : Drv) (route : Route) : ran (Z * list Z * bool) :=
  pump_until attempt_accept turns d route deadline.

Definition accept_uni_or_bidi_data (start : Z) (turns : list Wait) (d : Drv) (route : Route) : ran (Z * list Z * bool) :=
  accept_uni_or_bidi_data_with_deadline turns (start + READ_TIMEOUT) d route.

(** A call on the connection whose success is followed by a flush. *)
Definition then_flush (r : result OxiQuicError unit * conn) (rs : list Reading) (d : Drv) (route : Route) : ran unit :=
  match r with
  | (Err e, c) => Some (Err e, ([], (d <| dconn := c |>, route)))
  | (Ok _, c) => flush_driver rs (d <| dconn := c |>) route
  end.

Definition send (rs : list Reading) (stream : Z) (data : list Z) (fin : bool) (d : Drv) (route : Route) : ran unit :=
  then_flush (send_stream (dconn d) stream data fin) rs d route.

(** [for attempt in 0..attempts]: between two attempts only a flush, whose result is
    dropped, and a sleep. *)
Fixpoint open_attempts (n : nat) (flushes : list (list Reading)) (c : conn)
    : option (result OxiQuicError Z * (list (list Z * Addr) * conn)) :=
  match n with
  | O => Some (let '(r, c) := open_bidi c in (r, ([], c)))
  | S n =>
      match open_bidi c with
      | (Ok sid, c) => Some (Ok sid, ([], c))
      | (Err EStream, c) =>
          if (n =? 0)%nat then Some (Err EStream, ([], c))
          else match flushes with
               | [] => None
               | rs :: flushes =>
                   '(_, (sent, c)) ← flush rs c;
                   '(r, (sent', c)) ← open_attempts n flushes c;
                   Some (r, (sent ++ sent', c))
               end
      | (Err e, c) => Some (Err e, ([], c))
      end
  end.

Definition open_bi_reliable (max_attempts : nat) (flushes : list (list Reading)) (d : Drv) (route : Route) : ran Z :=
  '(r, (sent, c)) ← open_attempts (Nat.max max_attempts 1) flushes (dconn d); Some (r, (sent, (d <| dconn := c |>, route))).

(** ** Datagrams *)

Definition handle_send_datagram (rs : list Reading) (data : list Z) (d : Drv) (route : Route) : ran unit :=
  then_flush (send_datagram (dconn d) data) rs d route.

Definition attempt_datagram (c : conn) : option (result OxiQuicError (list Z)) * conn :=
  match recv_datagram c with
  | (Some dgram, c) => (Some (Ok dgram), c)
  | (None, c) => (None, c)
  end.

Definition handle_recv_datagram (start : Z) (turns : list Wait) (d : Drv) (route : Route) : ran (list Z) :=
  pump_until attempt_datagram turns d route (start + READ_TIMEOUT).

(** ** Life cycle *)

Definition handle_close (rs : list Reading) (error_code : Z) (reason : list Z) (d : Drv) (route : Route) : ran unit :=
  flush_driver rs (d <| dconn ::= fun c => close c error_code reason |>) route.

(** [drive] pumps once and drops the result. *)
Definition DRIVE_TIMEOUT : Z := 200 * MILLIS.

Definition drive (start : Z) (e : PumpEvent) (d : Drv) (route : Route) : ran unit :=
  '(_, (sent, st)) ← pump_once d route (start + DRIVE_TIMEOUT) e; Some (Ok tt, (sent, st)).

(** [Drop]: the close is queued and not sent. *)
Definition handle_drop (d : Drv) : Drv :=
  if is_closed (dconn d) then d else d <| dconn ::= fun c => close c 0 [] |>.

(** ** Calls that only touch the connection *)

(** A method of the connection, called through [drv_mut]. *)
Definition on_conn {A} (f : conn -> A * conn) (d : Drv) : A * Drv := let '(r, c) := f (dconn d) in (r, d <| dconn := c |>).

Definition handle_open_bidi : Drv -> result OxiQuicError Z * Drv := on_conn open_bidi.
(** The priority is ignored. *)
Definition handle_open_bidi_with_priority (priority : Z) : Drv -> result OxiQuicError Z * Drv := on_conn open_bidi.
Definition handle_initiate_key_update (now : Z) : Drv -> bool * Drv := on_conn (fun c => initiate_key_update c now).
Definition handle_initiate_path_challenge : Drv -> result OxiQuicError unit * Drv := on_conn initiate_path_challenge.
Definition handle_take_received_token : Drv -> option (list Z) * Drv := on_conn take_received_token.

(** ** Sessions *)

(** Everything the application can ask of the handle, with what the socket, the timer
    and the clock answered meanwhile. *)
Inductive handle_call :=
| HOpen
| HSend (rs : list Reading) (stream : Z) (data : list Z) (fin : bool)
| HRead (turns : list Wait) (before_return : list Reading) (stream deadline : Z)
| HAccept (turns : list Wait) (deadline : Z)
| HSendDatagram (rs : list Reading) (data : list Z)
| HRecvDatagram (start : Z) (turns : list Wait)
| HClose (rs : list Reading) (error_code : Z) (reason : list Z)
| HDrive (start : Z) (e : PumpEvent (env := env))
| HKeyUpdate (now : Z)
| HPathChallenge
| HTakeToken
| HDrop.

(** What a call returned: stream data, or whether it failed. *)
Inductive handle_result := GotData (stream : Z) (bytes : list Z) (fin : bool) | Done | Failed (e : OxiQuicError).

Definition to_result {A} (f : A -> handle_result) (r : result OxiQuicError A) : handle_result :=
  match r with Ok x => f x | Err e => Failed e end.

Definition forget {A} (f : A -> handle_result) (x : ran A) : option (handle_result * (Drv * Route)) :=
  '(r, (_, st)) ← x; Some (to_result f r, st).

Definition perform (d : Drv) (route : Route) (a : handle_call) : option (handle_result * (Drv * Route)) :=
  match a with
  | HOpen => let '(r, d) := handle_open_bidi d in Some (to_result (fun _ => Done) r, (d, route))
  | HSend rs stream data fin => forget (fun _ => Done) (send rs stream data fin d route)
  | HRead turns rs stream deadline =>
      forget (fun x => GotData stream x.1 x.2) (read_with_deadline turns rs stream deadline d route)
  | HAccept turns deadline =>
      forget (fun x => GotData x.1.1 x.1.2 x.2) (accept_uni_or_bidi_data_with_deadline turns deadline d route)
  | HSendDatagram rs data => forget (fun _ => Done) (handle_send_datagram rs data d route)
  | HRecvDatagram start turns => forget (fun _ => Done) (handle_recv_datagram start turns d route)
  | HClose rs code reason => forget (fun _ => Done) (handle_close rs code reason d route)
  | HDrive start e => forget (fun _ => Done) (drive start e d route)
  | HKeyUpdate now => Some (Done, ((handle_initiate_key_update now d).2, route))
  | HPathChallenge => let '(r, d) := handle_initiate_path_challenge d in Some (to_result (fun _ => Done) r, (d, route))
  | HTakeToken => Some (Done, ((handle_take_received_token d).2, route))
  | HDrop => Some (Done, (handle_drop d, route))
  end.

(** A session up to the first call that fails with an I/O error: the state after it
    and, per stream, the bytes the application was given. *)
Fixpoint session (calls : list handle_call) (d : Drv) (route : Route) (got : read_log) : option (Drv * Route * read_log) :=
  match calls with
  | [] => Some (d, route, got)
  | a :: calls =>
      '(r, (d, route)) ← perform d route a;
      match r with
      | Failed EIo => Some (d, route, got)
      | GotData id bytes _ => session calls d route (log_read got id bytes)
      | _ => session calls d route got
      end
  end.

(** Received datagrams fit in UDP. *)
Definition event_sized (e : PumpEvent (env := env)) : Prop :=
  match e with
  | Inbound first _ _ pending _ =>
      match first with Some (dg, _) => udp_sized dg | None => True end /\
      Forall (fun x => match x.1 with Some (dg, _) => udp_sized dg | None => True end) pending
  | Timer _ _ => True
  end.

Definition call_sized (a : handle_call) : Prop :=
  match a with
  | HRead turns _ _ _ | HAccept turns _ | HRecvDatagram _ turns => Forall (fun w => event_sized (w_event w)) turns
  | HDrive _ e => event_sized e
  | _ => True
  end.

(** Streams are opened under identifiers without state. *)
Definition open_fresh (c : conn) (a : handle_call) : Prop :=
  match a with
  | HOpen =>
      om_contains (next_stream c Bidirectional) (stream_send_flow c) = false /\ om_contains (next_stream c Bidirectional) (recv_streams c) = false
  | _ => True
  end.

Fixpoint session_ok (calls : list handle_call) (d : Drv) (route : Route) : Prop :=
  match calls with
  | [] => True
  | a :: calls =>
      call_sized a /\ open_fresh (dconn d) a /\
      match perform d route a with Some (_, (d, route)) => session_ok calls d route | None => True end
  end.

#[export] Instance event_sized_dec e : Decision (event_sized e).
Proof.
  assert (Hx : forall x : option (list Z * Addr) * (Z * Z), Decision (match x.1 with Some (dg, _) => udp_sized dg | None => True end)).
  { intros [[[dg a] |] y]; simpl; unfold udp_sized; apply _. }
  destruct e as [[[dg a] |] now clock pending rs | now rs]; simpl; unfold udp_sized in *; apply _.
Defined.

#[export] Instance call_sized_dec a : Decision (call_sized a).
Proof. destruct a; simpl; apply _. Defined.

#[export] Instance open_fresh_dec c a : Decision (open_fresh c a).
Proof. destruct a; simpl; apply _. Defined.

#[export] Instance session_ok_dec calls d route : Decision (session_ok calls d route).
Proof.
  revert d route. induction calls as [| a calls IH]; intros d route; simpl; [apply _ |].
  destruct (perform d route a) as [[r [d1 route1]] |]; apply _.
Defined.

(** ** Lemmas: the driver runs the connection's events *)

Inductive obs_step : conn * read_log -> conn * read_log -> Prop :=
| obs_event c log e : admissible c e -> opens_fresh c [e] = true -> obs_step (c, log) (observe (c, log) e).

Definition reaches (c : conn) (log : read_log) (c' : conn) (log' : read_log) : Prop := rtc obs_step (c, log) (c', log').

(** Reaching without handing data to the application. *)
Definition silently (c c' : conn) : Prop := forall log, reaches c log c' log.

#[local] Instance silently_preorder : PreOrder silently.
Proof. split; [intros c log; apply rtc_refl | intros a b c H1 H2 log; unfold reaches; by etransitivity; [apply H1 | apply H2]]. Qed.

Definition is_open (e : event (env := env)) : bool := match e with Call CallOpenBidi | Call CallOpenUni => true | _ => false end.
Definition is_read (e : event (env := env)) : bool := match e with Call (CallRead _) => true | _ => false end.

Lemma silently_event c e : is_open e = false -> is_read e = false -> admissible c e -> silently c (exec c e).
Proof.
  intros Ho Hr Ha log. apply rtc_once.
  assert (E : observe (c, log) e = (exec c e, log)) by (destruct e as [[] | | |]; done).
  rewrite <- E. apply obs_event; [done |]. by destruct e as [[] | | |].
Qed.

Lemma silently_flush rs c r sent c' : flush rs c = Some (r, (sent, c')) -> silently c c'.
Proof.
  revert c r sent. induction rs as [| x rs IH]; intros c r sent; [done |]. cbn [flush].
  pose proof (silently_event c (Transmit (at_ x) (wall x) []) eq_refl eq_refl I) as H. cbn [exec] in H.
  destruct (poll_transmit c (at_ x) (wall x) []) as [[addr |] [out c1]]; cbn [snd] in H; [| by intros [= _ _ <-]].
  destruct (length out =? 0)%nat; [by intros [= _ _ <-] |]. destruct (send_ok x); [| by intros [= _ _ <-]].
  destruct (flush rs c1) as [[r1 [s1 c2]] |] eqn:E; [| done]. intros [= _ _ <-]. etransitivity; [exact H | by eapply IH].
Qed.

Lemma silently_drain fuel d route : silently (dconn d) (dconn (drain_cid_loop fuel d route).1).
Proof.
  revert d route. induction fuel as [| fuel IH]; intros d route; [done |]. cbn [drain_cid_loop].
  pose proof (silently_event (dconn d) (Call CallPopCidEvent) eq_refl eq_refl I) as H. cbn [exec call] in H.
  destruct (pop_cid_event (dconn d)) as [[e |] c]; cbn [snd] in H; [| done]. etransitivity; [exact H |].
  match goal with |- silently _ (dconn (drain_cid_loop _ ?x ?r).1) => exact (IH x r) end.
Qed.

#[local] Opaque set_candidate_addr initiate_path_challenge.

Lemma silently_source d src : silently (dconn d) (dconn (note_source d src)).
Proof.
  unfold note_source. destruct (peer d) as [p |]; [| done]. destruct (negb _ && _); [| done].
  pose proof (silently_event (dconn d) (Call (CallCandidate src)) eq_refl eq_refl I) as H1.
  pose proof (silently_event (set_candidate_addr (dconn d) src) (Call CallPathChallenge) eq_refl eq_refl I) as H2.
  cbn [exec call] in H1, H2. etransitivity; [exact H1 |].
  match goal with |- silently _ ?x => change x with (initiate_path_challenge (set_candidate_addr (dconn d) src)).2 end. exact H2.
Qed.

#[local] Transparent set_candidate_addr initiate_path_challenge.

Lemma silently_inbound d route now clock owned src r d' route' :
  udp_sized owned -> handle_inbound_datagram d route now clock owned src = Some (r, (d', route')) -> silently (dconn d) (dconn d').
Proof.
  intros Hs E. etransitivity; [apply (silently_source d src) |]. revert E. unfold handle_inbound_datagram. generalize (note_source d src). intros d1.
  pose proof (silently_event (dconn d1) (Receive now clock owned) eq_refl eq_refl Hs) as H. cbn [exec] in H.
  destruct (handle_datagram (dconn d1) now clock owned) as [[x [r1 c1]] |]; [| done]. cbn [mbind option_bind].
  destruct r1 as [u | e]; [| by intros [= _ <- _]]. intros [= _ Hd]. etransitivity; [exact H |].
  match type of Hd with drain_cid_events ?y route = _ => pose proof (silently_drain (S (length (pending_cid_events (dconn y)))) y route) as H2 end.
  unfold drain_cid_events in Hd. rewrite Hd in H2. cbn [fst] in H2. by destruct (path_validated c1).
Qed.

Lemma silently_burst n d route pending r d' route' :
  Forall (fun x => match x.1 with Some (dg, _) => udp_sized dg | None => True end) pending ->
  burst n d route pending = Some (r, (d', route')) -> silently (dconn d) (dconn d').
Proof.
  revert d route pending. induction n as [| n IH]; intros d route [| [[[owned src] |] [now clock]] pending] Hs; cbn [burst];
    try (by intros [= _ <- _]).
  apply Forall_cons in Hs as [Hs1 Hs2]. destruct (handle_inbound_datagram d route now clock owned src) as [[r1 [d1 route1]] |] eqn:E; [| done].
  apply silently_inbound in E; [| exact Hs1]. cbn [mbind option_bind]. destruct r1 as [u | e]; [| by intros [= _ <- _]].
  intros H. etransitivity; [exact E | by eapply IH].
Qed.

Lemma silently_flush_driver rs d route r sent d' route' :
  flush_driver rs d route = Some (r, (sent, (d', route'))) -> silently (dconn d) (dconn d').
Proof.
  unfold flush_driver. destruct (flush rs (dconn d)) as [[r1 [s1 c1]] |] eqn:E; [| done]. apply silently_flush in E.
  by intros [= _ _ <- _].
Qed.

Lemma silently_pump d route deadline e r sent d' route' :
  event_sized e -> pump_once d route deadline e = Some (r, (sent, (d', route'))) -> silently (dconn d) (dconn d').
Proof.
  intros Hs. unfold pump_once. destruct e as [[[owned src] |] now clock pending rs | now rs].
  - destruct Hs as [Hs1 Hs2].
    destruct (handle_inbound_datagram d route now clock owned src) as [[r1 [d1 route1]] |] eqn:E; [| done].
    apply silently_inbound in E; [| exact Hs1]. cbn [mbind option_bind]. destruct r1 as [u | x]; [| by intros [= _ _ <- _]].
    destruct (burst BURST_DRAIN_LIMIT d1 route1 pending) as [[r2 [d2 route2]] |] eqn:E2; [| done].
    apply silently_burst in E2; [| exact Hs2]. cbn [mbind option_bind]. rewrite E2 in E.
    destruct r2 as [u2 | x]; [| by intros [= _ _ <- _]]. intros H%silently_flush_driver. by rewrite H in E.
  - by intros [= _ _ <- _].
  - pose proof (silently_event (dconn d) (ConnSystem.Timeout now) eq_refl eq_refl I) as H. cbn [exec] in H.
    match goal with |- context [if ?b then _ else _] => destruct b end; [by intros [= _ _ <- _] |].
    intros H2%silently_flush_driver. etransitivity; [exact H | exact H2].
Qed.

(** A read of the connection is an observed event. *)
Lemma reaches_read c got id r c' :
  read_stream c id = (r, c') -> reaches c got c' (match r with Ok (bytes, _) => log_read got id bytes | Err _ => got end).
Proof.
  intros E. apply rtc_once. pose proof (obs_event c got (Call (CallRead id)) I eq_refl) as H.
  unfold observe in H. cbn [fst snd exec call log_after] in H. by rewrite E in H.
Qed.

(** A waiting loop ends with an error, or with what its attempt returned. *)
Lemma pump_until_ends {A} (attempt : conn -> option (result OxiQuicError A) * conn) turns d route deadline r sent d' route' :
  (forall c c', attempt c = (None, c') -> silently c c') -> Forall (fun w => event_sized (w_event w)) turns ->
  pump_until attempt turns d route deadline = Some (r, (sent, (d', route'))) ->
  (silently (dconn d) (dconn d') /\ exists e, r = Err e) \/
  exists c1, silently (dconn d) c1 /\ attempt c1 = (Some r, dconn d').
Proof.
  intros Hw. revert d route r sent. induction turns as [| t turns IH]; intros d route r sent Hs; cbn [pump_until];
    destruct (attempt (dconn d)) as [[r1 |] c1] eqn:Ea; try (intros [= <- _ <- _]; right; by exists (dconn d));
    apply Hw in Ea; (destruct (is_closed c1); [intros [= <- _ <- _]; left; by eauto |]); [done |].
  apply Forall_cons in Hs as [Hs1 Hs2].
  match goal with |- context [pump_once ?x route deadline _] =>
    destruct (pump_once x route deadline (w_event t)) as [[r2 [s2 [d2 route2]]] |] eqn:E2; [| done];
    apply silently_pump in E2; [| exact Hs1]; change (dconn x) with c1 in E2 end.
  cbn [mbind option_bind]. rewrite E2 in Ea. destruct r2 as [u | e]; [| intros [= <- _ <- _]; left; by eauto].
  destruct (deadline <=? w_after t); [intros [= <- _ <- _]; left; by eauto |].
  destruct (pump_until attempt turns d2 route2 deadline) as [[r3 [s3 [d3 route3]]] |] eqn:E3; [| done].
  cbn [mbind option_bind]. intros [= <- _ <- <-].
  destruct (IH d2 route2 r3 s3 Hs2 E3) as [[H1 H2] | (c2 & H1 & H2)]; [left | right; exists c2]; split; try done; by etransitivity.
Qed.

Lemma attempt_read_waits stream c c' : attempt_read stream c = (None, c') -> silently c c'.
Proof.
  unfold attempt_read. destruct (read_stream c stream) as [[[bytes fin] | e] c1] eqn:E; [| done].
  destruct (negb (SendStream.is_nil bytes) || fin) eqn:Eb; [done |]. intros [= <-] got.
  pose proof (reaches_read c got stream _ _ E) as H. cbn in H. by destruct bytes.
Qed.

Lemma attempt_accept_waits c c' : attempt_accept c = (None, c') -> silently c c'.
Proof.
  unfold attempt_accept, poll_readable. destruct (readable c) as [| id q]; [by intros [= <-] |].
  destruct (read_stream _ _) as [[[bytes fin] | e] c1]; done.
Qed.

Lemma attempt_datagram_waits c c' : attempt_datagram c = (None, c') -> silently c c'.
Proof. unfold attempt_datagram, recv_datagram. destruct (datagram_recv_queue c) as [| x q]; [by intros [= <-] | done]. Qed.

Lemma flush_error rs c e sent c' : flush rs c = Some (Err e, (sent, c')) -> e = EIo.
Proof.
  revert c sent. induction rs as [| x rs IH]; intros c sent; [done |]. cbn [flush].
  destruct (poll_transmit c (at_ x) (wall x) []) as [[addr |] [out c1]]; [| done].
  destruct (length out =? 0)%nat; [done |]. destruct (send_ok x); [| by intros [= <- _ _]].
  destruct (flush rs c1) as [[r1 [s1 c2]] |] eqn:E; [| done]. intros [= -> _ <-]. by eapply IH.
Qed.

(** What the application was given against what was taken from the connection: the
    same, except when a call failed on the socket. *)
Definition accounted (r : handle_result) (got log : read_log) : Prop :=
  match r with
  | GotData id bytes _ => log = log_read got id bytes
  | Failed EIo => forall id, got id `prefix_of` log id
  | _ => log = got
  end.

Definition no_data (r : handle_result) : bool := match r with GotData _ _ _ => false | _ => true end.

Lemma accounted_none r got : no_data r = true -> accounted r got got.
Proof. destruct r as [| | []]; try done. intros _ id. reflexivity. Qed.

Lemma accounted_silent c c' r got : silently c c' -> no_data r = true -> exists log, reaches c got c' log /\ accounted r got log.
Proof. intros H Hr. exists got. split; [apply H | by apply accounted_none]. Qed.

Lemma perform_then_flush (x : result OxiQuicError unit * conn) rs d route r d' route' got :
  silently (dconn d) x.2 -> forget (fun _ => Done) (then_flush x rs d route) = Some (r, (d', route')) ->
  exists log, reaches (dconn d) got (dconn d') log /\ accounted r got log.
Proof.
  destruct x as [[u | e] c]; cbn [then_flush snd]; intros H.
  - destruct (flush_driver rs _ route) as [[r1 [s1 [d1 route1]]] |] eqn:E; [| done]. apply silently_flush_driver in E.
    intros [= <- <- _]. apply accounted_silent; [etransitivity; [exact H | exact E] | by destruct r1].
  - intros [= <- <- _]. by apply accounted_silent.
Qed.

Lemma perform_read turns rs stream deadline d route r d' route' got :
  Forall (fun w => event_sized (w_event w)) turns ->
  perform d route (HRead turns rs stream deadline) = Some (r, (d', route')) ->
  exists log, reaches (dconn d) got (dconn d') log /\ accounted r got log.
Proof.
  intros Hs. unfold perform, read_with_deadline.
  destruct (pump_until (attempt_read stream) turns d route deadline) as [[r1 [s1 [d1 route1]]] |] eqn:E; [| done].
  apply pump_until_ends in E as [[Hq [e ->]] | (c1 & Hq & Ha)]; [| | apply attempt_read_waits | exact Hs].
  { intros [= <- <- _]. by apply accounted_silent. }
  unfold attempt_read in Ha. destruct (read_stream c1 stream) as [[[bytes fin] | e] c2] eqn:Er.
  - destruct (negb _ || fin); [| done]. injection Ha as <- Ec. cbn [mbind option_bind forget].
    destruct (flush_driver rs d1 route1) as [[r2 [s2 [d2 route2]]] |] eqn:E2; [| done].
    pose proof (reaches_read c1 got stream _ _ Er) as H. cbn in H. rewrite Ec in H.
    assert (Hr : reaches (dconn d) got (dconn d2) (log_read got stream bytes)).
    { apply silently_flush_driver in E2. unfold reaches. etransitivity; [apply Hq |]. etransitivity; [exact H | apply E2]. }
    destruct r2 as [u | e]; intros [= <- <- _]; exists (log_read got stream bytes); (split; [exact Hr |]); [done |].
    assert (He : e = EIo).
    { unfold flush_driver in E2. destruct (flush rs (dconn d1)) as [[x [y z]] |] eqn:Ef; [| done]. injection E2 as -> _ _ _. by eapply flush_error. }
    subst e. intros id. rewrite log_read_at. bcase; [by apply prefix_app_r |  done].
  - injection Ha as <- Ec. intros [= <- <- _]. apply accounted_silent; [| done]. rewrite Hq. intros g.
    pose proof (reaches_read c1 g stream _ _ Er) as H. by rewrite <- Ec.
Qed.

Lemma perform_accept turns deadline d route r d' route' got :
  Forall (fun w => event_sized (w_event w)) turns ->
  perform d route (HAccept turns deadline) = Some (r, (d', route')) ->
  exists log, reaches (dconn d) got (dconn d') log /\ accounted r got log.
Proof.
  intros Hs. unfold perform, accept_uni_or_bidi_data_with_deadline.
  destruct (pump_until attempt_accept turns d route deadline) as [[r1 [s1 [d1 route1]]] |] eqn:E; [| done].
  apply pump_until_ends in E as [[Hq [e ->]] | (c1 & Hq & Ha)]; [| | apply attempt_accept_waits | exact Hs].
  { intros [= <- <- _]. by apply accounted_silent. }
  pose proof (silently_event c1 (Call CallPollReadable) eq_refl eq_refl I) as Hp. cbn [exec call] in Hp. rewrite Hp in Hq.
  unfold attempt_accept in Ha. destruct (poll_readable c1) as [[id |] c2]; [cbn [snd] in Hq | done].
  destruct (read_stream c2 id) as [[[bytes fin] | e] c3] eqn:Er; injection Ha as <- Ec; intros [= <- <- _]; rewrite <- Ec.
  - exists (log_read got id bytes). split; [| done]. unfold reaches. etransitivity; [apply Hq |]. exact (reaches_read c2 got id _ _ Er).
  - apply accounted_silent; [| done]. rewrite Hq. intros g. exact (reaches_read c2 g id _ _ Er).
Qed.

Lemma on_conn_state {A} (f : conn -> A * conn) d : dconn (on_conn f d).2 = (f (dconn d)).2.
Proof. unfold on_conn. by destruct (f (dconn d)). Qed.

Lemma perform_reaches d route a r d' route' got :
  call_sized a -> open_fresh (dconn d) a -> perform d route a = Some (r, (d', route')) ->
  exists log, reaches (dconn d) got (dconn d') log /\ accounted r got log.
Proof.
  intros Hs Hf. destruct a as [| rs stream data fin | turns rs stream deadline | turns deadline | rs data | start turns | rs code reason | start e | now | | |].
  - cbn [perform]. unfold handle_open_bidi, on_conn. destruct Hf as [Hf1 Hf2].
    assert (Hn : om_get (next_stream (dconn d) Bidirectional) (stream_send_flow (dconn d)) = None)
      by (unfold om_contains in Hf1; by destruct (om_get _ _)).
    assert (Ho : reaches (dconn d) got (open_bidi (dconn d)).2 got).
    { apply rtc_once. pose proof (obs_event (dconn d) got (Call CallOpenBidi) Hn) as H.
      cbn [opens_fresh] in H. rewrite Hf2 in H. by apply H. }
    destruct (open_bidi (dconn d)) as [[id | e] c]; intros [= <- <- _]; exists got; (split; [exact Ho | by apply accounted_none]).
  - apply perform_then_flush. by apply (silently_event _ (Call (CallSend stream data fin))).
  - by apply perform_read.
  - by apply perform_accept.
  - apply perform_then_flush. by apply (silently_event _ (Call (CallSendDatagram data))).
  - cbn [perform]. unfold handle_recv_datagram.
    destruct (pump_until attempt_datagram turns d route _) as [[r1 [s1 [d1 route1]]] |] eqn:E; [| done]. intros [= <- <- _].
    apply accounted_silent; [| by destruct r1].
    apply pump_until_ends in E as [[Hq _] | (c1 & Hq & Ha)]; [exact Hq | | apply attempt_datagram_waits | exact Hs].
    pose proof (silently_event c1 (Call CallRecvDatagram) eq_refl eq_refl I) as Hp. cbn [exec call] in Hp. rewrite Hp in Hq.
    unfold attempt_datagram in Ha. destruct (recv_datagram c1) as [[x |] c2]; [| done]. injection Ha as _ Ec. by rewrite <- Ec.
  - cbn [perform]. unfold handle_close.
    destruct (flush_driver rs _ route) as [[r1 [s1 [d1 route1]]] |] eqn:E; [| done]. intros [= <- <- _].
    apply accounted_silent; [| by destruct r1]. apply silently_flush_driver in E.
    etransitivity; [by apply (silently_event _ (Call (CallClose code reason))) | exact E].
  - cbn [perform]. unfold drive. destruct (pump_once d route _ e) as [[r1 [s1 [d1 route1]]] |] eqn:E; [| done]. intros [= <- <- _].
    apply accounted_silent; [| done]. by apply silently_pump in E.
  - intros [= <- <- _]. apply accounted_silent; [| done]. unfold handle_initiate_key_update. rewrite on_conn_state.
    by apply (silently_event _ (Call (CallKeyUpdate now))).
  - cbn [perform]. unfold handle_initiate_path_challenge. pose proof (on_conn_state initiate_path_challenge d) as Es.
    destruct (on_conn initiate_path_challenge d) as [r1 d1]. cbn [snd] in Es. intros [= <- <- _].
    apply accounted_silent; [| by destruct r1]. rewrite Es. by apply (silently_event _ (Call CallPathChallenge)).
  - intros [= <- <- _]. apply accounted_silent; [| done].
    by apply (silently_event (dconn d) (Call CallTakeToken)).
  - intros [= <- <- _]. apply accounted_silent; [| done]. unfold handle_drop. destruct (is_closed (dconn d)); [done |].
    by apply (silently_event (dconn d) (Call (CallClose 0 []))).
Qed.

(** A session runs the connection's events, and hands out what they read. *)
Lemma session_reaches calls d route got d' route' got' :
  session_ok calls d route -> session calls d route got = Some (d', route', got') ->
  exists log, reaches (dconn d) got (dconn d') log /\ forall id, got' id `prefix_of` log id.
Proof.
  revert d route got. induction calls as [| a calls IH]; intros d route got; cbn [session session_ok].
  { intros _ [= <- _ <-]. exists got. by split; [apply rtc_refl |]. }
  intros (Hs & Hf & Hrest). destruct (perform d route a) as [[r [d1 route1]] |] eqn:E; [| done]. cbn [mbind option_bind].
  destruct (perform_reaches d route a r d1 route1 got Hs Hf E) as (log & Hr & Ha).
  assert (Hgo : forall g, log = g -> session calls d1 route1 g = Some (d', route', got') ->
            exists log, reaches (dconn d) got (dconn d') log /\ forall id, got' id `prefix_of` log id).
  { intros g -> H. destruct (IH d1 route1 g Hrest H) as (log' & H1 & H2). exists log'. split; [| done].
    unfold reaches in *. by etransitivity. }
  destruct r as [id bytes fin | | e]; try (apply Hgo; exact Ha). destruct e; try (apply Hgo; exact Ha).
  intros [= <- _ <-]. by exists log.
Qed.

Lemma reaches_agrees contents `{!HonestPeer env contents} c log c' log' :
  reaches c log c' log' -> agrees contents c log -> agrees contents c' log'.
Proof.
  unfold reaches. intros H. change (agrees contents (c, log).1 (c, log).2 -> agrees contents (c', log').1 (c', log').2). revert H.
  generalize (c, log) (c', log'). intros x y. induction 1 as [| x y z Hs _ IH]; [done |].
  intros Hx. apply IH. destruct Hs. by apply agrees_observe.
Qed.

Lemma reaches_steps c log c' log' : reaches c log c' log' -> rtc step c c'.
Proof.
  unfold reaches. intros H. change (rtc step (c, log).1 (c', log').1). revert H. generalize (c, log) (c', log'). intros x y.
  induction 1 as [| x y z Hs _ IH]; [apply rtc_refl |]. eapply rtc_l; [| exact IH]. destruct Hs. by apply step_event.
Qed.

Lemma silently_handshake start before evs after d route r sent d' route' :
  Forall event_sized evs -> run_handshake start before evs after d route = Some (r, (sent, (d', route'))) -> silently (dconn d) (dconn d').
Proof.
  intros Hs. unfold run_handshake. destruct (flush_driver before d route) as [[r1 [s1 [d1 route1]]] |] eqn:E1; [| done].
  apply silently_flush_driver in E1. cbn [mbind option_bind]. destruct r1 as [u | e]; [| by intros [= _ _ <- _]].
  rewrite E1. clear E1 d route.
  assert (Hl : forall evs d route deadline r sent d' route', Forall event_sized evs ->
            handshake_loop evs d route deadline = Some (r, (sent, (d', route'))) -> silently (dconn d) (dconn d')).
  { clear. induction evs as [| e evs IH]; intros d route deadline r sent d' route' Hs; cbn [handshake_loop];
      (destruct (negb _); [by intros [= _ _ <- _] |]); (destruct (is_closed _); [by intros [= _ _ <- _] |]); [done |].
    apply Forall_cons in Hs as [Hs1 Hs2]. destruct (pump_once d route deadline e) as [[r1 [s1 [d1 route1]]] |] eqn:E; [| done].
    apply silently_pump in E; [| done]. cbn [mbind option_bind]. destruct r1 as [u | x]; [| by intros [= _ _ <- _]].
    destruct (handshake_loop evs d1 route1 deadline) as [[r2 [s2 [d2 route2]]] |] eqn:E2; [| done]. intros [= _ _ <- _].
    rewrite E. by apply IH in E2. }
  destruct (handshake_loop evs d1 route1 _) as [[r2 [s2 [d2 route2]]] |] eqn:E2; [| done]. apply Hl in E2; [| done]. rewrite E2.
  cbn [mbind option_bind]. destruct r2 as [u2 | e]; [| by intros [= _ _ <- _]].
  destruct (flush_driver after d2 route2) as [[r3 [s3 [d3 route3]]] |] eqn:E3; [| done]. apply silently_flush_driver in E3.
  by intros [= _ _ <- _].
Qed.

(** ** Lemmas: opening while blocked *)

Definition blocked_bidi (c : conn) : bool := (0 <? peer_max_streams_bidi c) && (peer_max_streams_bidi c <=? next_bidi_index c).

Lemma app_view_transmit c now clock out : handshake_complete c = true -> app_view (poll_transmit c now clock out).2.2 = app_view c.
Proof.
  intros Hc. unfold poll_transmit. rewrite <- (app_view_pump c clock Hc). generalize (pump_write_hs c clock). intros c1.
  case_bool_decide; [done |].
  assert (Ht : forall x o, app_view (transmit_packets x now o).2.2 = app_view x).
  { intros x o. destruct (transmit_packets x now o) as [a [o' x']] eqn:E. apply transmit_packets_spec in E as (_ & E & _).
    exact (f_equal snd E). }
  destruct (is_some _ || is_some _); [| apply Ht].
  destruct (emit_close c1 out) as [[a |] [o c2]] eqn:E; apply wrote_close in E as (_ & _ & E & _); apply (f_equal snd) in E;
    [exact E |]. rewrite Ht. exact E.
Qed.

Lemma app_view_flush rs c r sent c' : handshake_complete c = true -> flush rs c = Some (r, (sent, c')) -> app_view c' = app_view c.
Proof.
  revert c r sent. induction rs as [| x rs IH]; intros c r sent Hc; [done |]. cbn [flush].
  pose proof (app_view_transmit c (at_ x) (wall x) [] Hc) as H.
  destruct (poll_transmit c (at_ x) (wall x) []) as [[addr |] [out c1]]; cbn [snd] in H; [| by intros [= _ _ <-]].
  destruct (length out =? 0)%nat; [by intros [= _ _ <-] |]. destruct (send_ok x); [| by intros [= _ _ <-]].
  destruct (flush rs c1) as [[r1 [s1 c2]] |] eqn:E; [| done]. intros [= _ _ <-].
  rewrite <- H. eapply IH; [| exact E]. pose proof (f_equal snd H) as Hh. simpl in Hh. congruence.
Qed.

Lemma open_blocked c : blocked_bidi c = true -> open_bidi c = (Err EStream, c <| pending_streams_blocked_bidi := Some (peer_max_streams_bidi c) |>).
Proof. unfold blocked_bidi, open_bidi. by intros ->. Qed.

Lemma open_attempts_blocked n flushes c r sent c' :
  handshake_complete c = true -> blocked_bidi c = true -> open_attempts n flushes c = Some (r, (sent, c')) ->
  r = Err EStream /\ app_view c' = app_view c.
Proof.
  revert flushes c r sent. induction n as [| n IH]; intros flushes c r sent Hc Hb; cbn [open_attempts]; rewrite open_blocked by done.
  { by intros [= <- _ <-]. }
  destruct (n =? 0)%nat; [by intros [= <- _ <-] |]. destruct flushes as [| rs flushes]; [done |].
  match goal with |- context [flush rs ?x] => destruct (flush rs x) as [[r1 [s1 c1]] |] eqn:E; [| done] end.
  apply app_view_flush in E; [| exact Hc]. cbn [mbind option_bind].
  destruct (open_attempts n flushes c1) as [[r2 [s2 c2]] |] eqn:E2; [| done]. cbn [mbind option_bind]. intros [= <- _ <-].
  injection E as E0 En Eu Em Ex Eh. simpl in *. destruct (IH flushes c1 r2 s2) as [H1 H2]; try done; [congruence | | ].
  - unfold blocked_bidi. rewrite En, Em. exact Hb.
  - split; [exact H1 |]. rewrite H2. unfold app_view. congruence.
Qed.

End handle.

(** ** Properties *)

(** C4: From the handshake on, the application gets what the peer sent: a client or
    server connection is driven through its handshake and then by any sequence of
    calls on its handle (opening, sending, reading, accepting, datagrams, key updates,
    path challenges, tokens, closing, dropping), with whatever the socket, the timer
    and the clock do.  Three things are assumed: whatever the packet keys open was
    sealed by a peer that sends the given contents ([HonestPeer]); streams are opened
    under identifiers the peer has not used; and the session ends with the first call
    that fails on the socket, because a read that fails there has already taken its
    bytes from the stream ([read_failure_loses_data]).  Then every state is one the
    connection's own transition system reaches, so that all its invariants hold, and
    the bytes the calls returned for each stream are a prefix of what the peer sent on
    it. *)
Theorem handle_session_sound {env : QuicEnv} {M : Mpsc} (contents : Z -> list Z) `{!HonestPeer env contents}
    role tls params rng algo clock peer_addr start before evs after route r sent d1 route1 calls d2 route2 got :
  let c0 : Connection env := install_initial_keys (new_inner role tls params rng algo clock) in
  Forall event_sized evs ->
  run_handshake start before evs after (driver_new c0 peer_addr) route = Some (r, (sent, (d1, route1))) ->
  session_ok calls d1 route1 -> session calls d1 route1 (fun _ => []) = Some (d2, route2, got) ->
  rtc step c0 (dconn d2) /\ forall id, got id `prefix_of` contents id.
Proof.
  intros c0 Hs Hh Hok Hses. apply silently_handshake in Hh; [| exact Hs]. cbn [driver_new dconn] in Hh.
  destruct (session_reaches calls d1 route1 _ d2 route2 got Hok Hses) as (log & Hr & Hp).
  assert (Hall : reaches c0 (fun _ => []) (dconn d2) log) by (unfold reaches in *; etransitivity; [apply Hh | exact Hr]).
  split; [by eapply reaches_steps |]. intros id. etransitivity; [apply Hp |].
  apply (agrees_prefix contents (dconn d2)). apply (reaches_agrees contents _ _ _ _ Hall).
  intros j. subst c0. unfold new_inner. by destruct (rng_fill rng 32).
Qed.

(** C40: Retrying to open a stream is the same as trying once: on an established
    connection, [open_bi_reliable] with any number of attempts returns what a single
    [open_bidi] would have returned, because between its attempts it only sends and
    sleeps; MAX_STREAMS frames are not received meanwhile, and a connection that was
    blocked is blocked by the same limit afterwards. *)
Theorem open_reliable_is_open {env : QuicEnv} {M : Mpsc} max_attempts flushes (d : Driver (env := env)) route r sent d' route' :
  handshake_complete (dconn d) = true ->
  open_bi_reliable max_attempts flushes d route = Some (r, (sent, (d', route'))) ->
  r = (open_bidi (dconn d)).1 /\
  (forall e, r = Err e -> peer_max_streams_bidi (dconn d') = peer_max_streams_bidi (dconn d) /\ (open_bidi (dconn d')).1 = Err e).
Proof.
  intros Hc. unfold open_bi_reliable. destruct (open_attempts _ flushes (dconn d)) as [[r1 [s1 c1]] |] eqn:E; [| done].
  intros [= -> _ <- _]. destruct (blocked_bidi (dconn d)) eqn:Eb.
  - apply open_attempts_blocked in E as [-> Hv]; try done. rewrite (open_blocked _ Eb). split; [done |]. intros e [= <-].
    injection Hv as _ En _ Em _ _. split; [exact Em |]. cbn [dconn]. rewrite open_blocked; [done |].
    unfold blocked_bidi in *. cbn. by rewrite En, Em.
  - destruct (Nat.max max_attempts 1) as [| n] eqn:En; [lia |]. cbn [open_attempts] in E.
    assert (Ho : exists id c2, open_bidi (dconn d) = (Ok id, c2)).
    { unfold blocked_bidi in Eb. unfold open_bidi. rewrite Eb. by eexists _, _. }
    destruct Ho as (id & c2 & Ho). rewrite Ho in E. injection E as <- _ _. by rewrite Ho.
Qed.

(** Reading is not atomic with the flush it makes: when the socket refuses the
    acknowledgements, the data that was taken from the stream is neither returned
    nor left for the next read. *)
Theorem read_failure_loses_data {env : QuicEnv} {M : Mpsc} (d : Driver (env := env)) route turns rs stream deadline bytes fin c1 e sent c2 :
  read_stream (dconn d) stream = (Ok (bytes, fin), c1) -> bytes <> [] -> handshake_complete c1 = true ->
  flush rs c1 = Some (Err e, (sent, c2)) ->
  read_with_deadline turns rs stream deadline d route = Some (Err EIo, (sent, (d <| dconn := c2 |>, route))) /\
  exists fin', (read_stream c2 stream).1 = Ok ([], fin').
Proof.
  intros Hr Hne Hc Hf. pose proof (flush_error _ _ _ _ _ Hf) as ->. pose proof (app_view_flush _ _ _ _ _ Hc Hf) as Hv. split.
  - unfold read_with_deadline.
    assert (Ea : attempt_read stream (dconn d) = (Some (Ok (bytes, fin)), c1)).
    { unfold attempt_read. rewrite Hr. by destruct bytes. }
    destruct turns; cbn [pump_until]; rewrite Ea; cbn [mbind option_bind]; unfold flush_driver;
      change (flush rs _) with (flush rs c1); by rewrite Hf.
  - injection Hv as E _ _ _ _ _. unfold read_stream in Hr |- *. rewrite E.
    destruct (om_get stream (recv_streams (dconn d))) as [s |] eqn:Es; [| done]. unfold RecvStream.read_checked in Hr.
    destruct (RecvStream.reset_code s) as [code |] eqn:Ec; [done |]. cbn [RecvStream.read] in Hr.
    injection Hr as <- <- Hc1.
    assert (Ers : om_get stream (recv_streams c1) = Some (RecvStream.mk (RecvStream.read_offset s) (RecvStream.pending s) []
                    (RecvStream.final_size s) (RecvStream.fin_delivered s) (RecvStream.reset_code s))).
    { rewrite <- Hc1. repeat case_match; cbn; by rewrite om_get_insert, Z.eqb_refl. }
    rewrite Ers. unfold RecvStream.read_checked. cbn [RecvStream.reset_code]. rewrite Ec. by eexists.
Qed.

(** ** Runs *)

Definition demo_readings (t : Z) : list Reading := replicate 8 (mkReading t t true).

Definition honest_driver : Driver (env := honest_env) := driver_new honest_start (Some (7 : @Addr honest_env)).
Definition honest_route : @Chan queue_mpsc CidRouteUpdate := channel ROUTE_CHANNEL.

Definition honest_handshake := run_handshake (M := queue_mpsc) 0 (demo_readings 0) [] (demo_readings 1) honest_driver honest_route.

Definition honest_connected : Driver (env := honest_env) * @Chan queue_mpsc CidRouteUpdate :=
  match honest_handshake with Some (_, (_, st)) => st | None => (honest_driver, honest_route) end.

Definition honest_inbound (n : Z) (f : Frame) (t : Z) : Wait (env := honest_env) :=
  mkWait (Inbound (Some (honest_packet n f, (7 : @Addr honest_env))) t t [] (demo_readings t)) t.

(** A session that opens a stream and writes to it, then reads the peer's stream, which
    arrives out of order. *)
Definition honest_calls : list (handle_call (env := honest_env)) :=
  [HOpen; HSend (demo_readings 2) 0 [9; 9] true; HAccept [honest_inbound 0 (Stream 1 0 false [1; 2; 3]) 3] 1000;
   HRead [honest_inbound 2 (Stream 1 4 true [5; 6; 7]) 4; honest_inbound 1 (Stream 1 2 false [3; 4]) 5] (demo_readings 6) 1 1000;
   HClose (demo_readings 7) 0 []].

Definition session_got (s : option (Driver (env := honest_env) * @Chan queue_mpsc CidRouteUpdate * read_log)) (id : Z) : list Z :=
  match s with Some (_, _, got) => got id | None => [] end.

Definition honest_session := session honest_calls honest_connected.1 honest_connected.2 (fun _ => []).

Example honest_session_runs : is_some honest_handshake = true /\ is_some honest_session = true /\ session_got honest_session 1 = [1; 2; 3; 4; 5; 6; 7].
Proof. vm_compute. repeat split. Qed.

Lemma honest_session_ok : session_ok honest_calls honest_connected.1 honest_connected.2.
Proof. eapply bool_decide_unpack. vm_compute. exact I. Qed.

#[local] Opaque run_handshake session session_ok new_inner install_initial_keys.

Lemma handle_session_sound_witness :
  match honest_session with
  | Some (d2, _, got) =>
      got 1 = demo_contents 1 /\
      rtc (step (env := honest_env)) honest_start (dconn d2) /\ forall id, got id `prefix_of` demo_contents id
  | None => False
  end.
Proof.
  destruct honest_session_runs as (Hh & Hs & Hg). revert Hg. unfold session_got. destruct honest_session as [[[d2 route2] got] |] eqn:E; [| discriminate Hs].
  intros Hg. split; [exact Hg |]. destruct honest_handshake as [[r [sent [d1 route1]]] |] eqn:Eh; [| discriminate Hh].
  assert (Ec : honest_connected = (d1, route1)) by (unfold honest_connected; rewrite Eh; reflexivity).
  pose proof honest_session_ok as Hok. unfold honest_session in E. rewrite Ec in E, Hok.
  unfold honest_handshake, honest_driver, honest_start in Eh. unfold honest_start.
  eapply (handle_session_sound (env := honest_env) (M := queue_mpsc) demo_contents); [apply Forall_nil_2 | exact Eh | exact Hok | exact E].
Defined.

(** A client whose peer allows no further stream. *)
Definition demo_blocked : Driver (env := demo_env) :=
  driver_new (demo_open_client <| peer_max_streams_bidi := 1 |>) (Some (7 : @Addr demo_env)).

Definition demo_reliable := open_bi_reliable (M := queue_mpsc) 3 [demo_readings 1; demo_readings 2] demo_blocked (channel ROUTE_CHANNEL).

Lemma open_reliable_is_open_witness :
  match demo_reliable with
  | Some (r, (_, (d', _))) =>
      r = Err EStream /\ r = (open_bidi (dconn demo_blocked)).1 /\
      (forall e, r = Err e -> peer_max_streams_bidi (dconn d') = peer_max_streams_bidi (dconn demo_blocked) /\ (open_bidi (dconn d')).1 = Err e)
  | None => False
  end.
Proof.
  assert (Hs : match demo_reliable with Some (r, _) => match r with Err EStream => true | _ => false end | None => false end = true)
    by (vm_compute; reflexivity).
  destruct demo_reliable as [[r [sent [d' route']]] |] eqn:E; [| discriminate Hs].
  split; [destruct r as [| []]; try discriminate Hs; reflexivity |].
  apply (open_reliable_is_open 3 [demo_readings 1; demo_readings 2] demo_blocked (channel ROUTE_CHANNEL) r sent d' route'); [| exact E].
  vm_compute. reflexivity.
Defined.
