(* ===== verification/Server.v ===== *)
(** * The server as a whole

    The demultiplexer and the connection tasks it has spawned, running side by side
    ([endpoint/mod.rs]): datagrams arrive, tasks take them from their channels and
    feed their connections, report connection IDs to the demultiplexer, retire their
    Initial route and exit, in any order.  Channel number [n] belongs to the [n]-th
    task. *)

From stdpp Require Import gmap.
From S2P Require Import Prelude OrdMap CoreTypes Coding FrameCodec ParamsCodec PacketSpace SentPackets.
From S2P Require Import Streams FlowControl Recovery Congestion Bbr CidPool Packet Config Multipath Connection.
From S2P Require Import ConnRecovery ConnHandshake ConnRecv ConnSend ConnFlow ConnSystem Mpsc Endpoint.

Section server.
Context {env : QuicEnv} `{EE : !EndpointEnv env} {M : Mpsc}.

Notation conn := (Connection env).

(** A task: its driver, the Initial DCID it was spawned for, and, for the statement of
    the theorems only, every connection ID its connection has reported as its own. *)
Record Task := mkTask { driver : Driver (env := env); first_dcid : list Z; issued : list (list Z) }.

Record Server := mkServer { demux : Demux (env := env); tasks : list Task }.

Definition server_new (t : TransportConfig) : Server := mkServer (demux_new t) [].

Definition registered (es : list CidEvent) : list (list Z) :=
  omap (fun e => match e with Register cid => Some cid | _ => None end) es.

Inductive server_event :=
| Turn (accept_closed : bool) (a : option Arrival)
| TaskReceive (ch : nat) (now clock : Z)
| TaskStep (ch : nat) (e : event)
| TaskRetireInitial (ch : nat)
| TaskExit (ch : nat).

(** The handshake tasks a turn starts. *)
Definition spawn_tasks (outs : list Output) : list Task :=
  omap (fun o => match o with
                 | Spawn c p ka ch dcid => Some (mkTask (with_cid_routing (driver_new c (Some p)) ch) dcid [local_cid c])
                 | _ => None
                 end) outs.

Definition task_receive (s : Server) (ch : nat) (now clock : Z) : Server :=
  match tasks s !! ch, channels (demux s) !! ch with
  | Some t, Some q =>
      match try_recv q with
      | (RecvItem (dg, src), q) =>
          let dm := (demux s) <| channels ::= <[ch := q]> |> in
          match handle_datagram (dconn (note_source (driver t) src)) now clock dg,
                handle_inbound_datagram (driver t) (cid_route dm) now clock dg src with
          | Some (_, (r, c)), Some (_, (drv, route)) =>
              let ids := match r with Ok _ => registered (pending_cid_events c) | Err _ => [] end in
              mkServer (dm <| cid_route := route |>) (<[ch := mkTask drv (first_dcid t) (issued t ++ ids)]> (tasks s))
          | _, _ => mkServer dm (tasks s)
          end
      | (_, q) => mkServer ((demux s) <| channels ::= <[ch := q]> |>) (tasks s)
      end
  | _, _ => s
  end.

Definition server_step (config : ServerConfig) (s : Server) (e : server_event) : Server :=
  match e with
  | Turn accept_closed a =>
      match demux_turn config accept_closed (demux s) a with
      | Some (outs, d) => mkServer d (tasks s ++ spawn_tasks outs)
      | None => s
      end
  | TaskReceive ch now clock => task_receive s ch now clock
  | TaskStep ch e =>
      mkServer (demux s) (alter (fun t => mkTask ((driver t) <| dconn ::= fun c => exec c e |>) (first_dcid t) (issued t)) ch (tasks s))
  | TaskRetireInitial ch =>
      match tasks s !! ch with
      | Some t => mkServer ((demux s) <| cid_route ::= fun r => (try_send r (mkRouteUpdate (InitialRetired (first_dcid t)) ch)).2 |>) (tasks s)
      | None => s
      end
  | TaskExit ch => mkServer ((demux s) <| channels ::= alter drop_rx ch |>) (tasks s)
  end.

Definition server_run (config : ServerConfig) (s : Server) (es : list server_event) : Server := fold_left (server_step config) es s.

(** ** The invariant *)

(** A datagram is addressed to a task when its destination ID is one the task's
    connection reported, or when it is an Initial for the ID the task was spawned for. *)
Definition addressed (t : Task) (dg : list Z) : Prop :=
  exists ty k, peek_dcid dg LOCAL_CID_LEN = Ok (ty, k) /\ (k ∈ issued t \/ (ty = PT_Initial /\ k = first_dcid t)).

Definition update_ok (ts : list Task) (u : CidRouteUpdate) : Prop :=
  match ru_event u with
  | Register cid => exists t, ts !! ru_conn_tx u = Some t /\ cid ∈ issued t
  | _ => True
  end.

Record routes_ok (ts : list Task) (d : Demux) : Prop := {
  ro_len : length (channels d) = length ts;
  ro_local : forall k ch, local_cid_map d !! k = Some ch -> exists t, ts !! ch = Some t /\ k ∈ issued t;
  ro_initial : forall k ch, initial_map d !! k = Some ch -> exists t, ts !! ch = Some t /\ k = first_dcid t;
  ro_updates : Forall (update_ok ts) (items (view (cid_route d)));
  ro_queues : forall ch t q, ts !! ch = Some t -> channels d !! ch = Some q ->
    Forall (fun item => addressed t item.1) (items (view q))
}.

Definition server_ok (s : Server) : Prop :=
  routes_ok (tasks s) (demux s) /\ forall ch t, tasks s !! ch = Some t -> self_tx (driver t) = Some ch.

(** Tasks only ever gain: more of them, and more identifiers each. *)
Definition grown (ts ts' : list Task) : Prop :=
  forall ch t, ts !! ch = Some t -> exists t', ts' !! ch = Some t' /\ first_dcid t' = first_dcid t /\ issued t ⊆ issued t'.

Lemma grown_refl ts : grown ts ts.
Proof. intros ch t H. by exists t. Qed.

Lemma grown_app ts ts' : grown ts (ts ++ ts').
Proof. intros ch t H. exists t. split; [by apply lookup_app_l_Some | done]. Qed.

Lemma grown_insert ts ch t t' :
  ts !! ch = Some t -> first_dcid t' = first_dcid t -> issued t ⊆ issued t' -> grown ts (<[ch := t']> ts).
Proof.
  intros Hc Hf Hi ch0 t0 H. destruct (decide (ch0 = ch)) as [-> | Hne].
  - assert (t0 = t) as -> by congruence. exists t'. split; [| done]. apply list_lookup_insert_eq. by eapply lookup_lt_Some.
  - exists t0. by rewrite list_lookup_insert_ne by done.
Qed.

Lemma update_ok_grown ts ts' u : grown ts ts' -> update_ok ts u -> update_ok ts' u.
Proof.
  intros Hg. unfold update_ok. destruct (ru_event u); [| done | done]. intros (t & Ht & Hin).
  destruct (Hg _ _ Ht) as (t' & Ht' & _ & Hi). exists t'. split; [done | by apply Hi].
Qed.

Lemma addressed_grown t t' dg : first_dcid t' = first_dcid t -> issued t ⊆ issued t' -> addressed t dg -> addressed t' dg.
Proof. intros Hf Hi (ty & k & Hp & H). exists ty, k. split; [done |]. rewrite Hf. destruct H; [left; by apply Hi | by right]. Qed.

Lemma routes_ok_grown ts ts' d : grown ts ts' -> length ts' = length ts -> routes_ok ts d -> routes_ok ts' d.
Proof.
  intros Hg Hl [H1 H2 H3 H4 H5]. split; [congruence | | | |].
  - intros k ch (t & Ht & Hk)%H2. destruct (Hg _ _ Ht) as (t' & Ht' & _ & Hi). exists t'. split; [done | by apply Hi].
  - intros k ch (t & Ht & ->)%H3. destruct (Hg _ _ Ht) as (t' & Ht' & Hf & _). by exists t'.
  - eapply Forall_impl; [exact H4 |]. intros u. by apply update_ok_grown.
  - intros ch t' q Ht' Hq. destruct (lookup_lt_is_Some_2 ts ch) as [t Ht]; [rewrite <- Hl; by eapply lookup_lt_Some |].
    destruct (Hg _ _ Ht) as (t'' & Ht'' & Hf & Hi). assert (t'' = t') as -> by congruence.
    eapply Forall_impl; [exact (H5 _ _ _ Ht Hq) |]. intros item. by apply addressed_grown.
Qed.

(** Changes of the demultiplexer that can only lose routes. *)
Lemma routes_ok_sub ts d d' :
  routes_ok ts d -> channels d' = channels d -> cid_route d' = cid_route d ->
  local_cid_map d' ⊆ local_cid_map d -> initial_map d' ⊆ initial_map d -> routes_ok ts d'.
Proof.
  intros [H1 H2 H3 H4 H5] Hc Hr Hl Hi. split; rewrite ?Hc, ?Hr; [done | | | done | done].
  - intros k ch H. apply H2. by eapply lookup_weaken.
  - intros k ch H. apply H3. by eapply lookup_weaken.
Qed.

Context `{!LawfulMpsc M}.

Lemma update_routes ts d u : routes_ok ts d -> update_ok ts u -> routes_ok ts (apply_cid_route_update d u).2.
Proof.
  intros Hok Hu. unfold apply_cid_route_update, update_ok in *. destruct (ru_event u) as [cid | cid | dcid].
  - destruct (length cid =? LOCAL_CID_LEN)%nat; [| done]. destruct Hok as [H1 H2 H3 H4 H5]. split; [done | | done | done | done].
    intros k ch. cbn. intros [[<- <-] | [_ H]]%lookup_insert_Some; [done | by apply H2].
  - destruct (length cid =? LOCAL_CID_LEN)%nat; [| done]. eapply routes_ok_sub; try done. apply delete_subseteq.
  - eapply routes_ok_sub; try done. apply delete_subseteq.
Qed.

Lemma drain_routes ts fuel d : routes_ok ts d -> routes_ok ts (drain_updates fuel d).
Proof.
  revert d. induction fuel as [| fuel IH]; intros d Hok; cbn [drain_updates]; [done |].
  destruct (try_recv (cid_route d)) as [[u | |] r] eqn:E.
  - pose proof (try_recv_item (cid_route d) u) as Hi. rewrite E in Hi. specialize (Hi eq_refl). cbn [snd] in Hi.
    pose proof (ro_updates ts d Hok) as Hu. rewrite Hi in Hu. apply Forall_cons in Hu as [Hu Hus].
    apply IH, update_routes; [| done]. destruct Hok as [H1 H2 H3 H4 H5]. by split.
  - pose proof (try_recv_other (cid_route d)) as Hv. rewrite E in Hv. cbn [fst snd] in Hv.
    destruct Hok as [H1 H2 H3 H4 H5]. split; try done. cbn. by rewrite Hv.
  - pose proof (try_recv_other (cid_route d)) as Hv. rewrite E in Hv. cbn [fst snd] in Hv.
    destruct Hok as [H1 H2 H3 H4 H5]. split; try done. cbn. by rewrite Hv.
Qed.

(** Replacing one queue by another whose datagrams are all addressed to its task. *)
Lemma queue_routes ts d ch q' :
  routes_ok ts d ->
  (forall t q, ts !! ch = Some t -> channels d !! ch = Some q -> Forall (fun item => addressed t item.1) (items (view q'))) ->
  routes_ok ts (d <| channels ::= <[ch := q']> |>).
Proof.
  intros [H1 H2 H3 H4 H5] Hq. split; [by cbn; rewrite length_insert | done | done | done |].
  intros ch0 t q Ht Hc. cbn in Hc. apply list_lookup_insert_Some in Hc as [(<- & <- & Hlt) | [_ Hc]]; [| by eapply H5].
  destruct (lookup_lt_is_Some_2 _ _ Hlt) as [q0 Hq0]. by eapply Hq.
Qed.

Lemma offer_routes ts d ch t item :
  routes_ok ts d -> ts !! ch = Some t -> addressed t item.1 -> routes_ok ts (offer d ch item).2.
Proof.
  intros Hok Ht Ha. unfold offer. destruct (channels d !! ch) as [q |] eqn:Eq; [| done].
  destruct (try_send q item) as [r q'] eqn:Es. cbn [snd]. apply queue_routes; [done |].
  intros t0 q0 Ht0 Hq0. assert (t0 = t) as -> by congruence. assert (q0 = q) as -> by congruence.
  pose proof (try_send_items q item) as Hi. rewrite Es in Hi. cbn [fst snd] in Hi. rewrite Hi.
  pose proof (ro_queues ts d Hok ch t q Ht Eq) as Hold. destruct r; try done. apply Forall_app. split; [done | by constructor].
Qed.

Lemma forward_local_routes ts d k ch t item :
  routes_ok ts d -> ts !! ch = Some t -> addressed t item.1 -> routes_ok ts (forward_local d k ch item).
Proof.
  intros Hok Ht Ha. pose proof (offer_routes ts d ch t item Hok Ht Ha) as Ho. unfold forward_local.
  destruct (offer d ch item) as [[] d']; try done. eapply routes_ok_sub; try done. apply delete_subseteq.
Qed.

Lemma forward_initial_routes ts d k ch t item :
  routes_ok ts d -> ts !! ch = Some t -> addressed t item.1 -> routes_ok ts (forward_initial d k ch item).
Proof.
  intros Hok Ht Ha. pose proof (offer_routes ts d ch t item Hok Ht Ha) as Ho. unfold forward_initial.
  destruct (offer d ch item) as [[] d']; try done. eapply routes_ok_sub; try done. apply delete_subseteq.
Qed.

(** The tasks after a datagram: what was there and the connections just spawned. *)
Lemma effect_routes config ts d a outs d' :
  routes_ok ts d -> effect config d a outs d' ->
  routes_ok (ts ++ spawn_tasks outs) d' /\
  forall n t, spawn_tasks outs !! n = Some t -> self_tx (driver t) = Some (length ts + n)%nat.
Proof.
  intros Hok He. assert (Hnil : forall d', routes_ok ts d' -> routes_ok (ts ++ []) d' /\
    forall n t, @nil Task !! n = Some t -> self_tx (driver t) = Some (length ts + n)%nat) by (intros; by rewrite app_nil_r).
  destruct He as [d' (E1 & E2 & E3 & E4) | pkt d' (E1 & E2 & E3 & E4) _ | ty k ch Hp Hk Hl | k ch Hp Hi | dcid scid Hp _ _ _];
    cbn [spawn_tasks omap list_omap].
  - apply Hnil. apply (routes_ok_sub ts d); [done | done | done | by rewrite E2 | by rewrite E1].
  - apply Hnil. apply (routes_ok_sub ts d); [done | done | done | by rewrite E2 | by rewrite E1].
  - apply Hnil. destruct (ro_local ts d Hok _ _ Hl) as (t & Ht & Hin).
    eapply forward_local_routes; [done | done |]. exists ty, k. split; [done | by left].
  - apply Hnil. destruct (ro_initial ts d Hok _ _ Hi) as (t & Ht & ->).
    eapply forward_initial_routes; [done | done |]. eexists PT_Initial, _. split; [done | by right].
  - pose proof (create_spec config d a dcid scid) as Hc. destruct (create_connection config d a dcid scid) as [outs d']. cbn [fst snd].
    destruct Hc as [[-> [-> | [e ->]]] | (c & q & -> & Hlen & Hq & ->)]; [by apply Hnil | by apply Hnil |].
    cbn [spawn_tasks omap list_omap]. destruct Hok as [H1 H2 H3 H4 H5].
    set (t := mkTask (with_cid_routing (driver_new c (Some (from a))) (length (channels d))) dcid [local_cid c]).
    assert (Hnew : (ts ++ [t]) !! length (channels d) = Some t) by (rewrite H1; by apply list_lookup_middle).
    split; [split |]; cbn [channels local_cid_map initial_map cid_route transport].
    + rewrite !length_app. by rewrite H1.
    + intros k ch [[<- <-] | [_ H]]%lookup_insert_Some.
      * exists t. split; [done |]. by apply elem_of_cons; left.
      * destruct (H2 _ _ H) as (t' & Ht' & Hin). exists t'. split; [by apply lookup_app_l_Some | done].
    + intros k ch [[<- <-] | [_ H]]%lookup_insert_Some; [by exists t |].
      destruct (H3 _ _ H) as (t' & Ht' & Hin). exists t'. split; [by apply lookup_app_l_Some | done].
    + eapply Forall_impl; [exact H4 |]. intros u. apply update_ok_grown, grown_app.
    + intros ch t' q' Ht' Hq'. apply lookup_app_Some in Ht' as [Ht' | [Hge Ht']].
      * rewrite lookup_app_l in Hq' by (rewrite H1; by eapply lookup_lt_Some). by eapply H5.
      * apply list_lookup_singleton_Some in Ht' as [Hz <-]. rewrite lookup_app_r in Hq' by lia. rewrite H1, Hz in Hq'. injection Hq' as <-.
        rewrite Hq. cbn [items]. constructor; [| done]. exists PT_Initial, dcid. split; [done | by right].
    + intros n t' Hn. apply list_lookup_singleton_Some in Hn as [-> <-]. cbn. by rewrite H1, Nat.add_0_r.
Qed.

Lemma turn_ok config s b a : server_ok s -> server_ok (server_step config s (Turn b a)).
Proof.
  intros [Hok Hself]. unfold server_step, demux_turn. destruct b; [done |].
  pose proof (drain_routes (tasks s) (S (length (items (view (cid_route (demux s)))))) (demux s) Hok) as Hd.
  set (d := drain_updates _ _) in *. destruct a as [a |].
  - set (a' := mkArrival _ _ _ _ _ _). pose proof (effect_routes config _ _ a' _ _ Hd (on_datagram_effect config d a')) as [He Hs].
    destruct (on_datagram config d a') as [outs d']. split; [done |]. cbn [tasks].
    intros ch t [H | [Hge H]]%lookup_app_Some; [by apply Hself |]. rewrite (Hs _ _ H). f_equal. lia.
  - cbn [spawn_tasks omap list_omap]. split; cbn; rewrite app_nil_r; done.
Qed.

(** What draining a connection's events adds to the update channel. *)
Lemma drain_cid_items fuel drv (route : Chan CidRouteUpdate) u :
  u ∈ items (view (drain_cid_loop fuel drv route).2) ->
  u ∈ items (view route) \/
  exists e ch, self_tx drv = Some ch /\ e ∈ pending_cid_events (dconn drv) /\ u = mkRouteUpdate e ch.
Proof.
  revert drv route. induction fuel as [| fuel IH]; intros drv route; cbn [drain_cid_loop]; [by left |].
  unfold pop_cid_event. destruct (pending_cid_events (dconn drv)) as [| e es] eqn:Ee; [by left |].
  intros [H | (e' & ch & H1 & H2 & ->)]%IH.
  - destruct (self_tx drv) as [ch |] eqn:Es; [| by left]. rewrite try_send_items in H. destruct (try_send route _).1; try by left.
    apply elem_of_app in H as [H | H]; [by left |]. apply list_elem_of_singleton in H as ->. right. exists e, ch. split; [done |]. split; [by apply elem_of_cons; left | done].
  - right. exists e', ch. split; [exact H1 |]. split; [| done]. apply elem_of_cons. by right.
Qed.

Lemma drain_cid_self fuel drv (route : Chan CidRouteUpdate) : self_tx (drain_cid_loop fuel drv route).1 = self_tx drv.
Proof.
  revert drv route. induction fuel as [| fuel IH]; intros drv route; cbn [drain_cid_loop]; [done |].
  destruct (pop_cid_event (dconn drv)) as [[e |] c]; [| done]. by rewrite IH.
Qed.

Lemma registered_in es cid : Register cid ∈ es -> cid ∈ registered es.
Proof. intros H. unfold registered. apply list_elem_of_omap. by exists (Register cid). Qed.

(** One inbound datagram at a driver: the updates it may send, and its own handle. *)
Lemma inbound_updates drv route now clock dg src dg' r c res drv' route' :
  handle_datagram (dconn (note_source drv src)) now clock dg = Some (dg', (r, c)) ->
  handle_inbound_datagram drv route now clock dg src = Some (res, (drv', route')) ->
  self_tx drv' = self_tx drv /\
  forall u, u ∈ items (view route') -> u ∈ items (view route) \/
    exists ch e, self_tx drv = Some ch /\ u = mkRouteUpdate e ch /\
      match r with Ok _ => e ∈ pending_cid_events c | Err _ => False end.
Proof.
  intros Hd. unfold handle_inbound_datagram. rewrite Hd. cbn [mbind option_bind].
  assert (Hs : self_tx (note_source drv src) = self_tx drv) by (unfold note_source; destruct (peer drv); [by destruct (_ && _) | done]).
  destruct r as [[] | e]; [| intros [= <- <- <-]; split; [exact Hs | by left]].
  intros [= <- E]. set (drv1 := if path_validated c then _ else _) in E.
  assert (H1 : self_tx drv1 = self_tx drv /\ pending_cid_events (dconn drv1) = pending_cid_events c)
    by (unfold drv1; destruct (path_validated c); done).
  destruct H1 as [H1 H2]. split.
  - replace drv' with (drain_cid_events drv1 route).1 by (by rewrite E). unfold drain_cid_events. by rewrite drain_cid_self.
  - intros u Hu. replace route' with (drain_cid_events drv1 route).2 in Hu by (by rewrite E). unfold drain_cid_events in Hu.
    apply drain_cid_items in Hu as [Hu | (e & ch & Hc & He & ->)]; [by left |]. right. exists ch, e.
    rewrite <- H1, <- H2. done.
Qed.

Lemma receive_ok s ch now clock : server_ok s -> server_ok (task_receive s ch now clock).
Proof.
  intros [Hok Hself]. unfold task_receive.
  destruct (tasks s !! ch) as [t |] eqn:Et; [| done]. destruct (channels (demux s) !! ch) as [q |] eqn:Eq; [| done].
  destruct (try_recv q) as [r q'] eqn:Er.
  assert (Hdm : routes_ok (tasks s) ((demux s) <| channels ::= <[ch := q']> |>)).
  { apply queue_routes; [done |]. intros t0 q0 Ht0 Hq0. assert (q0 = q) as -> by congruence.
    pose proof (ro_queues _ _ Hok _ _ _ Ht0 Hq0) as Hold. replace q' with (try_recv q).2 by (by rewrite Er).
    destruct r as [x | |].
    - rewrite (try_recv_item q x) in Hold by (by rewrite Er). by apply Forall_cons in Hold as [_ ?].
    - rewrite try_recv_other; [done |]. by rewrite Er.
    - rewrite try_recv_other; [done |]. by rewrite Er. }
  destruct r as [[dg src] | |]; [| by split | by split].
  destruct (handle_datagram _ now clock dg) as [[dg' [r c]] |] eqn:Ed; [| by split].
  set (dm := (demux s) <| channels ::= <[ch := q']> |>) in *.
  destruct (handle_inbound_datagram (driver t) _ now clock dg src) as [[res [drv route]] |] eqn:Ei; [| by split].
  destruct (inbound_updates _ _ _ _ _ _ _ _ _ _ _ _ Ed Ei) as [Hs Hu].
  set (ids := match r with Ok _ => registered (pending_cid_events c) | Err _ => [] end).
  set (t' := mkTask drv (first_dcid t) (issued t ++ ids)).
  assert (Hg : grown (tasks s) (<[ch := t']> (tasks s))).
  { apply (grown_insert _ _ t); [done | done |]. intros x Hx. apply elem_of_app. by left. }
  assert (Hlt : (ch < length (tasks s))%nat) by (by eapply lookup_lt_Some).
  split; cbn [tasks demux].
  - apply (routes_ok_grown _ (<[ch := t']> (tasks s))) in Hdm; [| done | by rewrite length_insert].
    destruct Hdm as [H1 H2 H3 H4 H5]. split; [done | done | done | | done].
    cbn. apply Forall_forall. intros u [Hin | (ch0 & e & Hc & -> & He)]%Hu.
    + rewrite Forall_forall in H4. apply H4. exact Hin.
    + rewrite (Hself _ _ Et) in Hc. injection Hc as <-. unfold update_ok. cbn [ru_event ru_conn_tx].
      destruct e as [cid | |]; [| done | done]. exists t'. split; [by apply list_lookup_insert_eq |]. cbn [issued t'].
      apply elem_of_app. right. unfold ids. destruct r; [by apply registered_in | done].
  - intros ch0 t0 [(<- & <- & _) | [Hne H]]%list_lookup_insert_Some; [cbn [driver t']; rewrite Hs; by apply Hself | by apply Hself].
Qed.

Lemma alter_step_grown ts ch f :
  (forall t, first_dcid (f t) = first_dcid t /\ issued (f t) = issued t) -> grown ts (alter f ch ts).
Proof.
  intros Hf ch0 t0 H. destruct (decide (ch0 = ch)) as [-> | Hne].
  - exists (f t0). rewrite list_lookup_alter_eq, H. destruct (Hf t0) as [-> ->]. done.
  - exists t0. by rewrite list_lookup_alter_ne by done.
Qed.

Lemma step_ok config s e : server_ok s -> server_ok (server_step config s e).
Proof.
  intros Hs. destruct e as [b a | ch now clock | ch e | ch | ch].
  - by apply turn_ok.
  - by apply receive_ok.
  - destruct Hs as [Hok Hself]. split; cbn [server_step tasks demux].
    + eapply routes_ok_grown; [by apply alter_step_grown | by rewrite length_alter | done].
    + intros ch0 t0 H. destruct (decide (ch0 = ch)) as [-> | Hne].
      * rewrite list_lookup_alter_eq in H. apply fmap_Some in H as (t & Ht & ->). exact (Hself _ _ Ht).
      * rewrite list_lookup_alter_ne in H by done. by apply Hself.
  - destruct Hs as [Hok Hself]. cbn [server_step]. destruct (tasks s !! ch) as [t |]; [| done]. split; [| done].
    destruct Hok as [H1 H2 H3 H4 H5]. split; try done. cbn. rewrite try_send_items. destruct (try_send _ _).1; try done.
    apply Forall_app. split; [done |]. by constructor.
  - destruct Hs as [Hok Hself]. split; [| done]. destruct Hok as [H1 H2 H3 H4 H5].
    split; cbn [server_step demux tasks]; [by cbn; rewrite length_alter | done | done | done |].
    intros ch0 t q Ht Hq. cbn in Hq. destruct (decide (ch0 = ch)) as [-> | Hne].
    + rewrite list_lookup_alter_eq in Hq. apply fmap_Some in Hq as (q0 & _ & ->). by rewrite view_drop_rx.
    + rewrite list_lookup_alter_ne in Hq by done. by eapply H5.
Qed.

Lemma new_ok t : server_ok (server_new t).
Proof. split; [split |]; try done. cbn. by rewrite view_channel. Qed.

Lemma run_ok config s es : server_ok s -> server_ok (server_run config s es).
Proof. revert s. induction es as [| e es IH]; intros s Hs; [done |]. by apply IH, step_ok. Qed.

(** ** Properties *)

(** C12: A connection only ever gets what is addressed to it.  In every state the
    server reaches from a fresh start, by any interleaving of datagrams, connection
    tasks receiving, sending, timing out, reporting identifiers, retiring and
    exiting: both routing tables point to tasks that exist, a route for a server-issued
    ID leads to the task whose connection reported that ID and an Initial route to
    the task spawned for it, and every datagram queued for a task carries one of the
    task's own IDs or is an Initial for the ID it was spawned for. *)
Theorem routing_sound config t es :
  let s := server_run config (server_new t) es in
  (forall k ch, local_cid_map (demux s) !! k = Some ch -> exists t, tasks s !! ch = Some t /\ k ∈ issued t) /\
  (forall k ch, initial_map (demux s) !! k = Some ch -> exists t, tasks s !! ch = Some t /\ k = first_dcid t) /\
  (forall ch t q, tasks s !! ch = Some t -> channels (demux s) !! ch = Some q ->
     Forall (fun item => addressed t item.1) (items (view q))).
Proof.
  intros s. destruct (run_ok config _ es (new_ok t)) as [Hok _]. fold s in Hok.
  split; [exact (ro_local _ _ Hok) | split; [exact (ro_initial _ _ Hok) | exact (ro_queues _ _ Hok)]].
Qed.

End server.

(** Two Initials of one client: the first spawns its task, which takes it from its channel. *)
Definition demo_server : @Server demo_env queue_mpsc :=
  server_run demo_config (server_new default_config) [Turn false (Some demo_first); Turn false (Some demo_first); TaskReceive 0 0 0].

Lemma routing_sound_witness :
  length (tasks demo_server) = 1%nat /\ initial_map (demux demo_server) !! [1; 2; 3; 4; 5; 6; 7; 8] = Some 0%nat /\
  (exists t, tasks demo_server !! 0%nat = Some t /\ [1; 2; 3; 4; 5; 6; 7; 8] = first_dcid t) /\
  (forall ch t q, tasks demo_server !! ch = Some t -> channels (demux demo_server) !! ch = Some q ->
     Forall (fun item => addressed t item.1) (items (view q))).
Proof.
  destruct (routing_sound demo_config default_config [Turn false (Some demo_first); Turn false (Some demo_first); TaskReceive 0 0 0])
    as (_ & H2 & H3).
  assert (E : initial_map (demux demo_server) !! [1; 2; 3; 4; 5; 6; 7; 8] = Some 0%nat) by (vm_compute; reflexivity).
  split; [vm_compute; reflexivity |]. split; [exact E |]. split; [exact (H2 _ _ E) | exact H3].
Defined.
