(* ===== verification/Driven.v ===== *)
(** * The background driver and the stream handles
    ([oxiquic-transport/src/endpoint/driven.rs], [oxiquic-transport/src/handle.rs])

    The task that owns a connection after [into_driven], a turn of its [select!] loop
    at a time, and the handles through which the application reads and writes
    streams.  Everything between the two sides goes through bounded channels. *)

From stdpp Require Import gmap.
From S2P Require Import Prelude OrdMap CoreTypes Coding FrameCodec ParamsCodec PacketSpace SentPackets.
From S2P Require Import Streams FlowControl Recovery Congestion Bbr CidPool Packet Config Multipath Connection.
From S2P Require Import ConnRecovery ConnHandshake ConnRecv ConnSend Mpsc Endpoint.

Inductive WriteCmd :=
| WcWrite (data : list Z) (fin : bool)
| WcReset (error_code : Z)
| WcStopSending (error_code : Z).

Definition WRITE_CHANNEL : nat := 256.
Definition DATA_CHANNEL : nat := 64.
Definition ACCEPT_CHANNEL : nat := 64.

Inductive Poll (A : Type) := Ready (x : A) | Pending.
Arguments Ready {A}. Arguments Pending {A}.

Section driven.
Context {env : QuicEnv} {M : Mpsc}.

Notation conn := (Connection env).

(** ** Handles *)

(** The read side: what is left of the chunk being read. *)
Record RecvStreamHandle := mkRecvHandle { rh_buf : list Z; rh_pos : nat }.
Definition recv_handle_new : RecvStreamHandle := mkRecvHandle [] 0.

(** [poll_read] into a buffer with [room] bytes left; [Ready []] on a closed channel is
    the end of the stream. *)
Definition poll_read (h : RecvStreamHandle) (rx : Chan (list Z)) (room : nat)
    : Poll (list Z) * (RecvStreamHandle * Chan (list Z)) :=
  if (rh_pos h <? length (rh_buf h))%nat then
    let available := drop (rh_pos h) (rh_buf h) in
    let to_copy := Nat.min (length available) room in
    (Ready (take to_copy available), (mkRecvHandle (rh_buf h) (rh_pos h + to_copy), rx))
  else
    match try_recv rx with
    | (RecvItem data, rx) =>
        let to_copy := Nat.min (length data) room in
        let h := if (to_copy <? length data)%nat then mkRecvHandle data to_copy else mkRecvHandle [] 0 in
        (Ready (take to_copy data), (h, rx))
    | (RecvDisconnected, rx) => (Ready [], (h, rx))
    | (RecvEmpty, rx) => (Pending, (h, rx))
    end.

(** The write side: [Some n] bytes accepted, [None] a broken pipe. *)
Definition poll_write (tx : Chan (Z * WriteCmd)) (stream : Z) (buf : list Z) : Poll (option nat) * Chan (Z * WriteCmd) :=
  match try_send tx (stream, WcWrite buf false) with
  | (SendOk, tx) => (Ready (Some (length buf)), tx)
  | (SendFull, tx) => (Pending, tx)
  | (SendClosed, tx) => (Ready None, tx)
  end.

(** [poll_shutdown] always reports success. *)
Definition poll_shutdown (tx : Chan (Z * WriteCmd)) (stream : Z) : Poll (option unit) * Chan (Z * WriteCmd) :=
  (Ready (Some tt), (try_send tx (stream, WcWrite [] true)).2).

(** ** The driver's state *)

(** A data channel is named by its index; an accepted stream is its ID and its channel. *)
Record Driven := mkDriven {
  dv_conn : conn;
  read_senders : gmap Z nat;
  data_channels : list (Chan (list Z));
  write_rx : Chan (Z * WriteCmd);
  accept_bidi : Chan (Z * nat);
  accept_uni : Chan (Z * nat);
  open_rx_live : bool;
  open_uni_rx_live : bool;
  closed_flag : bool
}.

#[export] Instance Driven_eta : Settable Driven := fun d =>
  mkDriven (dv_conn d) (read_senders d) (data_channels d) (write_rx d) (accept_bidi d) (accept_uni d)
    (open_rx_live d) (open_uni_rx_live d) (closed_flag d).
#[export] Instance set_dv_conn : Setter dv_conn := ltac:(solve_setter).
#[export] Instance set_read_senders : Setter read_senders := ltac:(solve_setter).
#[export] Instance set_data_channels : Setter data_channels := ltac:(solve_setter).
#[export] Instance set_write_rx : Setter write_rx := ltac:(solve_setter).
#[export] Instance set_accept_bidi : Setter accept_bidi := ltac:(solve_setter).
#[export] Instance set_accept_uni : Setter accept_uni := ltac:(solve_setter).
#[export] Instance set_open_rx_live : Setter open_rx_live := ltac:(solve_setter).
#[export] Instance set_open_uni_rx_live : Setter open_uni_rx_live := ltac:(solve_setter).
#[export] Instance set_closed_flag : Setter closed_flag := ltac:(solve_setter).

Definition into_driven (c : conn) : Driven :=
  mkDriven c ∅ [] (channel WRITE_CHANNEL) (channel ACCEPT_CHANNEL) (channel ACCEPT_CHANNEL) true true false.

(** [read_senders.insert]: the sender it replaces is dropped. *)
Definition insert_sender (d : Driven) (sid : Z) (ch : nat) : Driven :=
  let d := match read_senders d !! sid with
           | Some old => d <| data_channels ::= alter drop_tx old |>
           | None => d
           end in
  d <| read_senders ::= <[sid := ch]> |>.

Definition remove_sender (d : Driven) (sid : Z) : Driven :=
  match read_senders d !! sid with
  | Some old => d <| data_channels ::= alter drop_tx old |> <| read_senders ::= delete sid |>
  | None => d
  end.

Definition new_data_channel (d : Driven) (n : nat) : nat * Driven :=
  (length (data_channels d), d <| data_channels ::= fun cs => cs ++ [channel n] |>).

(** ** Inbound data *)

(** A stream the peer opened: a channel for its data, and its handles offered to
    [accept_*_stream]; handles that find no place there are dropped, the receiver of
    the channel with them. *)
Definition surface_stream (d : Driven) (sid : Z) : Driven :=
  let '(ch, d) := new_data_channel d DATA_CHANNEL in
  let d := insert_sender d sid ch in
  if bool_decide (StreamId.direction sid = Bidirectional) then
    let '(r, q) := try_send (accept_bidi d) (sid, ch) in
    let d := d <| accept_bidi := q |> in
    match r with SendOk => d | _ => d <| data_channels ::= alter drop_rx ch |> end
  else
    let '(r, q) := try_send (accept_uni d) (sid, ch) in
    let d := d <| accept_uni := q |> in
    match r with SendOk => d | _ => d <| data_channels ::= alter drop_rx ch |> end.

Fixpoint surface_loop (fuel : nat) (d : Driven) : Driven :=
  match fuel with
  | O => d
  | S fuel =>
      match poll_new_peer_stream (dv_conn d) with
      | (None, c) => d <| dv_conn := c |>
      | (Some sid, c) => surface_loop fuel (surface_stream (d <| dv_conn := c |>) sid)
      end
  end.

Definition surface_streams (d : Driven) : Driven := surface_loop (S (length (new_peer_streams (dv_conn d)))) d.

(** One readable stream: what the connection has in order goes to the stream's channel
    with [try_send]; its result is ignored. *)
Definition forward_stream (d : Driven) (sid : Z) : Driven :=
  match read_stream (dv_conn d) sid with
  | (Err _, c) => d <| dv_conn := c |>
  | (Ok (bytes, fin), c) =>
      let d := d <| dv_conn := c |> in
      let d := if is_none (read_senders d !! sid) && (negb (length bytes =? 0)%nat || fin) then
                 let '(ch, d) := new_data_channel d DATA_CHANNEL in
                 insert_sender (d <| data_channels ::= alter drop_rx ch |>) sid ch
               else d in
      let d := if negb (length bytes =? 0)%nat then
                 match read_senders d !! sid with
                 | Some ch => d <| data_channels ::= alter (fun q => (try_send q bytes).2) ch |>
                 | None => d
                 end
               else d in
      if fin then remove_sender d sid else d
  end.

Fixpoint forward_loop (fuel : nat) (d : Driven) : Driven :=
  match fuel with
  | O => d
  | S fuel =>
      match poll_readable (dv_conn d) with
      | (None, c) => d <| dv_conn := c |>
      | (Some sid, c) => forward_loop fuel (forward_stream (d <| dv_conn := c |>) sid)
      end
  end.

Definition forward_readable (d : Driven) : Driven := forward_loop (S (length (readable (dv_conn d)))) d.

(** ** Commands *)

Definition apply_write (c : conn) (sid : Z) (cmd : WriteCmd) : conn :=
  match cmd with
  | WcWrite data fin => (send_stream c sid data fin).2
  | WcReset error_code => (reset_stream c sid error_code).2
  | WcStopSending error_code => (stop_sending c sid error_code).2
  end.

Fixpoint drain_writes (fuel : nat) (d : Driven) : Driven :=
  match fuel with
  | O => d
  | S fuel =>
      match try_recv (write_rx d) with
      | (RecvItem (sid, cmd), q) => drain_writes fuel (d <| write_rx := q |> <| dv_conn ::= fun c => apply_write c sid cmd |>)
      | (_, q) => d <| write_rx := q |>
      end
  end.

(** ** One turn of [select!] *)

Inductive DrivenEvent :=
| EvDatagram (dg : list Z) (now clock : Z) (rs : list Reading)
| EvRecvRefused
| EvRecvError
| EvWrite (rs : list Reading)
| EvOpenBidi (request : bool) (rs : list Reading)
| EvOpenUni (request : bool) (rs : list Reading)
| EvClose (request : option (Z * list Z)) (before after : list Reading)
| EvTimeout (now : Z) (rs : list Reading).

(** What a turn produces: whether the loop goes on, the datagrams sent, and the answer
    to an open request. *)
Record TurnResult := mkTurn {
  goes_on : bool;
  sent : list (list Z * Addr);
  reply : option (Z * nat);
  after : Driven
}.

Definition flush_conn (rs : list Reading) (d : Driven) : option (bool * list (list Z * Addr) * Driven) :=
  '(r, (out, c)) ← flush rs (dv_conn d);
  Some (match r with Ok _ => true | Err _ => false end, out, d <| dv_conn := c |>).

(** The exit: the senders are dropped and the flag is set. *)
Definition exit_loop (d : Driven) : Driven :=
  d <| data_channels := imap (fun i q => if bool_decide (i ∈ (map snd (map_to_list (read_senders d)))) then drop_tx q else q) (data_channels d) |>
    <| read_senders := ∅ |> <| closed_flag := true |>.

(** Flush, leave when the socket failed, and check for the end of the connection. *)
Definition finish_turn (rs : list Reading) (rep : option (Z * nat)) (d : Driven) : option TurnResult :=
  '(ok, out, d) ← flush_conn rs d;
  if negb ok || is_closed (dv_conn d) then Some (mkTurn false out rep (exit_loop d)) else Some (mkTurn true out rep d).

(** The end of a turn that has nothing to flush. *)
Definition end_turn (d : Driven) : TurnResult :=
  if is_closed (dv_conn d) then mkTurn false [] None (exit_loop d) else mkTurn true [] None d.

Definition driven_turn (d : Driven) (e : DrivenEvent) : option TurnResult :=
  match e with
  | EvDatagram dg now clock rs =>
      '(_, (r, c)) ← handle_datagram (dv_conn d) now clock dg;
      let d := d <| dv_conn := c |> in
      match r with
      | Err _ => Some (mkTurn false [] None (exit_loop d))
      | Ok _ => finish_turn rs None (forward_readable (surface_streams d))
      end
  | EvRecvRefused => Some (mkTurn true [] None d)
  | EvRecvError => Some (mkTurn false [] None (exit_loop d))
  | EvWrite rs =>
      match try_recv (write_rx d) with
      | (RecvItem (sid, cmd), q) => finish_turn rs None (d <| write_rx := q |> <| dv_conn ::= fun c => apply_write c sid cmd |>)
      | (RecvDisconnected, q) => Some (mkTurn false [] None (exit_loop (d <| write_rx := q |>)))
      | (RecvEmpty, q) => Some (mkTurn true [] None (d <| write_rx := q |>))
      end
  | EvOpenBidi request rs =>
      if request then
        match open_bidi (dv_conn d) with
        | (Err _, c) => Some (mkTurn true [] None (d <| dv_conn := c |>))
        | (Ok sid, c) =>
            let '(ch, d) := new_data_channel (d <| dv_conn := c |>) DATA_CHANNEL in
            finish_turn rs (Some (sid, ch)) (insert_sender d sid ch)
        end
      else Some (end_turn (d <| open_rx_live := false |>))
  | EvOpenUni request rs =>
      if request then
        match open_uni (dv_conn d) with
        | (Err _, c) => Some (mkTurn true [] None (d <| dv_conn := c |>))
        | (Ok sid, c) =>
            let '(ch, d) := new_data_channel (d <| dv_conn := c |>) 1 in
            finish_turn rs (Some (sid, ch)) (d <| data_channels ::= alter drop_tx ch |>)
        end
      else Some (end_turn (d <| open_uni_rx_live := false |>))
  | EvClose request before after_ =>
      let d := drain_writes (S (length (items (view (write_rx d))))) d in
      '(ok, out, d) ← flush_conn before d;
      if negb ok then Some (mkTurn false out None (exit_loop d))
      else
        let d := match request with Some (code, reason) => d <| dv_conn ::= fun c => close c code reason |> | None => d end in
        '(_, out', d) ← flush_conn after_ d;
        Some (mkTurn false (out ++ out') None (exit_loop d))
  | EvTimeout now rs =>
      let d := d <| dv_conn ::= fun c => handle_timeout c now |> in
      if is_closed (dv_conn d) then Some (mkTurn false [] None (exit_loop d)) else finish_turn rs None d
  end.

(** ** The path of a stream's bytes to its reader *)

(** What a reader will still get: the rest of its chunk and the queued ones. *)
Definition in_pipe (h : RecvStreamHandle) (q : Chan (list Z)) : list Z :=
  drop (rh_pos h) (rh_buf h) ++ concat (items (view q)).

(** A chunk the driver takes from the connection now finds a place in the channel. *)
Definition takes_chunk (d : Driven) (sid : Z) (ch : nat) : bool :=
  bool_decide (read_senders d !! sid = Some ch) &&
  match data_channels d !! ch with
  | Some q => rx_alive (view q) && (length (items (view q)) <? capacity (view q))%nat
  | None => false
  end.

(** The bytes the next [forward_stream] takes from the connection. *)
Definition next_bytes (d : Driven) (sid : Z) : list Z :=
  match read_stream (dv_conn d) sid with (Ok (bytes, _), _) => bytes | _ => [] end.

Inductive pipe_event := PForward | PRead (room : nat).

(** The driver forwarding stream [sid] and its reader polling channel [ch], with what
    the reader has got and what the channel was given so far. *)
Record Pipe := mkPipe { p_driven : Driven; p_handle : RecvStreamHandle; p_got : list Z; p_given : list Z }.

Definition pipe_step (sid : Z) (ch : nat) (p : Pipe) (e : pipe_event) : Pipe :=
  match e with
  | PForward =>
      mkPipe (forward_stream (p_driven p) sid) (p_handle p) (p_got p)
        (p_given p ++ (if takes_chunk (p_driven p) sid ch then next_bytes (p_driven p) sid else []))
  | PRead room =>
      match data_channels (p_driven p) !! ch with
      | None => p
      | Some q =>
          let '(r, (h, q)) := poll_read (p_handle p) q room in
          mkPipe ((p_driven p) <| data_channels ::= <[ch := q]> |>) h
            (p_got p ++ match r with Ready bytes => bytes | Pending => [] end) (p_given p)
      end
  end.

(** ** Lemmas *)

Section lemmas.
Context `{!LawfulMpsc M}.

Lemma poll_read_pipe h q room :
  let '(r, (h', q')) := poll_read h q room in
  in_pipe h q = match r with Ready bytes => bytes | Pending => [] end ++ in_pipe h' q'.
Proof.
  unfold poll_read, in_pipe. destruct (Nat.ltb_spec (rh_pos h) (length (rh_buf h))) as [Hlt | Hge].
  - cbn [rh_buf rh_pos]. rewrite app_assoc. f_equal. rewrite <- drop_drop.
    by rewrite take_drop.
  - rewrite (drop_ge (rh_buf h)) by lia. destruct (try_recv q) as [[data | |] q'] eqn:E.
    + pose proof (try_recv_item q data) as Hi. rewrite E in Hi. rewrite (Hi eq_refl). cbn [concat snd app].
      rewrite app_assoc. f_equal. destruct (Nat.ltb_spec (Nat.min (length data) room) (length data)) as [H | H]; cbn [rh_buf rh_pos].
      * by rewrite take_drop.
      * rewrite take_ge by lia. by rewrite app_nil_r.
    + pose proof (try_recv_other q) as Hv. rewrite E in Hv. cbn [fst snd] in Hv. rewrite Hv by done.
      by rewrite (drop_ge (rh_buf h)) by lia.
    + pose proof (try_recv_other q) as Hv. rewrite E in Hv. cbn [fst snd] in Hv. rewrite Hv by done.
      by rewrite (drop_ge (rh_buf h)) by lia.
Qed.

(** The queue of channel [ch] after something that leaves its items alone. *)
Definition queued (d : Driven) (ch : nat) : option (list (list Z)) := (fun q => items (view q)) <$> data_channels d !! ch.

Lemma queued_alter_tx d ch old : queued (d <| data_channels ::= alter drop_tx old |>) ch = queued d ch.
Proof.
  unfold queued. cbn. destruct (decide (ch = old)) as [-> | Hne]; [| by rewrite list_lookup_alter_ne].
  rewrite list_lookup_alter_eq. destruct (data_channels d !! old); cbn; [by rewrite view_drop_tx | done].
Qed.

Lemma queued_remove d sid ch : queued (remove_sender d sid) ch = queued d ch.
Proof. unfold remove_sender. destruct (read_senders d !! sid); [| done]. exact (queued_alter_tx d ch n). Qed.

Lemma queued_insert d sid ch0 ch : queued (insert_sender d sid ch0) ch = queued d ch.
Proof. unfold insert_sender. destruct (read_senders d !! sid); [| done]. exact (queued_alter_tx d ch n). Qed.

Lemma queued_push d ch bytes :
  queued (d <| data_channels ::= alter (fun q => (try_send q bytes).2) ch |>) ch =
  (fun q => if rx_alive (view q) && (length (items (view q)) <? capacity (view q))%nat
            then items (view q) ++ [bytes] else items (view q)) <$> data_channels d !! ch.
Proof.
  unfold queued. cbn -[Nat.ltb]. rewrite list_lookup_alter_eq. destruct (data_channels d !! ch) as [q |]; [| done]. cbn -[Nat.ltb]. f_equal.
  rewrite try_send_items, try_send_result. destruct (rx_alive (view q)); [| done]. cbn [negb andb].
  destruct (Nat.leb_spec (capacity (view q)) (length (items (view q)))), (Nat.ltb_spec (length (items (view q))) (capacity (view q))); done || lia.
Qed.

Lemma queued_push_ne d ch ch0 bytes :
  ch0 <> ch -> queued (d <| data_channels ::= alter (fun q => (try_send q bytes).2) ch0 |>) ch = queued d ch.
Proof. intros Hne. unfold queued. cbn. by rewrite list_lookup_alter_ne. Qed.

(** Registering a channel for a stream that has none touches no existing channel. *)
Lemma queued_auto d sid ch :
  (ch < length (data_channels d))%nat ->
  let '(n, d') := new_data_channel d DATA_CHANNEL in
  queued (insert_sender (d' <| data_channels ::= alter drop_rx n |>) sid n) ch = queued d ch /\ n <> ch.
Proof.
  intros Hlt. unfold new_data_channel. split; [| lia]. rewrite queued_insert. unfold queued. cbn.
  rewrite list_lookup_alter_ne by lia. by rewrite lookup_app_l.
Qed.

Lemma concat_snoc {A} (xs : list (list A)) x : concat (xs ++ [x]) = concat xs ++ x.
Proof. rewrite concat_app. cbn. by rewrite app_nil_r. Qed.

Lemma fin_queued d (fin : bool) sid ch :
  let d' := if fin then remove_sender d sid else d in
  queued d' ch = queued d ch /\ length (data_channels d') = length (data_channels d).
Proof.
  destruct fin; [| done]. split; [apply queued_remove |]. unfold remove_sender.
  destruct (read_senders d !! sid); [| done]. cbn. apply length_alter.
Qed.

Lemma insert_sender_length d sid ch : length (data_channels (insert_sender d sid ch)) = length (data_channels d).
Proof. unfold insert_sender. destruct (read_senders d !! sid); [| done]. cbn. apply length_alter. Qed.

Lemma push_queued d ch0 ch bytes :
  let d' := if negb (length bytes =? 0)%nat then d <| data_channels ::= alter (fun q => (try_send q bytes).2) ch0 |> else d in
  concat (default [] (queued d' ch)) =
    concat (default [] (queued d ch)) ++
    (if bool_decide (ch0 = ch) && match data_channels d !! ch with
                                  | Some q => rx_alive (view q) && (length (items (view q)) <? capacity (view q))%nat
                                  | None => false end then bytes else []) /\
  length (data_channels d') = length (data_channels d).
Proof.
  destruct bytes as [| b bs]; cbn [length Nat.eqb negb].
  { split; [| done]. destruct (_ && _); by rewrite app_nil_r. }
  split; [| cbn; apply length_alter]. destruct (bool_decide_reflect (ch0 = ch)) as [-> | Hne]; cbn [andb].
  - rewrite queued_push. unfold queued. destruct (data_channels d !! ch) as [q |]; [| done]. cbn [fmap option_fmap option_map default].
    destruct (_ && _)%bool; [apply concat_snoc | by rewrite app_nil_r].
  - rewrite queued_push_ne by done. by rewrite app_nil_r.
Qed.

(** Forwarding a stream: its channel gains the bytes read when it has room, and is
    otherwise left as it was. *)
Lemma forward_queued d sid ch :
  (ch < length (data_channels d))%nat ->
  concat (default [] (queued (forward_stream d sid) ch)) =
  concat (default [] (queued d ch)) ++ (if takes_chunk d sid ch then next_bytes d sid else []) /\
  (length (data_channels d) <= length (data_channels (forward_stream d sid)))%nat.
Proof.
  intros Hlt. unfold forward_stream, next_bytes. destruct (read_stream (dv_conn d) sid) as [[[bytes fin] | e] c].
  2: { change (queued (d <| dv_conn := c |>) ch) with (queued d ch). destruct (takes_chunk d sid ch); rewrite app_nil_r; done. }
  unfold takes_chunk. set (d0 := d <| dv_conn := c |>). change (read_senders d0) with (read_senders d).
  destruct (read_senders d !! sid) as [ch1 |] eqn:Es; cbn [is_none is_some negb andb].
  - change (read_senders d0 !! sid) with (read_senders d !! sid). rewrite Es.
    destruct (push_queued d0 ch1 ch bytes) as [H1 H2]. set (d2 := if negb _ then _ else _) in *.
    destruct (fin_queued d2 fin sid ch) as [H3 H4]. rewrite H3, H4, H1, H2. split; [| done].
    f_equal. change (data_channels d0) with (data_channels d). by rewrite (bool_decide_ext (Some ch1 = Some ch) (ch1 = ch)) by (split; [by intros [= ->] | by intros ->]).
  - rewrite (bool_decide_false (None = Some ch)) by done. cbn [andb]. rewrite app_nil_r.
    destruct (negb (length bytes =? 0)%nat || fin) eqn:Ef.
    + pose proof (queued_auto d0 sid ch Hlt) as Hq. destruct (new_data_channel d0 DATA_CHANNEL) as [n dn] eqn:En.
      destruct Hq as [Hq Hne]. set (d1 := insert_sender _ sid n) in *.
      assert (Hs1 : read_senders d1 !! sid = Some n) by (unfold d1, insert_sender; destruct (_ !! _); apply lookup_insert_eq).
      assert (Hl1 : (length (data_channels d) <= length (data_channels d1))%nat).
      { unfold d1. rewrite insert_sender_length. cbn. rewrite length_alter. injection En as _ <-. cbn. rewrite length_app. lia. }
      rewrite Hs1. destruct (push_queued d1 n ch bytes) as [H1 H2]. set (d2 := if negb _ then _ else _) in *.
      destruct (fin_queued d2 fin sid ch) as [H3 H4]. rewrite H3, H4, H1, H2, bool_decide_false by done. cbn [andb].
      rewrite app_nil_r, Hq. done.
    + apply orb_false_iff in Ef as [Ef ->]. rewrite Ef. done.
Qed.

(** The two draining loops empty the connection's queues within the turns they are given. *)
Lemma read_stream_queues (c : conn) sid :
  readable (read_stream c sid).2 = readable c /\ new_peer_streams (read_stream c sid).2 = new_peer_streams c.
Proof. unfold read_stream. repeat case_match; done. Qed.

Lemma remove_sender_conn d sid : dv_conn (remove_sender d sid) = dv_conn d.
Proof. unfold remove_sender. by destruct (_ !! _). Qed.

Lemma insert_sender_conn d sid ch : dv_conn (insert_sender d sid ch) = dv_conn d.
Proof. unfold insert_sender. by destruct (_ !! _). Qed.

Lemma forward_stream_conn d sid : dv_conn (forward_stream d sid) = (read_stream (dv_conn d) sid).2.
Proof.
  unfold forward_stream, new_data_channel. destruct (read_stream (dv_conn d) sid) as [[[bytes fin] | e] c]; [| done]. cbn [snd].
  set (d0 := if is_none _ && _ then _ else _). assert (H0 : dv_conn d0 = c) by (unfold d0; destruct (_ && _); [by rewrite insert_sender_conn | done]).
  set (d1 := if negb _ then _ else _). assert (H1 : dv_conn d1 = c) by (unfold d1; destruct (negb _); [destruct (read_senders d0 !! sid) |]; exact H0).
  destruct fin; [by rewrite remove_sender_conn | done].
Qed.

Lemma forward_loop_drains fuel d : (length (readable (dv_conn d)) < fuel)%nat -> readable (dv_conn (forward_loop fuel d)) = [].
Proof.
  revert d. induction fuel as [| fuel IH]; intros d Hf; [lia |]. cbn [forward_loop]. unfold poll_readable.
  destruct (readable (dv_conn d)) as [| sid tl] eqn:E; [done |]. apply IH. rewrite forward_stream_conn, (proj1 (read_stream_queues _ _)).
  cbn in *. lia.
Qed.

Lemma surface_stream_conn d sid : dv_conn (surface_stream d sid) = dv_conn d.
Proof.
  unfold surface_stream, new_data_channel. destruct (bool_decide _); destruct (try_send _ _) as [[] q];
    change (dv_conn (insert_sender (d <| data_channels ::= fun cs => cs ++ [channel DATA_CHANNEL] |>) sid (length (data_channels d))) = dv_conn d);
    by rewrite insert_sender_conn.
Qed.

Lemma surface_loop_drains fuel d :
  (length (new_peer_streams (dv_conn d)) < fuel)%nat -> new_peer_streams (dv_conn (surface_loop fuel d)) = [].
Proof.
  revert d. induction fuel as [| fuel IH]; intros d Hf; [lia |]. cbn [surface_loop]. unfold poll_new_peer_stream.
  destruct (new_peer_streams (dv_conn d)) as [| sid tl] eqn:E; [done |]. apply IH. rewrite surface_stream_conn. cbn in *. lia.
Qed.

(** Reading and forwarding conserve the stream. *)
Definition pipe_ok (ch : nat) (p : Pipe) : Prop :=
  exists q, data_channels (p_driven p) !! ch = Some q /\ p_got p ++ in_pipe (p_handle p) q = p_given p.

Lemma pipe_step_ok sid ch p e : pipe_ok ch p -> pipe_ok ch (pipe_step sid ch p e).
Proof.
  intros (q & Hq & He). destruct e as [| room]; cbn [pipe_step].
  - pose proof (lookup_lt_Some _ _ _ Hq) as Hlt. destruct (forward_queued (p_driven p) sid ch Hlt) as [H1 H2].
    destruct (lookup_lt_is_Some_2 (data_channels (forward_stream (p_driven p) sid)) ch) as [q' Hq']; [lia |].
    exists q'. split; [done |]. cbn [p_got p_handle p_given]. rewrite <- He. unfold queued in H1. rewrite Hq, Hq' in H1. cbn in H1.
    unfold in_pipe. rewrite H1, !app_assoc. done.
  - rewrite Hq. pose proof (poll_read_pipe (p_handle p) q room) as Hp. destruct (poll_read (p_handle p) q room) as [r [h' q']].
    exists q'. split; [cbn; apply list_lookup_insert_eq; by eapply lookup_lt_Some |]. cbn [p_got p_handle p_given].
    by rewrite <- He, Hp, app_assoc.
Qed.

End lemmas.

(** ** Properties *)

(** C16: A stream's reader sees a prefix of what the driver could hand over, in order and
    byte for byte.  Whatever the interleaving of the driver forwarding the stream
    and of the application polling its handle, with any buffer sizes: the bytes the
    application has read, followed by what is left in its handle and in the channel,
    are exactly the chunks the driver took from the connection while the channel had
    room; reading neither loses, repeats nor reorders a byte. *)
Theorem reader_in_order `{!LawfulMpsc M} sid ch d es q :
  data_channels d !! ch = Some q -> items (view q) = [] ->
  let p := fold_left (pipe_step sid ch) es (mkPipe d recv_handle_new [] []) in
  exists q', data_channels (p_driven p) !! ch = Some q' /\ p_got p ++ in_pipe (p_handle p) q' = p_given p.
Proof.
  intros Hq Hi. assert (H0 : pipe_ok ch (mkPipe d recv_handle_new [] [])).
  { exists q. split; [done |]. cbn [p_got p_given p_handle]. unfold in_pipe. by rewrite Hi. }
  revert H0. generalize (mkPipe d recv_handle_new [] []). induction es as [| e es IH]; intros p Hp; [done |].
  cbn [fold_left]. by apply IH, pipe_step_ok.
Qed.

(** C39: The driver drops stream data its reader is too slow for.  When the channel of a
    stream is full, the bytes the driver takes from the connection for that stream are
    gone from the connection and enter no channel: the reader's queue is exactly
    what it was; and when those bytes were the last of the stream, the channel is
    closed, so that after the chunks before the hole the reader sees a regular end
    of stream. *)
Theorem full_channel_drops_data `{!LawfulMpsc M} d sid ch q bytes fin c :
  read_senders d !! sid = Some ch -> data_channels d !! ch = Some q ->
  (capacity (view q) <= length (items (view q)))%nat ->
  read_stream (dv_conn d) sid = (Ok (bytes, fin), c) -> bytes <> [] ->
  dv_conn (forward_stream d sid) = c /\
  exists q', data_channels (forward_stream d sid) !! ch = Some q' /\ items (view q') = items (view q) /\
    (fin = true -> tx_alive (view q') = false /\ read_senders (forward_stream d sid) !! sid = None).
Proof.
  intros Hs Hq Hfull Hr Hne. unfold forward_stream. rewrite Hr. set (d0 := d <| dv_conn := c |>).
  change (read_senders d0) with (read_senders d). rewrite Hs. cbn [is_none is_some negb andb].
  change (read_senders d0 !! sid) with (read_senders d !! sid). rewrite Hs.
  destruct bytes as [| b bs]; [done |]. cbn [length Nat.eqb negb].
  set (d1 := d0 <| data_channels ::= _ |>).
  assert (H1 : data_channels d1 !! ch = Some (try_send q (b :: bs)).2) by (cbn; by rewrite list_lookup_alter_eq, Hq).
  assert (Hi : items (view (try_send q (b :: bs)).2) = items (view q)).
  { rewrite try_send_items, try_send_result, (proj2 (Nat.leb_le _ _)) by done. by destruct (negb _). }
  destruct fin; [| split; [done |]; eexists; split; [exact H1 | by split]].
  unfold remove_sender. change (read_senders d1) with (read_senders d). rewrite Hs. split; [done |].
  exists (drop_tx (try_send q (b :: bs)).2). split; [cbn; by rewrite list_lookup_alter_eq, list_lookup_alter_eq, Hq |].
  rewrite view_drop_tx. split; [done |]. intros _. split; [done |]. cbn. apply lookup_delete_eq.
Qed.

(** What the write handle reports is what happens to the command, except at
    shutdown: a write is accepted in full exactly when the command was queued behind
    those before it, and reports a broken pipe exactly when the driver is gone;
    [poll_shutdown] reports success in every case, but with the channel full or
    closed no FIN is queued, and the stream stays open for the peer. *)
Theorem write_handle_exact `{!LawfulMpsc M} (tx : Chan (Z * WriteCmd)) sid buf :
  let queue := items (view tx) in
  let room := (length queue <? capacity (view tx))%nat in
  (let '(r, tx') := poll_write tx sid buf in
   r = (if negb (rx_alive (view tx)) then Ready None else if room then Ready (Some (length buf)) else Pending) /\
   items (view tx') = queue ++ (if rx_alive (view tx) && room then [(sid, WcWrite buf false)] else [])) /\
  (let '(r, tx') := poll_shutdown tx sid in
   r = Ready (Some tt) /\
   items (view tx') = queue ++ (if rx_alive (view tx) && room then [(sid, WcWrite [] true)] else [])).
Proof.
  cbv zeta. assert (Hs : forall cmd, (try_send tx (sid, cmd)).1 =
      (if negb (rx_alive (view tx)) then SendClosed else if (length (items (view tx)) <? capacity (view tx))%nat then SendOk else SendFull) /\
      items (view (try_send tx (sid, cmd)).2) = items (view tx) ++
        (if rx_alive (view tx) && (length (items (view tx)) <? capacity (view tx))%nat then [(sid, cmd)] else [])).
  { intros cmd. rewrite try_send_items, try_send_result.
    destruct (Nat.leb_spec (capacity (view tx)) (length (items (view tx)))), (Nat.ltb_spec (length (items (view tx))) (capacity (view tx)));
      try lia; destruct (rx_alive (view tx)); cbn [negb andb]; by rewrite ?app_nil_r. }
  split.
  - unfold poll_write. destruct (Hs (WcWrite buf false)) as [H1 H2]. destruct (try_send tx _) as [r tx']. cbn [fst snd] in *. subst r.
    destruct (negb (rx_alive (view tx))); [done |]. by destruct (_ <? _)%nat.
  - unfold poll_shutdown. destruct (Hs (WcWrite [] true)) as [_ H2]. done.
Qed.

End driven.

(** ** A concrete driver: a client whose server has opened stream 1 and sent five bytes *)

Definition demo_reading : Connection demo_env := (recv_stream demo_client 1 0 true [1; 2; 3; 4; 5]).2.

Definition demo_driven : @Driven demo_env queue_mpsc := surface_streams (into_driven demo_reading).

Lemma reader_in_order_witness :
  let p := fold_left (pipe_step 1 0) [PForward; PRead 2; PForward; PRead 9; PRead 9] (mkPipe demo_driven recv_handle_new [] []) in
  p_got p = [1; 2; 3; 4; 5] /\
  exists q', data_channels (p_driven p) !! 0%nat = Some q' /\ p_got p ++ in_pipe (p_handle p) q' = p_given p.
Proof.
  split; [vm_compute; reflexivity |].
  apply (reader_in_order 1 0 demo_driven [PForward; PRead 2; PForward; PRead 9; PRead 9]
           (mkQueue [] DATA_CHANNEL true true : @Chan queue_mpsc (list Z))); vm_compute; reflexivity.
Defined.

(** The same stream when its reader has left sixty-four chunks unread. *)
Definition demo_slow : @Driven demo_env queue_mpsc :=
  demo_driven <| data_channels := [mkQueue (replicate 64 [9]) DATA_CHANNEL true true : @Chan queue_mpsc (list Z)] |>.

Lemma full_channel_drops_data_witness :
  next_bytes demo_slow 1 = [1; 2; 3; 4; 5] /\ next_bytes (forward_stream demo_slow 1) 1 = [] /\
  exists q', data_channels (forward_stream demo_slow 1) !! 0%nat = Some q' /\
    items (view q') = replicate 64 [9] /\ tx_alive (view q') = false.
Proof.
  split; [vm_compute; reflexivity |]. split; [vm_compute; reflexivity |].
  destruct (full_channel_drops_data demo_slow 1 0 (mkQueue (replicate 64 [9]) DATA_CHANNEL true true : @Chan queue_mpsc (list Z))
              [1; 2; 3; 4; 5] true (read_stream (dv_conn demo_slow) 1).2) as (_ & q' & H1 & H2 & H3).
  - vm_compute. reflexivity.
  - reflexivity.
  - vm_compute. lia.
  - destruct (read_stream (dv_conn demo_slow) 1) as [r c] eqn:E. cbn [snd]. f_equal.
    change r with (r, c).1. rewrite <- E. vm_compute. reflexivity.
  - discriminate.
  - exists q'. split; [exact H1 | split; [exact H2 | exact (proj1 (H3 eq_refl))]].
Defined.

Lemma write_handle_exact_witness :
  let tx := mkQueue (replicate 256 (1, WcReset 0)) WRITE_CHANNEL true true : @Chan queue_mpsc (Z * WriteCmd) in
  (poll_shutdown tx 4).1 = Ready (Some tt) /\ items (view (poll_shutdown tx 4).2) = replicate 256 (1, WcReset 0).
Proof.
  destruct (write_handle_exact (mkQueue (replicate 256 (1, WcReset 0)) WRITE_CHANNEL true true : @Chan queue_mpsc (Z * WriteCmd)) 4 [])
    as [_ [H1 H2]].
  split; [exact H1 |]. etransitivity; [exact H2 |]. vm_compute. reflexivity.
Defined.
