(* ===== verification/DrivenApp.v ===== *)
(** * The application's side of a driven connection
    ([endpoint/driven.rs], [handle.rs], [oxiquic-core/src/stats.rs])

    [DrivenConnection]: opening and accepting streams and closing, against the driver of
    [Driven]; the stream wrappers; the statistics snapshot.  A call that awaits a channel
    is [None] while it waits. *)

From stdpp Require Import gmap.
From S2P Require Import Prelude OrdMap CoreTypes Coding FrameCodec ParamsCodec PacketSpace SentPackets Floats.
From S2P Require Import Streams FlowControl Recovery Congestion Bbr CidPool Packet Config Multipath Connection.
From S2P Require Import ConnRecovery ConnHandshake ConnRecv ConnSend Mpsc Endpoint Driven.

Section app.
Context {env : QuicEnv} {M : Mpsc}.

Notation conn := (Connection env).
Notation Drivn := (Driven (env := env)).
Notation Commands := (Chan (Z * WriteCmd)).

(** ** Handles *)

(** [SendStreamHandle::reset] and [RecvStreamHandle::stop_sending]: [send(..).await]. *)
Definition send_command (tx : Commands) (stream : Z) (cmd : WriteCmd) : option (result OxiQuicError unit) * Commands :=
  match try_send tx (stream, cmd) with
  | (SendOk, tx) => (Some (Ok tt), tx)
  | (SendClosed, tx) => (Some (Err EConnection), tx)
  | (SendFull, tx) => (None, tx)
  end.
Definition handle_reset (tx : Commands) (stream error_code : Z) := send_command tx stream (WcReset error_code).
Definition handle_stop_sending (tx : Commands) (stream error_code : Z) := send_command tx stream (WcStopSending error_code).

(** [poll_flush]: nothing to do. *)
Definition poll_flush : Poll (option unit) := Ready (Some tt).

(** [write], [finish] and [read] of the wrappers: the polls of [tokio::io], an I/O error
    turned into the transport's. *)
Definition stream_write (tx : Commands) (stream : Z) (data : list Z) : option (result OxiQuicError nat) * Commands :=
  match poll_write tx stream data with
  | (Ready (Some n), tx) => (Some (Ok n), tx)
  | (Ready None, tx) => (Some (Err EIo), tx)
  | (Pending, tx) => (None, tx)
  end.
Definition stream_finish (tx : Commands) (stream : Z) : option (result OxiQuicError unit) * Commands :=
  match poll_shutdown tx stream with
  | (Ready (Some _), tx) => (Some (Ok tt), tx)
  | (Ready None, tx) => (Some (Err EIo), tx)
  | (Pending, tx) => (None, tx)
  end.
Definition stream_read (h : RecvStreamHandle) (rx : Chan (list Z)) (room : nat)
    : option (result OxiQuicError (list Z)) * (RecvStreamHandle * Chan (list Z)) :=
  let '(r, st) := poll_read h rx room in (match r with Ready bytes => Some (Ok bytes) | Pending => None end, st).

(** [BiStream]: a stream, the channel of its data, and its reading state. *)
Record BiStream := mkBiStream { bi_stream : Z; bi_data : nat; bi_recv : RecvStreamHandle }.

(** ** DrivenConnection *)

(** [open_bidi_stream]: the request, the driver's turn that takes it, the answer.  A
    driver that has stopped has dropped the request's receiver. *)
Definition open_stream (e : bool -> list Reading -> DrivenEvent) (rs : list Reading) (d : Drivn) : option (result OxiQuicError BiStream * Drivn) :=
  if closed_flag d then Some (Err EConnection, d)
  else
    t ← driven_turn d (e true rs);
    Some (match reply t with Some (sid, ch) => Ok (mkBiStream sid ch recv_handle_new) | None => Err EConnection end, after t).
Definition open_bidi_stream := open_stream EvOpenBidi.
Definition open_uni_stream := open_stream EvOpenUni.

Definition accept_result (r : TryRecv (Z * nat)) (closed : bool) : option (result OxiQuicError BiStream) :=
  match r with
  | RecvItem (sid, ch) => Some (Ok (mkBiStream sid ch recv_handle_new))
  | RecvDisconnected => Some (Err EConnection)
  | RecvEmpty => if closed then Some (Err EConnection) else None
  end.
Definition accept_bidi_stream (d : Drivn) : option (result OxiQuicError BiStream) * Drivn :=
  let '(r, q) := try_recv (accept_bidi d) in (accept_result r (closed_flag d), d <| accept_bidi := q |>).
Definition accept_uni_stream (d : Drivn) : option (result OxiQuicError BiStream) * Drivn :=
  let '(r, q) := try_recv (accept_uni d) in (accept_result r (closed_flag d), d <| accept_uni := q |>).

Definition driven_is_closed (d : Drivn) : bool := closed_flag d.

(** [close]: the request, and the turn that takes it. *)
Definition driven_close (code : Z) (reason : list Z) (before after_ : list Reading) (d : Drivn) : option (result OxiQuicError unit * Drivn) :=
  if closed_flag d then Some (Err EConnection, d)
  else t ← driven_turn d (EvClose (Some (code, reason)) before after_); Some (Ok tt, after t).

(** ** Statistics *)

Record ConnectionStats := mkStats {
  st_rtt : Z; st_min_rtt : Z; st_smoothed_rtt : Z; st_rtt_variance : Z;
  st_bytes_sent : Z; st_bytes_recv : Z; st_packets_sent : Z; st_packets_recv : Z; st_packets_lost : Z;
  st_congestion_window : Z; st_streams_opened : Z; st_streams_closed : Z
}.

Definition loss_rate (s : ConnectionStats) : f64 :=
  if st_packets_sent s =? 0 then f_zero else f_div (f_of_Z (st_packets_lost s)) (f_of_Z (st_packets_sent s)).
Definition streams_active (s : ConnectionStats) : Z := sat_sub (st_streams_opened s) (st_streams_closed s).
Definition goodput_bytes (s : ConnectionStats) : Z := sat_sub (st_bytes_recv s) (sat_mul (st_packets_recv s) 50).

Definition stats (c : conn) : ConnectionStats :=
  mkStats (Rtt.latest_rtt (rtt c)) (Rtt.min_rtt (rtt c)) (Rtt.smoothed_rtt (rtt c)) (Rtt.rttvar (rtt c))
    (bytes_sent c) (bytes_recv c) (packets_sent c) (packets_recv c) (packets_lost c)
    (ctl_congestion_window (congestion c)) (next_bidi_index c) 0.

Definition ping (d : Driver (env := env)) : Z := st_smoothed_rtt (stats (dconn d)).
Definition streams_opened (d : Driver (env := env)) : Z := st_streams_opened (stats (dconn d)).
Definition streams_closed (d : Driver (env := env)) : Z := st_streams_closed (stats (dconn d)).

End app.

(** ** Accepting *)

Section accepting.
Context {env : QuicEnv} {M : Mpsc} {LM : LawfulMpsc M}.

Notation Drivn := (Driven (env := env)).

Definition fresh_bidi (d : Drivn) (sid : Z) : Prop := StreamId.direction sid = Bidirectional /\ read_senders d !! sid = None.

(** What surfacing a new stream does to the queue and the channels. *)
Lemma surface_fresh (d : Drivn) sid :
  fresh_bidi d sid -> rx_alive (view (accept_bidi d)) = true ->
  let d' := surface_stream d sid in
  let full := (capacity (view (accept_bidi d)) <=? length (items (view (accept_bidi d))))%nat in
  view (accept_bidi d') = mkQueue (items (view (accept_bidi d)) ++ if full then [] else [(sid, length (data_channels d))])
    (capacity (view (accept_bidi d))) true (tx_alive (view (accept_bidi d))) /\
  (exists q, data_channels d' = data_channels d ++ [q] /\ rx_alive (view q) = negb full /\ items (view q) = []) /\
  read_senders d' = <[sid := length (data_channels d)]> (read_senders d).
Proof.
  intros [Hb Hf] Ha. unfold surface_stream, new_data_channel, insert_sender. cbn. rewrite Hf, bool_decide_true by done. cbn.
  pose proof (view_try_send _ (accept_bidi d) (sid, length (data_channels d))) as [E1 E2].
  destruct (try_send (accept_bidi d) _) as [r q]. cbn in E1, E2. unfold queue_send in E1, E2. rewrite Ha in E1, E2. cbn in E1, E2.
  pose proof (view_channel (list Z) DATA_CHANNEL) as Vc.
  destruct (Nat.leb_spec (capacity (view (accept_bidi d))) (length (items (view (accept_bidi d))))); cbn in E1, E2; subst r; cbn.
  - rewrite E2, app_nil_r. split; [destruct (view (accept_bidi d)); cbn in *; by subst |]. split; [| done].
    exists (drop_rx (channel DATA_CHANNEL)). rewrite view_drop_rx, Vc. split; [| done].
    rewrite alter_app_r_alt, Nat.sub_diag by lia. done.
  - rewrite E2. split; [done |]. split; [| done]. exists (channel DATA_CHANNEL). by rewrite Vc.
Qed.

(** A stream beyond the capacity of the accept queue: its sender leads to a channel nobody
    reads. *)
Definition lost_stream (d : Drivn) (sid : Z) : Prop :=
  exists ch q, read_senders d !! sid = Some ch /\ data_channels d !! ch = Some q /\ rx_alive (view q) = false /\ items (view q) = [].

Lemma surface_keeps_lost (d : Drivn) sid sid' :
  fresh_bidi d sid -> rx_alive (view (accept_bidi d)) = true -> lost_stream d sid' -> lost_stream (surface_stream d sid) sid'.
Proof.
  intros Hf Ha (ch & q & E1 & E2 & E3 & E4). destruct (surface_fresh d sid Hf Ha) as (_ & (q' & Ec & _) & Es). exists ch, q.
  assert (sid <> sid') by (destruct Hf; congruence).
  rewrite Es, lookup_insert_ne, Ec, lookup_app_l by (done || by eapply lookup_lt_Some). done.
Qed.

Lemma surface_many (sids : list Z) (d : Drivn) :
  NoDup sids -> Forall (fresh_bidi d) sids -> rx_alive (view (accept_bidi d)) = true ->
  (length (items (view (accept_bidi d))) <= capacity (view (accept_bidi d)))%nat ->
  let d' := fold_left surface_stream sids d in
  items (view (accept_bidi d')) =
    take (capacity (view (accept_bidi d))) (items (view (accept_bidi d)) ++ zip sids (seq (length (data_channels d)) (length sids))) /\
  (forall sid', lost_stream d sid' -> sid' ∉ sids -> lost_stream d' sid') /\
  (forall i sid, sids !! i = Some sid -> (capacity (view (accept_bidi d)) <= length (items (view (accept_bidi d))) + i)%nat -> lost_stream d' sid).
Proof.
  revert d. induction sids as [| sid sids IH]; intros d Hnd Hf Ha Hl; cbn [fold_left].
  { rewrite app_nil_r, take_ge by lia. split_and!; [done.. |]. by intros i sid E. }
  apply NoDup_cons in Hnd as [Hni Hnd]. apply Forall_cons in Hf as [Hf Hfs].
  destruct (surface_fresh d sid Hf Ha) as (Eq & (q & Ec & Er & Ei) & Es). set (d1 := surface_stream d sid) in *.
  set (cap := capacity (view (accept_bidi d))) in *. set (its := items (view (accept_bidi d))) in *.
  assert (Hfs1 : Forall (fresh_bidi d1) sids).
  { apply Forall_forall. intros x Hx. apply (proj1 (Forall_forall _ _) Hfs) in Hx as Hx'. destruct Hx' as [Hb Hs]. split; [done |].
    rewrite Es, lookup_insert_ne; [done |]. by intros ->. }
  assert (Hlen : length (data_channels d1) = S (length (data_channels d))) by (rewrite Ec, length_app; cbn; lia).
  specialize (IH d1 Hnd Hfs1). rewrite Eq in IH. cbn [rx_alive items capacity] in IH. specialize (IH eq_refl). rewrite Hlen in IH.
  destruct (Nat.leb_spec cap (length its)) as [Hge | Hlt].
  - destruct IH as (I1 & I2 & I3); [rewrite app_nil_r; lia |]. rewrite app_nil_r in *. split_and!.
    + rewrite I1, !take_app_ge by lia. replace (cap - length its)%nat with 0%nat by lia. done.
    + intros s' Hs' Hni'. apply I2; [by apply surface_keeps_lost | set_solver].
    + intros [| i] x E Hi; [| apply (I3 i x E); cbn in *; lia]. injection E as <-. apply I2; [| done].
      exists (length (data_channels d)), q. rewrite Es, lookup_insert_eq, Ec, lookup_app_r, Nat.sub_diag by lia. done.
  - destruct IH as (I1 & I2 & I3); [rewrite length_app; cbn; lia |]. split_and!.
    + rewrite I1, <- app_assoc. done.
    + intros s' Hs' Hni'. apply I2; [by apply surface_keeps_lost | set_solver].
    + intros [| i] x E Hi; [cbn in *; lia |]. apply (I3 i x E). rewrite length_app. cbn in *. lia.
Qed.

(** The streams a number of calls to [accept_bidi_stream] return. *)
Fixpoint accept_streams (n : nat) (d : Drivn) : list BiStream :=
  match n with
  | O => []
  | S n => match accept_bidi_stream d with (Some (Ok b), d) => b :: accept_streams n d | _ => [] end
  end.

Lemma accept_streams_items n (d : Drivn) :
  (n <= length (items (view (accept_bidi d))))%nat ->
  accept_streams n d = map (fun e => mkBiStream e.1 e.2 recv_handle_new) (take n (items (view (accept_bidi d)))).
Proof.
  revert d. induction n as [| n IH]; intros d Hn; [done |]. cbn [accept_streams]. unfold accept_bidi_stream.
  destruct (view_try_recv _ (accept_bidi d)) as [E1 E2]. destruct (try_recv (accept_bidi d)) as [r q]. cbn in E1, E2. unfold queue_recv in E1, E2.
  destruct (items (view (accept_bidi d))) as [| [sid ch] l] eqn:El; [cbn in Hn; lia |]. cbn in E1, E2. subst r. cbn. f_equal.
  rewrite IH; cbn; rewrite E2; cbn; [done | cbn in Hn; lia].
Qed.

(** Forwarding to a lost stream takes its bytes from the connection; they reach nobody. *)
Lemma forward_lost (d : Drivn) sid :
  lost_stream d sid ->
  dv_conn (forward_stream d sid) = (read_stream (dv_conn d) sid).2 /\
  exists ch q, read_senders d !! sid = Some ch /\ data_channels (forward_stream d sid) !! ch = Some q /\ items (view q) = [] /\ rx_alive (view q) = false.
Proof.
  intros (ch & q & E1 & E2 & E3 & E4). split; [apply forward_stream_conn |]. unfold forward_stream.
  destruct (read_stream (dv_conn d) sid) as [[[bytes fin] |] c]; [| by exists ch, q]. cbn. rewrite E1. cbn.
  assert (Hs : forall b, items (view (try_send q b).2) = [] /\ rx_alive (view (try_send q b).2) = false).
  { intros b. destruct (view_try_send _ q b) as [_ ->]. unfold queue_send. by rewrite E3. }
  set (d1 := if negb (length bytes =? 0)%nat then _ else _).
  assert (H1 : read_senders d1 !! sid = Some ch /\ exists q1, data_channels d1 !! ch = Some q1 /\ items (view q1) = [] /\ rx_alive (view q1) = false).
  { unfold d1. destruct (negb _); cbn; rewrite ?E1; cbn; (split; [done |]); [| by exists q]. rewrite list_lookup_alter_eq, E2. exists (try_send q bytes).2. split; [done | apply Hs]. }
  destruct H1 as (R1 & q1 & Q1 & Q2 & Q3). destruct fin; [| by exists ch, q1]. unfold remove_sender. rewrite R1. exists ch, (drop_tx q1). cbn.
  rewrite list_lookup_alter_eq, Q1. cbn. by rewrite view_drop_tx.
Qed.

(** The peer opens streams faster than the application accepts them: [accept_bidi_stream]
    returns the first 64 in order, each with a channel of its own; every stream beyond is
    lost without notice, and the data that arrives on it is taken from the connection and
    dropped. *)
Theorem accept_overflow_loses_streams (d : Drivn) (sids : list Z) :
  NoDup sids -> Forall (fresh_bidi d) sids -> view (accept_bidi d) = mkQueue [] ACCEPT_CHANNEL true true ->
  let d' := fold_left surface_stream sids d in
  accept_streams (Nat.min ACCEPT_CHANNEL (length sids)) d' =
    map (fun e => mkBiStream e.1 e.2 recv_handle_new) (take ACCEPT_CHANNEL (zip sids (seq (length (data_channels d)) (length sids)))) /\
  (forall i sid, sids !! i = Some sid -> (ACCEPT_CHANNEL <= i)%nat ->
     dv_conn (forward_stream d' sid) = (read_stream (dv_conn d') sid).2 /\
     exists ch q, read_senders d' !! sid = Some ch /\ data_channels (forward_stream d' sid) !! ch = Some q /\
       items (view q) = [] /\ rx_alive (view q) = false).
Proof.
  intros Hnd Hf Hv d'. destruct (surface_many sids d Hnd Hf) as (I1 & _ & I3); [by rewrite Hv | rewrite Hv; cbn; lia |].
  fold d' in I1, I3. rewrite Hv in I1, I3. cbn [items capacity app length] in I1, I3. split.
  - assert (Hz : length (zip sids (seq (length (data_channels d)) (length sids))) = length sids) by (rewrite length_zip_with, length_seq; lia).
    rewrite accept_streams_items by (rewrite I1, length_take, Hz; lia). rewrite I1, take_take. f_equal.
    destruct (Nat.le_gt_cases ACCEPT_CHANNEL (length sids)); [f_equal; lia | by rewrite !take_ge by lia].
  - intros i sid Ei Hi. apply forward_lost, (I3 i); [done | lia].
Qed.

End accepting.

(** ** Statistics *)

(** The snapshot of a new connection: the smoothed round-trip time is the initial
    estimate, not zero; and no stream ever counts as closed. *)
Theorem stats_streams {env : QuicEnv} (c : Connection env) :
  0 <= next_bidi_index c -> streams_active (stats c) = next_bidi_index c /\ st_streams_closed (stats c) = 0.
Proof. intros H. unfold streams_active, stats, sat_sub. cbn. lia. Qed.

Theorem ping_before_ack {env : QuicEnv} (d : Driver (env := env)) : rtt (dconn d) = Rtt.new -> ping d = 333 * MILLIS.
Proof. unfold ping, stats. cbn. by intros ->. Qed.
