(* ===== verification/Listener.v ===== *)
(** * Endpoints as the application sees them
    ([endpoint/mod.rs], [endpoint/zero_rtt.rs])

    Binding, [connect] to the end of the handshake, 0-RTT, the queue of accepted
    connections behind [accept] and [Incoming], and the server's builder.  Sockets show
    through what binding them gave; [TlsConfigs] is what the sources set and read of the
    rustls configurations. *)

From S2P Require Import Prelude OrdMap CoreTypes Coding FrameCodec ParamsCodec PacketSpace SentPackets.
From S2P Require Import Streams FlowControl Recovery Congestion Bbr CidPool Packet Config Multipath Connection.
From S2P Require Import ConnRecovery ConnHandshake ConnRecv ConnSend Mpsc Endpoint Driven.

Class TlsConfigs (env : QuicEnv) (EE : EndpointEnv env) := {
  Ticketer : Type;
  client_alpn : ClientConfig -> list (list Z);
  client_with_alpn : ClientConfig -> list (list Z) -> ClientConfig;
  server_alpn : ServerConfig -> list (list Z);
  server_with_alpn : ServerConfig -> list (list Z) -> ServerConfig;
  server_with_ticketer : ServerConfig -> Ticketer -> ServerConfig;
  server_ticketer : ServerConfig -> Ticketer;
  (** [rustls::quic::Connection::alpn_protocol] *)
  alpn_protocol : Tls -> option (list Z)
}.

(** Fields of a record are set one at a time. *)
Class LawfulTlsConfigs {env : QuicEnv} {EE : EndpointEnv env} (T : TlsConfigs env EE) : Prop := {
  client_alpn_set : forall c l, client_alpn (client_with_alpn c l) = l;
  server_alpn_set : forall c l, server_alpn (server_with_alpn c l) = l;
  server_alpn_ticketer : forall c t, server_alpn (server_with_ticketer c t) = server_alpn c;
  server_ticketer_set : forall c t, server_ticketer (server_with_ticketer c t) = t
}.

(** [Sender] and [Receiver] of a [oneshot] channel, as the receiver sees it. *)
Inductive Oneshot (A : Type) := OsEmpty | OsSent (x : A) | OsDropped.
Arguments OsEmpty {A}. Arguments OsSent {A}. Arguments OsDropped {A}.

(** ** ALPN identifiers ([oxiquic-core/src/alpn.rs]) *)

Definition H3_ALPN : list Z := [104; 51].
Definition HTTP_0_9 : list Z := [104; 113; 45; 105; 110; 116; 101; 114; 111; 112].
Definition protocols (l : list (list Z)) : list (list Z) := map (fun p => p) l.

Section listener.
Context {env : QuicEnv} {EE : EndpointEnv env} {T : TlsConfigs env EE} {M : Mpsc}.

Notation conn := (Connection env).
Notation Drv := (Driver (env := env)).
Notation Route := (Chan CidRouteUpdate).

Definition negotiated_alpn (c : conn) : option (list Z) := alpn_protocol (tls c).

(** ** The client endpoint *)

Record ClientEndpoint := mkClientEndpoint { ce_config : ClientConfig; ce_transport : TransportConfig }.

(** [bound] is the outcome of [UdpSocket::bind]. *)
Definition client_bind (bound : result unit unit) (config : ClientConfig) (t : TransportConfig) : result OxiQuicError ClientEndpoint :=
  match bound with Ok _ => Ok (mkClientEndpoint config t) | Err _ => Err EIo end.

(** What a connection attempt meets: randomness, the clock, the events of the handshake. *)
Record Attempt := mkAttempt {
  at_rng : Rng;
  at_clock : Z;
  at_start : Z;
  at_before : list Reading;
  at_events : list (PumpEvent (env := env));
  at_after : list Reading
}.

(** [connect]; [None] still waits.  A client's driver has no demultiplexer to tell of its
    connection IDs, so the route channel is left as it is. *)
Definition client_connect (ep : ClientEndpoint) (addr : Addr) (name : list Z) (a : Attempt) (route : Route)
    : option (result OxiQuicError Drv) :=
  match connect (ce_config ep) (ce_transport ep) addr name (at_rng a) (at_clock a) with
  | Err e => Some (Err e)
  | Ok d =>
      '(r, (_, (d, _))) ← run_handshake (at_start a) (at_before a) (at_events a) (at_after a) d route;
      match r with
      | Err e => Some (Err e)
      | Ok _ => Some (Ok (d <| dconn ::= fun c => set_keep_alive c (Config.keep_alive_interval (ce_transport ep)) |>))
      end
  end.

(** [connect_timeout]: the attempt is dropped when the time is up before it returns. *)
Definition connect_timeout (ep : ClientEndpoint) (addr : Addr) (name : list Z) (elapsed : bool) (a : Attempt) (route : Route)
    : option (result OxiQuicError Drv) :=
  if elapsed then Some (Err ETimeout) else client_connect ep addr name a route.

(** ** 0-RTT *)

Definition ZeroRttAccepted : Type := Oneshot bool.

Definition poll_zero_rtt (z : ZeroRttAccepted) : Poll bool :=
  match z with OsSent b => Ready b | OsDropped => Ready false | OsEmpty => Pending end.

Definition connect_0rtt (ep : ClientEndpoint) (addr : Addr) (name : list Z) (a : Attempt) (route : Route)
    : option (result OxiQuicError (Drv * ZeroRttAccepted)) :=
  r ← client_connect ep addr name a route;
  match r with
  | Err e => Some (Err e)
  | Ok d => Some (Ok (d, OsSent (default false (zero_rtt_accepted (dconn d)))))
  end.

(** ** The server endpoint *)

Notation AcceptQueue := (Chan (result OxiQuicError Drv)).

Record ServerEndpoint := mkServerEndpoint { se_config : ServerConfig; se_transport : TransportConfig; se_demux : option AcceptQueue }.

Definition ACCEPT_QUEUE : nat := 16.

Definition server_bind (bound : result unit unit) (config : ServerConfig) (t : TransportConfig) : result OxiQuicError ServerEndpoint :=
  match bound with Ok _ => Ok (mkServerEndpoint config t None) | Err _ => Err EIo end.

(** The first [accept] starts the demultiplexer. *)
Definition ensure_demux (ep : ServerEndpoint) : ServerEndpoint :=
  match se_demux ep with
  | Some _ => ep
  | None => mkServerEndpoint (se_config ep) (se_transport ep) (Some (channel ACCEPT_QUEUE))
  end.

(** A handshake task's [accept_tx.send(..).await], once there is room. *)
Definition hand_over (q : AcceptQueue) (r : result OxiQuicError Drv) : TrySend * AcceptQueue := try_send q r.

(** [accept]; [None] still waits. *)
Definition accept (ep : ServerEndpoint) : option (result OxiQuicError Drv) * ServerEndpoint :=
  let ep := ensure_demux ep in
  match se_demux ep with
  | None => (Some (Err EConnection), ep)
  | Some q =>
      let '(r, q) := try_recv q in
      (match r with RecvItem r => Some r | RecvDisconnected => Some (Err EConnection) | RecvEmpty => None end,
       mkServerEndpoint (se_config ep) (se_transport ep) (Some q))
  end.

(** [Incoming::next]: [accept().await.ok()]. *)
Definition incoming_next (ep : ServerEndpoint) : option (option Drv) * ServerEndpoint :=
  let '(r, ep) := accept ep in
  (match r with Some (Ok d) => Some (Some d) | Some (Err _) => Some None | None => None end, ep).

(** The loop [while let Some(conn) = incoming.next().await] of the documentation, as far
    as the queue allows without waiting: the connections it took and whether it ended. *)
Fixpoint take_incoming (fuel : nat) (ep : ServerEndpoint) : list Drv * bool * ServerEndpoint :=
  match fuel with
  | O => ([], false, ep)
  | S fuel =>
      match incoming_next ep with
      | (Some (Some d), ep) => let '(l, ended, ep) := take_incoming fuel ep in (d :: l, ended, ep)
      | (Some None, ep) => ([], true, ep)
      | (None, ep) => ([], false, ep)
      end
  end.

(** ** The server's builder *)

Record ServerEndpointBuilder := mkServerBuilder { sb_config : ServerConfig; sb_transport : TransportConfig; sb_ticketer : option Ticketer }.

Definition builder_new (config : ServerConfig) (t : TransportConfig) : ServerEndpointBuilder := mkServerBuilder config t None.
Definition with_ticketer (b : ServerEndpointBuilder) (t : Ticketer) : ServerEndpointBuilder := mkServerBuilder (sb_config b) (sb_transport b) (Some t).
Definition with_alpn_protocols (b : ServerEndpointBuilder) (l : list (list Z)) : ServerEndpointBuilder :=
  mkServerBuilder (server_with_alpn (sb_config b) l) (sb_transport b) (sb_ticketer b).
Definition builder_build (bound : result unit unit) (b : ServerEndpointBuilder) : result OxiQuicError ServerEndpoint :=
  let config := match sb_ticketer b with Some t => server_with_ticketer (sb_config b) t | None => sb_config b end in
  server_bind bound config (sb_transport b).

End listener.

(** ** The accept queue *)

Section accept_queue.
Context {env : QuicEnv} {EE : EndpointEnv env} {M : Mpsc} {LM : LawfulMpsc M}.

Notation Drv := (Driver (env := env)).

Lemma accept_item (ep : ServerEndpoint) q r rs :
  se_demux ep = Some q -> items (view q) = r :: rs ->
  exists q', accept ep = (Some r, mkServerEndpoint (se_config ep) (se_transport ep) (Some q')) /\
    items (view q') = rs /\ capacity (view q') = capacity (view q) /\ rx_alive (view q') = rx_alive (view q) /\ tx_alive (view q') = tx_alive (view q).
Proof.
  intros Eq Ei. unfold accept, ensure_demux. rewrite Eq, Eq. destruct (view_try_recv _ q) as [E1 E2].
  destruct (try_recv q) as [o q']. cbn in E1, E2. unfold queue_recv in E1, E2. rewrite Ei in E1, E2. cbn in E1, E2. subst o. exists q'. by rewrite E2.
Qed.

(** The results a number of calls to [accept] return, while they do not wait. *)
Fixpoint accept_all (n : nat) (ep : ServerEndpoint (env := env)) : list (result OxiQuicError Drv) * ServerEndpoint (env := env) :=
  match n with
  | O => ([], ep)
  | S n => match accept ep with
           | (Some r, ep) => let '(l, ep) := accept_all n ep in (r :: l, ep)
           | (None, ep) => ([], ep)
           end
  end.

(** The connections before the first failed handshake, and what is behind it. *)
Fixpoint until_failure (rs : list (result OxiQuicError Drv)) : list Drv :=
  match rs with Ok d :: rs => d :: until_failure rs | _ => [] end.
Definition any_failure (rs : list (result OxiQuicError Drv)) : bool := existsb (fun r => match r with Err _ => true | Ok _ => false end) rs.
Fixpoint after_failure (rs : list (result OxiQuicError Drv)) : list (result OxiQuicError Drv) :=
  match rs with Ok _ :: rs => after_failure rs | Err _ :: rs => rs | [] => [] end.

Lemma accept_all_items n (ep : ServerEndpoint) q rs :
  se_demux ep = Some q -> items (view q) = rs -> n = length rs -> (accept_all n ep).1 = rs.
Proof.
  revert ep q rs. induction n as [| n IH]; intros ep q [| r rs] Eq Ei Hn; try done. cbn [accept_all].
  destruct (accept_item ep q _ _ Eq Ei) as (q' & -> & E2 & _). specialize (IH (mkServerEndpoint (se_config ep) (se_transport ep) (Some q')) q' rs eq_refl E2 ltac:(cbn in Hn; lia)).
  destruct (accept_all n _) as [l ep']. cbn in *. congruence.
Qed.

Lemma accept_waits (ep : ServerEndpoint) q :
  se_demux ep = Some q -> items (view q) = [] -> tx_alive (view q) = true ->
  exists q', accept ep = (None, mkServerEndpoint (se_config ep) (se_transport ep) (Some q')) /\ view q' = view q.
Proof.
  intros Eq Ei Et. unfold accept, ensure_demux. rewrite Eq, Eq. destruct (view_try_recv _ q) as [E1 E2].
  destruct (try_recv q) as [o q']. cbn in E1, E2. unfold queue_recv in E1, E2. rewrite Ei, ?Et in E1, E2. cbn in E1, E2. subst o. by exists q'.
Qed.

Lemma take_incoming_items fuel (ep : ServerEndpoint) q rs :
  se_demux ep = Some q -> items (view q) = rs -> tx_alive (view q) = true -> (length rs < fuel)%nat ->
  exists q', take_incoming fuel ep = (until_failure rs, any_failure rs, mkServerEndpoint (se_config ep) (se_transport ep) (Some q')) /\
    items (view q') = after_failure rs /\ tx_alive (view q') = true.
Proof.
  revert ep q rs. induction fuel as [| fuel IH]; intros ep q rs Eq Ei Et Hf; [lia |]. cbn [take_incoming]. unfold incoming_next.
  destruct rs as [| [d | e] rs].
  - destruct (accept_waits ep q Eq Ei Et) as (q' & -> & E). exists q'. by rewrite E.
  - destruct (accept_item ep q _ _ Eq Ei) as (q' & -> & E2 & _ & _ & E3). cbn in Hf. rewrite Et in E3.
    destruct (IH (mkServerEndpoint (se_config ep) (se_transport ep) (Some q')) q' rs eq_refl E2 E3 ltac:(lia)) as (q2 & -> & E4 & E5).
    by exists q2.
  - destruct (accept_item ep q _ _ Eq Ei) as (q' & -> & E2 & _ & _ & E3). exists q'. by rewrite E3.
Qed.

Lemma hand_over_all rs (q : Chan (result OxiQuicError Drv)) :
  rx_alive (view q) = true -> (length (items (view q)) + length rs <= capacity (view q))%nat ->
  let q' := fold_left (fun q r => (hand_over q r).2) rs q in
  items (view q') = items (view q) ++ rs /\ tx_alive (view q') = tx_alive (view q).
Proof.
  revert q. induction rs as [| r rs IH]; intros q Hr Hl; cbn [fold_left]; [by rewrite app_nil_r |]. cbn in Hl.
  unfold hand_over in *. destruct (view_try_send _ q r) as [_ E]. unfold queue_send in E. rewrite Hr in E. cbn [negb] in E.
  destruct (Nat.leb_spec (capacity (view q)) (length (items (view q)))); [lia |].
  cbn zeta in IH. destruct (IH (try_send q r).2) as [E1 E2]; [by rewrite E | rewrite E; cbn; rewrite length_app; cbn; lia |].
  rewrite E1, E2, E. cbn. by rewrite <- app_assoc.
Qed.


End accept_queue.

(** Two connections with a failure between them: the loop sees the first only. *)
Definition two_and_failure : list (result OxiQuicError (Driver (env := demo_env))) :=
  [Ok (driver_new demo_client None); Err EProtocol; Ok (driver_new demo_client (Some (7 : @Addr demo_env)))].

Definition after_two : @Chan queue_mpsc (result OxiQuicError (Driver (env := demo_env))) :=
  fold_left (fun q r => (hand_over q r).2) two_and_failure (channel ACCEPT_QUEUE).

