(* ===== verification/H3Compat.v ===== *)
(** * The HTTP/3 adapter of the stream handles

    [h3_compat.rs]: the sending and receiving halves the [h3] crate drives.  A
    sending half reserves a slot of the connection's command channel in
    [poll_ready], fills it in [send_data], and reserves another one for the FIN.
    Reservations are a second interface to the channel ([tokio::sync::mpsc]
    permits), stated here like [Mpsc] through the queue it stands for. *)

From S2P Require Import Prelude CoreTypes Mpsc Driven.

(** ** Channels with reservations *)

(** A queue and the slots reserved in it. *)
Record PQueue (A : Type) := mkPQueue { pq_items : list A; pq_permits : nat; pq_capacity : nat; pq_open : bool; pq_senders : bool }.
Arguments mkPQueue {A}. Arguments pq_items {A}. Arguments pq_permits {A}. Arguments pq_capacity {A}. Arguments pq_open {A}. Arguments pq_senders {A}.

Inductive Reserve := Reserved | ReservePending | ReserveClosed.

Definition pq_full {A} (q : PQueue A) : bool := (pq_capacity q <=? length (pq_items q) + pq_permits q)%nat.

Definition pq_add {A} (q : PQueue A) (x : A) : PQueue A :=
  mkPQueue (pq_items q ++ [x]) (pq_permits q) (pq_capacity q) (pq_open q) (pq_senders q).

Definition pq_take_slot {A} (q : PQueue A) : PQueue A :=
  mkPQueue (pq_items q) (S (pq_permits q)) (pq_capacity q) (pq_open q) (pq_senders q).

(** [OwnedPermit::send]: into the reserved slot; lost when the receiver is gone. *)
Definition pq_permit_send {A} (q : PQueue A) (x : A) : PQueue A :=
  mkPQueue (if pq_open q then pq_items q ++ [x] else pq_items q) (pred (pq_permits q)) (pq_capacity q) (pq_open q) (pq_senders q).

Definition pq_try_recv {A} (q : PQueue A) : TryRecv A * PQueue A :=
  match pq_items q with
  | x :: xs => (RecvItem x, mkPQueue xs (pq_permits q) (pq_capacity q) (pq_open q) (pq_senders q))
  | [] => (if pq_senders q then RecvEmpty else RecvDisconnected, q)
  end.

Definition pq_close {A} (q : PQueue A) : PQueue A := mkPQueue [] (pq_permits q) (pq_capacity q) false (pq_senders q).

(** What the adapter uses of a channel. *)
Class PermitMpsc := {
  PChan : Type -> Type;
  p_channel : forall {A}, nat -> PChan A;
  (** [reserve_owned], polled once *)
  p_reserve : forall {A}, PChan A -> Reserve * PChan A;
  p_permit_send : forall {A}, PChan A -> A -> PChan A;
  p_try_send : forall {A}, PChan A -> A -> TrySend * PChan A;
  p_try_recv : forall {A}, PChan A -> TryRecv A * PChan A;
  (** the receiver is dropped *)
  p_close : forall {A}, PChan A -> PChan A;
  p_view : forall {A}, PChan A -> PQueue A
}.

(** What the channel promises.  A free slot may be kept for a sender that waits, so a
    reservation or a send may have to wait although there is one. *)
Class LawfulPermits (P : PermitMpsc) : Prop := {
  view_p_channel : forall A n, p_view (@p_channel P A n) = mkPQueue [] 0 n true true;
  view_reserve : forall A (c : @PChan P A),
    match p_reserve c with
    | (Reserved, c') => pq_open (p_view c) = true /\ pq_full (p_view c) = false /\ p_view c' = pq_take_slot (p_view c)
    | (ReservePending, c') => pq_open (p_view c) = true /\ p_view c' = p_view c
    | (ReserveClosed, c') => pq_open (p_view c) = false /\ p_view c' = p_view c
    end;
  view_permit_send : forall A (c : @PChan P A) x, p_view (p_permit_send c x) = pq_permit_send (p_view c) x;
  view_p_try_send : forall A (c : @PChan P A) x,
    match p_try_send c x with
    | (SendOk, c') => pq_open (p_view c) = true /\ pq_full (p_view c) = false /\ p_view c' = pq_add (p_view c) x
    | (SendFull, c') => pq_open (p_view c) = true /\ p_view c' = p_view c
    | (SendClosed, c') => pq_open (p_view c) = false /\ p_view c' = p_view c
    end;
  view_p_try_recv : forall A (c : @PChan P A),
    (p_try_recv c).1 = (pq_try_recv (p_view c)).1 /\ p_view (p_try_recv c).2 = (pq_try_recv (p_view c)).2;
  view_p_close : forall A (c : @PChan P A), p_view (p_close c) = pq_close (p_view c)
}.

#[export] Instance queue_permits : PermitMpsc := {|
  PChan := PQueue;
  p_channel _ n := mkPQueue [] 0 n true true;
  p_reserve _ q := if negb (pq_open q) then (ReserveClosed, q) else if pq_full q then (ReservePending, q) else (Reserved, pq_take_slot q);
  p_permit_send _ := pq_permit_send;
  p_try_send _ q x := if negb (pq_open q) then (SendClosed, q) else if pq_full q then (SendFull, q) else (SendOk, pq_add q x);
  p_try_recv _ := pq_try_recv; p_close _ := pq_close; p_view _ q := q
|}.

#[export] Instance queue_permits_lawful : LawfulPermits queue_permits.
Proof. split; try done; intros A c; cbn; destruct (pq_open c) eqn:E; cbn; try done; destruct (pq_full c) eqn:F; done. Qed.

Section adapter.
Context {P : PermitMpsc}.

(** The connection's write channel. *)
Notation WriteTx := (PChan (Z * WriteCmd)).

(** ** Errors and identifiers *)

(** [std::io::ErrorKind] of the errors wrapped in [StreamErrorIncoming::Unknown]. *)
Inductive IoKind := BrokenPipe | WouldBlock | InvalidInput | Other.

(** [H3StreamId::try_from] accepts exactly the varint range. *)
Definition convert_stream_id (id : Z) : result IoKind Z := if id <=? 2 ^ 62 - 1 then Ok id else Err InvalidInput.

(** ** The sending half *)

Record H3SendStream := mkH3Send {
  hs_stream_id : Z;
  hs_h3_id : Z;
  hs_permit : bool;
  hs_reserving : bool;
  hs_fin_reserving : bool
}.

Definition h3_send_new (stream_id : Z) : result IoKind H3SendStream :=
  h3_id ← convert_stream_id stream_id; Ok (mkH3Send stream_id h3_id false false false).

Definition poll_ready (s : H3SendStream) (tx : WriteTx) : Poll (result IoKind unit) * (H3SendStream * WriteTx) :=
  if hs_permit s then (Ready (Ok tt), (s, tx))
  else
    match p_reserve tx with
    | (Reserved, tx) => (Ready (Ok tt), (mkH3Send (hs_stream_id s) (hs_h3_id s) true false (hs_fin_reserving s), tx))
    | (ReserveClosed, tx) =>
        (Ready (Err BrokenPipe), (mkH3Send (hs_stream_id s) (hs_h3_id s) (hs_permit s) false (hs_fin_reserving s), tx))
    | (ReservePending, tx) => (Pending, (mkH3Send (hs_stream_id s) (hs_h3_id s) (hs_permit s) true (hs_fin_reserving s), tx))
    end.

(** [while write_buf.has_remaining()]: the chunks of the buffer, one after the other. *)
Definition drain_buf (chunks : list (list Z)) : list Z := fold_left (fun payload chunk => payload ++ chunk) chunks [].

Definition send_data (s : H3SendStream) (tx : WriteTx) (chunks : list (list Z)) : result IoKind unit * (H3SendStream * WriteTx) :=
  let cmd := WcWrite (drain_buf chunks) false in
  if hs_permit s then
    (Ok tt, (mkH3Send (hs_stream_id s) (hs_h3_id s) false false (hs_fin_reserving s), p_permit_send tx (hs_stream_id s, cmd)))
  else
    let '(r, tx) := p_try_send tx (hs_stream_id s, cmd) in
    (match r with SendOk => Ok tt | SendFull => Err WouldBlock | SendClosed => Err BrokenPipe end, (s, tx)).

Definition poll_finish (s : H3SendStream) (tx : WriteTx) : Poll (result IoKind unit) * (H3SendStream * WriteTx) :=
  match p_reserve tx with
  | (Reserved, tx) =>
      (Ready (Ok tt), (mkH3Send (hs_stream_id s) (hs_h3_id s) (hs_permit s) (hs_reserving s) false,
                       p_permit_send tx (hs_stream_id s, WcWrite [] true)))
  | (ReserveClosed, tx) => (Ready (Ok tt), (mkH3Send (hs_stream_id s) (hs_h3_id s) (hs_permit s) (hs_reserving s) false, tx))
  | (ReservePending, tx) => (Pending, (mkH3Send (hs_stream_id s) (hs_h3_id s) (hs_permit s) (hs_reserving s) true, tx))
  end.

(** [reset] and [stop_sending]: the result of [try_send] is dropped. *)
Definition h3_reset (s : H3SendStream) (tx : WriteTx) (reset_code : Z) : WriteTx := (p_try_send tx (hs_stream_id s, WcReset reset_code)).2.

(** ** The receiving half *)

Record H3RecvStream := mkH3Recv { hr_stream_id : Z; hr_h3_id : Z }.

Definition h3_recv_new (stream_id : Z) : result IoKind H3RecvStream :=
  h3_id ← convert_stream_id stream_id; Ok (mkH3Recv stream_id h3_id).

Definition h3_stop_sending (s : H3RecvStream) (tx : WriteTx) (error_code : Z) : WriteTx :=
  (p_try_send tx (hr_stream_id s, WcStopSending error_code)).2.

(** [poll_data]: a closed channel is an orderly end. *)
Definition poll_data (rx : PChan (list Z)) : Poll (result IoKind (option (list Z))) * PChan (list Z) :=
  match p_try_recv rx with
  | (RecvItem data, rx) => (Ready (Ok (Some data)), rx)
  | (RecvDisconnected, rx) => (Ready (Ok None), rx)
  | (RecvEmpty, rx) => (Pending, rx)
  end.

(** ** Both halves *)

Record H3BidiStream := mkH3Bidi { hb_send : H3SendStream; hb_recv : H3RecvStream }.

Definition h3_bidi_new (send_id recv_id : Z) : result IoKind H3BidiStream :=
  s ← h3_send_new send_id; r ← h3_recv_new recv_id; Ok (mkH3Bidi s r).

(** ** Opening and accepting streams

    Each operation keeps one request to the background driver in flight: a poll starts
    one when there is none and polls it.  The answer of that poll is the argument
    [polled]; the result carries whether a request was started. *)

Record OxiQuicOpenStreams := mkOpenStreams { pending_open_bidi : bool; pending_open_send : bool }.
Definition open_streams_new : OxiQuicOpenStreams := mkOpenStreams false false.

Definition poll_open_bidi (o : OxiQuicOpenStreams) (polled : Poll (result OxiQuicError (Z * Z)))
  : bool * Poll (result IoKind H3BidiStream) * OxiQuicOpenStreams :=
  let started := negb (pending_open_bidi o) in
  match polled with
  | Ready (Ok (send, recv)) => (started, Ready (h3_bidi_new send recv), mkOpenStreams false (pending_open_send o))
  | Ready (Err _) => (started, Ready (Err Other), mkOpenStreams false (pending_open_send o))
  | Pending => (started, Pending, mkOpenStreams true (pending_open_send o))
  end.

Definition poll_open_send (o : OxiQuicOpenStreams) (polled : Poll (result OxiQuicError Z))
  : bool * Poll (result IoKind H3SendStream) * OxiQuicOpenStreams :=
  let started := negb (pending_open_send o) in
  match polled with
  | Ready (Ok send) => (started, Ready (h3_send_new send), mkOpenStreams (pending_open_bidi o) false)
  | Ready (Err _) => (started, Ready (Err Other), mkOpenStreams (pending_open_bidi o) false)
  | Pending => (started, Pending, mkOpenStreams (pending_open_bidi o) true)
  end.

(** [ConnectionErrorIncoming] as the adapter reports it. *)
Inductive AcceptError := InternalError (e : IoKind) | ApplicationClose (error_code : Z).
Definition H3_NO_ERROR_CODE : Z := 0x0100.

Definition internal_error {A} (r : result IoKind A) : result AcceptError A := match r with Ok x => Ok x | Err e => Err (InternalError e) end.

Record OxiQuicH3Connection := mkH3Connection {
  open_streams : OxiQuicOpenStreams;
  pending_accept_recv : bool;
  pending_accept_bidi : bool
}.
Definition h3_connection_new : OxiQuicH3Connection := mkH3Connection open_streams_new false false.

(** Any failure of the request is the peer closing without an error. *)
Definition poll_accept_recv (c : OxiQuicH3Connection) (polled : Poll (result OxiQuicError Z))
  : bool * Poll (result AcceptError H3RecvStream) * OxiQuicH3Connection :=
  let started := negb (pending_accept_recv c) in
  match polled with
  | Ready (Ok recv) => (started, Ready (internal_error (h3_recv_new recv)), mkH3Connection (open_streams c) false (pending_accept_bidi c))
  | Ready (Err _) => (started, Ready (Err (ApplicationClose H3_NO_ERROR_CODE)), mkH3Connection (open_streams c) false (pending_accept_bidi c))
  | Pending => (started, Pending, mkH3Connection (open_streams c) true (pending_accept_bidi c))
  end.

Definition poll_accept_bidi (c : OxiQuicH3Connection) (polled : Poll (result OxiQuicError (Z * Z)))
  : bool * Poll (result AcceptError H3BidiStream) * OxiQuicH3Connection :=
  let started := negb (pending_accept_bidi c) in
  match polled with
  | Ready (Ok (send, recv)) => (started, Ready (internal_error (h3_bidi_new send recv)), mkH3Connection (open_streams c) (pending_accept_recv c) false)
  | Ready (Err _) => (started, Ready (Err (ApplicationClose H3_NO_ERROR_CODE)), mkH3Connection (open_streams c) (pending_accept_recv c) false)
  | Pending => (started, Pending, mkH3Connection (open_streams c) (pending_accept_recv c) true)
  end.

(** What the polls of an operation add up to: requests started, answers given, and
    whether one is in flight. *)
Fixpoint polls {S A B} (poll : S -> Poll A -> bool * Poll B * S) (st : S) (ans : list (Poll A)) : nat * list B * S :=
  match ans with
  | [] => (0%nat, [], st)
  | a :: ans =>
      let '(started, r, st) := poll st a in
      let '(n, rs, st) := polls poll st ans in
      ((Nat.b2n started + n)%nat, match r with Ready x => x :: rs | Pending => rs end, st)
  end.

(** ** The streams of a connection and its driver

    Any number of sending halves on one command channel, and the driver that takes the
    commands out.  [accepted] is what the calls put in, [received] what the driver has
    taken, in order. *)
Record Writers := mkWriters {
  ws_streams : list H3SendStream;
  ws_tx : WriteTx;
  ws_accepted : list (Z * WriteCmd);
  ws_received : list (Z * WriteCmd)
}.

Inductive writer_event :=
| WReady (i : nat)
| WSend (i : nat) (chunks : list (list Z))
| WFinish (i : nat)
| WReset (i : nat) (code : Z)
| WStop (r : H3RecvStream) (code : Z)
| WDrive
| WDriverGone.

(** What a [try_send] whose result is dropped adds. *)
Definition tried (tx : WriteTx) (x : Z * WriteCmd) : list (Z * WriteCmd) := match (p_try_send tx x).1 with SendOk => [x] | _ => [] end.

Definition writer_step (w : Writers) (e : writer_event) : Writers :=
  let acc := ws_accepted w in
  match e with
  | WReady i =>
      match ws_streams w !! i with
      | Some s => let '(_, (s, tx)) := poll_ready s (ws_tx w) in mkWriters (<[i := s]> (ws_streams w)) tx acc (ws_received w)
      | None => w
      end
  | WSend i chunks =>
      match ws_streams w !! i with
      | Some s =>
          let '(r, (s', tx)) := send_data s (ws_tx w) chunks in
          mkWriters (<[i := s']> (ws_streams w)) tx
            (acc ++ match r with Ok _ => [(hs_stream_id s, WcWrite (drain_buf chunks) false)] | Err _ => [] end) (ws_received w)
      | None => w
      end
  | WFinish i =>
      match ws_streams w !! i with
      | Some s =>
          let '(r, (s', tx)) := poll_finish s (ws_tx w) in
          mkWriters (<[i := s']> (ws_streams w)) tx
            (acc ++ match r with Ready _ => [(hs_stream_id s, WcWrite [] true)] | Pending => [] end) (ws_received w)
      | None => w
      end
  | WReset i code =>
      match ws_streams w !! i with
      | Some s =>
          mkWriters (ws_streams w) (h3_reset s (ws_tx w) code) (acc ++ tried (ws_tx w) (hs_stream_id s, WcReset code)) (ws_received w)
      | None => w
      end
  | WStop r code =>
      mkWriters (ws_streams w) (h3_stop_sending r (ws_tx w) code) (acc ++ tried (ws_tx w) (hr_stream_id r, WcStopSending code)) (ws_received w)
  | WDrive =>
      let '(x, tx) := p_try_recv (ws_tx w) in
      mkWriters (ws_streams w) tx acc (ws_received w ++ match x with RecvItem y => [y] | _ => [] end)
  | WDriverGone => mkWriters (ws_streams w) (p_close (ws_tx w)) acc (ws_received w)
  end.

Definition writers_new (ss : list H3SendStream) (n : nat) : Writers := mkWriters ss (p_channel n) [] [].

Definition holders (ss : list H3SendStream) : nat := length (filter (fun s => hs_permit s = true) ss).

(** ** Lemmas *)

Section lemmas.
Context `{!LawfulPermits P}.

Record writers_ok (n : nat) (w : Writers) : Prop := {
  wo_order : if pq_open (p_view (ws_tx w)) then ws_accepted w = ws_received w ++ pq_items (p_view (ws_tx w))
             else ws_received w `prefix_of` ws_accepted w /\ pq_items (p_view (ws_tx w)) = [];
  wo_permits : pq_permits (p_view (ws_tx w)) = holders (ws_streams w);
  wo_capacity : pq_capacity (p_view (ws_tx w)) = n;
  wo_room : (length (pq_items (p_view (ws_tx w))) + pq_permits (p_view (ws_tx w)) <= n)%nat
}.

(** Giving or taking one stream's permit. *)
Lemma holders_insert ss i s s' :
  ss !! i = Some s -> (holders (<[i := s']> ss) + Nat.b2n (hs_permit s) = holders ss + Nat.b2n (hs_permit s'))%nat.
Proof.
  revert i. induction ss as [| x ss IH]; intros [| i] Hi; try done.
  - injection Hi as ->. unfold holders. simpl. rewrite !filter_cons. destruct (hs_permit s) eqn:E1, (hs_permit s') eqn:E2; simpl; lia.
  - specialize (IH i Hi). unfold holders in *. simpl. rewrite !filter_cons. case_decide; simpl; lia.
Qed.

(** A send that may be refused. *)
Lemma try_send_ok n w x :
  writers_ok n w -> writers_ok n (mkWriters (ws_streams w) (p_try_send (ws_tx w) x).2 (ws_accepted w ++ tried (ws_tx w) x) (ws_received w)).
Proof.
  intros [O1 O2 O3 O4]. unfold tried. pose proof (view_p_try_send _ (ws_tx w) x) as H.
  destruct (p_try_send (ws_tx w) x) as [[] tx]; cbn [fst snd] in *; rewrite ?app_nil_r.
  - destruct H as (Ho & Hf & Hv). rewrite Ho in O1. apply Nat.leb_gt in Hf. rewrite O3 in Hf.
    split; cbn [ws_tx ws_accepted ws_received ws_streams]; rewrite Hv; cbn; try done.
    + by rewrite Ho, O1, app_assoc.
    + rewrite length_app. simpl. lia.
  - destruct H as (_ & Hv). split; cbn [ws_tx ws_accepted ws_received ws_streams]; by rewrite Hv.
  - destruct H as (_ & Hv). split; cbn [ws_tx ws_accepted ws_received ws_streams]; by rewrite Hv.
Qed.

(** A command through a reserved slot, by a stream that gives up its permit or by one
    that took a slot for it. *)
Lemma permit_send_order q x (acc rec : list (Z * WriteCmd)) :
  (if pq_open q then acc = rec ++ pq_items q else rec `prefix_of` acc /\ pq_items q = []) ->
  let q' := pq_permit_send q x in
  if pq_open q' then acc ++ [x] = rec ++ pq_items q' else rec `prefix_of` acc ++ [x] /\ pq_items q' = [].
Proof.
  cbn. destruct (pq_open q); [intros ->; by rewrite app_assoc |]. intros [H1 H2]. split; [by apply prefix_app_r | done].
Qed.

Lemma send_ok n w i s chunks :
  writers_ok n w -> ws_streams w !! i = Some s -> writers_ok n (writer_step w (WSend i chunks)).
Proof.
  intros Hok Hi. cbn [writer_step]. rewrite Hi. unfold send_data. destruct (hs_permit s) eqn:Ep.
  - destruct Hok as [O1 O2 O3 O4]. set (x := (hs_stream_id s, WcWrite (drain_buf chunks) false)).
    pose proof (holders_insert (ws_streams w) i s (mkH3Send (hs_stream_id s) (hs_h3_id s) false false (hs_fin_reserving s)) Hi) as Hh.
    rewrite Ep in Hh. cbn [hs_permit Nat.b2n] in Hh.
    pose proof (permit_send_order (p_view (ws_tx w)) x _ _ O1) as Ho.
    split; cbn [ws_tx ws_accepted ws_received ws_streams]; rewrite view_permit_send; [exact Ho | cbn; lia | done |].
    cbn. destruct (pq_open (p_view (ws_tx w))); rewrite ?length_app; simpl; lia.
  - pose proof (try_send_ok n w (hs_stream_id s, WcWrite (drain_buf chunks) false) Hok) as H. unfold tried in H.
    destruct (p_try_send (ws_tx w) _) as [r tx]. cbn [fst snd] in H. rewrite list_insert_id by done.
    destruct r; exact H.
Qed.

Lemma ready_ok n w i s : writers_ok n w -> ws_streams w !! i = Some s -> writers_ok n (writer_step w (WReady i)).
Proof.
  intros [O1 O2 O3 O4] Hi. cbn [writer_step]. rewrite Hi. unfold poll_ready. destruct (hs_permit s) eqn:Ep.
  { rewrite list_insert_id by done. by split. }
  pose proof (view_reserve _ (ws_tx w)) as H. destruct (p_reserve (ws_tx w)) as [r tx].
  assert (Hh : forall s', (holders (<[i := s']> (ws_streams w)) = holders (ws_streams w) + Nat.b2n (hs_permit s'))%nat).
  { intros s'. pose proof (holders_insert (ws_streams w) i s s' Hi) as Hs. rewrite Ep in Hs. cbn [Nat.b2n] in Hs. lia. }
  destruct r.
  - destruct H as (Ho & Hf & Hv). apply Nat.leb_gt in Hf. rewrite O3 in Hf.
    split; cbn [ws_tx ws_accepted ws_received ws_streams]; rewrite Hv, ?Hh; cbn [pq_take_slot pq_open pq_items pq_permits pq_capacity hs_permit Nat.b2n];
      [done | lia | done | lia].
  - destruct H as (_ & Hv). split; cbn [ws_tx ws_accepted ws_received ws_streams]; rewrite Hv, ?Hh; try done. cbn [hs_permit Nat.b2n]. lia.
  - destruct H as (_ & Hv). split; cbn [ws_tx ws_accepted ws_received ws_streams]; rewrite Hv, ?Hh; try done. cbn [hs_permit Nat.b2n]. lia.
Qed.

Lemma finish_ok n w i s : writers_ok n w -> ws_streams w !! i = Some s -> writers_ok n (writer_step w (WFinish i)).
Proof.
  intros [O1 O2 O3 O4] Hi. cbn [writer_step]. rewrite Hi. unfold poll_finish. set (x := (hs_stream_id s, WcWrite [] true)).
  pose proof (view_reserve _ (ws_tx w)) as H. destruct (p_reserve (ws_tx w)) as [r tx].
  assert (Hh : forall a b, holders (<[i := mkH3Send (hs_stream_id s) (hs_h3_id s) (hs_permit s) a b]> (ws_streams w)) = holders (ws_streams w)).
  { intros a b. pose proof (holders_insert (ws_streams w) i s (mkH3Send (hs_stream_id s) (hs_h3_id s) (hs_permit s) a b) Hi) as Hs.
    cbn [hs_permit] in Hs. lia. }
  destruct r.
  - destruct H as (Ho & Hf & Hv). apply Nat.leb_gt in Hf. rewrite O3 in Hf. rewrite Ho in O1.
    split; cbn [ws_tx ws_accepted ws_received ws_streams]; rewrite view_permit_send, Hv, ?Hh;
      cbn [pq_permit_send pq_take_slot pq_open pq_items pq_permits pq_capacity pred]; rewrite ?Ho; try done.
    + by rewrite O1, app_assoc.
    + rewrite length_app. simpl. lia.
  - destruct H as (_ & Hv). rewrite app_nil_r. split; cbn [ws_tx ws_accepted ws_received ws_streams]; rewrite Hv, ?Hh; done.
  - destruct H as (Ho & Hv). rewrite Ho in O1. destruct O1 as [O1 O1'].
    split; cbn [ws_tx ws_accepted ws_received ws_streams]; rewrite Hv, ?Hh; try done. rewrite Ho. split; [by apply prefix_app_r | done].
Qed.

Lemma writer_step_ok n w e : writers_ok n w -> writers_ok n (writer_step w e).
Proof.
  intros Hok. destruct e as [i | i chunks | i | i code | r code | |].
  - destruct (ws_streams w !! i) as [s |] eqn:E; [by eapply ready_ok | cbn [writer_step]; by rewrite E].
  - destruct (ws_streams w !! i) as [s |] eqn:E; [by eapply send_ok | cbn [writer_step]; by rewrite E].
  - destruct (ws_streams w !! i) as [s |] eqn:E; [by eapply finish_ok | cbn [writer_step]; by rewrite E].
  - cbn [writer_step]. destruct (ws_streams w !! i) as [s |] eqn:E; [by apply try_send_ok | done].
  - by apply try_send_ok.
  - destruct Hok as [O1 O2 O3 O4]. cbn [writer_step]. destruct (view_p_try_recv _ (ws_tx w)) as [V1 V2].
    destruct (p_try_recv (ws_tx w)) as [x tx]. cbn [fst snd] in V1, V2. unfold pq_try_recv in V1, V2.
    destruct (pq_items (p_view (ws_tx w))) as [| y ys] eqn:E; cbn [fst snd] in V1, V2.
    + subst x. replace (ws_received w ++ _) with (ws_received w) by (destruct (pq_senders _); by rewrite app_nil_r).
      split; cbn [ws_tx ws_accepted ws_received ws_streams]; rewrite V2, ?E; done.
    + subst x. split; cbn [ws_tx ws_accepted ws_received ws_streams]; rewrite V2; cbn [pq_open pq_items pq_permits pq_capacity]; try done.
      * destruct (pq_open (p_view (ws_tx w))); [by rewrite <- app_assoc | by destruct O1].
      * simpl in O4. lia.
  - destruct Hok as [O1 O2 O3 O4]. cbn [writer_step]. split; cbn [ws_tx ws_accepted ws_received ws_streams]; rewrite view_p_close;
      cbn [pq_close pq_open pq_items pq_permits pq_capacity length]; try done; [| lia]. split; [| done].
    destruct (pq_open (p_view (ws_tx w))); [rewrite O1; by apply prefix_app_r | by destruct O1].
Qed.

Lemma writers_run ss n es :
  Forall (fun s => hs_permit s = false) ss -> writers_ok n (fold_left writer_step es (writers_new ss n)).
Proof.
  intros Hs. assert (H0 : writers_ok n (writers_new ss n)).
  { unfold writers_new. split; cbn [ws_tx ws_accepted ws_received ws_streams]; rewrite view_p_channel; cbn; try done; [| lia].
    unfold holders. induction Hs as [| s ss E _ IH]; [done |]. rewrite filter_cons, decide_False by congruence. exact IH. }
  revert H0. generalize (writers_new ss n). induction es as [| e es IH]; intros w Hw; [done |]. cbn [fold_left]. by apply IH, writer_step_ok.
Qed.

End lemmas.

(** The answers of the requests that completed. *)
Definition answers {A} (ans : list (Poll A)) : list A := omap (fun a => match a with Ready x => Some x | Pending => None end) ans.

Lemma polls_accounted {S A B} (poll : S -> Poll A -> bool * Poll B * S) (pend : S -> bool) (f : A -> B) st ans :
  (forall st a, poll st a = (negb (pend st), match a with Ready x => Ready (f x) | Pending => Pending end, (poll st a).2) /\
     pend (poll st a).2 = match a with Ready _ => false | Pending => true end) ->
  let '(n, rs, st') := polls poll st ans in
  rs = f <$> answers ans /\ (n + Nat.b2n (pend st) = length rs + Nat.b2n (pend st'))%nat.
Proof.
  intros Hp. revert st. induction ans as [| a ans IH]; intros st; [done |]. cbn [polls].
  destruct (Hp st a) as [H1 H2]. rewrite H1. specialize (IH (poll st a).2).
  destruct (polls poll (poll st a).2 ans) as [[n rs] st']. destruct IH as [-> IH]. rewrite H2 in IH.
  destruct a as [x |]; cbn; (split; [done |]); destruct (pend st); cbn [negb Nat.b2n length] in *; lia.
Qed.

End adapter.

(** ** Properties *)

(** C34: The HTTP/3 sending halves of a connection share its command channel safely:
    whatever the order of [poll_ready], [send_data], [poll_finish], [reset] and
    [stop_sending] on any of the streams and of the driver's receives, while the
    driver lives the commands that were accepted are exactly those it has received
    followed by those queued, in order; queued commands and reserved slots together
    never exceed the channel's capacity, with one slot per stream that was told it
    is ready; such a stream's next [send_data] succeeds and queues its data last,
    however full the channel is; and a finish that completes has queued the FIN. *)
Theorem h3_commands_delivered {P : PermitMpsc} `{!LawfulPermits P} ss n es i s chunks :
  Forall (fun s => hs_permit s = false) ss ->
  let w := fold_left writer_step es (writers_new ss n) in
  let q := p_view (ws_tx w) in
  pq_open q = true -> ws_streams w !! i = Some s ->
  ws_accepted w = ws_received w ++ pq_items q /\
  (length (pq_items q) + holders (ws_streams w) <= n)%nat /\
  (hs_permit s = true ->
     (send_data s (ws_tx w) chunks).1 = Ok tt /\
     pq_items (p_view (send_data s (ws_tx w) chunks).2.2) = pq_items q ++ [(hs_stream_id s, WcWrite (concat chunks) false)]) /\
  (forall r, (poll_finish s (ws_tx w)).1 = Ready r ->
     pq_items (p_view (poll_finish s (ws_tx w)).2.2) = pq_items q ++ [(hs_stream_id s, WcWrite [] true)]).
Proof.
  intros Hs w q Ho Hi. destruct (writers_run ss n es Hs) as [O1 O2 O3 O4]. fold w in O1, O2, O3, O4. fold q in O1, O2, O3, O4.
  rewrite Ho in O1. split_and!; [exact O1 | lia | |].
  - intros Hp. unfold send_data. rewrite Hp. cbn [fst snd]. split; [done |]. rewrite view_permit_send. cbn. fold q. rewrite Ho.
    unfold drain_buf. do 4 f_equal. rewrite <- (app_nil_l (concat chunks)). generalize (@nil Z). induction chunks as [| c cs IH]; intros l; simpl; [by rewrite app_nil_r |].
    by rewrite IH, app_assoc.
  - intros r. unfold poll_finish. pose proof (view_reserve _ (ws_tx w)) as H. fold q in H.
    destruct (p_reserve (ws_tx w)) as [[] tx]; cbn [fst snd]; [| done | by destruct H as [H _]; rewrite Ho in H].
    intros _. destruct H as (_ & _ & Hv). rewrite view_permit_send, Hv. cbn. by rewrite Ho.
Qed.

(** Two streams on a channel of two slots: the first takes a slot, the second fills the
    other one twice; the first still sends. *)
Definition demo_h3_streams : list H3SendStream := [mkH3Send 0 0 false false false; mkH3Send 4 4 false false false].
Definition demo_h3_events : list writer_event := [WReady 0; WReady 1; WSend 1 [[1]; [2]]; WSend 1 [[3]]; WReset 1 9; WFinish 1].

Lemma h3_commands_delivered_witness :
  let w := fold_left writer_step demo_h3_events (writers_new (P := queue_permits) demo_h3_streams 2) in
  let s := mkH3Send 0 0 true false false in
  ws_streams w !! 0%nat = Some s /\ (send_data s (ws_tx w) [[7]; [8]]).1 = Ok tt /\
  pq_items (p_view (send_data s (ws_tx w) [[7]; [8]]).2.2) = [(4, WcWrite [1; 2] false); (0, WcWrite [7; 8] false)].
Proof.
  cbv zeta. split; [vm_compute; reflexivity |].
  assert (Hs : Forall (fun s => hs_permit s = false) demo_h3_streams) by (repeat constructor).
  destruct (h3_commands_delivered (P := queue_permits) demo_h3_streams 2 demo_h3_events 0 (mkH3Send 0 0 true false false) [[7]; [8]] Hs
              ltac:(vm_compute; reflexivity) ltac:(vm_compute; reflexivity)) as (_ & _ & Hp & _).
  destruct (Hp eq_refl) as [H1 H2]. split; [exact H1 |]. rewrite H2. vm_compute. reflexivity.
Defined.

(** However often h3 polls for streams, each request to the driver is answered once:
    requests started are answers given plus the one in flight, and the answers are
    the driver's, in order.  A connection that failed and one that was closed look
    the same: [H3_NO_ERROR]. *)
Theorem h3_requests_accounted (ans : list (Poll (result OxiQuicError (Z * Z)))) :
  (let '(n, rs, c) := polls poll_accept_bidi h3_connection_new ans in
   n = (length rs + Nat.b2n (pending_accept_bidi c))%nat /\
   rs = (fun r => match r with
                  | Ok (send, recv) => internal_error (h3_bidi_new send recv)
                  | Err _ => Err (ApplicationClose H3_NO_ERROR_CODE)
                  end) <$> answers ans) /\
  (let '(n, rs, o) := polls poll_open_bidi open_streams_new ans in
   n = (length rs + Nat.b2n (pending_open_bidi o))%nat /\
   rs = (fun r => match r with Ok (send, recv) => h3_bidi_new send recv | Err _ => Err Other end) <$> answers ans).
Proof.
  split.
  - pose proof (polls_accounted poll_accept_bidi pending_accept_bidi
      (fun r => match r with Ok (send, recv) => internal_error (h3_bidi_new send recv) | Err _ => Err (ApplicationClose H3_NO_ERROR_CODE) end)
      h3_connection_new ans) as H.
    destruct (polls poll_accept_bidi h3_connection_new ans) as [[n rs] c].
    destruct H as [-> H]; [by intros st [[[s r] | e] |] |]. split; [cbn in H; lia | done].
  - pose proof (polls_accounted poll_open_bidi pending_open_bidi
      (fun r => match r with Ok (send, recv) => h3_bidi_new send recv | Err _ => Err Other end) open_streams_new ans) as H.
    destruct (polls poll_open_bidi open_streams_new ans) as [[n rs] o].
    destruct H as [-> H]; [by intros st [[[s r] | e] |] |]. split; [cbn in H; lia | done].
Qed.
