(* ===== verification/H3Adapter.v ===== *)
(** * The adapter seen as a whole

    The rest of [h3_compat.rs]: a bidirectional stream passes each call to the half it
    concerns and can be split, the connection adapter passes requests for streams to
    its opener, and closing hands the request to a task that asks the driver. *)

From stdpp Require Import gmap.
From S2P Require Import Prelude CoreTypes Connection ConnSend Mpsc Endpoint Driven DrivenApp H3Compat.

Section bidi.
Context {P : PermitMpsc}.

Notation WriteTx := (PChan (Z * WriteCmd)).

(** [send_id] and [recv_id]. *)
Definition send_id (s : H3SendStream) : Z := hs_h3_id s.
Definition recv_id (s : H3RecvStream) : Z := hr_h3_id s.

(** A call on the sending half of a pair. *)
Definition on_send {A} (f : H3SendStream -> WriteTx -> A * (H3SendStream * WriteTx)) (s : H3BidiStream) (tx : WriteTx)
    : A * (H3BidiStream * WriteTx) :=
  let '(r, (h, tx)) := f (hb_send s) tx in (r, (mkH3Bidi h (hb_recv s), tx)).

Definition bidi_poll_ready := on_send poll_ready.
Definition bidi_send_data (s : H3BidiStream) (tx : WriteTx) (chunks : list (list Z)) :=
  on_send (fun h tx => send_data h tx chunks) s tx.
Definition bidi_poll_finish := on_send poll_finish.
Definition bidi_reset (s : H3BidiStream) (tx : WriteTx) (reset_code : Z) : WriteTx := h3_reset (hb_send s) tx reset_code.
Definition bidi_send_id (s : H3BidiStream) : Z := send_id (hb_send s).
Definition bidi_stop_sending (s : H3BidiStream) (tx : WriteTx) (error_code : Z) : WriteTx := h3_stop_sending (hb_recv s) tx error_code.
Definition bidi_recv_id (s : H3BidiStream) : Z := recv_id (hb_recv s).
Definition split_halves (s : H3BidiStream) : H3SendStream * H3RecvStream := (hb_send s, hb_recv s).

(** The calls [h3] makes on a stream that is not split. *)
Inductive bidi_call :=
| BReady | BData (chunks : list (list Z)) | BFinish | BReset (code : Z) | BStop (code : Z).

Definition bidi_step (st : H3BidiStream * WriteTx) (c : bidi_call) : H3BidiStream * WriteTx :=
  let '(s, tx) := st in
  match c with
  | BReady => (bidi_poll_ready s tx).2
  | BData chunks => (bidi_send_data s tx chunks).2
  | BFinish => (bidi_poll_finish s tx).2
  | BReset code => (s, bidi_reset s tx code)
  | BStop code => (s, bidi_stop_sending s tx code)
  end.

Lemma bidi_step_ids s tx c s' tx' : bidi_step (s, tx) c = (s', tx') ->
  bidi_send_id s' = bidi_send_id s /\ hs_stream_id (hb_send s') = hs_stream_id (hb_send s) /\ hb_recv s' = hb_recv s.
Proof.
  destruct c; cbn [bidi_step]; unfold bidi_poll_ready, bidi_send_data, bidi_poll_finish, on_send, poll_ready, send_data, poll_finish;
    intros E; repeat (case_match || simplify_eq/=); done.
Qed.

(** Whatever [h3] does to the stream, its identifiers stay those it was opened with, and
    so do those of the halves it is split into: both are the number the driver gave. *)
Theorem bidi_ids_kept id s tx calls s' tx' :
  h3_bidi_new id id = Ok s -> foldl bidi_step (s, tx) calls = (s', tx') ->
  send_id (split_halves s').1 = id /\ recv_id (split_halves s').2 = id /\ hs_stream_id (hb_send s') = id.
Proof.
  intros Hn. assert (bidi_send_id s = id /\ hs_stream_id (hb_send s) = id /\ hr_h3_id (hb_recv s) = id) as (I1 & I2 & I3).
  { revert Hn. unfold h3_bidi_new, h3_send_new, h3_recv_new, convert_stream_id. repeat case_match; intros; simplify_eq/=; done. }
  clear Hn. revert s tx I1 I2 I3. induction calls as [| c calls IH]; intros s tx I1 I2 I3; [by intros [= <- _] |].
  cbn [foldl]. destruct (bidi_step (s, tx) c) as [s1 tx1] eqn:E. apply bidi_step_ids in E as (E1 & E2 & E3).
  apply IH; by rewrite ?E1, ?E2, ?E3.
Qed.

End bidi.

Section connection.
Context {env : QuicEnv} {M : Mpsc}.

Notation Drivn := (Driven (env := env)).

(** [OpenStreams] of the connection adapter: its opener's. *)
Definition on_opener {A B} (f : OxiQuicOpenStreams -> A -> bool * B * OxiQuicOpenStreams) (c : OxiQuicH3Connection) (polled : A)
    : bool * B * OxiQuicH3Connection :=
  let '(started, r, o) := f (open_streams c) polled in
  (started, r, mkH3Connection o (pending_accept_recv c) (pending_accept_bidi c)).
Definition conn_poll_open_bidi := on_opener poll_open_bidi.
Definition conn_poll_open_send := on_opener poll_open_send.

(** [opener]: a new one, with no request in flight. *)
Definition opener (c : OxiQuicH3Connection) : OxiQuicOpenStreams := open_streams_new.

(** [close]: the spawned task asks the driver and drops the answer. *)
Definition h3_close (code : Z) (reason : list Z) (before after_ : list Reading) (d : Drivn) : option Drivn :=
  '(_, d) ← driven_close code reason before after_ d; Some d.

(** Once the task has run the driver has stopped and released the readers of every
    stream; closing again is harmless. *)
Theorem h3_close_stops code reason before after_ d d' :
  h3_close code reason before after_ d = Some d' -> closed_flag d' = true /\
  (closed_flag d = false -> read_senders d' = ∅) /\
  forall code' reason' before' after', h3_close code' reason' before' after' d' = Some d'.
Proof.
  unfold h3_close, driven_close. destruct (closed_flag d) eqn:Ed.
  - intros [= <-]. split_and!; [done | done |]. intros. by rewrite Ed.
  - destruct (driven_turn _ _) as [t |] eqn:Et; [| done]. cbn [mbind option_bind]. intros [= <-].
    assert (closed_flag (after t) = true /\ read_senders (after t) = ∅) as [-> ->]; [| done].
    revert Et. cbn [driven_turn]. destruct (flush_conn _ _) as [[[ok out] d1] |]; [| done]. cbn [mbind option_bind].
    destruct ok; cbn [negb]; [| by intros [= <-]].
    destruct (flush_conn _ _) as [[[ok' out'] d2] |]; [| done]. cbn [mbind option_bind]. by intros [= <-].
Qed.

End connection.
