(* ===== verification/H3.v ===== *)
(** * The HTTP/3 layer's own state
    ([oxiquic-h3/src/error.rs], [message.rs], [pool.rs])

    Error codes and their mapping, requests and responses with their header lookup, and
    the pool of idle connections.  Connections of the [h3] crate are opaque; the pool
    only moves them around.  A Rust string is its list of code points. *)

From stdpp Require Import relations.
From S2P Require Import Prelude CoreTypes Config.

(** ** Error codes *)

Inductive H3ErrorCode :=
| NoError_ | GeneralProtocolError | H3InternalError | StreamCreationError | ClosedCriticalStream
| FrameUnexpected | FrameError | ExcessiveLoad | IdError | SettingsError | MissingSettings
| RequestRejected | RequestCancelled | RequestIncomplete | MessageError | ConnectError | VersionFallback
| Qpack (value : Z) | UnknownCode (value : Z).

#[export] Instance H3ErrorCode_eq_dec : EqDecision H3ErrorCode.
Proof. solve_decision. Defined.

Definition from_u64 (value : Z) : H3ErrorCode :=
  if value =? 0x0100 then NoError_
  else if value =? 0x0101 then GeneralProtocolError
  else if value =? 0x0102 then H3InternalError
  else if value =? 0x0103 then StreamCreationError
  else if value =? 0x0104 then ClosedCriticalStream
  else if value =? 0x0105 then FrameUnexpected
  else if value =? 0x0106 then FrameError
  else if value =? 0x0107 then ExcessiveLoad
  else if value =? 0x0108 then IdError
  else if value =? 0x0109 then SettingsError
  else if value =? 0x010a then MissingSettings
  else if value =? 0x010b then RequestRejected
  else if value =? 0x010c then RequestCancelled
  else if value =? 0x010d then RequestIncomplete
  else if value =? 0x010e then MessageError
  else if value =? 0x010f then ConnectError
  else if value =? 0x0110 then VersionFallback
  else if (0x0200 <=? value) && (value <=? 0x0202) then Qpack value
  else UnknownCode value.

Definition to_u64 (c : H3ErrorCode) : Z :=
  match c with
  | NoError_ => 0x0100 | GeneralProtocolError => 0x0101 | H3InternalError => 0x0102
  | StreamCreationError => 0x0103 | ClosedCriticalStream => 0x0104 | FrameUnexpected => 0x0105
  | FrameError => 0x0106 | ExcessiveLoad => 0x0107 | IdError => 0x0108 | SettingsError => 0x0109
  | MissingSettings => 0x010a | RequestRejected => 0x010b | RequestCancelled => 0x010c
  | RequestIncomplete => 0x010d | MessageError => 0x010e | ConnectError => 0x010f | VersionFallback => 0x0110
  | Qpack value | UnknownCode value => value
  end.

(** Errors, without their messages. *)
Inductive H3Error :=
| HProtocol | HQpack | HStream | HConnection | HFrameUnexpected | HSettingsError | HMissingSettings
| HIdError | HTls | HIo.

Definition h3_code (e : H3Error) : H3ErrorCode :=
  match e with
  | HProtocol => GeneralProtocolError
  | HQpack => Qpack 0x0200
  | HStream => StreamCreationError
  | HConnection | HIo => H3InternalError
  | HFrameUnexpected => FrameUnexpected
  | HSettingsError => SettingsError
  | HMissingSettings => MissingSettings
  | HIdError => IdError
  | HTls => GeneralProtocolError
  end.

Definition oxiquic_error_from (e : H3Error) : OxiQuicError :=
  match e with HIo => EIo | HTls => ETls | _ => EProtocol end.

(** What the two conversions look at of the [h3] crate's errors: the code of a local
    application error, and the kind of a stream error. *)
Definition from_connection_error (local_code : option Z) : H3Error :=
  match local_code with
  | Some code =>
      match from_u64 code with
      | FrameUnexpected => HFrameUnexpected
      | SettingsError => HSettingsError
      | MissingSettings => HMissingSettings
      | IdError => HIdError
      | Qpack _ => HQpack
      | _ => HConnection
      end
  | None => HConnection
  end.

Inductive StreamErrorKind :=
| SeStreamError (code : Z) | SeRemoteTerminate (code : Z) | SeConnectionError (local_code : option Z)
| SeHeaderTooBig | SeRemoteClosing | SeUndefined | SeOther.

Definition from_stream_error (e : StreamErrorKind) : H3Error :=
  match e with
  | SeStreamError code =>
      match from_u64 code with
      | FrameUnexpected => HFrameUnexpected
      | SettingsError => HSettingsError
      | MissingSettings => HMissingSettings
      | IdError => HIdError
      | Qpack _ => HQpack
      | _ => HStream
      end
  | SeRemoteTerminate code => match from_u64 code with RequestCancelled => HStream | _ => HStream end
  | SeConnectionError c => from_connection_error c
  | SeHeaderTooBig => HProtocol
  | SeRemoteClosing => HConnection
  | SeUndefined => HStream
  | SeOther => HStream
  end.

(** ** Requests and responses *)

Notation rstring := (list Z).

(** [char::to_ascii_lowercase]. *)
Definition lower (c : Z) : Z := if (65 <=? c) && (c <=? 90) then c + 32 else c.
Definition to_ascii_lowercase (s : rstring) : rstring := map lower s.

Record H3Request := mkRequest { method : rstring; uri : rstring; req_headers : list (rstring * rstring) }.

Definition request_new (m u : rstring) : H3Request := mkRequest m u [].
Definition GET : rstring := [71; 69; 84].
Definition POST : rstring := [80; 79; 83; 84].
Definition request_get (u : rstring) : H3Request := request_new GET u.
Definition request_post (u : rstring) : H3Request := request_new POST u.
Definition request_with_header (r : H3Request) (name value : rstring) : H3Request :=
  mkRequest (method r) (uri r) (req_headers r ++ [(to_ascii_lowercase name, value)]).

Record H3Response := mkResponse { status : Z; headers : list (rstring * rstring); body : list Z }.

Definition response_new (s : Z) : H3Response := mkResponse s [] [].
Definition with_header (r : H3Response) (name value : rstring) : H3Response :=
  mkResponse (status r) (headers r ++ [(to_ascii_lowercase name, value)]) (body r).
Definition with_body (r : H3Response) (b : list Z) : H3Response := mkResponse (status r) (headers r) b.

Definition header (r : H3Response) (name : rstring) : option rstring :=
  let lname := to_ascii_lowercase name in
  snd <$> head (filter (fun nv => nv.1 = lname) (headers r)).

(** [str::trim]: the code points with the Unicode White_Space property. *)
Definition is_whitespace (c : Z) : bool :=
  ((9 <=? c) && (c <=? 13)) || (c =? 32) || (c =? 0x85) || (c =? 0xA0) || (c =? 0x1680) ||
  ((0x2000 <=? c) && (c <=? 0x200A)) || (c =? 0x2028) || (c =? 0x2029) || (c =? 0x202F) || (c =? 0x205F) || (c =? 0x3000).

Fixpoint trim_start (s : rstring) : rstring :=
  match s with c :: tl => if is_whitespace c then trim_start tl else s | [] => [] end.
Definition trim (s : rstring) : rstring := reverse (trim_start (reverse (trim_start s))).

(** [u64::from_str]: an optional plus sign, then decimal digits with checked arithmetic. *)
Fixpoint parse_digits (s : rstring) (acc : Z) : option Z :=
  match s with
  | [] => Some acc
  | c :: tl =>
      if (48 <=? c) && (c <=? 57) then
        let acc := acc * 10 + (c - 48) in
        if acc <=? u64_MAX then parse_digits tl acc else None
      else None
  end.
Definition parse_u64 (s : rstring) : option Z :=
  match s with
  | [] => None
  | c :: tl => if c =? 43 then (match tl with [] => None | _ => parse_digits tl 0 end) else parse_digits s 0
  end.

(** "content-length" *)
Definition CONTENT_LENGTH : rstring := [99; 111; 110; 116; 101; 110; 116; 45; 108; 101; 110; 103; 116; 104].
Definition content_length (r : H3Response) : option Z := v ← header r CONTENT_LENGTH; parse_u64 (trim v).

Definition is_success (r : H3Response) : bool := (200 <=? status r) && (status r <? 300).
Definition error_for_status (r : H3Response) : result H3Error H3Response :=
  if is_success r then Ok r else Err HProtocol.

(** ** The connection pool *)

Section pool.
Context {Client : Type}.

Record OriginKey := mkOrigin { origin_addr : SocketAddr; origin_name : rstring }.

#[export] Instance OriginKey_eq_dec : EqDecision OriginKey.
Proof. solve_decision. Defined.

(** [HashMap<OriginKey, VecDeque<H3Client>>], as a function with finitely many entries. *)
Notation Idle := (list (OriginKey * list Client)).

Fixpoint idle_get (o : OriginKey) (m : Idle) : list Client :=
  match m with
  | [] => []
  | (o', q) :: tl => if bool_decide (o' = o) then q else idle_get o tl
  end.

Fixpoint idle_set (o : OriginKey) (q : list Client) (m : Idle) : Idle :=
  match m with
  | [] => [(o, q)]
  | (o', q') :: tl => if bool_decide (o' = o) then (o', q) :: tl else (o', q') :: idle_set o q tl
  end.

(** The part of [acquire] under the lock. *)
Definition pop_idle (m : Idle) (o : OriginKey) : option Client * Idle :=
  match idle_get o m with
  | [] => (None, m)
  | c :: q => (Some c, idle_set o q m)
  end.

Definition release (max : nat) (m : Idle) (o : OriginKey) (c : Client) : Idle :=
  let queue := idle_get o m in
  let queue := if (max <=? length queue)%nat then take (length queue - 1) queue else queue in
  idle_set o (c :: queue) m.

Definition evict (m : Idle) (o : OriginKey) : Idle := filter (fun e => e.1 <> o) m.
Definition idle_count (m : Idle) (o : OriginKey) : nat := length (idle_get o m).

(** The pool under concurrent requests: a task acquires (an idle client, or the fresh one
    its connect to the origin returned), works, and releases the client or discards it.
    [dialled] is the origin a client was connected to. *)
Context (dialled : Client -> OriginKey).

Record Pool := mkPool { idle : Idle; in_use : list (OriginKey * Client) }.

Definition clients (p : Pool) : list Client := concat (map snd (idle p)) ++ map snd (in_use p).

Inductive pool_step (max : nat) : Pool -> Pool -> Prop :=
| pool_reuse p o c m : pop_idle (idle p) o = (Some c, m) -> pool_step max p (mkPool m ((o, c) :: in_use p))
| pool_connect p o c m :
    pop_idle (idle p) o = (None, m) -> dialled c = o -> c ∉ clients p -> pool_step max p (mkPool m ((o, c) :: in_use p))
| pool_release p o c l r :
    in_use p = l ++ (o, c) :: r -> pool_step max p (mkPool (release max (idle p) o c) (l ++ r))
| pool_discard p o c l r : in_use p = l ++ (o, c) :: r -> pool_step max p (mkPool (idle p) (l ++ r))
| pool_evict p o : pool_step max p (mkPool (evict (idle p) o) (in_use p)).

(** ** Lemmas on the pool *)

Lemma idle_get_in o (m : Idle) : idle_get o m = [] \/ (o, idle_get o m) ∈ m.
Proof.
  induction m as [| [o' q] m IH]; [by left |]. cbn. destruct (bool_decide_reflect (o' = o)) as [-> | _]; [right; apply elem_of_cons; by left |].
  destruct IH as [-> | IH]; [by left | right; apply elem_of_cons; by right].
Qed.

Lemma idle_set_forall (P : OriginKey * list Client -> Prop) o q (m : Idle) : P (o, q) -> Forall P m -> Forall P (idle_set o q m).
Proof.
  intros Hq. induction m as [| [o' q'] m IH]; cbn; [by repeat constructor |]. intros [H1 H2]%Forall_cons.
  destruct (bool_decide_reflect (o' = o)) as [-> | _]; constructor; auto.
Qed.

Lemma idle_set_perm o q (m : Idle) :
  concat (map snd (idle_set o q m)) ++ idle_get o m ≡ₚ concat (map snd m) ++ q.
Proof.
  induction m as [| [o' q'] m IH]; cbn; [by rewrite !app_nil_r |].
  destruct (bool_decide (o' = o)); cbn; [solve_Permutation |]. rewrite <- !app_assoc. by rewrite IH.
Qed.

(** Idle clients are filed under the origin they were connected to, at most [max] per
    origin (one when [max] is 0); a client in use serves its own origin; no client is in
    two places. *)
Definition entry_ok (max : nat) (e : OriginKey * list Client) : Prop :=
  Forall (fun c => dialled c = e.1) e.2 /\ (length e.2 <= Nat.max 1 max)%nat.

Definition pool_ok (max : nat) (p : Pool) : Prop :=
  Forall (entry_ok max) (idle p) /\ Forall (fun oc => dialled oc.2 = oc.1) (in_use p) /\ NoDup (clients p).

Lemma idle_get_ok max o (m : Idle) : Forall (entry_ok max) m -> entry_ok max (o, idle_get o m).
Proof.
  intros H. destruct (idle_get_in o m) as [-> | Hin]; [split; cbn; [done | lia] |]. rewrite Forall_forall in H. by apply H in Hin.
Qed.

Lemma entry_ok_take max o q n : entry_ok max (o, q) -> entry_ok max (o, take n q).
Proof. intros [H1 H2]. split; cbn in *; [by apply Forall_take | rewrite length_take; lia]. Qed.

Lemma pool_step_ok max p p' : pool_step max p p' -> pool_ok max p -> pool_ok max p'.
Proof.
  intros Hs (Hi & Hu & Hn). unfold pool_ok, clients in *. destruct Hs as [p o c m E | p o c m E Hd Hf | p o c l r E | p o c l r E | p o]; cbn [idle in_use map snd].
  - unfold pop_idle in E. destruct (idle_get o (idle p)) as [| c' q] eqn:Eg; [done |]. injection E as -> <-.
    pose proof (idle_get_ok max o _ Hi) as He. rewrite Eg in He. destruct He as [He1 He2]. cbn in He1, He2. apply Forall_cons in He1 as [Hc Hq].
    split; [apply idle_set_forall; [split; cbn; [done | lia] | done] |]. split; [by constructor |].
    pose proof (idle_set_perm o q (idle p)) as Hp. rewrite Eg in Hp.
    assert (Hp' : concat (map snd (idle_set o q (idle p))) ++ [c] ≡ₚ concat (map snd (idle p))).
    { apply (Permutation_app_inv_r q). rewrite <- Hp. solve_Permutation. }
    rewrite <- Hp', <- app_assoc in Hn. done.
  - unfold pop_idle in E. destruct (idle_get o (idle p)) as [| c' q] eqn:Eg; [| done]. injection E as <-.
    split; [done |]. split; [by constructor |]. rewrite <- Permutation_middle. by constructor.
  - rewrite E in Hu, Hn. apply Forall_app in Hu as [Hl Hr]. apply Forall_cons in Hr as [Hc Hr]. cbn in Hc.
    rewrite map_app in Hn |- *. cbn [map snd] in Hn. unfold release.
    pose proof (idle_get_ok max o _ Hi) as He. set (old := idle_get o (idle p)) in *.
    set (q := if (max <=? length old)%nat then take (length old - 1) old else old).
    assert (Hq : entry_ok max (o, c :: q)).
    { destruct He as [He1 He2]. cbn in He1, He2. unfold q. split; cbn.
      - constructor; [done |]. destruct (_ <=? _)%nat; [by apply Forall_take | done].
      - destruct (Nat.leb_spec max (length old)); [rewrite length_take; lia | lia]. }
    split; [by apply idle_set_forall |]. split; [by apply Forall_app |].
    pose proof (idle_set_perm o (c :: q) (idle p)) as Hp. fold old in Hp.
    assert (Hsub : exists z, old ≡ₚ q ++ z).
    { unfold q. destruct (_ <=? _)%nat; [exists (drop (length old - 1) old); by rewrite take_drop | exists []; by rewrite app_nil_r]. }
    destruct Hsub as [z Hz]. rewrite Hz in Hp.
    assert (Hp' : concat (map snd (idle_set o (c :: q) (idle p))) ++ z ≡ₚ concat (map snd (idle p)) ++ [c]).
    { apply (Permutation_app_inv_r q). rewrite <- !app_assoc, (Permutation_app_comm z q). rewrite Hp. done. }
    set (I' := concat (map snd (idle_set o (c :: q) (idle p)))) in *.
    assert (H : NoDup (z ++ I' ++ map snd l ++ map snd r)); [| by apply NoDup_app in H as (_ & _ & H)].
    rewrite (Permutation_app_swap_app z I'), app_assoc, Hp', <- app_assoc. cbn [app]. by rewrite (Permutation_middle (map snd l)).
  - rewrite E in Hu, Hn. apply Forall_app in Hu as [Hl Hr]. apply Forall_cons in Hr as [Hc Hr].
    split; [done |]. split; [by apply Forall_app |]. rewrite map_app in Hn |- *. cbn [map snd] in Hn.
    rewrite <- Permutation_middle in Hn. rewrite <- Permutation_middle in Hn. by apply NoDup_cons in Hn as [_ ?].
  - split; [apply Forall_forall; intros e [_ He]%list_elem_of_filter; rewrite Forall_forall in Hi; by apply Hi |].
    split; [done |]. unfold evict.
    assert (Hsub : concat (map snd (filter (fun e : OriginKey * list Client => e.1 <> o) (idle p))) `sublist_of` concat (map snd (idle p))).
    { clear Hi Hn. induction (idle p) as [| e m IH]; [done |]. rewrite filter_cons. destruct (decide _); cbn; [by apply sublist_app | by apply sublist_inserts_l]. }
    eapply sublist_NoDup; [exact Hn |]. by apply sublist_app.
Qed.

(** ** Properties *)

(** C33: The pool under any interleaving of requests.  In every state reachable from the
    empty pool by tasks that take an idle connection, connect, return a connection
    after a success, discard it after a failure, or evict an origin: a connection in
    use for an origin, and every idle one filed under it, was connected to that origin;
    no connection is idle and in use at once, or in use twice; and an origin never
    holds more idle connections than the configured maximum, or one if that is 0. *)
Theorem pool_sound max p :
  rtc (pool_step max) (mkPool [] []) p ->
  (forall o c, c ∈ idle_get o (idle p) -> dialled c = o) /\
  (forall o c, (o, c) ∈ in_use p -> dialled c = o) /\
  NoDup (clients p) /\
  (forall o, (idle_count (idle p) o <= Nat.max 1 max)%nat).
Proof.
  intros Hr. assert (Hok : pool_ok max p).
  { assert (H0 : pool_ok max (mkPool [] [])) by (split; [done | split; [done | apply NoDup_nil_2]]).
    revert H0. induction Hr as [| p1 p2 p3 Hs _ IH]; [done |]. intros H. by apply IH, (pool_step_ok max p1). }
  destruct Hok as (Hi & Hu & Hn). split; [| split; [| split]].
  - intros o c Hin. destruct (idle_get_ok max o _ Hi) as [H _]. rewrite Forall_forall in H. by apply H.
  - intros o c Hin. rewrite Forall_forall in Hu. exact (Hu _ Hin).
  - done.
  - intros o. exact (proj2 (idle_get_ok max o _ Hi)).
Qed.

End pool.

(** Two origins, a client each; the second request to the first origin reuses its client. *)
Definition origin_a : OriginKey := mkOrigin (V4 [10; 0; 0; 1] 443) [97].
Definition origin_b : OriginKey := mkOrigin (V4 [10; 0; 0; 1] 443) [98].
Definition demo_dialled (c : nat) : OriginKey := if Nat.eqb c 1 then origin_a else origin_b.

Lemma pool_sound_witness :
  exists p, rtc (pool_step demo_dialled 0) (mkPool [] []) p /\ in_use p = [(origin_a, 1%nat); (origin_b, 2%nat)] /\
    NoDup (clients p) /\ (forall o, (idle_count (idle p) o <= 1)%nat).
Proof.
  assert (Hr : rtc (pool_step demo_dialled 0) (mkPool [] []) (mkPool [(origin_a, [])] [(origin_a, 1%nat); (origin_b, 2%nat)])).
  { eapply rtc_l; [apply (pool_connect _ _ (mkPool [] []) origin_a 1%nat []); [reflexivity | reflexivity | apply not_elem_of_nil] |].
    eapply rtc_l; [apply (pool_release _ _ _ origin_a 1%nat [] []); reflexivity |].
    eapply rtc_l; [eapply (pool_connect _ _ _ origin_b 2%nat); [vm_compute; reflexivity | reflexivity | eapply bool_decide_unpack; vm_compute; exact I] |].
    eapply rtc_l; [eapply (pool_reuse _ _ _ origin_a); vm_compute; reflexivity |]. apply rtc_refl. }
  exists (mkPool [(origin_a, [])] [(origin_a, 1%nat); (origin_b, 2%nat)]). split; [exact Hr |]. split; [reflexivity |].
  destruct (pool_sound demo_dialled 0 _ Hr) as (_ & _ & H3 & H4). split; [exact H3 | exact H4].
Defined.

(** ** Lemmas on codes and messages *)

(** The code points of a variant that no other variant claims. *)
Definition canonical (c : H3ErrorCode) : Prop :=
  match c with Qpack v => 0x0200 <= v <= 0x0202 | UnknownCode v => from_u64 v = UnknownCode v | _ => True end.

Lemma from_u64_other v :
  ~ (0x0100 <= v <= 0x0110) -> from_u64 v = if (0x0200 <=? v) && (v <=? 0x0202) then Qpack v else UnknownCode v.
Proof.
  intros H. unfold from_u64. repeat (rewrite (proj2 (Z.eqb_neq v _)) by lia). done.
Qed.

Lemma from_u64_small v : 0x0100 <= v <= 0x0110 -> to_u64 (from_u64 v) = v.
Proof.
  intros H. assert (Hv : v ∈ seqZ 0x0100 17) by (apply elem_of_seqZ; lia).
  clear H. revert v Hv. apply (proj1 (Forall_forall (fun v => to_u64 (from_u64 v) = v) (seqZ 0x0100 17))).
  vm_compute. repeat constructor.
Qed.

Lemma parse_digits_spec s acc :
  0 <= acc <= u64_MAX -> Forall (fun c => 48 <= c <= 57) s ->
  let v := fold_left (fun n c => n * 10 + (c - 48)) s acc in
  parse_digits s acc = if v <=? u64_MAX then Some v else None.
Proof.
  revert acc. induction s as [| c s IH]; intros acc Ha Hs; cbn [parse_digits fold_left]; [by rewrite (proj2 (Z.leb_le _ _)) by lia |].
  apply Forall_cons in Hs as [Hc Hs]. rewrite (proj2 (Z.leb_le 48 c)), (proj2 (Z.leb_le c 57)) by lia. cbn [andb].
  destruct (Z.leb_spec (acc * 10 + (c - 48)) u64_MAX); [apply IH; [lia | done] |].
  assert (Hge : forall l n, Forall (fun c => 48 <= c <= 57) l -> u64_MAX < n -> u64_MAX < fold_left (fun n c => n * 10 + (c - 48)) l n).
  { induction l as [| d l IHl]; intros n Hl Hn; [done |]. apply Forall_cons in Hl as [Hd Hl]. apply IHl; [done |]. unfold u64_MAX in *. lia. }
  rewrite (proj2 (Z.leb_gt _ _)); [done |]. by apply Hge.
Qed.

Lemma trim_start_id s c tl : s = c :: tl -> is_whitespace c = false -> trim_start s = s.
Proof. intros -> H. cbn. by rewrite H. Qed.

Lemma trim_digits s : Forall (fun c => 48 <= c <= 57) s -> trim s = s.
Proof.
  intros Hs. assert (Hw : forall l, Forall (fun c => 48 <= c <= 57) l -> trim_start l = l).
  { intros [| c l] Hl; [done |]. apply Forall_cons in Hl as [Hc _]. apply (trim_start_id _ c l); [done |].
    assert (Hin : c ∈ seqZ 48 10) by (apply elem_of_seqZ; lia). clear - Hin. revert c Hin.
    apply (proj1 (Forall_forall (fun c => is_whitespace c = false) (seqZ 48 10))). vm_compute. repeat constructor. }
  unfold trim. rewrite (Hw s Hs), Hw by (by apply Forall_reverse). apply reverse_involutive.
Qed.

Lemma header_append r n v n' :
  header (with_header r n v) n' =
  match header r n' with
  | Some x => Some x
  | None => if bool_decide (to_ascii_lowercase n = to_ascii_lowercase n') then Some v else None
  end.
Proof.
  unfold header, with_header. cbn [headers]. rewrite filter_app.
  destruct (filter _ (headers r)) as [| x xs] eqn:E; cbn [head app fmap option_fmap option_map]; [| done].
  rewrite filter_cons, filter_nil. cbn [fst]. destruct (decide _), (bool_decide_reflect (to_ascii_lowercase n = to_ascii_lowercase n')); done.
Qed.

(** ** Properties of codes and messages *)

(** Error codes round-trip: every 64-bit value survives decoding and encoding, and every
    code that stands for its own value decodes to itself. *)
Theorem h3_error_code_roundtrip : (forall v, to_u64 (from_u64 v) = v) /\ (forall c, canonical c -> from_u64 (to_u64 c) = c).
Proof.
  split.
  - intros v. destruct (decide (0x0100 <= v <= 0x0110)) as [H | H]; [by apply from_u64_small |].
    rewrite from_u64_other by done. by destruct (_ && _).
  - intros c Hc. destruct c; try reflexivity; cbn [to_u64 canonical] in *; [| exact Hc].
    rewrite from_u64_other by lia. by rewrite (proj2 (Z.leb_le 0x0200 value)), (proj2 (Z.leb_le value 0x0202)) by lia.
Qed.

(** Header lookup and Content-Length.  A header is found under any capitalisation of
    the name it was added with, the first one added wins, and the Content-Length of a
    response is exactly the decimal value of the first such header, absent when it does
    not fit 64 bits. *)
Theorem response_headers r n v n' ds :
  (header (with_header r n v) n' =
   match header r n' with
   | Some x => Some x
   | None => if bool_decide (to_ascii_lowercase n = to_ascii_lowercase n') then Some v else None
   end) /\
  (ds <> [] -> Forall (fun c => 48 <= c <= 57) ds -> header r CONTENT_LENGTH = None ->
   to_ascii_lowercase n = CONTENT_LENGTH ->
   let value := fold_left (fun n c => n * 10 + (c - 48)) ds 0 in
   content_length (with_header r n ds) = if value <=? u64_MAX then Some value else None).
Proof.
  split; [apply header_append |]. intros Hne Hds Hnone Hn. unfold content_length. rewrite header_append, Hnone.
  rewrite bool_decide_true by (by rewrite Hn). cbn [mbind option_bind]. rewrite trim_digits by done.
  destruct ds as [| c ds]; [done |]. unfold parse_u64. pose proof (proj1 (Forall_cons _ _ _) Hds) as [Hc _].
  rewrite (proj2 (Z.eqb_neq c 43)) by lia. apply parse_digits_spec; [unfold u64_MAX; lia | done].
Qed.

Lemma response_headers_witness :
  content_length (with_header (response_new 200) [67; 111; 110; 116; 101; 110; 116; 45; 76; 101; 110; 103; 116; 104] [52; 50]) = Some 42.
Proof.
  apply (response_headers (response_new 200) [67; 111; 110; 116; 101; 110; 116; 45; 76; 101; 110; 103; 116; 104] [] [] [52; 50]).
  - discriminate.
  - repeat constructor; lia.
  - reflexivity.
  - reflexivity.
Defined.
