(* ===== verification/Text.v ===== *)
(** * What the diagnostics print

    The [name] tables and [Display] implementations of oxiquic-core (stream.rs,
    connection_id.rs, frame.rs, packet.rs, version.rs, transport_error.rs) and of the
    error codes of oxiquic-h3/src/error.rs, with the predicates on errors and versions
    the diagnostics use.  The theorems show that a printed value determines what was
    printed: logs and close reasons are not ambiguous. *)

From Stdlib Require Import Ascii.
From stdpp Require Import strings pretty.
From S2P Require Import Prelude CoreTypes H3.

(** ** Formatting of integers *)

(** The digit of [{:x}]. *)
Definition hex_digit (d : Z) : string :=
  match d with
  | 0 => "0" | 1 => "1" | 2 => "2" | 3 => "3" | 4 => "4" | 5 => "5" | 6 => "6" | 7 => "7"
  | 8 => "8" | 9 => "9" | 10 => "a" | 11 => "b" | 12 => "c" | 13 => "d" | 14 => "e" | _ => "f"
  end.

(** [{:0nx}] of a value below [16 ^ n]. *)
Fixpoint hex_padded (n : nat) (v : Z) : string :=
  match n with
  | O => ""
  | S n => hex_digit (Z.shiftr v (4 * Z.of_nat n) mod 16) +:+ hex_padded n (v mod 2 ^ (4 * Z.of_nat n))
  end.

(** [{:x}] of a value below [16 ^ (n + 1)]: as [hex_padded], without leading zeros. *)
Fixpoint hex_below (n : nat) (v : Z) : string :=
  match n with
  | O => hex_digit v
  | S m => if v <? 2 ^ (4 * Z.of_nat n) then hex_below m v else hex_padded (S n) v
  end.

(** [{:x}] of a [u64]. *)
Definition hex (v : Z) : string := hex_below 15 v.

(** [{}] of an unsigned integer. *)
Definition dec (v : Z) : string := pretty (Z.to_N v).

(** ** The names and renderings of oxiquic-core *)

Definition initiator_fmt (i : Initiator) : string :=
  match i with InitClient => "client" | InitServer => "server" end.

Definition direction_fmt (d : Direction) : string :=
  match d with Bidirectional => "bidirectional" | Unidirectional => "unidirectional" end.

Definition stream_id_fmt (id : Z) : string :=
  initiator_fmt (StreamId.initiator id) +:+ " " +:+ direction_fmt (StreamId.direction id)
    +:+ " stream " +:+ dec (StreamId.index id).

Fixpoint connection_id_fmt (cid : ConnectionId.t) : string :=
  match cid with
  | [] => ""
  | byte :: cid => hex_padded 2 byte +:+ connection_id_fmt cid
  end.

Definition connection_id_debug (cid : ConnectionId.t) : string := "ConnectionId(" +:+ connection_id_fmt cid +:+ ")".

Definition frame_type_name (ft : FrameType) : string :=
  match ft with
  | FT_Padding => "PADDING"
  | FT_Ping => "PING"
  | FT_Ack => "ACK"
  | FT_ResetStream => "RESET_STREAM"
  | FT_StopSending => "STOP_SENDING"
  | FT_Crypto => "CRYPTO"
  | FT_NewToken => "NEW_TOKEN"
  | FT_Stream => "STREAM"
  | FT_MaxData => "MAX_DATA"
  | FT_MaxStreamData => "MAX_STREAM_DATA"
  | FT_MaxStreams => "MAX_STREAMS"
  | FT_DataBlocked => "DATA_BLOCKED"
  | FT_StreamDataBlocked => "STREAM_DATA_BLOCKED"
  | FT_StreamsBlocked => "STREAMS_BLOCKED"
  | FT_NewConnectionId => "NEW_CONNECTION_ID"
  | FT_RetireConnectionId => "RETIRE_CONNECTION_ID"
  | FT_PathChallenge => "PATH_CHALLENGE"
  | FT_PathResponse => "PATH_RESPONSE"
  | FT_ConnectionClose => "CONNECTION_CLOSE"
  | FT_HandshakeDone => "HANDSHAKE_DONE"
  | FT_Datagram => "DATAGRAM"
  end.

Definition packet_type_fmt (pt : PacketType) : string :=
  match pt with
  | PT_Initial => "Initial"
  | PT_ZeroRtt => "0-RTT"
  | PT_Handshake => "Handshake"
  | PT_Retry => "Retry"
  | PT_VersionNegotiation => "VersionNegotiation"
  | PT_Short => "1-RTT"
  end.

Definition version_is_supported (v : QuicVersion) : bool :=
  match v with QV1 | QV2 => true | _ => false end.

Definition version_is_negotiation (v : QuicVersion) : bool :=
  match v with QVNegotiation => true | _ => false end.

Definition version_fmt (v : QuicVersion) : string :=
  match v with
  | QV1 => "QUICv1"
  | QV2 => "QUICv2"
  | QVNegotiation => "version-negotiation"
  | QVUnknown value => "QUIC(0x" +:+ hex_padded 8 value +:+ ")"
  end.

Definition error_code_name (c : TransportErrorCode) : string :=
  match c with
  | NoError => "NO_ERROR"
  | InternalError => "INTERNAL_ERROR"
  | ConnectionRefused => "CONNECTION_REFUSED"
  | FlowControlError => "FLOW_CONTROL_ERROR"
  | StreamLimitError => "STREAM_LIMIT_ERROR"
  | StreamStateError => "STREAM_STATE_ERROR"
  | FinalSizeError => "FINAL_SIZE_ERROR"
  | FrameEncodingError => "FRAME_ENCODING_ERROR"
  | TransportParameterError => "TRANSPORT_PARAMETER_ERROR"
  | ConnectionIdLimitError => "CONNECTION_ID_LIMIT_ERROR"
  | ProtocolViolation => "PROTOCOL_VIOLATION"
  | InvalidToken => "INVALID_TOKEN"
  | ApplicationError => "APPLICATION_ERROR"
  | CryptoBufferExceeded => "CRYPTO_BUFFER_EXCEEDED"
  | KeyUpdateError => "KEY_UPDATE_ERROR"
  | AeadLimitReached => "AEAD_LIMIT_REACHED"
  | NoViablePath => "NO_VIABLE_PATH"
  | CryptoError _ => "CRYPTO_ERROR"
  | UnknownError _ => "UNKNOWN"
  end.

Definition error_code_fmt (c : TransportErrorCode) : string :=
  match c with
  | CryptoError alert => "CRYPTO_ERROR(TLS alert " +:+ dec alert +:+ ")"
  | UnknownError value => "UNKNOWN(0x" +:+ hex value +:+ ")"
  | other => error_code_name other
  end.

(** [From<TransportErrorCode>]; the reason, the code's name, is dropped with the others. *)
Definition error_from_code (code : TransportErrorCode) : OxiQuicError := ETransportError code None.

(** [FrameContext]. *)
Definition frame_context_fmt (frame_type : option FrameType) : string :=
  match frame_type with
  | Some ft => " (frame " +:+ frame_type_name ft +:+ ")"
  | None => ""
  end.

Definition error_is_timeout (e : OxiQuicError) : bool :=
  match e with ETimeout | EIdleTimeout => true | _ => false end.

Definition error_is_reset (e : OxiQuicError) : bool :=
  match e with EStatelessReset => true | _ => false end.

(** ** The names and renderings of the HTTP/3 error codes *)

Definition h3_code_name (c : H3ErrorCode) : string :=
  match c with
  | NoError_ => "H3_NO_ERROR"
  | GeneralProtocolError => "H3_GENERAL_PROTOCOL_ERROR"
  | H3InternalError => "H3_INTERNAL_ERROR"
  | StreamCreationError => "H3_STREAM_CREATION_ERROR"
  | ClosedCriticalStream => "H3_CLOSED_CRITICAL_STREAM"
  | FrameUnexpected => "H3_FRAME_UNEXPECTED"
  | FrameError => "H3_FRAME_ERROR"
  | ExcessiveLoad => "H3_EXCESSIVE_LOAD"
  | IdError => "H3_ID_ERROR"
  | SettingsError => "H3_SETTINGS_ERROR"
  | MissingSettings => "H3_MISSING_SETTINGS"
  | RequestRejected => "H3_REQUEST_REJECTED"
  | RequestCancelled => "H3_REQUEST_CANCELLED"
  | RequestIncomplete => "H3_REQUEST_INCOMPLETE"
  | MessageError => "H3_MESSAGE_ERROR"
  | ConnectError => "H3_CONNECT_ERROR"
  | VersionFallback => "H3_VERSION_FALLBACK"
  | Qpack _ => "QPACK_ERROR"
  | UnknownCode _ => "H3_UNKNOWN"
  end.

Definition h3_code_fmt (c : H3ErrorCode) : string :=
  match c with
  | Qpack value => "QPACK_ERROR(0x" +:+ hex value +:+ ")"
  | UnknownCode value => "H3_UNKNOWN(0x" +:+ hex value +:+ ")"
  | other => h3_code_name other
  end.

(** ** Reading hexadecimal back *)

Definition hex_value (c : ascii) : Z :=
  match c with
  | "0" => 0 | "1" => 1 | "2" => 2 | "3" => 3 | "4" => 4 | "5" => 5 | "6" => 6 | "7" => 7
  | "8" => 8 | "9" => 9 | "a" => 10 | "b" => 11 | "c" => 12 | "d" => 13 | "e" => 14 | _ => 15
  end%char.

Fixpoint unhex (acc : Z) (s : string) : Z :=
  match s with "" => acc | String c s => unhex (16 * acc + hex_value c) s end.

Lemma hex_digit_char d : 0 <= d < 16 -> exists c, hex_digit d = String c "" /\ hex_value c = d.
Proof.
  intros H.
  assert (d = 0 \/ d = 1 \/ d = 2 \/ d = 3 \/ d = 4 \/ d = 5 \/ d = 6 \/ d = 7 \/ d = 8 \/ d = 9 \/ d = 10
          \/ d = 11 \/ d = 12 \/ d = 13 \/ d = 14 \/ d = 15) as D by lia.
  destruct_or! D; subst d; eexists; done.
Qed.

Lemma string_app_nil (s : string) : "" +:+ s = s.
Proof. done. Qed.

Lemma string_app_cons c (s t : string) : String c s +:+ t = String c (s +:+ t).
Proof. done. Qed.

Lemma string_app_assoc (s t u : string) : (s +:+ t) +:+ u = s +:+ (t +:+ u).
Proof. induction s as [| c s IH]; [done |]. by rewrite !string_app_cons, IH. Qed.

Lemma string_app_empty (s : string) : s +:+ "" = s.
Proof. induction s as [| c s IH]; [done |]. by rewrite string_app_cons, IH. Qed.

Lemma unhex_padded n v acc s : 0 <= v < 2 ^ (4 * Z.of_nat n) ->
  unhex acc (hex_padded n v +:+ s) = unhex (acc * 2 ^ (4 * Z.of_nat n) + v) s.
Proof.
  revert v acc. induction n as [| n IH]; intros v acc Hv; cbn [hex_padded].
  { change (4 * Z.of_nat 0) with 0 in *. rewrite string_app_nil. f_equal. lia. }
  set (k := 4 * Z.of_nat n) in *.
  assert (4 * Z.of_nat (S n) = k + 4) as E by lia. rewrite E, Z.pow_add_r in * by lia. change (2 ^ 4) with 16 in *.
  assert (0 < 2 ^ k) as Hk by (apply Z.pow_pos_nonneg; lia).
  rewrite Z.shiftr_div_pow2 by lia. rewrite (Z.mod_small (v / 2 ^ k)).
  2: { split; [apply Z.div_pos; lia | apply Z.div_lt_upper_bound; lia]. }
  destruct (hex_digit_char (v / 2 ^ k)) as (c & -> & Hc).
  { split; [apply Z.div_pos; lia | apply Z.div_lt_upper_bound; lia]. }
  rewrite string_app_assoc, string_app_cons, string_app_nil. cbn [unhex]. rewrite IH, Hc by (apply Z.mod_pos_bound; lia). f_equal.
  pose proof (Z.div_mod v (2 ^ k)). nia.
Qed.

Lemma unhex_below n v s : 0 <= v < 2 ^ (4 * Z.of_nat (S n)) -> unhex 0 (hex_below n v +:+ s) = unhex v s.
Proof.
  revert v. induction n as [| n IH]; intros v Hv; cbn [hex_below].
  - destruct (hex_digit_char v) as (c & -> & Hc); [done |].
    rewrite string_app_cons, string_app_nil. cbn [unhex]. by rewrite Hc.
  - bcase; [apply IH; lia |]. by rewrite unhex_padded by done.
Qed.

(** Printing in base 16 loses nothing. *)
Lemma unhex_hex v : is_u64 v -> unhex 0 (hex v) = v.
Proof.
  intros H. pose proof (unhex_below 15 v "" H) as E. by rewrite string_app_empty in E.
Qed.

(** ** Printed values are unambiguous *)

Lemma string_length_app (s t : string) : String.length (s +:+ t) = (String.length s + String.length t)%nat.
Proof. induction s as [| c s IH]; [done |]. rewrite string_app_cons. cbn. by rewrite IH. Qed.

Lemma string_app_inj_r (u s t : string) : s +:+ u = t +:+ u -> s = t.
Proof.
  intros E. assert (String.length s = String.length t) as L.
  { apply (f_equal String.length) in E. rewrite !string_length_app in E. lia. }
  revert t E L. induction s as [| c s IH]; intros [| d t] E L; try done.
  rewrite !string_app_cons in E. injection E as -> E. injection L as L. f_equal. by apply IH.
Qed.

Lemma hex_inj v w : is_u64 v -> is_u64 w -> hex v = hex w -> v = w.
Proof. intros Hv Hw E. by rewrite <- (unhex_hex v), <- (unhex_hex w), E. Qed.

Lemma hex_digit_inj d e s t : 0 <= d < 16 -> 0 <= e < 16 -> hex_digit d +:+ s = hex_digit e +:+ t -> d = e /\ s = t.
Proof.
  intros (c & -> & <-)%hex_digit_char (c' & -> & <-)%hex_digit_char. rewrite !string_app_cons, !string_app_nil.
  by intros [= -> ->].
Qed.

Lemma hex_padded_inj n v w s t : 0 <= v < 2 ^ (4 * Z.of_nat n) -> 0 <= w < 2 ^ (4 * Z.of_nat n) ->
  hex_padded n v +:+ s = hex_padded n w +:+ t -> v = w /\ s = t.
Proof.
  revert v w. induction n as [| n IH]; intros v w Hv Hw; cbn [hex_padded].
  { change (4 * Z.of_nat 0) with 0 in *. rewrite !string_app_nil. split; [lia | done]. }
  set (k := 4 * Z.of_nat n) in *.
  assert (4 * Z.of_nat (S n) = k + 4) as E by lia. rewrite E, Z.pow_add_r in * by lia. change (2 ^ 4) with 16 in *.
  assert (0 < 2 ^ k) as Hk by (apply Z.pow_pos_nonneg; lia).
  rewrite !string_app_assoc. intros [D (M & ->)%IH]%hex_digit_inj; try (apply Z.mod_pos_bound; lia).
  rewrite !Z.shiftr_div_pow2, !Z.mod_small in D
    by (try (split; [apply Z.div_pos; lia | apply Z.div_lt_upper_bound; lia]); lia).
  split; [| done]. rewrite (Z.div_mod v (2 ^ k)), (Z.div_mod w (2 ^ k)) by lia. by rewrite D, M.
Qed.

Lemma dec_inj v w : 0 <= v -> 0 <= w -> dec v = dec w -> v = w.
Proof. unfold dec. intros Hv Hw E%(inj (pretty (A := N))). lia. Qed.

(** A connection ID printed as hexadecimal can be read back: two identifiers that log
    the same are the same. *)
Theorem connection_id_fmt_inj cid cid' : bytes_ok cid -> bytes_ok cid' ->
  connection_id_fmt cid = connection_id_fmt cid' -> cid = cid'.
Proof.
  intros H. revert cid'. induction H as [| b cid Hb _ IH]; intros [| b' cid'] H' E; cbn [connection_id_fmt] in E.
  - done.
  - destruct (hex_digit_char (Z.shiftr b' (4 * Z.of_nat 1) mod 16)) as (c & Ec & _); [by apply Z.mod_pos_bound |].
    cbn [hex_padded] in E. by rewrite Ec, string_app_assoc in E.
  - destruct (hex_digit_char (Z.shiftr b (4 * Z.of_nat 1) mod 16)) as (c & Ec & _); [by apply Z.mod_pos_bound |].
    cbn [hex_padded] in E. by rewrite Ec, string_app_assoc in E.
  - inversion H' as [| ?? Hb' H'']; subst. apply hex_padded_inj in E as [-> E]; [| done | done]. f_equal. by apply IH.
Qed.

#[local] Opaque hex_padded hex dec.

Definition error_code_ok (c : TransportErrorCode) : Prop :=
  match c with CryptoError alert => is_u8 alert | UnknownError value => is_u64 value | _ => True end.

Ltac same_text :=
  intros; rewrite ?string_app_cons, ?string_app_nil in *; simplify_eq; try done;
  repeat match goal with
  | E : ?s +:+ ")" = ?t +:+ ")" |- _ => apply string_app_inj_r in E
  | E : hex _ = hex _ |- _ => apply hex_inj in E; [subst; done | assumption..]
  | E : dec _ = dec _ |- _ => apply dec_inj in E; [subst; done | unfold is_u8 in *; lia..]
  end.

(** The text of a transport error determines the code. *)
Theorem error_code_fmt_inj c d : error_code_ok c -> error_code_ok d -> error_code_fmt c = error_code_fmt d -> c = d.
Proof. destruct c, d; cbn [error_code_fmt error_code_name error_code_ok]; same_text. Qed.

Definition h3_code_ok (c : H3ErrorCode) : Prop :=
  match c with Qpack value | UnknownCode value => is_u64 value | _ => True end.

(** So does the text of an HTTP/3 error code. *)
Theorem h3_code_fmt_inj c d : h3_code_ok c -> h3_code_ok d -> h3_code_fmt c = h3_code_fmt d -> c = d.
Proof. destruct c, d; cbn [h3_code_fmt h3_code_name h3_code_ok]; same_text. Qed.

(** The versions print differently, known ones and unknown 32-bit values alike. *)
Theorem version_fmt_inj v w : is_u32 (version_to_u32 v) -> is_u32 (version_to_u32 w) -> version_fmt v = version_fmt w -> v = w.
Proof.
  destruct v as [| | | v], w as [| | | w]; cbn [version_fmt version_to_u32]; same_text.
  match goal with H : hex_padded _ _ = _ |- _ => rename H into E; apply (f_equal (fun s => s +:+ "")) in E end.
  by apply hex_padded_inj in E as [-> _].
Qed.

(** The text of a stream identifier determines initiator, direction and index, hence the identifier. *)
Theorem stream_id_fmt_inj a b : is_u64 a -> is_u64 b -> stream_id_fmt a = stream_id_fmt b -> a = b.
Proof.
  intros Ha Hb E.
  assert (0 <= StreamId.index a /\ 0 <= StreamId.index b) as [Ia Ib] by (split; apply Z.shiftr_nonneg; apply Ha || apply Hb).
  unfold stream_id_fmt in E.
  assert (StreamId.initiator a = StreamId.initiator b /\ StreamId.direction a = StreamId.direction b /\
          StreamId.index a = StreamId.index b) as (E0 & E1 & E2).
  { revert E. destruct (StreamId.initiator a), (StreamId.initiator b), (StreamId.direction a), (StreamId.direction b);
      cbn [initiator_fmt direction_fmt]; same_text. }
  rewrite !stream_id_initiator_odd in E0. rewrite !stream_id_direction_bit in E1.
  unfold StreamId.index in E2. rewrite !shiftr_div in E2 by lia. change (2 ^ 2) with 4 in E2.
  pose proof (Zmod_odd a). pose proof (Zmod_odd (a / 2)). pose proof (Zmod_odd b). pose proof (Zmod_odd (b / 2)).
  destruct (Z.odd a), (Z.odd b), (Z.odd (a / 2)), (Z.odd (b / 2)); try done; zdm.
Qed.
