(* ===== verification/H3Service.v ===== *)
(** * The HTTP/3 client and server
    ([oxiquic-h3/src/client.rs], [server.rs], [push.rs])

    A request and its response over one stream of the [h3] crate, from the client's
    [request] to the server's [accept], [body] and [respond], and the builders.  The
    crates [http] and [h3] are interfaces: [Http] and [H3Crate], with what their
    documentation promises as [LawfulHttp] and [LawfulH3]. *)

From S2P Require Import Prelude CoreTypes Config H3.

(** ** The [http] crate *)

Class Http := {
  HeaderMap : Type;
  hm_new : HeaderMap;
  (** [Builder::header] with a name and a value; [None] when one of them is invalid *)
  hm_append : HeaderMap -> rstring -> rstring -> option HeaderMap;
  (** the entries an iteration visits, with what [to_str] makes of each value *)
  hm_iter : HeaderMap -> list (rstring * option rstring);
  method_valid : rstring -> bool;
  (** [Builder::uri] and the text of the parsed URI *)
  uri_parse : rstring -> option rstring;
  (** a scheme and an authority are there *)
  uri_absolute : rstring -> bool;
  (** [StatusCode::from_u16] *)
  status_valid : Z -> bool
}.

(** The values under a name, in the order of the iteration. *)
Definition hm_values {H : Http} (m : HeaderMap) (n : rstring) : list (option rstring) := snd <$> filter (fun e => e.1 = n) (hm_iter m).

Class LawfulHttp (H : Http) : Prop := {
  values_new : forall n, hm_values hm_new n = [];
  (** names are kept in lower case, and a value goes behind those the name already has *)
  values_append : forall m k v m' n, hm_append m k v = Some m' ->
    hm_values m' n = hm_values m n ++ (if decide (n = to_ascii_lowercase k) then [Some v] else [])
}.

(** Maps that differ in the order of their names only. *)
Definition hm_equiv {H : Http} (m m' : HeaderMap) : Prop := forall n, hm_values m n = hm_values m' n.

#[export] Instance hm_equivalence {H : Http} : Equivalence hm_equiv.
Proof. split; [by intros m n | intros a b E n; by rewrite E | intros a b d E1 E2 n; by rewrite E1]. Qed.

Section messages.
Context {H : Http}.

Record HttpRequest := mkHttpRequest { hq_method : rstring; hq_uri : rstring; hq_headers : HeaderMap }.
Record HttpResponse := mkHttpResponse { hp_status : Z; hp_headers : HeaderMap }.

(** [for (name, value) in ... { builder = builder.header(name, value) }] *)
Definition append_all (m : HeaderMap) (l : list (rstring * rstring)) : option HeaderMap :=
  fold_left (fun m e => m ← m; hm_append m e.1 e.2) l (Some m).

(** The default headers come first. *)
Definition build_request (default_headers : list (rstring * rstring)) (req : H3Request) : result H3Error HttpRequest :=
  if method_valid (method req) then
    match uri_parse (uri req), append_all hm_new (default_headers ++ req_headers req) with
    | Some u, Some hs => Ok (mkHttpRequest (method req) u hs)
    | _, _ => Err HProtocol
    end
  else Err HProtocol.

Definition build_response (resp : H3Response) : result H3Error HttpResponse :=
  if status_valid (status resp) then
    match append_all hm_new (headers resp) with Some hs => Ok (mkHttpResponse (status resp) hs) | None => Err HProtocol end
  else Err HProtocol.

(** [if let Ok(v) = value.to_str() { r = r.with_header(name, v) }] over the entries. *)
Definition read_request (r : HttpRequest) : H3Request :=
  fold_left (fun q e => match e.2 with Some v => request_with_header q e.1 v | None => q end)
    (hm_iter (hq_headers r)) (request_new (hq_method r) (hq_uri r)).

Definition read_response (r : HttpResponse) : H3Response :=
  fold_left (fun q e => match e.2 with Some v => with_header q e.1 v | None => q end) (hm_iter (hp_headers r)) (response_new (hp_status r)).

End messages.

(** ** The [h3] crate *)

(** The two directions of a request stream. *)
Inductive Side := Up | Down.

Record Flow := mkFlow { fl_sent : list Z; fl_end : bool; fl_read : list Z }.
Definition flow_new : Flow := mkFlow [] false [].

Section exchange.
Context {H : Http}.

(** What has passed over a request stream. *)
Record Exchange := mkExchange { x_request : HttpRequest; x_response : option HttpResponse; x_up : Flow; x_down : Flow }.

Definition flow (s : Side) (x : Exchange) : Flow := match s with Up => x_up x | Down => x_down x end.
Definition set_flow (s : Side) (f : Flow) (x : Exchange) : Exchange :=
  match s with
  | Up => mkExchange (x_request x) (x_response x) f (x_down x)
  | Down => mkExchange (x_request x) (x_response x) (x_up x) f
  end.

Definition more (d : list Z) (f : Flow) : Flow := mkFlow (fl_sent f ++ d) (fl_end f) (fl_read f).
Definition ended (f : Flow) : Flow := mkFlow (fl_sent f) true (fl_read f).
Definition taken (d : list Z) (f : Flow) : Flow := mkFlow (fl_sent f) (fl_end f) (fl_read f ++ d).

(** A call that failed did not complete the message in its direction, nor touch the other. *)
Definition broken (s : Side) (x x' : Exchange) : Prop :=
  x_request x' = x_request x /\ fl_end (flow s x') = fl_end (flow s x) /\
  match s with Up => x_down x' = x_down x /\ x_response x' = x_response x | Down => x_up x' = x_up x end.

Definition CONNECT : rstring := [67; 79; 78; 78; 69; 67; 84].
Definition OPTIONS : rstring := [79; 80; 84; 73; 79; 78; 83].

(** A request whose target travels as it is: an absolute URI, and none of the methods
    with a target form of their own. *)
Definition targeted (m u : rstring) : bool := uri_absolute u && bool_decide (m <> CONNECT) && bool_decide (m <> OPTIONS).
Definition req_targeted (r : HttpRequest) : bool := targeted (hq_method r) (hq_uri r).

End exchange.

(** Each call is awaited to its end; it returns its result and the stream. *)
Class H3Crate (H : Http) := {
  Stream : Type;
  h3_send_request : HttpRequest -> result unit Stream;
  h3_send_data : Side -> Stream -> list Z -> result unit unit * Stream;
  h3_finish : Side -> Stream -> result unit unit * Stream;
  h3_send_response : Stream -> HttpResponse -> result unit unit * Stream;
  h3_resolve : Stream -> result unit HttpRequest * Stream;
  h3_recv_response : Stream -> result unit HttpResponse * Stream;
  (** a chunk is a [Buf]: the slices it is made of *)
  h3_recv_data : Side -> Stream -> result unit (option (list (list Z))) * Stream;
  (** trailing headers, and giving up the other direction *)
  h3_send_trailers : Stream -> HeaderMap -> result unit unit * Stream;
  h3_recv_trailers : Stream -> result unit (option HeaderMap) * Stream;
  h3_stop_sending : Stream -> Z -> Stream;
  (** DATA frames that have not been read *)
  h3_frames : Side -> Stream -> nat;
  (** The transport hands the direction over whole, up to its FIN.  The adapter below the
      crate ends a stream in the same way when its connection is gone, and drops data
      that finds a full channel. *)
  h3_whole : Side -> Stream -> bool;
  h3_view : Stream -> Exchange
}.

Class LawfulH3 {H : Http} (C : H3Crate H) : Prop := {
  view_send_request : forall r st, h3_send_request r = Ok st -> h3_view st = mkExchange r None flow_new flow_new;
  view_send_data : forall s st d,
    match h3_send_data s st d with
    | (Ok _, st') => h3_view st' = set_flow s (more d (flow s (h3_view st))) (h3_view st)
    | (Err _, st') => broken s (h3_view st) (h3_view st')
    end;
  view_finish : forall s st,
    match h3_finish s st with
    | (Ok _, st') => h3_view st' = set_flow s (ended (flow s (h3_view st))) (h3_view st)
    | (Err _, st') => broken s (h3_view st) (h3_view st')
    end;
  view_send_response : forall st p,
    match h3_send_response st p with
    | (Ok _, st') => h3_view st' = mkExchange (x_request (h3_view st)) (Some p) (x_up (h3_view st)) (x_down (h3_view st))
    | (Err _, st') => broken Down (h3_view st) (h3_view st')
    end;
  (** the peer sees the message with its headers, names in any order *)
  view_resolve : forall st,
    h3_view (h3_resolve st).2 = h3_view st /\
    forall r, (h3_resolve st).1 = Ok r -> h3_whole Up st = true ->
      hq_method r = hq_method (x_request (h3_view st)) /\
      (req_targeted (x_request (h3_view st)) = true -> hq_uri r = hq_uri (x_request (h3_view st))) /\
      hm_equiv (hq_headers r) (hq_headers (x_request (h3_view st)));
  view_recv_response : forall st,
    h3_view (h3_recv_response st).2 = h3_view st /\
    forall r, (h3_recv_response st).1 = Ok r -> h3_whole Down st = true ->
      exists p, x_response (h3_view st) = Some p /\ hp_status r = hp_status p /\ hm_equiv (hp_headers r) (hp_headers p);
  (** data arrives in chunks; of what arrives whole there is no more only at the end of
      the message *)
  view_recv_data : forall s st,
    match h3_recv_data s st with
    | (Ok (Some d), st') =>
        h3_view st' = set_flow s (taken (concat d) (flow s (h3_view st))) (h3_view st) /\
        (h3_frames s st' < h3_frames s st)%nat
    | (Ok None, st') => h3_view st' = h3_view st /\
        (h3_whole s st = true -> fl_end (flow s (h3_view st)) = true /\ fl_read (flow s (h3_view st)) = fl_sent (flow s (h3_view st)))
    | (Err _, st') => h3_view st' = h3_view st
    end;
  (** which it is does not depend on the calls *)
  whole_send_data : forall w s st d, h3_whole w (h3_send_data s st d).2 = h3_whole w st;
  whole_finish : forall w s st, h3_whole w (h3_finish s st).2 = h3_whole w st;
  whole_send_response : forall w st p, h3_whole w (h3_send_response st p).2 = h3_whole w st;
  whole_resolve : forall w st, h3_whole w (h3_resolve st).2 = h3_whole w st;
  whole_recv_response : forall w st, h3_whole w (h3_recv_response st).2 = h3_whole w st;
  whole_recv_data : forall w s st, h3_whole w (h3_recv_data s st).2 = h3_whole w st
}.

(** [recv_data] hands out one [Bytes] at a time. *)
Class ContiguousH3 {H : Http} (C : H3Crate H) : Prop :=
  recv_contiguous : forall s st d, (h3_recv_data s st).1 = Ok (Some d) -> exists b, d = [b].

(** A connection that does not fail, for messages within the peer's limits, over a
    transport that hands everything over. *)
Class ReliableH3 {H : Http} (C : H3Crate H) (fits : HttpRequest -> Prop) (fits' : HttpResponse -> Prop) : Prop := {
  open_ok : forall r, req_targeted r = true -> fits r -> exists st, h3_send_request r = Ok st /\ forall s, h3_whole s st = true;
  send_data_ok : forall s st d, fl_end (flow s (h3_view st)) = false -> (h3_send_data s st d).1 = Ok tt;
  finish_ok : forall s st, fl_end (flow s (h3_view st)) = false -> (h3_finish s st).1 = Ok tt;
  send_response_ok : forall st p, x_response (h3_view st) = None -> fits' p -> (h3_send_response st p).1 = Ok tt;
  resolve_ok : forall st, req_targeted (x_request (h3_view st)) = true -> exists r, (h3_resolve st).1 = Ok r;
  recv_response_ok : forall st p, x_response (h3_view st) = Some p -> exists r, (h3_recv_response st).1 = Ok r;
  recv_data_ok : forall s st, fl_end (flow s (h3_view st)) = true -> exists d, (h3_recv_data s st).1 = Ok d
}.

Definition map_err {A E F} (e : E) (r : result F A) : result E A := match r with Ok x => Ok x | Err _ => Err e end.

Section service.
Context {H : Http} {C : H3Crate H}.

(** [while let Some(chunk) = recv_data().await?], with what is taken of a chunk; the fuel
    is one more than the frames left. *)
Fixpoint collect_loop (take : list (list Z) -> list Z) (fuel : nat) (s : Side) (st : Stream) (buf : list Z) : result unit (list Z) * Stream :=
  match fuel with
  | O => (Err tt, st)
  | S fuel =>
      match h3_recv_data s st with
      | (Ok (Some chunk), st) => collect_loop take fuel s st (buf ++ take chunk)
      | (Ok None, st) => (Ok buf, st)
      | (Err e, st) => (Err e, st)
      end
  end.

Definition collect (take : list (list Z) -> list Z) (s : Side) (st : Stream) : result unit (list Z) * Stream :=
  collect_loop take (S (h3_frames s st)) s st [].

(** [Buf::chunk]: the first slice.  [copy_to_bytes(remaining())]: all of them. *)
Definition buf_chunk (d : list (list Z)) : list Z := match d with b :: _ => b | [] => [] end.
Definition copy_to_bytes (d : list (list Z)) : list Z := concat d.

(** ** The client *)

Record H3Settings := mkSettings { max_field_section_size : Z; qpack_max_table_capacity : Z; qpack_blocked_streams : Z }.
Definition DEFAULT_MAX_FIELD_SECTION_SIZE : Z := 16384.
Definition default_settings : H3Settings := mkSettings DEFAULT_MAX_FIELD_SECTION_SIZE 0 0.

(** The task that drives the connection is named by its handle. *)
Record H3Client := mkClient { conn_driver : option nat; default_headers : list (rstring * rstring); client_settings : H3Settings }.

(** [built] is the outcome of the [h3] builder's handshake, [task] the driver's handle. *)
Definition client_new_with_config (built : result unit unit) (task : nat) (max : Z) (hs : list (rstring * rstring)) : result H3Error H3Client :=
  _ ← map_err HConnection built; Ok (mkClient (Some task) hs (mkSettings max 0 0)).
Definition client_new (built : result unit unit) (task : nat) : result H3Error H3Client := client_new_with_config built task 16384 [].

(** [Drop], and [close], which ends with it: the handles aborted. *)
Definition client_drop (c : H3Client) : list nat * H3Client :=
  match conn_driver c with
  | Some h => ([h], mkClient None (default_headers c) (client_settings c))
  | None => ([], c)
  end.
Definition client_close (c : H3Client) : result H3Error unit * list nat :=
  let '(aborted, c) := client_drop c in (Ok tt, aborted ++ (client_drop c).1).

(** [send_streaming]: the headers are sent, the stream is the caller's. *)
Definition send_streaming (c : H3Client) (req : H3Request) : result H3Error Stream :=
  http_req ← build_request (default_headers c) req; map_err HProtocol (h3_send_request http_req).

(** The request body, when there is one, and the end of the request. *)
Definition send_body (st : Stream) (b : option (list Z)) : result H3Error Stream :=
  st ← match b with
       | Some d => let '(r, st) := h3_send_data Up st d in _ ← map_err HStream r; Ok st
       | None => Ok st
       end;
  let '(r, st) := h3_finish Up st in _ ← map_err HStream r; Ok st.

(** The response: headers, then the body to its end. *)
Definition receive (st : Stream) : result H3Error H3Response :=
  let '(r, st) := h3_recv_response st in
  resp ← map_err HProtocol r;
  let '(b, st) := collect buf_chunk Down st in
  b ← map_err HProtocol b;
  Ok (with_body (read_response resp) b).

(** [request]: while the response is awaited the peer does its part. *)
Definition request (c : H3Client) (peer : Stream -> Stream) (req : H3Request) (b : option (list Z)) : result H3Error H3Response :=
  st ← send_streaming c req;
  st ← send_body st b;
  receive (peer st).

Definition HEAD : rstring := [72; 69; 65; 68].
Definition PUT : rstring := [80; 85; 84].
Definition DELETE : rstring := [68; 69; 76; 69; 84; 69].

Definition client_get (c : H3Client) peer u := request c peer (request_get u) None.
Definition client_post (c : H3Client) peer u b := request c peer (request_post u) (Some b).
Definition client_head (c : H3Client) peer u := request c peer (request_new HEAD u) None.
Definition client_put (c : H3Client) peer u b := request c peer (request_new PUT u) (Some b).
Definition client_delete (c : H3Client) peer u := request c peer (request_new DELETE u) None.

(** [RequestStream]. *)
Definition rs_send_data (st : Stream) (d : list Z) : result H3Error unit * Stream := let '(r, st) := h3_send_data Up st d in (map_err HStream r, st).
Definition rs_finish (st : Stream) : result H3Error unit * Stream := let '(r, st) := h3_finish Up st in (map_err HStream r, st).
Definition rs_recv_response (st : Stream) : result H3Error HttpResponse * Stream :=
  let '(r, st) := h3_recv_response st in (map_err HProtocol r, st).
Definition rs_recv_data (st : Stream) : result H3Error (option (list Z)) * Stream :=
  let '(r, st) := h3_recv_data Down st in (match map_err HProtocol r with Ok o => Ok (option_map copy_to_bytes o) | Err e => Err e end, st).
Definition rs_recv_trailers (st : Stream) : result H3Error (option HeaderMap) * Stream :=
  let '(r, st) := h3_recv_trailers st in (map_err HProtocol r, st).
Definition rs_cancel (st : Stream) : Stream := h3_stop_sending st (to_u64 RequestCancelled).

(** ** The server *)

(** [H3Connection]: its settings; the [h3] connection shows only through its results. *)
Record H3Connection := mkConnection { conn_settings : H3Settings }.

Definition server_new_with_config (built : result unit unit) (max : Z) : result H3Error H3Connection :=
  _ ← map_err HConnection built; Ok (mkConnection (mkSettings max 0 0)).
Definition server_new (built : result unit unit) : result H3Error H3Connection := server_new_with_config built DEFAULT_MAX_FIELD_SECTION_SIZE.

(** [shutdown(max_id)] and [close], which shuts down with 0. *)
Definition server_shutdown (shutdown : Z -> result unit unit) (max_id : Z) : result H3Error unit := map_err HConnection (shutdown max_id).
Definition server_close (shutdown : Z -> result unit unit) : result H3Error unit := map_err HConnection (shutdown 0).

Record H3RequestContext := mkContext { ctx_request : H3Request; ctx_stream : Stream }.

(** [accepted] is what the connection's own [accept] gave. *)
Definition server_accept (accepted : result unit (option Stream)) : result H3Error (option H3RequestContext) :=
  resolver ← map_err HProtocol accepted;
  match resolver with
  | None => Ok None
  | Some st =>
      let '(r, st) := h3_resolve st in
      req ← map_err HProtocol r;
      Ok (Some (mkContext (read_request req) st))
  end.

Definition ctx_body (ctx : H3RequestContext) : result H3Error (list Z) * H3RequestContext :=
  let '(r, st) := collect copy_to_bytes Up (ctx_stream ctx) in (map_err HProtocol r, mkContext (ctx_request ctx) st).

Definition respond (ctx : H3RequestContext) (response : H3Response) : result H3Error unit * Stream :=
  match build_response response with
  | Err e => (Err e, ctx_stream ctx)
  | Ok http_resp =>
      match h3_send_response (ctx_stream ctx) http_resp with
      | (Err _, st) => (Err HProtocol, st)
      | (Ok _, st) =>
          match (match body response with [] => (Ok tt, st) | _ => h3_send_data Down st (body response) end) with
          | (Err _, st) => (Err HStream, st)
          | (Ok _, st) => let '(r, st) := h3_finish Down st in (map_err HStream r, st)
          end
      end
  end.

(** [H3Responder]: its errors are the transport's. *)
Definition responder_body_bytes (st : Stream) : result OxiQuicError (list Z) * Stream :=
  let '(r, st) := collect copy_to_bytes Up st in (map_err EProtocol r, st).
Definition responder_send_response (st : Stream) (code : Z) (hs : HeaderMap) : result OxiQuicError unit * Stream :=
  let '(r, st) := h3_send_response st (mkHttpResponse code hs) in (map_err EProtocol r, st).
Definition responder_send_data (st : Stream) (d : list Z) : result OxiQuicError unit * Stream :=
  let '(r, st) := h3_send_data Down st d in (map_err EProtocol r, st).
Definition responder_send_trailers (st : Stream) (hs : HeaderMap) : result OxiQuicError unit * Stream :=
  let '(r, st) := h3_send_trailers st hs in (map_err EProtocol r, st).
Definition responder_finish (st : Stream) : result OxiQuicError unit * Stream :=
  let '(r, st) := h3_finish Down st in (map_err EProtocol r, st).
Definition send_full (st : Stream) (code : Z) (hs : HeaderMap) (d : list Z) : result OxiQuicError unit * Stream :=
  match responder_send_response st code hs with
  | (Err e, st) => (Err e, st)
  | (Ok _, st) =>
      match (match d with [] => (Ok tt, st) | _ => responder_send_data st d end) with
      | (Err e, st) => (Err e, st)
      | (Ok _, st) => responder_finish st
      end
  end.

(** A server task: take the request, read its body, answer with what [handler] says. *)
Definition serve (handler : H3Request -> list Z -> H3Response) (st : Stream) : Stream :=
  match server_accept (Ok (Some st)) with
  | Ok (Some ctx) =>
      match ctx_body ctx with
      | (Ok b, ctx) => (respond ctx (handler (ctx_request ctx) b)).2
      | (Err _, ctx) => ctx_stream ctx
      end
  | _ => st
  end.

End service.

(** ** Headers *)

(** The values a list of headers gives a name, in order. *)
Definition hvalues (n : rstring) (l : list (rstring * rstring)) : list rstring := snd <$> filter (fun e => to_ascii_lowercase e.1 = n) l.

Lemma hvalues_app n l l' : hvalues n (l ++ l') = hvalues n l ++ hvalues n l'.
Proof. unfold hvalues. by rewrite filter_app, fmap_app. Qed.

Lemma lower_idem s : to_ascii_lowercase (to_ascii_lowercase s) = to_ascii_lowercase s.
Proof. unfold to_ascii_lowercase. rewrite map_map. apply map_ext. intros x. unfold lower. repeat case_match; lia. Qed.

(** What a reader keeps of the entries of a map. *)
Definition entries (l : list (rstring * option rstring)) : list (rstring * rstring) :=
  omap (fun e => (fun v => (to_ascii_lowercase e.1, v)) <$> e.2) l.

Section headers.
Context {H : Http} {L : LawfulHttp H}.

Lemma fold_headers {R} (add : R -> rstring -> rstring -> R) (get : R -> list (rstring * rstring)) l r :
  (forall r k v, get (add r k v) = get r ++ [(to_ascii_lowercase k, v)]) ->
  get (fold_left (fun q e => match e.2 with Some v => add q e.1 v | None => q end) l r) = get r ++ entries l.
Proof.
  intros Hadd. revert r. induction l as [| [k [v |]] l IH]; intros r; cbn; [by rewrite app_nil_r | | apply IH].
  rewrite IH, Hadd. by rewrite <- app_assoc.
Qed.

Lemma fold_kept {R X} (add : R -> rstring -> rstring -> R) (get : R -> X) (l : list (rstring * option rstring)) r :
  (forall r k v, get (add r k v) = get r) ->
  get (fold_left (fun q e => match e.2 with Some v => add q e.1 v | None => q end) l r) = get r.
Proof. intros Hadd. revert r. induction l as [| [k [v |]] l IH]; intros r; cbn; [done | by rewrite IH, Hadd | apply IH]. Qed.

Lemma append_all_values m l m' n : append_all m l = Some m' -> hm_values m' n = hm_values m n ++ (Some <$> hvalues n l).
Proof.
  unfold append_all. revert m. induction l as [| [k v] l IH]; intros m; cbn [fold_left].
  - intros [= ->]. cbn. by rewrite app_nil_r.
  - destruct (mbind _ (Some m)) as [m1 |] eqn:E; cbn in E; [| intros F; exfalso; revert F; clear; induction l; cbn; auto; discriminate].
    intros F. rewrite (IH m1 F), (values_append _ _ _ _ n E), <- app_assoc. f_equal.
    unfold hvalues. rewrite filter_cons. cbn [fst].
    destruct (decide (n = _)) as [-> |], (decide (to_ascii_lowercase k = _)); cbn; congruence.
Qed.

Lemma entries_values n l : Forall (fun e => to_ascii_lowercase e.1 = e.1) l -> hvalues n (entries l) = omap id (snd <$> filter (fun e => e.1 = n) l).
Proof.
  induction 1 as [| [k o] l Hk _ IH]; [done |]. cbn [fst] in Hk. rewrite filter_cons. cbn [fst].
  assert (E : entries ((k, o) :: l) = match o with Some v => (k, v) :: entries l | None => entries l end).
  { unfold entries. cbn [omap list_omap fst snd]. destruct o; cbn; by rewrite ?Hk. }
  rewrite E. destruct o as [v |]; [| rewrite IH; by case_decide].
  change ((k, v) :: entries l) with ([(k, v)] ++ entries l). rewrite hvalues_app, IH.
  unfold hvalues. rewrite filter_cons, filter_nil. cbn [fst]. rewrite Hk. case_decide; by cbn.
Qed.

Lemma omap_id_some {A} (l : list A) : omap id (Some <$> l) = l.
Proof. induction l as [| x l IH]; [done |]. cbn. by rewrite IH. Qed.

(** A map built from a list and carried over is read back with that list's values. *)
Lemma headers_carried l m0 m n : append_all hm_new l = Some m0 -> hm_equiv m m0 -> hvalues n (entries (hm_iter m)) = hvalues n l.
Proof.
  intros Hb He. assert (Hv : forall n, hm_values m n = Some <$> hvalues n l).
  { intros k. by rewrite (He k), (append_all_values _ _ _ k Hb), values_new. }
  rewrite entries_values; [unfold hm_values in Hv; by rewrite Hv, omap_id_some |].
  apply Forall_forall. intros [k o] Hin. cbn. assert (Hk : o ∈ hm_values m k).
  { unfold hm_values. apply list_elem_of_fmap. exists (k, o). split; [done | by apply list_elem_of_filter]. }
  rewrite Hv in Hk. apply list_elem_of_fmap in Hk as (v & _ & Hk). unfold hvalues in Hk.
  apply list_elem_of_fmap in Hk as ([k' v'] & _ & Hk). apply list_elem_of_filter in Hk as [<- _]. apply lower_idem.
Qed.

End headers.

(** ** The exchange *)

Section exchanges.
Context {H : Http} {C : H3Crate H} {L : LawfulHttp H} {LC : LawfulH3 C}.

Lemma flow_set s f x : flow s (set_flow s f x) = f.
Proof. by destruct s. Qed.
Lemma set_set s f f' x : set_flow s f (set_flow s f' x) = set_flow s f x.
Proof. by destruct s. Qed.
Lemma set_same s x : set_flow s (flow s x) x = x.
Proof. by destruct s, x. Qed.
Lemma taken_nil f : taken [] f = f.
Proof. destruct f. unfold taken. cbn. by rewrite app_nil_r. Qed.
Lemma taken_app d d' f : taken d' (taken d f) = taken (d ++ d') f.
Proof. unfold taken. cbn. by rewrite app_assoc. Qed.

(** The loop takes what it read; it stops with a body only at the end of the message. *)
Lemma collect_loop_view take fuel s st buf :
  let '(r, st') := collect_loop take fuel s st buf in
  exists d, h3_view st' = set_flow s (taken d (flow s (h3_view st))) (h3_view st) /\
    (forall w, h3_whole w st' = h3_whole w st) /\
    forall b, r = Ok b -> h3_whole s st = true ->
      fl_end (flow s (h3_view st)) = true /\ fl_read (flow s (h3_view st)) ++ d = fl_sent (flow s (h3_view st)) /\
      ((forall st d, (h3_recv_data s st).1 = Ok (Some d) -> take d = concat d) -> b = buf ++ d).
Proof.
  revert st buf. induction fuel as [| fuel IH]; intros st buf; cbn [collect_loop].
  { exists []. by rewrite taken_nil, set_same. }
  pose proof (view_recv_data s st) as Hv. assert (Hw : forall w, h3_whole w (h3_recv_data s st).2 = h3_whole w st) by (intros w; apply whole_recv_data).
  destruct (h3_recv_data s st) as [[[chunk |] | []] st1] eqn:E; cbn [snd] in Hw.
  - destruct Hv as [Hv _]. specialize (IH st1 (buf ++ take chunk)). destruct (collect_loop _ _ _ _ _) as [r st'].
    destruct IH as (d & E1 & Hk & Hr). rewrite Hv, flow_set in *. exists (concat chunk ++ d). rewrite E1, set_set, taken_app.
    split; [done |]. split; [intros w; by rewrite Hk |].
    intros b Hb Hs. rewrite <- Hw in Hs. destruct (Hr b Hb Hs) as (A & B & G). cbn in A, B. rewrite app_assoc. split_and!; [done.. |].
    intros Ht. rewrite (G Ht), <- (Ht st chunk), app_assoc; [done | by rewrite E].
  - destruct Hv as (Hv & Hd). exists []. rewrite taken_nil, set_same, !app_nil_r. split_and!; [done | done |].
    intros b [= ->] Hs. by destruct (Hd Hs).
  - exists []. rewrite Hv, taken_nil, set_same. done.
Qed.

(** More fuel than frames is enough: the loop never stops for want of it. *)
Lemma collect_loop_enough take fuel s st buf :
  (h3_frames s st < fuel)%nat -> collect_loop take fuel s st buf = collect_loop take (S fuel) s st buf.
Proof.
  revert st buf. induction fuel as [| fuel IH]; intros st buf Hf; [lia |].
  cbn [collect_loop] in *. pose proof (view_recv_data s st) as Hv. destruct (h3_recv_data s st) as [[[chunk |] |] st1]; [| done..].
  apply IH. lia.
Qed.

Lemma collect_loop_ok {fits fits'} {R : ReliableH3 C fits fits'} take fuel s st buf :
  (h3_frames s st < fuel)%nat -> fl_end (flow s (h3_view st)) = true -> exists b, (collect_loop take fuel s st buf).1 = Ok b.
Proof.
  revert st buf. induction fuel as [| fuel IH]; intros st buf Hf He; [lia |]. cbn [collect_loop].
  pose proof (view_recv_data s st) as Hv. destruct (recv_data_ok (ReliableH3 := R) s st He) as [o Ho].
  destruct (h3_recv_data s st) as [r st1]. cbn in Ho. subst r. destruct o as [chunk |]; [| by eauto].
  destruct Hv as [Hv Hl]. apply IH; [lia |]. rewrite Hv, flow_set. by cbn.
Qed.

Lemma contiguous_whole {K : ContiguousH3 C} s st d : (h3_recv_data s st).1 = Ok (Some d) -> buf_chunk d = concat d.
Proof. intros E. destruct (recv_contiguous s st d E) as [b ->]. cbn. by rewrite app_nil_r. Qed.

(** An answer arrives whole or its end does not. *)
Lemma respond_view ctx resp :
  x_down (h3_view (ctx_stream ctx)) = flow_new ->
  match respond ctx resp with
  | (Ok _, st) => exists hp, build_response resp = Ok hp /\
      h3_view st = mkExchange (x_request (h3_view (ctx_stream ctx))) (Some hp) (x_up (h3_view (ctx_stream ctx))) (mkFlow (body resp) true [])
  | (Err _, st) => fl_end (x_down (h3_view st)) = false
  end.
Proof.
  intros Hd. unfold respond. destruct (build_response resp) as [hp |]; [| by rewrite Hd].
  pose proof (view_send_response (ctx_stream ctx) hp) as V1. destruct (h3_send_response _ _) as [[] st1];
    [| destruct V1 as (_ & V1 & _); cbn in V1; by rewrite V1, Hd].
  rewrite Hd in V1. set (v := h3_view (ctx_stream ctx)) in *.
  assert (V2 : match (match body resp with [] => (Ok tt, st1) | _ => h3_send_data Down st1 (body resp) end) with
    | (Ok _, st2) => h3_view st2 = mkExchange (x_request v) (Some hp) (x_up v) (mkFlow (body resp) false [])
    | (Err _, st2) => fl_end (x_down (h3_view st2)) = false end).
  { pose proof (view_send_data Down st1 (body resp)) as V2. rewrite V1 in V2. cbn in V2.
    destruct (body resp) as [| z l]; [done |]. destruct (h3_send_data Down st1 _) as [[] st2]; [done |].
    destruct V2 as (_ & V2 & _). exact V2. }
  destruct (match body resp with [] => _ | _ => _ end) as [[] st2]; [| done].
  pose proof (view_finish Down st2) as V3. rewrite V2 in V3. destruct (h3_finish Down st2) as [[] st3]; cbn in *; [by eauto |].
  by destruct V3 as (_ & V3 & _).
Qed.

Lemma whole_respond w ctx resp : h3_whole w (respond ctx resp).2 = h3_whole w (ctx_stream ctx).
Proof.
  unfold respond. destruct (build_response resp) as [hp |]; [| done].
  pose proof (whole_send_response w (ctx_stream ctx) hp) as H1. destruct (h3_send_response _ _) as [[] st1]; [| done]. cbn [snd] in H1.
  pose proof (whole_send_data w Down st1 (body resp)) as H2. pose proof (fun st => whole_finish w Down st) as H3.
  destruct (body resp) as [| z l].
  - specialize (H3 st1). destruct (h3_finish Down st1). cbn [snd] in *. congruence.
  - destruct (h3_send_data Down st1 _) as [[] st2]; cbn [snd] in *; [| congruence].
    specialize (H3 st2). destruct (h3_finish Down st2). cbn [snd] in *. congruence.
Qed.

(** What the server makes of a request. *)
Definition reads (hr : HttpRequest) (q : H3Request) : Prop :=
  method q = hq_method hr /\ (req_targeted hr = true -> uri q = hq_uri hr) /\
  exists m, hm_equiv m (hq_headers hr) /\ req_headers q = entries (hm_iter m).

Lemma read_request_spec r :
  method (read_request r) = hq_method r /\ uri (read_request r) = hq_uri r /\ req_headers (read_request r) = entries (hm_iter (hq_headers r)).
Proof.
  unfold read_request. split_and!; [by apply (fold_kept request_with_header method) | by apply (fold_kept request_with_header uri) |].
  by apply (fold_headers request_with_header req_headers).
Qed.

Lemma read_response_spec r :
  status (read_response r) = hp_status r /\ headers (read_response r) = entries (hm_iter (hp_headers r)).
Proof.
  unfold read_response. split; [by apply (fold_kept with_header status) | by apply (fold_headers with_header headers)].
Qed.

Lemma server_accept_view st ctx :
  server_accept (Ok (Some st)) = Ok (Some ctx) ->
  h3_view (ctx_stream ctx) = h3_view st /\ (forall w, h3_whole w (ctx_stream ctx) = h3_whole w st) /\
  (h3_whole Up st = true -> reads (x_request (h3_view st)) (ctx_request ctx)).
Proof.
  cbn. pose proof (view_resolve st) as [V Hr]. assert (Hw : forall w, h3_whole w (h3_resolve st).2 = h3_whole w st) by (intros w; apply whole_resolve).
  destruct (h3_resolve st) as [[r |] st1]; cbn in *; [| done].
  intros [= <-]. cbn. split_and!; [done | done |]. intros Hu. destruct (Hr r eq_refl Hu) as (A & B & E).
  destruct (read_request_spec r) as (M & U & Hs). split_and!; [congruence | intros T; rewrite U; auto | eauto].
Qed.

Lemma whole_serve w handler st : h3_whole w (serve handler st) = h3_whole w st.
Proof.
  unfold serve. destruct (server_accept _) as [[ctx |] |] eqn:Ea; [| done..].
  apply server_accept_view in Ea as (_ & Hw & _). rewrite <- Hw. unfold ctx_body, collect.
  pose proof (collect_loop_view copy_to_bytes (S (h3_frames Up (ctx_stream ctx))) Up (ctx_stream ctx) []) as Hc.
  destruct (collect_loop _ _ _ _ _) as [r st1]. destruct Hc as (d & _ & Hk & _).
  destruct r; cbn [map_err ctx_stream ctx_request]; [| apply Hk]. rewrite whole_respond. apply Hk.
Qed.

(** A server task that got its answer through, out of a request whose body was sent and
    arrived whole. *)
Lemma serve_view handler st b :
  h3_whole Up st = true ->
  x_up (h3_view st) = mkFlow b true [] -> x_down (h3_view st) = flow_new ->
  fl_end (x_down (h3_view (serve handler st))) = true ->
  exists q hp, reads (x_request (h3_view st)) q /\ build_response (handler q b) = Ok hp /\
    x_response (h3_view (serve handler st)) = Some hp /\ x_down (h3_view (serve handler st)) = mkFlow (body (handler q b)) true [].
Proof.
  intros Hwu Hu Hd. unfold serve. destruct (server_accept _) as [[ctx |] |] eqn:Ea; [| by rewrite Hd..].
  apply server_accept_view in Ea as (Ev & Hw & Hq). specialize (Hq Hwu). unfold ctx_body, collect.
  pose proof (collect_loop_view copy_to_bytes (S (h3_frames Up (ctx_stream ctx))) Up (ctx_stream ctx) []) as Hc.
  destruct (collect_loop _ _ _ _ _) as [r st1]. destruct Hc as (d & E1 & _ & Hr). rewrite Ev in *. cbn [flow set_flow] in E1.
  destruct r as [b' |]; cbn [map_err ctx_stream ctx_request]; [| rewrite E1; cbn; by rewrite Hd].
  destruct (Hr b' eq_refl ltac:(by rewrite Hw)) as (_ & Hs & Hb). cbn [flow] in Hs. rewrite Hu in Hs. cbn in Hs. subst d. specialize (Hb (fun _ _ _ => eq_refl)).
  cbn in Hb. subst b'.
  pose proof (respond_view (mkContext (ctx_request ctx) st1) (handler (ctx_request ctx) b)) as Hp. cbn [ctx_stream] in Hp.
  rewrite E1 in Hp. specialize (Hp Hd). destruct (respond _ _) as [[] st2]; cbn [snd]; [| by rewrite Hp].
  destruct Hp as (hp & Eb & E2). intros _. exists (ctx_request ctx), hp. by rewrite E2.
Qed.

(** The client's half before the response. *)
Lemma send_view c req b st st' :
  send_streaming c req = Ok st -> send_body st b = Ok st' ->
  exists hr, build_request (default_headers c) req = Ok hr /\ h3_view st' = mkExchange hr None (mkFlow (default [] b) true []) flow_new /\
    forall w, h3_whole w st' = h3_whole w st.
Proof.
  unfold send_streaming. destruct (build_request _ req) as [hr |]; [| done]. cbn. destruct (h3_send_request hr) as [s0 |] eqn:Es; [| done].
  intros [= <-]. apply view_send_request in Es. intros Hb. exists hr. split; [done |]. revert Hb. unfold send_body.
  assert (V : forall s1, match b with Some d => let '(r, st) := h3_send_data Up s0 d in _ ← map_err HStream r; Ok st | None => Ok s0 end = Ok s1 ->
    h3_view s1 = mkExchange hr None (mkFlow (default [] b) false []) flow_new /\ forall w, h3_whole w s1 = h3_whole w s0).
  { destruct b as [d |]; [| by intros s1 [= <-]]. pose proof (view_send_data Up s0 d) as V. pose proof (fun w => whole_send_data w Up s0 d) as W.
    destruct (h3_send_data Up s0 d) as [[] s1]; [| done]. intros s2 [= <-]. cbn [snd] in W. by rewrite V, Es. }
  destruct (match b with Some _ => _ | None => _ end) as [s1 |]; [| done]. cbn. destruct (V s1 eq_refl) as [V1 W1].
  pose proof (view_finish Up s1) as F. pose proof (fun w => whole_finish w Up s1) as W2. destruct (h3_finish Up s1) as [[] s2]; [| done].
  cbn in *. intros [= <-]. rewrite F, V1. split; [done |]. intros w. by rewrite W2.
Qed.

Lemma receive_view st r :
  h3_whole Down st = true -> receive st = Ok r -> exists p m, x_response (h3_view st) = Some p /\ status r = hp_status p /\
    hm_equiv m (hp_headers p) /\ headers r = entries (hm_iter m) /\
    fl_end (x_down (h3_view st)) = true /\
    (ContiguousH3 C -> fl_read (x_down (h3_view st)) ++ body r = fl_sent (x_down (h3_view st))).
Proof.
  intros Hw. unfold receive. pose proof (view_recv_response st) as [V Hr]. pose proof (whole_recv_response Down st) as Hw1.
  destruct (h3_recv_response st) as [[p' |] st1]; [| done]. cbn in V, Hr, Hw1. cbn [map_err mbind result_bind]. unfold collect. pose proof (collect_loop_view buf_chunk (S (h3_frames Down st1)) Down st1 []) as Hc.
  destruct (collect_loop _ _ _ _ _) as [[b |] st2]; [| done]. cbn. intros [= <-]. destruct Hc as (d & _ & _ & Hb).
  destruct (Hb b eq_refl ltac:(congruence)) as (He & Hs & Hd). rewrite V in *. cbn in He, Hs.
  destruct (Hr p' eq_refl Hw) as (p & Ep & Es & Eh). destruct (read_response_spec p') as [S1 S2].
  exists p, (hp_headers p'). split_and!; [done | cbn; congruence | done | exact S2 | done |].
  intros K. cbn. rewrite (Hd (contiguous_whole Down)). exact Hs.
Qed.

(** On a connection that does not fail each half completes. *)
Section reliable.
Context {fits : HttpRequest -> Prop} {fits' : HttpResponse -> Prop} {R : ReliableH3 C fits fits'}.

Lemma send_returns c req b hr :
  build_request (default_headers c) req = Ok hr -> req_targeted hr = true -> fits hr ->
  exists st st', send_streaming c req = Ok st /\ send_body st b = Ok st' /\ forall s, h3_whole s st = true.
Proof.
  intros Eb Ht Hf. destruct (open_ok hr Ht Hf) as (s0 & Es & Hw). unfold send_streaming. rewrite Eb. cbn. rewrite Es. cbn.
  exists s0. pose proof (view_send_request _ _ Es) as V0. unfold send_body.
  assert (V : exists s1, match b with Some d => let '(r, st) := h3_send_data Up s0 d in _ ← map_err HStream r; Ok st | None => Ok s0 end = Ok s1 /\
    fl_end (flow Up (h3_view s1)) = false).
  { destruct b as [d |]; [| exists s0; by rewrite V0]. pose proof (view_send_data Up s0 d) as V1.
    pose proof (send_data_ok (ReliableH3 := R) Up s0 d) as K. rewrite V0 in K, V1. specialize (K eq_refl).
    destruct (h3_send_data Up s0 d) as [r s1]. cbn in K. subst r. exists s1. cbn in *. by rewrite V1. }
  destruct V as (s1 & -> & V1). cbn. pose proof (finish_ok (ReliableH3 := R) Up s1 V1) as K.
  destruct (h3_finish Up s1) as [r s2]. cbn in K. subst r. by exists s2.
Qed.

Lemma respond_returns ctx resp p :
  build_response resp = Ok p -> fits' p -> x_response (h3_view (ctx_stream ctx)) = None -> x_down (h3_view (ctx_stream ctx)) = flow_new ->
  (respond ctx resp).1 = Ok tt.
Proof.
  intros Eb Hf Hn Hd. unfold respond. rewrite Eb. pose proof (view_send_response (ctx_stream ctx) p) as V1.
  pose proof (send_response_ok (ReliableH3 := R) _ p Hn Hf) as K1. destruct (h3_send_response _ _) as [r st1]. cbn in K1. subst r.
  assert (K2 : exists st2, match body resp with [] => (Ok tt, st1) | _ => h3_send_data Down st1 (body resp) end = (Ok tt, st2) /\
    fl_end (x_down (h3_view st2)) = false).
  { pose proof (view_send_data Down st1 (body resp)) as V2. pose proof (send_data_ok (ReliableH3 := R) Down st1 (body resp)) as K2.
    rewrite V1 in K2, V2. cbn in K2, V2. rewrite Hd in K2, V2. specialize (K2 eq_refl).
    destruct (body resp); [exists st1; by rewrite V1, Hd |]. destruct (h3_send_data Down st1 _) as [r st2]. cbn in K2. subst r.
    exists st2. by rewrite V2. }
  destruct K2 as (st2 & -> & Hd2). pose proof (finish_ok (ReliableH3 := R) Down st2 Hd2) as K3.
  destruct (h3_finish Down st2) as [r st3]. cbn in K3. by subst r.
Qed.

Lemma serve_returns handler st b :
  x_up (h3_view st) = mkFlow b true [] -> x_down (h3_view st) = flow_new -> x_response (h3_view st) = None ->
  req_targeted (x_request (h3_view st)) = true ->
  (forall q d, exists p, build_response (handler q d) = Ok p /\ fits' p) ->
  fl_end (x_down (h3_view (serve handler st))) = true /\ exists p, x_response (h3_view (serve handler st)) = Some p.
Proof.
  intros Hu Hd Hn Ht Hh. assert (Ea : exists ctx, server_accept (Ok (Some st)) = Ok (Some ctx)).
  { cbn. destruct (resolve_ok (ReliableH3 := R) st Ht) as [r Hr]. destruct (h3_resolve st) as [o st1]. cbn in Hr. subst o. by eexists. }
  destruct Ea as [ctx Ea]. unfold serve. rewrite Ea. apply server_accept_view in Ea as (Ev & _). unfold ctx_body, collect.
  pose proof (collect_loop_view copy_to_bytes (S (h3_frames Up (ctx_stream ctx))) Up (ctx_stream ctx) []) as Hc.
  destruct (collect_loop_ok (R := R) copy_to_bytes (S (h3_frames Up (ctx_stream ctx))) Up (ctx_stream ctx) []) as [d Hk];
    [lia | by rewrite Ev; cbn; rewrite Hu |].
  destruct (collect_loop _ _ _ _ _) as [r st1]. cbn in Hk. subst r. destruct Hc as (d' & E1 & _ & _). rewrite Ev in E1. cbn [flow set_flow] in E1.
  cbn [map_err ctx_stream ctx_request]. destruct (Hh (ctx_request ctx) d) as (p & Ep & Hp).
  pose proof (respond_view (mkContext (ctx_request ctx) st1) (handler (ctx_request ctx) d)) as V.
  pose proof (respond_returns (mkContext (ctx_request ctx) st1) _ p Ep Hp) as K. cbn [ctx_stream] in V, K. rewrite E1 in V, K.
  specialize (V Hd). specialize (K Hn Hd). destruct (respond _ _) as [o st2]. cbn in K. subst o. destruct V as (hp & _ & V).
  cbn [snd]. rewrite V. cbn. eauto.
Qed.

Lemma receive_returns st p : x_response (h3_view st) = Some p -> fl_end (x_down (h3_view st)) = true -> exists r, receive st = Ok r.
Proof.
  intros Hp He. unfold receive. pose proof (view_recv_response st) as [V _]. destruct (recv_response_ok (ReliableH3 := R) st p Hp) as [r Hr].
  destruct (h3_recv_response st) as [o st1]. cbn in Hr, V. subst o. cbn [map_err mbind result_bind]. unfold collect.
  destruct (collect_loop_ok (R := R) buf_chunk (S (h3_frames Down st1)) Down st1 []) as [d Hk]; [lia | by rewrite V |].
  destruct (collect_loop _ _ _ _ _) as [o st2]. cbn in Hk. subst o. by eexists.
Qed.

End reliable.

(** What reached the handler, and what came back. *)
Definition delivered (c : H3Client) (req : H3Request) (q : H3Request) : Prop :=
  method q = method req /\
  (exists u, uri_parse (uri req) = Some u /\ (targeted (method req) u = true -> uri q = u)) /\
  forall n, hvalues n (req_headers q) = hvalues n (default_headers c) ++ hvalues n (req_headers req).

Definition answered (a r : H3Response) : Prop :=
  status r = status a /\ (forall n, hvalues n (headers r) = hvalues n (headers a)) /\ (ContiguousH3 C -> body r = body a).

Lemma built_delivered c req hr q : build_request (default_headers c) req = Ok hr -> reads hr q -> delivered c req q.
Proof.
  unfold build_request. destruct (method_valid _); [| done]. destruct (uri_parse (uri req)) as [u |] eqn:Eu; [| done].
  destruct (append_all _ _) as [m0 |] eqn:Em; [| done]. intros [= <-] (M & U & m & Hm & Hq). cbn in *.
  split_and!; [done | by exists u |]. intros n. by rewrite Hq, (headers_carried _ _ _ n Em Hm), hvalues_app.
Qed.

Lemma built_answered a hp r m :
  build_response a = Ok hp -> status r = hp_status hp -> hm_equiv m (hp_headers hp) -> headers r = entries (hm_iter m) ->
  (ContiguousH3 C -> body r = body a) -> answered a r.
Proof.
  unfold build_response. destruct (status_valid _); [| done]. destruct (append_all _ _) as [m0 |] eqn:Em; [| done].
  intros [= <-] Hs Hm Hh Hb. cbn in *. split_and!; [done | | done]. intros n. by rewrite Hh, (headers_carried _ _ _ n Em Hm).
Qed.

(** C22: a request and its answer cross the connection unchanged, when the transport hands
    both directions of the stream over whole.  Against a server that reads the request,
    hands it with its body to a handler and responds with what the handler says, a
    [request] that returns has then been seen by the handler with the caller's method,
    the URI as parsed (an absolute one, and unless the method is CONNECT or OPTIONS), for
    every header name the client's default values followed by the caller's, and the whole
    body; and the response returned has the handler's status and header values, and its
    body if the crate hands out contiguous buffers (of others [request] keeps the first
    slice only).  On a connection that does not fail, a request and answers that can be
    built do return, with all that. *)
Theorem exchange_faithful (c : H3Client) (handler : H3Request -> list Z -> H3Response) (req : H3Request) (b : option (list Z)) :
  (forall st r, send_streaming c req = Ok st -> (forall s, h3_whole s st = true) -> request c (serve handler) req b = Ok r ->
     exists q, delivered c req q /\ answered (handler q (default [] b)) r) /\
  (forall fits fits' hr, ReliableH3 C fits fits' ->
     build_request (default_headers c) req = Ok hr -> req_targeted hr = true -> fits hr ->
     (forall q d, exists p, build_response (handler q d) = Ok p /\ fits' p) ->
     exists r q, request c (serve handler) req b = Ok r /\ delivered c req q /\ answered (handler q (default [] b)) r).
Proof.
  assert (Hfirst : forall st r, send_streaming c req = Ok st -> (forall s, h3_whole s st = true) -> request c (serve handler) req b = Ok r ->
     exists q, delivered c req q /\ answered (handler q (default [] b)) r).
  { unfold request. intros st r E1 Hw. rewrite E1. cbn [mbind result_bind].
    destruct (send_body st b) as [st1 |] eqn:E2; [| done]. cbn [mbind result_bind]. intros E3.
    destruct (send_view _ _ _ _ _ E1 E2) as (hr & Eb & V & W).
    apply receive_view in E3 as (p & m & Ep & Es & Hm & Hh & He & Hb); [| by rewrite whole_serve, W].
    destruct (serve_view handler st1 (default [] b)) as (q & hp & Hq & Ehp & Er & Ed); [by rewrite W | by rewrite V.. | done |].
    rewrite Er in Ep. injection Ep as ->. rewrite V in Hq. exists q. split; [by eapply built_delivered |].
    eapply built_answered; [done.. |]. intros K. specialize (Hb K). by rewrite Ed in Hb. }
  split; [exact Hfirst |].
  intros fits fits' hr R Eb Ht Hf Hh. destruct (send_returns (R := R) c req b hr Eb Ht Hf) as (st & st1 & E1 & E2 & Hw).
  destruct (send_view _ _ _ _ _ E1 E2) as (hr' & Eb' & V & _). rewrite Eb in Eb'. injection Eb' as <-.
  destruct (serve_returns (R := R) handler st1 (default [] b)) as (He & p & Hp); [by rewrite V.. | done |].
  destruct (receive_returns (R := R) _ p Hp He) as [r Er].
  assert (Hr : request c (serve handler) req b = Ok r) by (unfold request; rewrite E1; cbn [mbind result_bind]; by rewrite E2).
  destruct (Hfirst st r E1 Hw Hr) as (q & Hq). by exists r, q.
Qed.

End exchanges.

(** ** A concrete connection *)

Module Memory.

(** Headers as a list with lower-case names; names and values are visible ASCII. *)
Definition visible (c : Z) : bool := (33 <=? c) && (c <=? 126).
Definition HTTPS : rstring := [104; 116; 116; 112; 115; 58; 47; 47].

#[export] Instance list_http : Http := {|
  HeaderMap := list (rstring * rstring);
  hm_new := [];
  hm_append m k v := if forallb visible (k ++ v) then Some (m ++ [(to_ascii_lowercase k, v)]) else None;
  hm_iter m := map (fun e => (e.1, Some e.2)) m;
  method_valid m := negb (bool_decide (m = []));
  uri_parse u := if forallb visible u then Some u else None;
  uri_absolute u := bool_decide (take 8 u = HTTPS);
  status_valid s := (100 <=? s) && (s <? 1000)
|}.

#[export] Instance list_http_lawful : LawfulHttp list_http.
Proof.
  split; [done |]. intros m k v m' n. cbn. destruct (forallb _ _); [| done]. intros [= <-].
  unfold hm_values. cbn [hm_iter list_http]. rewrite map_app, filter_app, fmap_app. f_equal. cbn [map fst snd]. rewrite filter_cons, filter_nil.
  cbn [fst]. destruct (decide (_ = n)), (decide (n = _)); cbn; congruence.
Qed.

(** A direction holds what was read and what was not; data is handed out two bytes at a
    time, in one slice or in a slice each. *)
Record Pipe := mkPipe { p_read : list Z; p_left : list Z; p_end : bool }.
Record Pipes := mkPipes { m_request : HttpRequest; m_response : option HttpResponse; m_up : Pipe; m_down : Pipe }.

Definition pipe (s : Side) (st : Pipes) : Pipe := match s with Up => m_up st | Down => m_down st end.
Definition set_pipe (s : Side) (p : Pipe) (st : Pipes) : Pipes :=
  match s with
  | Up => mkPipes (m_request st) (m_response st) p (m_down st)
  | Down => mkPipes (m_request st) (m_response st) (m_up st) p
  end.
Definition pipe_flow (p : Pipe) : Flow := mkFlow (p_read p ++ p_left p) (p_end p) (p_read p).
Definition view (st : Pipes) : Exchange := mkExchange (m_request st) (m_response st) (pipe_flow (m_up st)) (pipe_flow (m_down st)).

Definition guarded (closed : bool) (st st' : Pipes) : result unit unit * Pipes := if closed then (Err tt, st) else (Ok tt, st').

(** A direction that is cut ends after so many bytes, as if it were over. *)
Definition cut_at (cut : option nat) (s : Side) (st : Pipes) : bool :=
  match s, cut with Down, Some n => (n <=? length (p_read (m_down st)))%nat | _, _ => false end.

Definition slices (sliced : bool) (l : list Z) : list (list Z) := if sliced then [take 1 l; take 1 (drop 1 l)] else [take 2 l].

Lemma slices_whole sliced l : concat (slices sliced l) = take 2 l.
Proof. destruct sliced, l as [| x [| y l]]; done. Qed.

Definition recv (cut : option nat) (sliced : bool) (s : Side) (st : Pipes) : result unit (option (list (list Z))) * Pipes :=
  let p := pipe s st in
  if cut_at cut s st then (Ok None, st)
  else match p_left p with
  | [] => (if p_end p then Ok None else Err tt, st)
  | l => (Ok (Some (slices sliced l)), set_pipe s (mkPipe (p_read p ++ take 2 l) (drop 2 l) (p_end p)) st)
  end.

Definition memory (cut : option nat) (sliced : bool) : H3Crate list_http := {|
  Stream := Pipes;
  h3_send_request r := Ok (mkPipes r None (mkPipe [] [] false) (mkPipe [] [] false));
  h3_send_data s st d :=
    guarded (p_end (pipe s st)) st (set_pipe s (mkPipe (p_read (pipe s st)) (p_left (pipe s st) ++ d) (p_end (pipe s st))) st);
  h3_finish s st := guarded (p_end (pipe s st)) st (set_pipe s (mkPipe (p_read (pipe s st)) (p_left (pipe s st)) true) st);
  h3_send_response st p :=
    guarded (bool_decide (is_Some (m_response st))) st (mkPipes (m_request st) (Some p) (m_up st) (m_down st));
  h3_resolve st := (Ok (m_request st), st);
  h3_recv_response st := (match m_response st with Some p => Ok p | None => Err tt end, st);
  h3_recv_data := recv cut sliced;
  h3_send_trailers st _ := (Ok tt, st);
  h3_recv_trailers st := (Ok None, st);
  h3_stop_sending st _ := st;
  h3_frames s st := length (p_left (pipe s st));
  h3_whole s _ := match s, cut with Down, Some _ => false | _, _ => true end;
  h3_view := view
|}.

#[export] Instance memory_h3 : H3Crate list_http := memory None false.

Lemma broken_refl s (x : Exchange) : broken s x x.
Proof. by destruct s. Qed.

#[export] Instance memory_lawful cut sliced : LawfulH3 (memory cut sliced).
Proof.
  split; cbn; try done.
  - by intros r st [= <-].
  - intros s st d. unfold guarded. destruct (p_end (pipe s st)) eqn:Ee; [apply broken_refl |].
    destruct s, st as [? ? [] []]; unfold view, pipe_flow, more; cbn in *; subst; by rewrite app_assoc.
  - intros s st. unfold guarded. destruct (p_end (pipe s st)); [apply broken_refl | by destruct s].
  - intros st p. unfold guarded. case_bool_decide; [apply (broken_refl Down) | done].
  - intros st. split; [done |]. by intros r [= <-].
  - intros st. split; [done |]. destruct (m_response st) as [p |]; [| done]. intros r [= <-] _. by exists p.
  - intros s st. unfold recv. destruct (cut_at cut s st) eqn:Ec; [by destruct s, cut |].
    destruct (p_left (pipe s st)) as [| z l] eqn:El.
    + destruct (p_end (pipe s st)) eqn:Ee; [| done]. destruct s; cbn in *; by rewrite El, Ee, app_nil_r.
    + split; [| destruct s; cbn; rewrite length_drop; cbn; lia].
      destruct s, st as [? ? [] []]; unfold view, pipe_flow, taken; cbn -[slices] in *; subst;
        rewrite slices_whole, <- app_assoc; by destruct l.
Qed.

#[export] Instance memory_contiguous cut : ContiguousH3 (memory cut false).
Proof.
  intros s st d. cbn. unfold recv. destruct (cut_at cut s st); [done |]. destruct (p_left (pipe s st)); [by destruct (p_end (pipe s st)) |]. cbn. intros [= <-]. by eexists.
Qed.

#[export] Instance memory_reliable : ReliableH3 memory_h3 (fun _ => True) (fun _ => True).
Proof.
  split; cbn.
  - intros r _ _. eexists. split; [reflexivity |]. by intros [].
  - intros s st d E. unfold guarded. destruct s; cbn in *; by rewrite E.
  - intros s st E. unfold guarded. destruct s; cbn in *; by rewrite E.
  - intros st p E _. unfold guarded. by rewrite E.
  - by eauto.
  - intros st p E. rewrite E. by eauto.
  - intros s st E. unfold recv. replace (cut_at None s st) with false by (by destruct s).
    destruct (p_left (pipe s st)); [| by eauto]. destruct s; cbn in *; rewrite E; by eauto.
Qed.

(** A server that echoes the body and the values of one header. *)
Definition X_A : rstring := [120; 45; 97].
Definition echo (q : H3Request) (b : list Z) : H3Response :=
  with_body (fold_left (fun r v => with_header r X_A v) (hvalues X_A (req_headers q)) (response_new 200)) b.

Definition client : H3Client := mkClient (Some 0%nat) [(X_A, [100])] default_settings.
Definition target : rstring := HTTPS ++ [104; 47].
Definition post_one : H3Request := request_with_header (request_post target) [88; 45; 65] [49].

End Memory.

Import Memory.

Lemma exchange_faithful_witness :
  exists r, request client (serve echo) post_one (Some [1; 2; 3; 4; 5]) = Ok r /\
    r = mkResponse 200 [(X_A, [100]); (X_A, [49])] [1; 2; 3; 4; 5] /\
    exists q, delivered client post_one q /\ answered (echo q [1; 2; 3; 4; 5]) r.
Proof.
  destruct (exchange_faithful client echo post_one (Some [1; 2; 3; 4; 5])) as [A B].
  pose (r := mkResponse 200 [(X_A, [100]); (X_A, [49])] [1; 2; 3; 4; 5]).
  assert (E : request client (serve echo) post_one (Some [1; 2; 3; 4; 5]) = Ok r) by (vm_compute; reflexivity).
  destruct (send_streaming client post_one) as [st |] eqn:Es; [| discriminate].
  exists r. split; [exact E |]. split; [reflexivity |]. refine (A st r eq_refl _ E). intros []; reflexivity.
Defined.

(** When the connection is lost between two DATA frames, the adapter reports the end of
    the stream, and [request] returns the part of the body that had arrived as if it
    were the whole response. *)
Theorem truncated_response_returned :
  request (C := memory (Some 2%nat) false) client (serve echo) post_one (Some [1; 2; 3; 4; 5])
  = Ok (mkResponse 200 [(X_A, [100]); (X_A, [49])] [1; 2]).
Proof. vm_compute. reflexivity. Qed.

(** When the crate hands out a body in several slices, [request] keeps the first slice of
    each buffer and skips the rest, which the server's side would have copied. *)
Theorem later_slices_lost :
  request (C := memory None true) client (serve echo) post_one (Some [1; 2; 3; 4; 5])
  = Ok (mkResponse 200 [(X_A, [100]); (X_A, [49])] [1; 3; 5]).
Proof. vm_compute. reflexivity. Qed.
