(* ===== verification/H3Builder.v ===== *)
(** * Builders of HTTP/3 clients and servers
    ([oxiquic-h3/src/client.rs], [server.rs], [push.rs])

    From a builder's settings to a connected client or a bound server: the ALPN
    injection and its check, the steps of [connect] and [build] with their errors, the
    accepted connections, and the server push stubs. *)

From S2P Require Import Prelude OrdMap CoreTypes Coding FrameCodec ParamsCodec PacketSpace SentPackets.
From S2P Require Import Streams FlowControl Recovery Congestion Bbr CidPool Packet Config Multipath Connection.
From S2P Require Import ConnRecovery ConnHandshake ConnRecv ConnSend Mpsc Endpoint Driven Listener H3 H3Service.

(** [if !alpn_protocols.iter().any(|p| p == b"h3") { alpn_protocols.insert(0, ..) }] *)
Definition inject_h3 (l : list (list Z)) : list (list Z) := if bool_decide (H3_ALPN ∈ l) then l else H3_ALPN :: l.

Section builders.
Context {env : QuicEnv} {EE : EndpointEnv env} {T : TlsConfigs env EE} {M : Mpsc}.

Notation Drv := (Driver (env := env)).
Notation Route := (Chan CidRouteUpdate).

(** ** The client *)

Record H3ClientBuilder := mkClientBuilder {
  cb_server_name : option rstring;
  cb_tls : option ClientConfig;
  cb_transport : option TransportConfig;
  cb_max_field_section_size : Z;
  cb_qpack_max_table_capacity : Z;
  cb_qpack_blocked_streams : Z;
  cb_default_headers : list (rstring * rstring)
}.

Definition client_builder_new : H3ClientBuilder := mkClientBuilder None None None 16384 0 0 [].

Definition cb_with_server_name (b : H3ClientBuilder) (n : rstring) : H3ClientBuilder :=
  mkClientBuilder (Some n) (cb_tls b) (cb_transport b) (cb_max_field_section_size b) (cb_qpack_max_table_capacity b) (cb_qpack_blocked_streams b) (cb_default_headers b).
Definition cb_with_tls_config (b : H3ClientBuilder) (c : ClientConfig) : H3ClientBuilder :=
  mkClientBuilder (cb_server_name b) (Some c) (cb_transport b) (cb_max_field_section_size b) (cb_qpack_max_table_capacity b) (cb_qpack_blocked_streams b) (cb_default_headers b).
Definition cb_with_transport_config (b : H3ClientBuilder) (t : TransportConfig) : H3ClientBuilder :=
  mkClientBuilder (cb_server_name b) (cb_tls b) (Some t) (cb_max_field_section_size b) (cb_qpack_max_table_capacity b) (cb_qpack_blocked_streams b) (cb_default_headers b).
Definition cb_with_max_field_section_size (b : H3ClientBuilder) (n : Z) : H3ClientBuilder :=
  mkClientBuilder (cb_server_name b) (cb_tls b) (cb_transport b) n (cb_qpack_max_table_capacity b) (cb_qpack_blocked_streams b) (cb_default_headers b).
Definition cb_with_qpack_config (b : H3ClientBuilder) (max_table blocked : Z) : H3ClientBuilder :=
  mkClientBuilder (cb_server_name b) (cb_tls b) (cb_transport b) (cb_max_field_section_size b) max_table blocked (cb_default_headers b).
Definition cb_with_default_headers (b : H3ClientBuilder) (hs : list (rstring * rstring)) : H3ClientBuilder :=
  mkClientBuilder (cb_server_name b) (cb_tls b) (cb_transport b) (cb_max_field_section_size b) (cb_qpack_max_table_capacity b) (cb_qpack_blocked_streams b) hs.

(** The endpoint [connect] binds. *)
Definition client_endpoint (bound : result unit unit) (b : H3ClientBuilder) : result H3Error ClientEndpoint :=
  match cb_server_name b, cb_tls b with
  | None, _ => Err HConnection
  | Some _, None => Err HTls
  | Some _, Some tls =>
      let tls := client_with_alpn tls (inject_h3 (client_alpn tls)) in
      map_err HConnection (client_bind bound tls (default default_config (cb_transport b)))
  end.

(** [connect]: the client and the connection under it; [None] still waits.  [bound] and
    [built] are what binding the socket and the HTTP/3 handshake gave, [task] the handle
    of the task that drives the connection. *)
Definition client_builder_connect (b : H3ClientBuilder) (addr : Addr) (bound : result unit unit) (a : Attempt) (route : Route)
    (built : result unit unit) (task : nat) : option (result H3Error (H3Client * Drv)) :=
  match client_endpoint bound b with
  | Err e => Some (Err e)
  | Ok ep =>
      r ← client_connect ep addr (default [] (cb_server_name b)) a route;
      match r with
      | Err _ => Some (Err HConnection)
      | Ok quic =>
          match negotiated_alpn (dconn quic) with
          | Some alpn =>
              if negb (bool_decide (alpn = H3_ALPN)) then Some (Err HProtocol)
              else Some (c ← client_new_with_config built task (cb_max_field_section_size b) (cb_default_headers b); Ok (c, quic))
          | None => Some (c ← client_new_with_config built task (cb_max_field_section_size b) (cb_default_headers b); Ok (c, quic))
          end
      end
  end.

(** ** The server *)

Record H3ServerBuilder := mkH3ServerBuilder {
  hb_bind_addr : SocketAddr;
  hb_tls : option ServerConfig;
  hb_transport : option TransportConfig;
  hb_max_field_section_size : Z;
  hb_qpack_max_table_capacity : Z;
  hb_qpack_blocked_streams : Z;
  hb_enable_server_push : bool;
  hb_ticketer : option Ticketer
}.

Definition server_builder_new (a : SocketAddr) : H3ServerBuilder := mkH3ServerBuilder a None None DEFAULT_MAX_FIELD_SECTION_SIZE 0 0 false None.

Definition hb_with_tls_config (b : H3ServerBuilder) (c : ServerConfig) : H3ServerBuilder :=
  mkH3ServerBuilder (hb_bind_addr b) (Some c) (hb_transport b) (hb_max_field_section_size b) (hb_qpack_max_table_capacity b) (hb_qpack_blocked_streams b)
    (hb_enable_server_push b) (hb_ticketer b).
Definition hb_with_bind_address (b : H3ServerBuilder) (a : SocketAddr) : H3ServerBuilder :=
  mkH3ServerBuilder a (hb_tls b) (hb_transport b) (hb_max_field_section_size b) (hb_qpack_max_table_capacity b) (hb_qpack_blocked_streams b)
    (hb_enable_server_push b) (hb_ticketer b).
Definition hb_with_transport_config (b : H3ServerBuilder) (t : TransportConfig) : H3ServerBuilder :=
  mkH3ServerBuilder (hb_bind_addr b) (hb_tls b) (Some t) (hb_max_field_section_size b) (hb_qpack_max_table_capacity b) (hb_qpack_blocked_streams b)
    (hb_enable_server_push b) (hb_ticketer b).
Definition hb_with_ticketer (b : H3ServerBuilder) (t : Ticketer) : H3ServerBuilder :=
  mkH3ServerBuilder (hb_bind_addr b) (hb_tls b) (hb_transport b) (hb_max_field_section_size b) (hb_qpack_max_table_capacity b) (hb_qpack_blocked_streams b)
    (hb_enable_server_push b) (Some t).
Definition hb_with_max_field_section_size (b : H3ServerBuilder) (n : Z) : H3ServerBuilder :=
  mkH3ServerBuilder (hb_bind_addr b) (hb_tls b) (hb_transport b) n (hb_qpack_max_table_capacity b) (hb_qpack_blocked_streams b)
    (hb_enable_server_push b) (hb_ticketer b).
Definition hb_with_qpack_max_table_capacity (b : H3ServerBuilder) (n : Z) : H3ServerBuilder :=
  mkH3ServerBuilder (hb_bind_addr b) (hb_tls b) (hb_transport b) (hb_max_field_section_size b) n (hb_qpack_blocked_streams b)
    (hb_enable_server_push b) (hb_ticketer b).
Definition hb_with_qpack_blocked_streams (b : H3ServerBuilder) (n : Z) : H3ServerBuilder :=
  mkH3ServerBuilder (hb_bind_addr b) (hb_tls b) (hb_transport b) (hb_max_field_section_size b) (hb_qpack_max_table_capacity b) n
    (hb_enable_server_push b) (hb_ticketer b).
Definition hb_with_server_push (b : H3ServerBuilder) (e : bool) : H3ServerBuilder :=
  mkH3ServerBuilder (hb_bind_addr b) (hb_tls b) (hb_transport b) (hb_max_field_section_size b) (hb_qpack_max_table_capacity b) (hb_qpack_blocked_streams b)
    e (hb_ticketer b).

Record H3ServerEndpoint := mkH3ServerEndpoint { he_endpoint : ServerEndpoint (env := env); he_max_field_section_size : Z; server_push_enabled : bool }.

(** [bind] is what binding the socket to the address gave. *)
Definition server_builder_build (bind : SocketAddr -> result unit unit) (b : H3ServerBuilder) : result OxiQuicError H3ServerEndpoint :=
  match hb_tls b with
  | None => Err ETls
  | Some tls =>
      let tls := if bool_decide (H3_ALPN ∈ server_alpn tls) then tls else server_with_alpn tls (H3_ALPN :: server_alpn tls) in
      let tls := match hb_ticketer b with Some t => server_with_ticketer tls t | None => tls end in
      endpoint ← server_bind (bind (hb_bind_addr b)) tls (default default_config (hb_transport b));
      Ok (mkH3ServerEndpoint endpoint (hb_max_field_section_size b) (hb_enable_server_push b))
  end.

(** [accept_connection]; the HTTP/3 handshake's errors are turned into the transport's. *)
Definition accept_connection (s : H3ServerEndpoint) (built : result unit unit)
    : option (result OxiQuicError (H3Connection * Drv)) * H3ServerEndpoint :=
  let '(r, ep) := accept (he_endpoint s) in
  (match r with
   | None => None
   | Some (Err e) => Some (Err e)
   | Some (Ok quic) =>
       Some (match server_new_with_config built (he_max_field_section_size s) with Ok c => Ok (c, quic) | Err e => Err (oxiquic_error_from e) end)
   end, mkH3ServerEndpoint ep (he_max_field_section_size s) (server_push_enabled s)).

(** [H3Incoming::next]. *)
Definition h3_incoming_next (s : H3ServerEndpoint) (built : result unit unit) : option (option (H3Connection * Drv)) * H3ServerEndpoint :=
  let '(r, s) := accept_connection s built in
  (match r with None => None | Some (Ok c) => Some (Some c) | Some (Err _) => Some None end, s).

End builders.

(** ** Bare connections ([oxiquic-h3/src/h3_io.rs]) *)

(** [build] is the handshake of the [h3] crate's builder, with the limit it is given. *)
Section h3_io.
Context {Conn : Type}.

Definition io_connect_h3 (build : option Z -> result unit Conn) : result H3Error Conn := map_err HConnection (build None).
Definition io_accept_h3 (build : option Z -> result unit Conn) : result H3Error Conn := map_err HConnection (build None).
Definition connect_h3_with (build : option Z -> result unit Conn) (max : Z) : result H3Error Conn := map_err HConnection (build (Some max)).
Definition accept_h3_with (build : option Z -> result unit Conn) (max : Z) : result H3Error Conn := map_err HConnection (build (Some max)).

End h3_io.

(** [connect_h3_client] and [accept_h3_server] of [oxiquic-h3/src/lib.rs]. *)
Definition connect_h3_client (built : result unit unit) (task : nat) : result H3Error H3Client := client_new built task.
Definition accept_h3_server (built : result unit unit) : result H3Error H3Connection := server_new built.

(** ** Server push *)

Record H3PushStream := mkPushStream { push_id : Z }.

Definition push_promise : result OxiQuicError H3PushStream := Err ENotImplemented.
Definition push_send_response (p : H3PushStream) : result OxiQuicError unit := Err ENotImplemented.
Definition push_send_data (p : H3PushStream) (d : list Z) : result OxiQuicError unit := Err ENotImplemented.
Definition push_finish (p : H3PushStream) : result OxiQuicError unit := Err ENotImplemented.
Definition accept_push_stub : result OxiQuicError (option (H3Request * H3Response)) := Ok None.

(** ** Theorems *)

Lemma inject_h3_offers l : H3_ALPN ∈ inject_h3 l /\ (inject_h3 l = l \/ inject_h3 l = H3_ALPN :: l).
Proof. unfold inject_h3. case_bool_decide; [by auto |]. split; [left | by right]. Qed.

Section builder_theorems.
Context {env : QuicEnv} {EE : EndpointEnv env} {T : TlsConfigs env EE} {LT : LawfulTlsConfigs T} {M : Mpsc}.

(** A client that [connect] returns offered [h3] along with the caller's protocols, and
    its connection negotiated [h3], or nothing: a peer without ALPN is let through.  It
    has the builder's headers and field section limit. *)
Theorem client_builder_alpn (b : H3ClientBuilder) (addr : Addr) bound a route built task c (d : Driver (env := env)) :
  client_builder_connect b addr bound a route built task = Some (Ok (c, d)) ->
  (exists tls ep, cb_tls b = Some tls /\ client_endpoint bound b = Ok ep /\ client_alpn (ce_config ep) = inject_h3 (client_alpn tls) /\
     H3_ALPN ∈ client_alpn (ce_config ep) /\
     client_connect ep addr (default [] (cb_server_name b)) a route = Some (Ok d)) /\
  (negotiated_alpn (dconn d) = Some H3_ALPN \/ negotiated_alpn (dconn d) = None) /\
  default_headers c = cb_default_headers b /\ client_settings c = mkSettings (cb_max_field_section_size b) 0 0.
Proof.
  unfold client_builder_connect. destruct (client_endpoint bound b) as [ep |] eqn:Ee; [| done].
  destruct (client_connect _ _ _ _ _) as [[quic |] |] eqn:Ec; [| done..]. cbn [mbind option_bind].
  assert (Hb : forall o, o = Some (c ← client_new_with_config built task (cb_max_field_section_size b) (cb_default_headers b); Ok (c, quic)) ->
    o = Some (Ok (c, d)) -> quic = d /\ default_headers c = cb_default_headers b /\ client_settings c = mkSettings (cb_max_field_section_size b) 0 0).
  { intros o -> E. unfold client_new_with_config in E. destruct built; cbn in E; [| done]. injection E as <- <-. done. }
  intros E. assert (Hq : quic = d /\ (negotiated_alpn (dconn quic) = Some H3_ALPN \/ negotiated_alpn (dconn quic) = None) /\
    default_headers c = cb_default_headers b /\ client_settings c = mkSettings (cb_max_field_section_size b) 0 0).
  { destruct (negotiated_alpn (dconn quic)) as [alpn |]; [case_bool_decide as Ha; cbn [negb] in E; [| done] |];
      destruct (Hb _ eq_refl E) as (-> & ? & ?); subst; auto. }
  destruct Hq as (-> & Hn & Hh & Hs). split_and!; [| done..].
  unfold client_endpoint in Ee. destruct (cb_server_name b); [| done]. destruct (cb_tls b) as [tls |]; [| done].
  exists tls, ep. destruct bound; cbn in Ee; [| done]. injection Ee as <-. cbn in *. rewrite client_alpn_set.
  split_and!; [done.. | apply inject_h3_offers | done].
Qed.

(** A server that [build] returns offers [h3] besides the caller's protocols and has the
    caller's ticketer, when one was set. *)
Theorem server_builder_alpn (bind : SocketAddr -> result unit unit) (b : H3ServerBuilder) (s : H3ServerEndpoint) :
  server_builder_build bind b = Ok s ->
  exists tls, hb_tls b = Some tls /\ server_alpn (se_config (he_endpoint s)) = inject_h3 (server_alpn tls) /\
    (forall t, hb_ticketer b = Some t -> server_ticketer (se_config (he_endpoint s)) = t) /\
    bind (hb_bind_addr b) = Ok tt /\ he_max_field_section_size s = hb_max_field_section_size b.
Proof.
  unfold server_builder_build. destruct (hb_tls b) as [tls |]; [| done]. unfold server_bind.
  destruct (bind (hb_bind_addr b)) as [[] |]; cbn; [| done]. intros [= <-]. exists tls. cbn. unfold inject_h3.
  split_and!; [done | | | done..].
  - destruct (hb_ticketer b); rewrite ?server_alpn_ticketer; case_bool_decide; by rewrite ?server_alpn_set.
  - intros t ->. apply server_ticketer_set.
Qed.

End builder_theorems.
