(* ===== verification/Facade.v ===== *)
(** * The facade crate ([oxiquic/src/lib.rs])

    One-call constructors: each builds a rustls configuration from the QUIC-enabled
    provider and hands it to the endpoints or the HTTP/3 builders with the default
    transport configuration.  The rustls configuration builders are [RustlsBuilders]. *)

From S2P Require Import Prelude OrdMap CoreTypes Coding FrameCodec ParamsCodec PacketSpace SentPackets.
From S2P Require Import Streams FlowControl Recovery Congestion Bbr CidPool Packet QuicCrypto Provider Config Multipath Connection.
From S2P Require Import ConnRecovery ConnHandshake ConnRecv ConnSend Mpsc Endpoint Driven Listener H3 H3Service H3Builder.

(** Who decides on the server's certificate. *)
Inductive Verifier := WebpkiRoots | NoVerifier.

(** [NoVerifier] accepts whatever it is shown. *)
Definition verify_server_cert (end_entity : list Z) (intermediates : list (list Z)) (name ocsp : list Z) (now : Z) : result unit unit := Ok tt.
Definition verify_tls12_signature (message cert dss : list Z) : result unit unit := Ok tt.
Definition verify_tls13_signature (message cert dss : list Z) : result unit unit := Ok tt.

Inductive SignatureScheme := ED25519 | ECDSA_NISTP256_SHA256 | ECDSA_NISTP384_SHA384 | RSA_PSS_SHA256 | RSA_PSS_SHA384 | RSA_PSS_SHA512.
Definition supported_verify_schemes : list SignatureScheme :=
  [ED25519; ECDSA_NISTP256_SHA256; ECDSA_NISTP384_SHA384; RSA_PSS_SHA256; RSA_PSS_SHA384; RSA_PSS_SHA512].

(** [ClientConfig::builder_with_provider(..)] and [ServerConfig::builder_with_provider(..)]
    for TLS 1.3 without client authentication; [None] when a step fails. *)
Class RustlsBuilders (env : QuicEnv) (EE : EndpointEnv env) := {
  client_config_build : list Tls13CipherSuite -> Verifier -> option ClientConfig;
  server_config_build : list Tls13CipherSuite -> list (list Z) -> list Z -> option ServerConfig;
  (** [enable_early_data = true] with a shared store for tickets *)
  with_early_data : ClientConfig -> ClientConfig
}.

(** A new configuration offers no protocol. *)
Class LawfulBuilders {env : QuicEnv} {EE : EndpointEnv env} (T : TlsConfigs env EE) (B : RustlsBuilders env EE) : Prop := {
  server_build_alpn : forall s c k cfg, server_config_build s c k = Some cfg -> server_alpn cfg = []
}.

Section facade.
Context {env : QuicEnv} {EE : EndpointEnv env} {T : TlsConfigs env EE} {B : RustlsBuilders env EE} {M : Mpsc}.
Context {Rest : Type} (base : CryptoProvider Rest).

Notation Drv := (Driver (env := env)).
Notation Route := (Chan CidRouteUpdate).

Definition suites_of_provider : list Tls13CipherSuite := cipher_suites (quic_crypto_provider base).

(** The endpoint of the client functions: [adjust] is what is set on the configuration. *)
Definition facade_endpoint (v : Verifier) (adjust : ClientConfig -> ClientConfig) (bound : result unit unit) : result OxiQuicError ClientEndpoint :=
  match client_config_build suites_of_provider v with
  | None => Err ETls
  | Some cfg => client_bind bound (adjust cfg) default_config
  end.

Definition facade_connect_as (v : Verifier) (adjust : ClientConfig -> ClientConfig) (bound : result unit unit) (addr : Addr) (name : list Z)
    (a : Attempt) (route : Route) : option (result OxiQuicError Drv) :=
  match facade_endpoint v adjust bound with Err e => Some (Err e) | Ok ep => client_connect ep addr name a route end.

Definition facade_connect := facade_connect_as WebpkiRoots id.
Definition connect_insecure := facade_connect_as NoVerifier id.
Definition connect_with_alpn (protocols : list (list Z)) := facade_connect_as WebpkiRoots (fun cfg => client_with_alpn cfg protocols).

Definition facade_connect_0rtt (bound : result unit unit) (addr : Addr) (name : list Z) (a : Attempt) (route : Route)
    : option (result OxiQuicError (Drv * ZeroRttAccepted)) :=
  match facade_endpoint WebpkiRoots with_early_data bound with Err e => Some (Err e) | Ok ep => connect_0rtt ep addr name a route end.

Definition facade_server_config (certs : list (list Z)) (key : list Z) : result OxiQuicError ServerConfig :=
  match server_config_build suites_of_provider certs key with Some cfg => Ok cfg | None => Err ETls end.

Definition listen (bound : result unit unit) (certs : list (list Z)) (key : list Z) : result OxiQuicError (ServerEndpoint (env := env)) :=
  cfg ← facade_server_config certs key; server_bind bound cfg default_config.

Definition listen_with_alpn (bound : result unit unit) (certs : list (list Z)) (key : list Z) (protocols : list (list Z))
    : result OxiQuicError (ServerEndpoint (env := env)) :=
  cfg ← facade_server_config certs key; server_bind bound (server_with_alpn cfg protocols) default_config.

Definition facade_connect_h3 (bound : result unit unit) (addr : Addr) (name : rstring) (a : Attempt) (route : Route)
    (built : result unit unit) (task : nat) : option (result OxiQuicError (H3Client * Drv)) :=
  match client_config_build suites_of_provider WebpkiRoots with
  | None => Some (Err ETls)
  | Some cfg =>
      let cfg := client_with_alpn cfg [H3_ALPN] in
      r ← client_builder_connect (cb_with_tls_config (cb_with_server_name client_builder_new name) cfg) addr bound a route built task;
      Some (match r with Ok c => Ok c | Err e => Err (oxiquic_error_from e) end)
  end.

Definition listen_h3 (bind : SocketAddr -> result unit unit) (addr : SocketAddr) (certs : list (list Z)) (key : list Z)
    : result OxiQuicError (H3ServerEndpoint (env := env)) :=
  cfg ← facade_server_config certs key;
  server_builder_build bind (hb_with_tls_config (server_builder_new addr) cfg).

(** ** Theorems *)

Context {LT : LawfulTlsConfigs T} {LB : LawfulBuilders T B}.

(** A client of [connect_h3] offered [h3] and nothing else over the provider's suites, all
    of which support QUIC, verifies the server against the root certificates, and has the
    default settings. *)
Theorem connect_h3_config bound addr name a route built task c d :
  facade_connect_h3 bound addr name a route built task = Some (Ok (c, d)) ->
  exists cfg ep, client_config_build ALL_QUIC_SUITES WebpkiRoots = Some cfg /\
    client_alpn (ce_config ep) = [H3_ALPN] /\ ce_transport ep = default_config /\ client_connect ep addr name a route = Some (Ok d) /\
    (negotiated_alpn (dconn d) = Some H3_ALPN \/ negotiated_alpn (dconn d) = None) /\
    default_headers c = [] /\ client_settings c = default_settings.
Proof.
  unfold facade_connect_h3. destruct (client_config_build _ _) as [cfg |] eqn:Ec; [| done].
  destruct (client_builder_connect _ _ _ _ _ _ _) as [[[c' d'] |] |] eqn:Eb; [| done..]. cbn. intros [= <- <-].
  pose proof (client_builder_alpn _ _ _ _ _ _ _ _ _ Eb) as ((tls & ep & Et & Ee & Ea & _ & Econn) & Hn & Hh & Hs).
  cbn in Et, Hh, Hs, Econn. injection Et as <-. exists cfg, ep. rewrite client_alpn_set in Ea.
  split_and!; [done | done | | done | done | done | done].
  unfold client_endpoint in Ee. cbn in Ee. destruct bound; cbn in Ee; [| done]. by injection Ee as <-.
Qed.

(** A server of [listen_h3] offers exactly [h3]. *)
Theorem listen_h3_config bind addr certs key s :
  listen_h3 bind addr certs key = Ok s -> server_alpn (se_config (he_endpoint s)) = [H3_ALPN] /\ bind addr = Ok tt.
Proof.
  unfold listen_h3, facade_server_config. destruct (server_config_build _ _ _) as [cfg |] eqn:Ec; [| done]. cbn [mbind result_bind].
  intros E. pose proof (server_builder_alpn _ _ _ E) as (tls & Et & Ea & _ & Hb & _). cbn in Et, Hb. injection Et as <-.
  rewrite (server_build_alpn _ _ _ _ Ec) in Ea. split; [exact Ea | exact Hb].
Qed.

End facade.

Definition quic_version : QuicVersion := QV1.

(** ** A concrete server *)

Module Demo.

Record Server := mkDemoServer { ds_alpn : list (list Z); ds_early : Z; ds_ticketer : nat }.

Instance endpoint : EndpointEnv demo_env := {|
  ServerConfig := Server; ClientConfig := list (list Z);
  tls_early_data := ds_early;
  with_tls_early_data c n := mkDemoServer (ds_alpn c) n (ds_ticketer c);
  server_connection_new _ := @server_connection_new demo_env demo_endpoint 0;
  server_name n := Some n;
  client_connection_new _ := @client_connection_new demo_env demo_endpoint tt;
  socket_addr := @socket_addr demo_env demo_endpoint
|}.

Instance configs : TlsConfigs demo_env endpoint := {|
  Ticketer := nat;
  client_alpn (c : @ClientConfig demo_env endpoint) := (c : list (list Z)); client_with_alpn _ l := l;
  server_alpn := ds_alpn; server_with_alpn c l := mkDemoServer l (ds_early c) (ds_ticketer c);
  server_with_ticketer c t := mkDemoServer (ds_alpn c) (ds_early c) t; server_ticketer := ds_ticketer;
  alpn_protocol _ := Some H3_ALPN
|}.

Instance configs_lawful : LawfulTlsConfigs configs.
Proof. by split. Qed.

Instance builders : RustlsBuilders demo_env endpoint := {|
  client_config_build _ _ := Some ([] : @ClientConfig demo_env endpoint);
  server_config_build _ certs _ := if bool_decide (certs = []) then None else Some (mkDemoServer [] 0 0 : @ServerConfig demo_env endpoint);
  with_early_data c := c
|}.

Instance builders_lawful : LawfulBuilders configs builders.
Proof. split. intros s c k cfg. cbn. case_bool_decide; [done |]. by intros [= <-]. Qed.

(** Without a certificate there is no server; with one it offers [h3]. *)
Example listen_h3_runs :
  listen_h3 (EE := endpoint) (T := configs) (B := builders) (M := queue_mpsc) (mkProvider [] tt) (fun _ => Ok tt) (V4 [127; 0; 0; 1] 443) [] [] = Err ETls /\
  exists s, listen_h3 (EE := endpoint) (T := configs) (B := builders) (M := queue_mpsc) (mkProvider [] tt) (fun _ => Ok tt) (V4 [127; 0; 0; 1] 443) [[1]] [2] = Ok s /\
    server_alpn (se_config (he_endpoint s)) = [H3_ALPN].
Proof.
  split; [reflexivity |]. eexists. split; [reflexivity |].
  by apply (listen_h3_config (EE := endpoint) (T := configs) (B := builders) (M := queue_mpsc) (mkProvider [] tt) (fun _ => Ok tt) (V4 [127; 0; 0; 1] 443) [[1]] [2]).
Qed.

End Demo.
